(** * Skill Loader MCP server: resolver, fetcher, validator, converter, import pipeline

    A shallow embedding of the TypeScript sources
    [src/core/security-validator.ts], [src/core/skill-resolver.ts],
    [src/core/skill-fetcher.ts], [src/core/conversion-engine.ts],
    [src/utils/cache.ts] and the tools of [src/tools/] (fetch, validate,
    convert to steering and to power, import, list, search, leaderboard),
    followed by the properties proved about them.

    JavaScript strings are sequences of UTF-16 code units; a code unit is a
    number ([N]).  Regular expressions are run by a backtracking matcher that
    follows the continuation-passing matcher of the ECMAScript specification.
    Effects (network calls, sleeps, the clock, the directory cache) are made
    explicit: functions take the world they run in and return what they did. *)

From Stdlib Require Import Ascii String DecimalString.
From Stdlib Require Import NArith ZArith Bool Lia PeanoNat List.
Import ListNotations.
Open Scope string_scope.
Open Scope list_scope.

Set Implicit Arguments.

(* ================================================================== *)
(** * JavaScript strings *)
(* ================================================================== *)

Module JS.

Definition jsstring := list N.

(** A source literal: the code units of an ASCII string. *)
Definition js (s : string) : jsstring :=
  map N_of_ascii (list_ascii_of_string s).

(** [String(n)] for a non-negative integer. *)
Definition numToString (n : N) : jsstring :=
  js (NilEmpty.string_of_uint (N.to_uint n)).

Definition memN (c : N) (l : list N) : bool := existsb (N.eqb c) l.

(** LineTerminator: LF, CR, LS, PS. *)
Definition isLineTerminator (c : N) : bool :=
  memN c [10; 13; 8232; 8233]%N.

(** WhiteSpace and LineTerminator code units: what [\s] matches and what
    [trim] strips. *)
Definition isWhiteSpace (c : N) : bool :=
  memN c [9; 10; 11; 12; 13; 32; 160; 5760; 8232; 8233; 8239; 8287; 12288; 65279]%N
  || ((8192 <=? c)%N && (c <=? 8202)%N).

Definition isDigit (c : N) : bool := ((48 <=? c) && (c <=? 57))%N.
Definition isLower (c : N) : bool := ((97 <=? c) && (c <=? 122))%N.
Definition isUpper (c : N) : bool := ((65 <=? c) && (c <=? 90))%N.

(** [\w]: ASCII letters, digits and the underscore. *)
Definition isWordChar (c : N) : bool :=
  isLower c || isUpper c || isDigit c || (c =? 95)%N.

Fixpoint trimStart (s : jsstring) : jsstring :=
  match s with
  | c :: t => if isWhiteSpace c then trimStart t else s
  | [] => []
  end.

Definition trimEnd (s : jsstring) : jsstring := rev (trimStart (rev s)).

Definition trim (s : jsstring) : jsstring := trimEnd (trimStart s).

(** [s.startsWith(p)] *)
Fixpoint startsWith (s p : jsstring) {struct p} : bool :=
  match p, s with
  | [], _ => true
  | a :: p', b :: s' => (a =? b)%N && startsWith s' p'
  | _ :: _, [] => false
  end.

(** [s.includes(p)] *)
Fixpoint includes (s p : jsstring) : bool :=
  startsWith s p ||
  match s with
  | [] => false
  | _ :: t => includes t p
  end.

Definition jsEqb (a b : jsstring) : bool :=
  if list_eq_dec N.eq_dec a b then true else false.

(** [s.split(sep)] for a separator of one code unit. *)
Fixpoint split (sep : N) (s : jsstring) : list jsstring :=
  match s with
  | [] => [[]]
  | c :: t =>
      if (c =? sep)%N then [] :: split sep t
      else match split sep t with
           | l :: ls => (c :: l) :: ls
           | [] => [[c]]
           end
  end.

(** [parts.join(sep)] *)
Fixpoint join (sep : jsstring) (parts : list jsstring) : jsstring :=
  match parts with
  | [] => []
  | [p] => p
  | p :: ps => p ++ sep ++ join sep ps
  end.

(** JavaScript truthiness of a string. *)
Definition nonEmpty (s : jsstring) : bool :=
  match s with [] => false | _ => true end.

Definition LF : N := 10%N.
Definition SLASH : N := 47%N.

End JS.

Import JS.

(* ================================================================== *)
(** * Regular expressions *)
(* ================================================================== *)

Module Regex.

(** The fragment of the pattern syntax that the sources use.  No pattern of
    the sources has a capture group under a quantifier, so the matcher does
    not reset captures between iterations; no pattern has the u, m, s or y
    flag. *)
Inductive regex : Type :=
| Eps                                   (* empty pattern *)
| Cls (p : N -> bool)                   (* one code unit of a class *)
| Seq (a b : regex)                     (* ab *)
| Alt (a b : regex)                     (* a|b *)
| Rep (greedy : bool) (lo : nat) (hi : option nat) (a : regex)
                                        (* a{lo,hi}, a{lo,}, lazy when not greedy *)
| Grp (i : nat) (a : regex)             (* capture group number i *)
| Bol                                   (* ^ without the m flag *)
| Eol                                   (* $ without the m flag *)
| WordB.                                (* \b *)

(** Matcher state: the end index, the code unit before it, the input that is
    left, and the captures made so far (latest first). *)
Record mstate : Type := MState {
  m_pos : nat;
  m_prev : option N;
  m_rest : jsstring;
  m_caps : list (nat * jsstring)
}.

Definition cont := mstate -> option mstate.
Definition matcher := mstate -> cont -> option mstate.

Definition step (c : N) (t : jsstring) (x : mstate) : mstate :=
  {| m_pos := S (m_pos x); m_prev := Some c; m_rest := t; m_caps := m_caps x |}.

Definition capture (i : nat) (x y : mstate) : mstate :=
  {| m_pos := m_pos y; m_prev := m_prev y; m_rest := m_rest y;
     m_caps := (i, firstn (m_pos y - m_pos x) (m_rest x)) :: m_caps y |}.

Definition prevIsWord (x : mstate) : bool :=
  match m_prev x with Some c => isWordChar c | None => false end.

Definition nextIsWord (x : mstate) : bool :=
  match m_rest x with c :: _ => isWordChar c | [] => false end.

Definition orElse (a : option mstate) (b : unit -> option mstate) : option mstate :=
  match a with Some z => Some z | None => b tt end.

(** RepeatMatcher of the ECMAScript specification: an iteration that
    consumes nothing once the minimum is reached is rejected, so [fuel]
    larger than the minimum plus the remaining input is never exhausted
    (lemma [rmatch_fuel_enough] below). *)
Fixpoint repeatMatcher (m : matcher) (greedy : bool) (fuel lo : nat)
    (hi : option nat) (x : mstate) (k : cont) {struct fuel} : option mstate :=
  match fuel with
  | O => None
  | S fuel' =>
      match hi with
      | Some O => k x
      | _ =>
          let d := fun y : mstate =>
            if Nat.eqb lo 0 && Nat.eqb (m_pos y) (m_pos x) then None
            else repeatMatcher m greedy fuel' (pred lo) (option_map pred hi) y k in
          match lo with
          | S _ => m x d
          | O =>
              if greedy then orElse (m x d) (fun _ => k x)
              else orElse (k x) (fun _ => m x d)
          end
      end
  end.

Fixpoint rmatch (r : regex) (x : mstate) (k : cont) {struct r} : option mstate :=
  match r with
  | Eps => k x
  | Cls p =>
      match m_rest x with
      | c :: t => if p c then k (step c t x) else None
      | [] => None
      end
  | Seq a b => rmatch a x (fun y => rmatch b y k)
  | Alt a b => orElse (rmatch a x k) (fun _ => rmatch b x k)
  | Rep g lo hi a =>
      repeatMatcher (rmatch a) g (S (lo + length (m_rest x))) lo hi x k
  | Grp i a => rmatch a x (fun y => k (capture i x y))
  | Bol => if Nat.eqb (m_pos x) 0 then k x else None
  | Eol => match m_rest x with [] => k x | _ :: _ => None end
  | WordB => if xorb (prevIsWord x) (nextIsWord x) then k x else None
  end.

(** One match object: [index], [match[0]] and the capture groups. *)
Record rmatchResult : Type := MatchResult {
  mr_index : nat;
  mr_text : jsstring;
  mr_groups : list (nat * jsstring)
}.

Definition group (i : nat) (m : rmatchResult) : jsstring :=
  match find (fun g => Nat.eqb (fst g) i) (mr_groups m) with
  | Some g => snd g
  | None => []
  end.

(** The match that starts exactly at the current position. *)
Definition matchAt (r : regex) (pos : nat) (prev : option N) (s : jsstring)
    : option rmatchResult :=
  match rmatch r (MState pos prev s []) Some with
  | Some y => Some (MatchResult pos (firstn (m_pos y - pos) s) (m_caps y))
  | None => None
  end.

(** [RegExp.prototype.exec] without the g flag: the leftmost match. *)
Fixpoint execFrom (r : regex) (pos : nat) (prev : option N) (s : jsstring)
    : option rmatchResult :=
  match matchAt r pos prev s with
  | Some m => Some m
  | None =>
      match s with
      | [] => None
      | c :: t => execFrom r (S pos) (Some c) t
      end
  end.

Definition exec (r : regex) (s : jsstring) : option rmatchResult :=
  execFrom r 0 None s.

(** [s.matchAll(r)] with the g flag.  [skip] counts the code units of the
    previous match that are still to be passed; after an empty match the
    search moves on by one. *)
Fixpoint matchAllFrom (r : regex) (skip pos : nat) (prev : option N)
    (s : jsstring) : list rmatchResult :=
  match skip with
  | S skip' =>
      match s with
      | [] => []
      | c :: t => matchAllFrom r skip' (S pos) (Some c) t
      end
  | O =>
      match matchAt r pos prev s with
      | Some m =>
          m :: match s with
               | [] => []
               | c :: t =>
                   matchAllFrom r (pred (length (mr_text m))) (S pos) (Some c) t
               end
      | None =>
          match s with
          | [] => []
          | c :: t => matchAllFrom r 0 (S pos) (Some c) t
          end
      end
  end.

Definition matchAll (r : regex) (s : jsstring) : list rmatchResult :=
  matchAllFrom r 0 0 None s.

(** [s.replace(r, rep)] with the g flag and a replacement without [$]. *)
Fixpoint replaceAllFrom (r : regex) (rep : jsstring) (skip pos : nat)
    (prev : option N) (s : jsstring) : jsstring :=
  match skip with
  | S skip' =>
      match s with
      | [] => []
      | c :: t => replaceAllFrom r rep skip' (S pos) (Some c) t
      end
  | O =>
      match matchAt r pos prev s with
      | Some m =>
          rep ++
          match s with
          | [] => []
          | c :: t =>
              match length (mr_text m) with
              | O => c :: replaceAllFrom r rep 0 (S pos) (Some c) t
              | S n => replaceAllFrom r rep n (S pos) (Some c) t
              end
          end
      | None =>
          match s with
          | [] => []
          | c :: t => c :: replaceAllFrom r rep 0 (S pos) (Some c) t
          end
      end
  end.

Definition replaceAll (r : regex) (rep : jsstring) (s : jsstring) : jsstring :=
  replaceAllFrom r rep 0 0 None s.

(** ** Pattern combinators *)

Definition chr (c : N) : regex := Cls (N.eqb c).

(** A letter under the i flag: either case of an ASCII letter. *)
Definition toggleCase (c : N) : N :=
  if isLower c then (c - 32)%N else if isUpper c then (c + 32)%N else c.

Definition chrI (c : N) : regex :=
  Cls (fun d => N.eqb d c || N.eqb d (toggleCase c)).

Fixpoint seqOf (rs : list regex) : regex :=
  match rs with
  | [] => Eps
  | [r] => r
  | r :: rs' => Seq r (seqOf rs')
  end.

Definition lit (s : string) : regex := seqOf (map chr (js s)).
Definition litI (s : string) : regex := seqOf (map chrI (js s)).

Definition star (a : regex) : regex := Rep true 0 None a.
Definition plus (a : regex) : regex := Rep true 1 None a.
Definition lazyStar (a : regex) : regex := Rep false 0 None a.

Definition ws : regex := Cls isWhiteSpace.                     (* \s *)
Definition any : regex := Cls (fun _ => true).                  (* [\s\S] *)
Definition dot : regex := Cls (fun c => negb (isLineTerminator c)).  (* . *)
Definition notChr (c : N) : regex := Cls (fun d => negb (N.eqb d c)).

End Regex.

Import Regex.

(* ================================================================== *)
(** * core/types.ts: the data model *)
(* ================================================================== *)

Inductive Source : Type := SkillsSh | GitHub.

(** JavaScript numbers as an install count can hold them: what
    [Math.floor] and [parseInt(..) || 0] return. *)
Inductive jsnum : Type :=
| Num (z : Z)
| NaN
| Infinity.

Record SkillShMetadata : Type := {
  md_installs : jsnum;
  md_trending : bool
}.

Record ResolvedSkill : Type := {
  owner : jsstring;
  repo : jsstring;
  skillPath : jsstring;
  fullUrl : jsstring;
  source : Source;
  metadata : option SkillShMetadata
}.

Record SkillShEntry : Type := {
  e_name : jsstring;
  e_owner : jsstring;
  e_repo : jsstring;
  e_installs : jsnum;
  e_description : option jsstring;
  e_trending : option bool
}.

(** [fetchedAt] is a clock reading in milliseconds. *)
Record SkillContent : Type := {
  raw : jsstring;
  url : jsstring;
  fetchedAt : N;
  c_source : ResolvedSkill
}.

Inductive IssueType : Type :=
| dangerous_command
| suspicious_pattern
| untrusted_source.

Record SecurityIssue : Type := {
  i_type : IssueType;
  i_description : jsstring;
  i_location : jsstring
}.

Inductive Severity : Type := safe | warning | unsafe.

Record ValidationResult : Type := {
  isValid : bool;
  issues : list SecurityIssue;
  severity : Severity
}.

Record SkillSection : Type := {
  heading : jsstring;
  content : jsstring;
  level : nat
}.

Definition IssueType_eqb (a b : IssueType) : bool :=
  match a, b with
  | dangerous_command, dangerous_command => true
  | suspicious_pattern, suspicious_pattern => true
  | untrusted_source, untrusted_source => true
  | _, _ => false
  end.

Definition Severity_eqb (a b : Severity) : bool :=
  match a, b with
  | safe, safe => true
  | warning, warning => true
  | unsafe, unsafe => true
  | _, _ => false
  end.

(* ================================================================== *)
(** * core/security-validator.ts *)
(* ================================================================== *)

Module SecurityValidator.

Definition pipe : N := 124%N.

(** /curl[^|]*\|\s*(bash|sh)/gi and its wget twin *)
Definition pipeToShell (tool : string) : regex :=
  seqOf [litI tool; star (notChr pipe); chr pipe; star ws;
         Grp 1 (Alt (litI "bash") (litI "sh"))].

Definition DANGEROUS_PATTERNS : list (regex * jsstring) :=
  [ (seqOf [litI "rm"; plus ws; lit "-"; litI "rf"],            (* /rm\s+-rf/gi *)
     js "Dangerous recursive delete command (rm -rf)");
    (seqOf [WordB; litI "sudo"; plus ws],                       (* /\bsudo\s+/gi *)
     js "Elevated privilege command (sudo)");
    (seqOf [WordB; litI "eval"; star ws; lit "("],              (* /\beval\s*\(/gi *)
     js "Code evaluation (eval)");
    (seqOf [WordB; litI "exec"; star ws; lit "("],              (* /\bexec\s*\(/gi *)
     js "Code execution (exec)");
    (pipeToShell "curl", js "Piping curl output to shell");
    (pipeToShell "wget", js "Piping wget output to shell") ].

Definition SUSPICIOUS_FILE_OPS : list (regex * jsstring) :=
  [ (litI "/etc/", js "Access to system configuration directory (/etc/)");
    (litI "/usr/", js "Access to system binaries directory (/usr/)");
    (litI "/bin/", js "Access to system binaries directory (/bin/)");
    (litI "~/.", js "Access to hidden files in home directory") ].          (* /~\/\./gi *)

Definition CODE_INJECTION_PATTERNS : list (regex * jsstring) :=
  [ (seqOf [lit "${"; plus (notChr 125); lit "}"],              (* /\$\{[^}]+\}/g *)
     js "Variable expansion pattern (${...})");
    (seqOf [lit "$("; plus (notChr 41); lit ")"],               (* /\$\([^)]+\)/g *)
     js "Command substitution pattern ($(...)") ].

Definition isUrlTrusted (u : jsstring) : bool :=
  startsWith u (js "https://raw.githubusercontent.com/").

(** [content.substring(0, index).split('\n').length] *)
Definition getLineNumber (content : jsstring) (index : nat) : nat :=
  length (split LF (firstn index content)).

(** The body shared by the three scanning loops: every match of every
    pattern of the table becomes one issue of the given type. *)
Definition scanWith (ty : IssueType) (table : list (regex * jsstring))
    (content : jsstring) : list SecurityIssue :=
  flat_map (fun pd : regex * jsstring =>
    map (fun m : rmatchResult =>
           {| i_type := ty;
              i_description := snd pd;
              i_location :=
                js "Line " ++ numToString (N.of_nat (getLineNumber content (mr_index m)))
                ++ js ": " ++ mr_text m |})
        (matchAll (fst pd) content))
    table.

Definition scanForDangerousPatterns : jsstring -> list SecurityIssue :=
  scanWith dangerous_command DANGEROUS_PATTERNS.

Definition scanForSuspiciousFileOps : jsstring -> list SecurityIssue :=
  scanWith suspicious_pattern SUSPICIOUS_FILE_OPS.

Definition scanForCodeInjection : jsstring -> list SecurityIssue :=
  scanWith suspicious_pattern CODE_INJECTION_PATTERNS.

Definition hasType (ty : IssueType) (l : list SecurityIssue) : bool :=
  existsb (fun i => IssueType_eqb (i_type i) ty) l.

Definition determineSeverity (l : list SecurityIssue) : Severity :=
  match l with
  | [] => safe
  | _ :: _ =>
      let hasUntrustedSource := hasType untrusted_source l in
      let hasDangerousCommand := hasType dangerous_command l in
      if hasUntrustedSource || hasDangerousCommand then unsafe else warning
  end.

(** [validate] reads the fields [raw] and [url] of its argument only. *)
Definition validate (text u : jsstring) : ValidationResult :=
  let issues0 :=
    if negb (isUrlTrusted u)
    then [ {| i_type := untrusted_source;
              i_description := js "Content does not originate from trusted GitHub domain";
              i_location := u |} ]
    else [] in
  let issues1 := issues0 ++ scanForDangerousPatterns text in
  let issues2 := issues1 ++ scanForSuspiciousFileOps text in
  let issues3 := issues2 ++ scanForCodeInjection text in
  let sev := determineSeverity issues3 in
  {| isValid := negb (Severity_eqb sev unsafe);
     issues := issues3;
     severity := sev |}.

End SecurityValidator.

(* ================================================================== *)
(** * JavaScript values, errors and effects *)
(* ================================================================== *)

(** Values as [yaml.load] returns them and as error contexts hold them.
    Numbers are integers or NaN; every other object (a Date, say) behaves
    like [VObj] for the truthiness and [typeof] tests made on it. *)
#[local] Set Warnings "-register-all".
Inductive jsval : Type :=
| VUndef
| VNull
| VBool (b : bool)
| VNum (z : Z)
| VNaN
| VStr (s : jsstring)
| VArr (items : list jsval)
| VObj (fields : list (jsstring * jsval)).

Definition truthy (v : jsval) : bool :=
  match v with
  | VUndef | VNull | VNaN => false
  | VBool b => b
  | VNum z => negb (Z.eqb z 0)
  | VStr s => nonEmpty s
  | VArr _ | VObj _ => true
  end.

(** [typeof v === 'object'] *)
Definition typeofObject (v : jsval) : bool :=
  match v with
  | VNull | VArr _ | VObj _ => true
  | _ => false
  end.

Fixpoint lookup (key : jsstring) (fields : list (jsstring * jsval)) : option jsval :=
  match fields with
  | [] => None
  | (k, v) :: rest => if jsEqb k key then Some v else lookup key rest
  end.

(** [v.key] for the keys read by the sources ([name], [description]): own
    properties of a mapping; arrays and primitives have none of them. *)
Definition getProp (v : jsval) (key : jsstring) : jsval :=
  match v with
  | VObj fields => match lookup key fields with Some x => x | None => VUndef end
  | _ => VUndef
  end.

Definition optStr (o : option jsstring) : jsval :=
  match o with Some s => VStr s | None => VUndef end.

Definition optNum (o : option N) : jsval :=
  match o with Some n => VNum (Z.of_N n) | None => VUndef end.

Definition strings (l : list jsstring) : jsval := VArr (map VStr l).

(** ** core/errors.ts *)

Inductive ErrorClass : Type :=
| PlainError             (* Error, TypeError, ... of the platform *)
| NetworkError
| ValidationError
| ParsingError
| SkillResolutionError.

(** An error object: its class, [message], the [context] record that the
    constructor of [SkillLoaderError] stores, and the fields that callers
    read back. *)
Record Err : Type := {
  err_class : ErrorClass;
  message : jsstring;
  context : list (jsstring * jsval);
  statusCode : option N;
  suggestions : list jsstring
}.

Definition ErrorClass_eqb (a b : ErrorClass) : bool :=
  match a, b with
  | PlainError, PlainError => true
  | NetworkError, NetworkError => true
  | ValidationError, ValidationError => true
  | ParsingError, ParsingError => true
  | SkillResolutionError, SkillResolutionError => true
  | _, _ => false
  end.

Definition instanceOf (e : Err) (c : ErrorClass) : bool := ErrorClass_eqb (err_class e) c.

Definition newError (msg : jsstring) : Err :=
  {| err_class := PlainError; message := msg; context := [];
     statusCode := None; suggestions := [] |}.

(** [new NetworkError(message, url, { statusCode, retryCount, context })]:
    the stored context is [{ url, statusCode, retryCount, ...context }]. *)
Definition newNetworkError (msg u : jsstring) (status retries : option N)
    (ctx : list (jsstring * jsval)) : Err :=
  {| err_class := NetworkError; message := msg;
     context := [(js "url", VStr u); (js "statusCode", optNum status);
                 (js "retryCount", optNum retries)] ++ ctx;
     statusCode := status; suggestions := [] |}.

(** [new ValidationError(message, validationType, { details, context })] *)
Definition newValidationError (msg validationType : jsstring)
    (details : option (list jsstring)) (ctx : list (jsstring * jsval)) : Err :=
  {| err_class := ValidationError; message := msg;
     context := [(js "validationType", VStr validationType);
                 (js "lineNumber", VUndef);
                 (js "details", match details with Some d => strings d | None => VUndef end)]
                ++ ctx;
     statusCode := None; suggestions := [] |}.

(** [new ParsingError(message, parserType, { lineNumber, snippet, context })] *)
Definition newParsingError (msg parserType : jsstring) (lineNumber : option N)
    (snippet : option jsstring) (ctx : list (jsstring * jsval)) : Err :=
  {| err_class := ParsingError; message := msg;
     context := [(js "parserType", VStr parserType);
                 (js "lineNumber", optNum lineNumber);
                 (js "columnNumber", VUndef);
                 (js "snippet", optStr snippet)] ++ ctx;
     statusCode := None; suggestions := [] |}.

(** [new SkillResolutionError(message, identifier, suggestions, context)] *)
Definition newSkillResolutionError (msg identifier : jsstring)
    (sugg : list jsstring) (ctx : list (jsstring * jsval)) : Err :=
  {| err_class := SkillResolutionError; message := msg;
     context := [(js "identifier", VStr identifier); (js "suggestions", strings sugg)]
                ++ ctx;
     statusCode := None; suggestions := sugg |}.

Inductive Result (A : Type) : Type :=
| Ok (a : A)
| Throw (e : Err).

Arguments Ok {A} a.
Arguments Throw {A} e.

(** ** The world outside the process

    What the program does to its environment is recorded in a trace; what
    the environment answers may depend on everything done before.  The
    import workflow also records which tool handlers it calls.  Writes to
    the console and to the error log are not recorded. *)

Inductive Call : Type :=
| CallFetchSkill (identifier : jsstring)
| CallValidateSkill (content u : jsstring)
| CallConvertToSteering (content sourceUrl : jsstring)
| CallConvertToPower (content sourceUrl : jsstring).

Inductive Event : Type :=
| EvFetch (u : jsstring)        (* fetch(u) *)
| EvSleep (ms : N)              (* setTimeout-based sleep *)
| EvNow                         (* a reading of the clock *)
| EvCall (c : Call).            (* a tool handler is entered *)

Inductive FetchOutcome : Type :=
| Responded (status : N) (statusText body : jsstring)
| Rejected (msg : jsstring).    (* the promise rejects with an Error of this message *)

Record World : Type := {
  transport : list Event -> jsstring -> FetchOutcome;
  clock : list Event -> N
}.

Record Response : Type := {
  r_status : N;
  r_statusText : jsstring;
  r_text : jsstring
}.

(** [response.ok] *)
Definition r_ok (r : Response) : bool := ((200 <=? r_status r) && (r_status r <=? 299))%N.

(** The state threaded through effectful code: the trace so far and the
    [skillsCache] field of the resolver in use. *)
Record State : Type := {
  trace : list Event;
  skillsCache : option (list SkillShEntry * N)
}.

Definition M (A : Type) : Type := State -> Result A * State.

Definition ret {A} (a : A) : M A := fun st => (Ok a, st).

Definition throw {A} (e : Err) : M A := fun st => (Throw e, st).

Definition bind {A B} (m : M A) (f : A -> M B) : M B :=
  fun st =>
    match m st with
    | (Ok a, st') => f a st'
    | (Throw e, st') => (Throw e, st')
    end.

(** [try { m } catch (error) { handler(error) }] *)
Definition tryCatch {A} (m : M A) (handler : Err -> M A) : M A :=
  fun st =>
    match m st with
    | (Ok a, st') => (Ok a, st')
    | (Throw e, st') => handler e st'
    end.

Declare Scope monad_scope.
Delimit Scope monad_scope with monad.
Notation "x <- m ;; k" := (bind m (fun x => k))
  (at level 61, m at next level, right associativity) : monad_scope.
Notation "m ;;; k" := (bind m (fun _ => k))
  (at level 61, right associativity) : monad_scope.
Open Scope monad_scope.

Definition emit (e : Event) : M unit :=
  fun st => (Ok tt, {| trace := trace st ++ [e]; skillsCache := skillsCache st |}).

Definition getTrace : M (list Event) := fun st => (Ok (trace st), st).

Definition getCache : M (option (list SkillShEntry * N)) :=
  fun st => (Ok (skillsCache st), st).

Definition setCache (c : option (list SkillShEntry * N)) : M unit :=
  fun st => (Ok tt, {| trace := trace st; skillsCache := c |}).

(** [await fetch(u)] followed, for a response, by [await response.text()]. *)
Definition fetch (w : World) (u : jsstring) : M Response :=
  h <- getTrace ;;
  emit (EvFetch u) ;;;
  match transport w h u with
  | Responded status statusText body =>
      ret {| r_status := status; r_statusText := statusText; r_text := body |}
  | Rejected msg => throw (newError msg)
  end.

(** [Date.now()], [new Date()] *)
Definition dateNow (w : World) : M N :=
  h <- getTrace ;;
  emit EvNow ;;;
  ret (clock w h).

Definition sleep (ms : N) : M unit := emit (EvSleep ms).

Definition liftResult {A} (r : Result A) : M A :=
  match r with
  | Ok a => ret a
  | Throw e => throw e
  end.

(* ================================================================== *)
(** * core/skill-fetcher.ts *)
(* ================================================================== *)

Module SkillFetcher.

Definition githubRawBaseUrl : jsstring := js "https://raw.githubusercontent.com".
Definition defaultBranches : list jsstring := [js "main"; js "master"; js "HEAD"].
Definition maxRetries : nat := 3.
Definition retryDelayMs : N := 1000.

(** [this.defaultBranches[this.defaultBranches.length - 1]] *)
Definition lastBranch : jsstring := last defaultBranches [].

Definition constructGitHubRawUrl (owner repo branch skillPath : jsstring) : jsstring :=
  let cleanPath := if startsWith skillPath (js "/") then skipn 1 skillPath else skillPath in
  githubRawBaseUrl ++ js "/" ++ owner ++ js "/" ++ repo ++ js "/" ++ branch
    ++ js "/" ++ cleanPath ++ js "/SKILL.md".

Definition fetchUrl (w : World) (u : jsstring) : M jsstring :=
  tryCatch
    (response <- fetch w u ;;
     if negb (r_ok response) then
       throw (newNetworkError
                (js "HTTP " ++ numToString (r_status response) ++ js ": "
                   ++ r_statusText response)
                u (Some (r_status response)) None
                [(js "statusText", VStr (r_statusText response))])
     else ret (r_text response))
    (fun error =>
       if instanceOf error NetworkError then throw error
       else throw (newNetworkError (js "Failed to fetch URL") u None None
                     [(js "originalError", VStr (message error))])).

Definition lastErrorMessage (lastError : option Err) : jsstring :=
  match lastError with
  | Some e => if nonEmpty (message e) then message e else js "Unknown error"
  | None => js "Unknown error"
  end.

(** The loop [for (attempt = 0; attempt < maxRetries; attempt++)] of
    [fetchWithRetry], entered with [remaining = maxRetries - attempt]. *)
Fixpoint retryLoop (w : World) (u : jsstring) (remaining attempt : nat)
    (lastError : option Err) {struct remaining} : M jsstring :=
  match remaining with
  | O =>
      throw (newNetworkError
               (js "Failed to fetch after " ++ numToString (N.of_nat maxRetries)
                  ++ js " attempts")
               u None (Some (N.of_nat maxRetries))
               [(js "lastError", VStr (lastErrorMessage lastError));
                (js "suggestion", VStr (js "Check your internet connection and try again"))])
  | S remaining' =>
      tryCatch (fetchUrl w u)
        (fun lastError =>
           if includes (message lastError) (js "404") then
             throw (newNetworkError (js "Resource not found") u (Some 404%N)
                      (Some (N.of_nat attempt))
                      [(js "message", VStr (js "The requested skill file does not exist"))])
           else
             (if Nat.ltb attempt (maxRetries - 1)
              then sleep (retryDelayMs * 2 ^ N.of_nat attempt)
              else ret tt) ;;;
             retryLoop w u remaining' (S attempt) (Some lastError))
  end.

Definition fetchWithRetry (w : World) (u : jsstring) : M jsstring :=
  retryLoop w u maxRetries 0 None.

(** The loop [for (const branch of this.defaultBranches)] of [fetchSkill]
    over the branches still to try. *)
Fixpoint branchLoop (w : World) (resolved : ResolvedSkill)
    (branches triedBranches : list jsstring) (lastError : option Err)
    {struct branches} : M SkillContent :=
  let coord := owner resolved ++ js "/" ++ repo resolved ++ js "/" ++ skillPath resolved in
  match branches with
  | [] =>
      throw (newNetworkError (js "Failed to fetch skill from " ++ coord)
               (fullUrl resolved) None None
               [(js "triedBranches", strings triedBranches);
                (js "lastError", VStr (lastErrorMessage lastError))])
  | branch :: more =>
      let u := constructGitHubRawUrl (owner resolved) (repo resolved) branch
                 (skillPath resolved) in
      let triedBranches := triedBranches ++ [branch] in
      tryCatch
        (content <- fetchWithRetry w u ;;
         now <- dateNow w ;;
         ret {| raw := content; url := u; fetchedAt := now; c_source := resolved |})
        (fun error =>
           let errorMessage := message error in
           if includes errorMessage (js "404")
              || (instanceOf error NetworkError
                  && match statusCode error with
                     | Some c => (c =? 404)%N
                     | None => false
                     end)
           then
             if jsEqb branch lastBranch then
               throw (newNetworkError (js "Skill not found at " ++ coord) u
                        (Some 404%N) None
                        [(js "triedBranches", strings triedBranches);
                         (js "suggestion",
                          VStr (js "Verify the skill name and repository are correct"))])
             else branchLoop w resolved more triedBranches (Some error)
           else if jsEqb branch lastBranch then
             if instanceOf error NetworkError then throw error
             else
               throw (newNetworkError (js "Failed to fetch skill from " ++ coord) u
                        None None
                        [(js "triedBranches", strings triedBranches);
                         (js "lastError", VStr errorMessage)])
           else branchLoop w resolved more triedBranches (Some error))
  end.

Definition fetchSkill (w : World) (resolved : ResolvedSkill) : M SkillContent :=
  branchLoop w resolved defaultBranches [] None.

End SkillFetcher.

(* ================================================================== *)
(** * core/skill-resolver.ts *)
(* ================================================================== *)

(** Library functions whose behaviour the repository does not define:
    [String.prototype.toLowerCase] (Unicode case mapping), the number
    parsing and floating-point arithmetic of [parseInstallCount], and
    [yaml.load] of js-yaml. *)
Inductive YamlOutcome : Type :=
| YamlLoaded (v : jsval)
| YamlException (msg : jsstring) (markLine : option nat)   (* yaml.YAMLException *)
| YamlOtherError (msg : jsstring).

Record Platform : Type := {
  toLowerCase : jsstring -> jsstring;
  parseInstallCount : jsstring -> jsnum;
  yamlLoad : jsstring -> YamlOutcome
}.

Module SkillResolver.

Definition quote : N := 34%N.
Definition lt : N := 60%N.
Definition gt : N := 62%N.

(** [identifier.split('/').filter(part => part.length > 0)] *)
Definition segments (identifier : jsstring) : list jsstring :=
  filter nonEmpty (split SLASH identifier).

Definition rawUrl (owner repo skillPath : jsstring) : jsstring :=
  js "https://raw.githubusercontent.com/" ++ owner ++ js "/" ++ repo
    ++ js "/main/" ++ skillPath ++ js "/SKILL.md".

Definition resolveFromGitHub (identifier : jsstring) : Result ResolvedSkill :=
  match segments identifier with
  | [] | [_] =>
      Throw (newSkillResolutionError (js "Invalid identifier format") identifier
               [js "Try: owner/repo"; js "Try: owner/repo/skill-name"]
               [(js "expectedFormat", VStr (js "owner/repo or owner/repo/skill-name"))])
  | [owner; skillName] =>
      let repo := js "agent-skills" in
      let skillPath := js "skills/" ++ skillName in
      Ok {| owner := owner; repo := repo; skillPath := skillPath;
            fullUrl := rawUrl owner repo skillPath;
            source := GitHub; metadata := None |}
  | owner :: repo :: remainingParts =>
      let skillPath :=
        if jsEqb (hd [] remainingParts) (js "skills")
        then join (js "/") remainingParts
        else js "skills/" ++ join (js "/") remainingParts in
      Ok {| owner := owner; repo := repo; skillPath := skillPath;
            fullUrl := rawUrl owner repo skillPath;
            source := GitHub; metadata := None |}
  end.

Definition CACHE_TTL : Z := 60 * 60 * 1000.

Definition skillShEntryToResolvedSkill (e : SkillShEntry) : ResolvedSkill :=
  let skillPath := js "skills/" ++ e_name e in
  {| owner := e_owner e; repo := e_repo e; skillPath := skillPath;
     fullUrl := rawUrl (e_owner e) (e_repo e) skillPath;
     source := SkillsSh;
     metadata := Some {| md_installs := e_installs e; md_trending := false |} |}.

(** The pattern href=Q\/([^/]+)\/([^/]+)\/([^Q]+)Q, where Q stands for the
    double quote, with capture groups numbered from [g]. *)
Definition hrefRe (g : nat) : regex :=
  seqOf [lit "href="; chr quote; lit "/"; Grp g (plus (notChr SLASH)); lit "/";
         Grp (g + 1) (plus (notChr SLASH)); lit "/";
         Grp (g + 2) (plus (notChr quote)); chr quote].

(** <tag[^>]*>([^<]+)<\/tag> with group [g] *)
Definition elementRe (tag : string) (g : nat) : regex :=
  seqOf [lit "<"; lit tag; star (notChr gt); lit ">"; Grp g (plus (notChr lt));
         lit "</"; lit tag; lit ">"].

Definition skillPattern : regex :=
  seqOf [lit "<a"; star (notChr gt); hrefRe 1; star (notChr gt); lit ">";
         lazyStar any; elementRe "h3" 4;
         lazyStar any; elementRe "p" 5;
         lazyStar any; elementRe "span" 6].

Definition hrefPattern : regex := hrefRe 1.

(** /<span[^>]*font-mono[^>]*>([0-9.KM]+)<\/span>/g *)
Definition installPattern : regex :=
  seqOf [lit "<span"; star (notChr gt); lit "font-mono"; star (notChr gt); lit ">";
         Grp 1 (plus (Cls (fun c => isDigit c || memN c [46; 75; 77]%N)));
         lit "</span>"].

(** Both patterns match at least one code unit, so the [exec] loops of the
    source visit the matches that [matchAll] lists. *)
Definition parseSkillsFromHTML (pf : Platform) (html : jsstring) : list SkillShEntry :=
  let skills :=
    map (fun m =>
           {| e_name := group 3 m; e_owner := group 1 m; e_repo := group 2 m;
              e_installs := parseInstallCount pf (group 6 m);
              e_description := Some (group 4 m ++ js " from " ++ group 5 m);
              e_trending := Some false |})
        (matchAll skillPattern html) in
  match skills with
  | _ :: _ => skills
  | [] =>
      let hrefs :=
        filter (fun m => negb (includes (group 3 m) (js "?"))
                         && negb (includes (group 3 m) (js "#")))
               (matchAll hrefPattern html) in
      let installCounts :=
        map (fun m => parseInstallCount pf (group 1 m)) (matchAll installPattern html) in
      map (fun hc : rmatchResult * jsnum =>
             let (m, count) := hc in
             {| e_name := group 3 m; e_owner := group 1 m; e_repo := group 2 m;
                e_installs := count;
                e_description :=
                  Some (group 3 m ++ js " from " ++ group 1 m ++ js "/" ++ group 2 m);
                e_trending := Some false |})
          (combine hrefs installCounts)
  end.

Definition skillsShUrl : jsstring := js "https://skills.sh".

Definition fetchSkillsDirectory (pf : Platform) (w : World) : M (list SkillShEntry) :=
  cache <- getCache ;;
  fresh <- match cache with
           | Some (data, timestamp) =>
               now <- dateNow w ;;
               ret (if (Z.of_N now - Z.of_N timestamp <? CACHE_TTL)%Z
                    then Some data else None)
           | None => ret None
           end ;;
  match fresh with
  | Some data => ret data
  | None =>
      tryCatch
        (response <- fetch w skillsShUrl ;;
         if negb (r_ok response) then
           throw (newNetworkError (js "Failed to fetch skills.sh directory") skillsShUrl
                    (Some (r_status response)) None
                    [(js "statusText", VStr (r_statusText response))])
         else
           let skills := parseSkillsFromHTML pf (r_text response) in
           now <- dateNow w ;;
           setCache (Some (skills, now)) ;;;
           ret skills)
        (fun error =>
           cache <- getCache ;;
           match cache with
           | Some (data, _) => ret data
           | None =>
               if instanceOf error NetworkError then throw error
               else
                 throw (newNetworkError (js "Failed to fetch skills.sh directory")
                          skillsShUrl None None
                          [(js "originalError", VStr (message error));
                           (js "suggestion",
                            VStr (js "Check your internet connection and try again"))])
           end)
  end.

(** The filter of [resolveFromSkillsSh]: equal to the identifier or
    containing it, both lowercased. *)
Definition isMatch (pf : Platform) (normalizedIdentifier : jsstring)
    (skill : SkillShEntry) : bool :=
  jsEqb (toLowerCase pf (e_name skill)) normalizedIdentifier
  || includes (toLowerCase pf (e_name skill)) normalizedIdentifier.

Definition isExact (pf : Platform) (normalizedIdentifier : jsstring)
    (s : SkillShEntry) : bool :=
  jsEqb (toLowerCase pf (e_name s)) normalizedIdentifier.

Definition candidateName (s : SkillShEntry) : jsstring :=
  e_owner s ++ js "/" ++ e_repo s ++ js "/" ++ e_name s.

(** What [resolveFromSkillsSh] does with the directory once it has it. *)
Definition pickFromDirectory (pf : Platform) (identifier : jsstring)
    (skills : list SkillShEntry) : Result ResolvedSkill :=
  let normalizedIdentifier := toLowerCase pf identifier in
  let matches := filter (isMatch pf normalizedIdentifier) skills in
  match matches with
  | [] =>
      Throw (newSkillResolutionError
               (js "Skill " ++ [quote] ++ identifier ++ [quote]
                  ++ js " not found in skills.sh directory")
               identifier
               [js "Try using owner/repo format instead";
                js "Search skills.sh for available skills"]
               [(js "searchedIn", VStr (js "skills.sh"));
                (js "totalSkills", VNum (Z.of_nat (length skills)))])
  | [single] => Ok (skillShEntryToResolvedSkill single)
  | _ :: _ :: _ =>
      match find (isExact pf normalizedIdentifier) matches with
      | Some exactMatch => Ok (skillShEntryToResolvedSkill exactMatch)
      | None =>
          let matchList := map candidateName matches in
          Throw (newSkillResolutionError
                   (js "Multiple skills match " ++ [quote] ++ identifier ++ [quote])
                   identifier matchList
                   [(js "matchCount", VNum (Z.of_nat (length matches)))])
      end
  end.

(** Every error raised inside the [try] block is a [SkillResolutionError] or
    a [NetworkError], which the [catch] clause rethrows unchanged. *)
Definition resolveFromSkillsSh (pf : Platform) (w : World) (identifier : jsstring)
    : M ResolvedSkill :=
  tryCatch
    (skills <- fetchSkillsDirectory pf w ;;
     match pickFromDirectory pf identifier skills with
     | Ok r => ret r
     | Throw e => throw e
     end)
    (fun error =>
       if instanceOf error SkillResolutionError || instanceOf error NetworkError
       then throw error
       else
         throw (newSkillResolutionError (js "Failed to resolve skill from skills.sh")
                  identifier [] [(js "originalError", VStr (message error))])).

Definition resolve (pf : Platform) (w : World) (identifier : jsstring) : M ResolvedSkill :=
  if includes identifier (js "/") then
    match resolveFromGitHub identifier with
    | Ok r => ret r
    | Throw e => throw e
    end
  else resolveFromSkillsSh pf w identifier.

End SkillResolver.

(* ================================================================== *)
(** * core/conversion-engine.ts *)
(* ================================================================== *)

Record ParsedSkill : Type := {
  frontmatter : jsval;
  body : jsstring;
  sections : list SkillSection
}.

Module ConversionEngine.

Definition hash : N := 35%N.
Definition hyphen : N := 45%N.
Definition underscore : N := 95%N.
Definition fence : jsstring := js "```".

(** /^---\n([\s\S]*?)\n---/ *)
Definition frontmatterRegex : regex :=
  seqOf [Bol; lit "---"; chr LF; Grp 1 (lazyStar any); chr LF; lit "---"].

(** /^(#{1,6})\s+(.+)/ *)
Definition headerRegex : regex :=
  seqOf [Bol; Grp 1 (Rep true 1 (Some 6) (chr hash)); plus ws; Grp 2 (plus dot)].

(** The variables of the loop of [extractSections]. *)
Record LoopState : Type := {
  l_sections : list SkillSection;
  currentSection : option SkillSection;
  currentContent : list jsstring;
  inCodeBlock : bool
}.

(** [currentSection.content = currentContent.join('\n').trim();
     sections.push(currentSection)] *)
Definition closeSection (cs : SkillSection) (currentContent : list jsstring) : SkillSection :=
  {| heading := heading cs;
     content := trim (join [LF] currentContent);
     level := level cs |}.

(** One iteration of [for (const line of lines)]. *)
Definition stepLine (st : LoopState) (line : jsstring) : LoopState :=
  let inCodeBlock :=
    if startsWith (trim line) fence then negb (inCodeBlock st) else inCodeBlock st in
  match (if negb inCodeBlock then exec headerRegex line else None) with
  | Some headerMatch =>
      let sections :=
        match currentSection st with
        | Some cs => l_sections st ++ [closeSection cs (currentContent st)]
        | None => l_sections st
        end in
      {| l_sections := sections;
         currentSection :=
           Some {| heading := trim (group 2 headerMatch);
                   content := [];
                   level := length (group 1 headerMatch) |};
         currentContent := [];
         inCodeBlock := inCodeBlock |}
  | None =>
      {| l_sections := l_sections st;
         currentSection := currentSection st;
         currentContent := currentContent st ++ [line];
         inCodeBlock := inCodeBlock |}
  end.

Definition initialLoopState : LoopState :=
  {| l_sections := []; currentSection := None; currentContent := [];
     inCodeBlock := false |}.

(** The code after the loop. *)
Definition finish (st : LoopState) : list SkillSection :=
  match currentSection st with
  | Some cs => l_sections st ++ [closeSection cs (currentContent st)]
  | None =>
      match currentContent st with
      | _ :: _ =>
          l_sections st ++
          [ {| heading := js "Content";
               content := trim (join [LF] (currentContent st));
               level := 1 |} ]
      | [] => l_sections st
      end
  end.

Definition extractSections (body : jsstring) : list SkillSection :=
  finish (fold_left stepLine (split LF body) initialLoopState).

Definition defaultFrontmatter : jsval :=
  VObj [(js "name", VStr (js "Untitled Skill"));
        (js "description", VStr (js "No description provided"))].

(** The snippet around the line of a YAML exception:
    [lines.slice(max(0, n - 2), min(lines.length, n + 3)).join('\n')] *)
Definition yamlSnippet (yamlContent : jsstring) (lineNumber : nat) : jsstring :=
  let lines := split LF yamlContent in
  let start := Nat.max 0 (lineNumber - 2) in
  let stop := Nat.min (length lines) (lineNumber + 3) in
  join [LF] (firstn (stop - start) (skipn start lines)).

(** The two outer [catch] clauses rethrow the errors of this module
    unchanged; nothing else is thrown inside them, so they do not show. *)
Definition parseSkill (pf : Platform) (content : jsstring) : Result ParsedSkill :=
  if negb (nonEmpty content) || Nat.eqb (length (trim content)) 0 then
    Throw (newValidationError (js "Skill content is empty") (js "content")
             (Some [js "The skill file contains no content"]) [])
  else
    match exec frontmatterRegex content with
    | Some m =>
        let yamlContent := group 1 m in
        match yamlLoad pf yamlContent with
        | YamlLoaded parsed =>
            if negb (truthy parsed) || negb (typeofObject parsed) then
              Throw (newParsingError (js "YAML frontmatter is not a valid object")
                       (js "yaml") None
                       (Some (join [LF] (firstn 5 (split LF yamlContent))))
                       [(js "yamlContent", VStr yamlContent)])
            else if negb (truthy (getProp parsed (js "name"))) then
              Throw (newValidationError
                       (js "Skill frontmatter missing required field: name")
                       (js "schema")
                       (Some [js "The " ++ [34%N] ++ js "name" ++ [34%N]
                                ++ js " field is required in skill frontmatter"])
                       [(js "frontmatter", parsed)])
            else if negb (truthy (getProp parsed (js "description"))) then
              Throw (newValidationError
                       (js "Skill frontmatter missing required field: description")
                       (js "schema")
                       (Some [js "The " ++ [34%N] ++ js "description" ++ [34%N]
                                ++ js " field is required in skill frontmatter"])
                       [(js "frontmatter", parsed)])
            else
              let body := trim (skipn (length (mr_text m)) content) in
              Ok {| frontmatter := parsed; body := body;
                    sections := extractSections body |}
        | YamlException msg markLine =>
            Throw (newParsingError (js "Failed to parse YAML frontmatter") (js "yaml")
                     (option_map N.of_nat markLine)
                     (option_map (yamlSnippet yamlContent) markLine)
                     [(js "originalError", VStr msg)])
        | YamlOtherError msg =>
            Throw (newParsingError (js "Failed to parse YAML frontmatter") (js "yaml")
                     None None [(js "originalError", VStr msg)])
        end
    | None =>
        let body := trim content in
        Ok {| frontmatter := defaultFrontmatter; body := body;
              sections := extractSections body |}
    end.

(** /[\s_]+/g *)
Definition spacesRe : regex := plus (Cls (fun c => isWhiteSpace c || (c =? underscore)%N)).

Definition isKebabChar (c : N) : bool := isLower c || isDigit c || (c =? hyphen)%N.

(** /[^a-z0-9-]/g *)
Definition specialRe : regex := Cls (fun c => negb (isKebabChar c)).

(** /-+/g *)
Definition hyphensRe : regex := plus (chr hyphen).

(** /^-+|-+$/g *)
Definition edgesRe : regex := Alt (Seq Bol (plus (chr hyphen))) (Seq (plus (chr hyphen)) Eol).

Definition toKebabCase (pf : Platform) (str : jsstring) : jsstring :=
  replaceAll edgesRe []
    (replaceAll hyphensRe (js "-")
       (replaceAll specialRe []
          (replaceAll spacesRe (js "-")
             (toLowerCase pf (trim str))))).

End ConversionEngine.

(* ================================================================== *)
(** * tools/validate-skill.ts, tools/fetch-skill.ts, tools/import-skill.ts *)
(* ================================================================== *)

Module Tools.

(** [!s || s.trim().length === 0] *)
Definition blank (s : jsstring) : bool :=
  negb (nonEmpty s) || Nat.eqb (length (trim s)) 0.

(** [args.url || 'unknown'] *)
Definition orUnknown (u : jsstring) : jsstring :=
  if nonEmpty u then u else js "unknown".

(** The handler wraps its arguments in a [SkillContent] with the current
    date and a placeholder source; [validate] reads [raw] and [url] only. *)
Definition validateSkillHandler (content u : jsstring) : Result ValidationResult :=
  if blank content then Throw (newError (js "Skill content is required"))
  else Ok (SecurityValidator.validate content (orUnknown u)).

Record FetchSkillResult : Type := {
  f_content : jsstring;
  f_url : jsstring;
  f_name : jsstring;
  f_owner : jsstring;
  f_repo : jsstring;
  f_skillPath : jsstring;
  f_fetchedAt : N
}.

(** The handler makes a resolver of its own, whose cache starts empty. *)
Definition fetchSkillHandler (pf : Platform) (w : World) (identifier : jsstring)
    : M FetchSkillResult :=
  if blank identifier then throw (newError (js "Skill identifier is required"))
  else
    setCache None ;;;
    resolved <- SkillResolver.resolve pf w identifier ;;
    content <- SkillFetcher.fetchSkill w resolved ;;
    let popped := last (split SLASH (skillPath resolved)) [] in
    let skillName := if nonEmpty popped then popped else identifier in
    ret {| f_content := raw content; f_url := url content; f_name := skillName;
           f_owner := owner resolved; f_repo := repo resolved;
           f_skillPath := skillPath resolved; f_fetchedAt := fetchedAt content |}.

Record ConvertToSteeringResult : Type := {
  steeringContent : jsstring;
  s_filename : jsstring;
  s_originalSkill : jsstring
}.

Record ConvertToPowerResult : Type := {
  powerContent : jsstring;
  powerName : jsstring
}.

(** The two conversion handlers that the import workflow calls
    (tools/convert-to-steering.ts, tools/convert-to-power.ts).  They parse
    the content and render it with [yaml.dump], the string coercions of
    JavaScript and the current date; the control flow of the workflow
    depends on whether they return or throw only, and is modelled for any
    behaviour of the two. *)
Record Converters : Type := {
  convertToSteeringHandler : jsstring -> jsstring -> Result ConvertToSteeringResult;
  convertToPowerHandler : jsstring -> jsstring -> Result ConvertToPowerResult
}.

(** [args] arrives as untyped JSON: [outputFormat] is any string (empty when
    absent) and [skipValidation] may be absent. *)
Record ImportSkillArgs : Type := {
  identifier : jsstring;
  outputFormat : jsstring;
  skipValidation : option bool
}.

Record ImportSkillResult : Type := {
  success : bool;
  r_content : jsstring;
  filename : jsstring;
  targetPath : jsstring;
  skillName : jsstring;
  sourceUrl : jsstring;
  r_outputFormat : jsstring;
  validationResult : option ValidationResult;
  error : option jsstring
}.

Definition failure (args : ImportSkillArgs) (u : jsstring)
    (v : option ValidationResult) (msg : jsstring) : ImportSkillResult :=
  {| success := false; r_content := []; filename := []; targetPath := [];
     skillName := identifier args; sourceUrl := u;
     r_outputFormat := outputFormat args; validationResult := v;
     error := Some msg |}.

(** [!args.skipValidation] *)
Definition validationWanted (args : ImportSkillArgs) : bool :=
  match skipValidation args with Some true => false | _ => true end.

Definition securityMessage (v : ValidationResult) : jsstring :=
  js "Security validation failed: " ++ join (js ", ") (map i_description (issues v)).

(** Step 3 of the workflow. *)
Definition convertStep (cv : Converters) (args : ImportSkillArgs)
    (fetchResult : FetchSkillResult) (validationResult : option ValidationResult)
    : M ImportSkillResult :=
  if jsEqb (outputFormat args) (js "steering") then
    emit (EvCall (CallConvertToSteering (f_content fetchResult) (f_url fetchResult))) ;;;
    convertResult <- liftResult (convertToSteeringHandler cv (f_content fetchResult)
                                   (f_url fetchResult)) ;;
    ret {| success := true;
           r_content := steeringContent convertResult;
           filename := s_filename convertResult;
           targetPath := js ".kiro/steering/" ++ s_filename convertResult;
           skillName := s_originalSkill convertResult;
           sourceUrl := f_url fetchResult;
           r_outputFormat := outputFormat args;
           validationResult := validationResult;
           error := None |}
  else
    emit (EvCall (CallConvertToPower (f_content fetchResult) (f_url fetchResult))) ;;;
    convertResult <- liftResult (convertToPowerHandler cv (f_content fetchResult)
                                   (f_url fetchResult)) ;;
    ret {| success := true;
           r_content := powerContent convertResult;
           filename := js "POWER.md";
           targetPath := js "~/.kiro/powers/" ++ powerName convertResult ++ js "/POWER.md";
           skillName := powerName convertResult;
           sourceUrl := f_url fetchResult;
           r_outputFormat := outputFormat args;
           validationResult := validationResult;
           error := None |}.

(** Steps 2 and 3: validate unless skipped, stop on an invalid verdict,
    convert otherwise. *)
Definition validateAndConvert (cv : Converters) (args : ImportSkillArgs)
    (fetchResult : FetchSkillResult) : M ImportSkillResult :=
  if validationWanted args then
    emit (EvCall (CallValidateSkill (f_content fetchResult) (f_url fetchResult))) ;;;
    validationResult <- liftResult (validateSkillHandler (f_content fetchResult)
                                      (f_url fetchResult)) ;;
    if negb (isValid validationResult) then
      ret (failure args (f_url fetchResult) (Some validationResult)
             (securityMessage validationResult))
    else convertStep cv args fetchResult (Some validationResult)
  else convertStep cv args fetchResult None.

Definition importSkillHandler (pf : Platform) (cv : Converters) (w : World)
    (args : ImportSkillArgs) : M ImportSkillResult :=
  tryCatch
    (if blank (identifier args) then
       throw (newError (js "Skill identifier is required"))
     else if negb (nonEmpty (outputFormat args))
             || negb (jsEqb (outputFormat args) (js "steering")
                      || jsEqb (outputFormat args) (js "power")) then
       throw (newError (js "Output format must be " ++ [34%N] ++ js "steering" ++ [34%N]
                          ++ js " or " ++ [34%N] ++ js "power" ++ [34%N]))
     else
       emit (EvCall (CallFetchSkill (identifier args))) ;;;
       fetchResult <- fetchSkillHandler pf w (identifier args) ;;
       validateAndConvert cv args fetchResult)
    (fun error => ret (failure args [] None (message error))).

End Tools.

(* ================================================================== *)
(** * Library operations used by the rendering and listing code *)
(* ================================================================== *)

(** Library and language operations whose behaviour the repository does
    not define: [yaml.dump] of js-yaml, [Date.prototype.toISOString], the
    message of the TypeError that the engine raises for an expression, the
    coercions that JavaScript applies to a value that is no string or
    array ([`${v}`], [v.length > 0], the items of [for (const x of v)]),
    and [Array.prototype.sort] with a comparator given by its sign. *)
Record Runtime : Type := {
  yamlDump : jsval -> jsstring;
  toISOString : N -> jsstring;
  typeErrorMessage : jsstring -> jsstring;
  coerceToString : jsval -> Result jsstring;
  lengthPositive : jsval -> bool;
  iterate : jsval -> Result (list jsval);
  arraySort : forall A : Type, (A -> A -> Z) -> list A -> list A
}.

Module JSLib.

(** [s.split(r)] for a pattern without capture groups, after
    RegExp.prototype[@@split]: the pattern is tried at every position [q]
    from the start [p] of the piece in progress; a match that ends at [p]
    is passed over.  [piece] holds the code units from [p] to [q], [skip]
    those of the last match that are still to be passed. *)
Fixpoint splitReFrom (r : regex) (skip pos : nat) (prev : option N)
    (piece s : jsstring) : list jsstring :=
  match s with
  | [] => [piece]
  | c :: t =>
      match skip with
      | S skip' => splitReFrom r skip' (S pos) (Some c) [] t
      | O =>
          match matchAt r pos prev s with
          | Some m =>
              match length (mr_text m), piece with
              | O, [] => splitReFrom r 0 (S pos) (Some c) [c] t
              | O, _ :: _ => piece :: splitReFrom r 0 (S pos) (Some c) [c] t
              | S n, _ => piece :: splitReFrom r n (S pos) (Some c) [] t
              end
          | None => splitReFrom r 0 (S pos) (Some c) (piece ++ [c]) t
          end
      end
  end.

Definition splitRe (r : regex) (s : jsstring) : list jsstring :=
  match s with
  | [] => match matchAt r 0 None [] with Some _ => [] | None => [[]] end
  | _ :: _ => splitReFrom r 0 0 None [] s
  end.

(** [r.test(s)] for a pattern without the g flag *)
Definition test (r : regex) (s : jsstring) : bool :=
  match exec r s with Some _ => true | None => false end.

(** [Array.from(new Set(words))]: the first occurrence of every word, in
    the order of the occurrences. *)
Fixpoint unique (seen words : list jsstring) : list jsstring :=
  match words with
  | [] => []
  | w :: rest =>
      if existsb (jsEqb w) seen then unique seen rest
      else w :: unique (w :: seen) rest
  end.

(** The strings that the iterator of a string yields: its code points, a
    surrogate pair being one of them. *)
Definition isHighSurrogate (c : N) : bool := ((55296 <=? c) && (c <=? 56319))%N.
Definition isLowSurrogate (c : N) : bool := ((56320 <=? c) && (c <=? 57343))%N.

Fixpoint codePoints (s : jsstring) : list jsstring :=
  match s with
  | [] => []
  | c :: t =>
      match t with
      | d :: t' =>
          if isHighSurrogate c && isLowSurrogate d then [c; d] :: codePoints t'
          else [c] :: codePoints t
      | [] => [[c]]
      end
  end.

(** The index that [slice] makes of a relative index, for an array of
    length [len] and an integer argument. *)
Definition relativeIndex (len : nat) (i : Z) : nat :=
  if (i <? 0)%Z then Z.to_nat (Z.max (Z.of_nat len + i) 0)
  else Nat.min (Z.to_nat i) len.

(** [l.slice(start, stop)] *)
Definition slice {A : Type} (start stop : Z) (l : list A) : list A :=
  let k := relativeIndex (length l) start in
  let final := relativeIndex (length l) stop in
  firstn (final - k) (skipn k l).

(** [n || d] for an optional integer argument *)
Definition orDefault (n : option Z) (d : Z) : Z :=
  match n with
  | Some z => if (z =? 0)%Z then d else z
  | None => d
  end.

End JSLib.

(* ================================================================== *)
(** * core/conversion-engine.ts: keywords, steering files and powers *)
(* ================================================================== *)

Record SteeringFile : Type := {
  sf_filename : jsstring;
  sf_content : jsstring;
  sf_originalSkill : jsstring;
  sf_sourceUrl : jsstring;
  sf_importedAt : N
}.

Record PowerFile : Type := {
  pf_path : jsstring;
  pf_content : jsstring
}.

Record PowerStructure : Type := {
  ps_powerName : jsstring;
  ps_files : list PowerFile
}.

Module Render.

Import JSLib ConversionEngine.

Definition stopWords : list jsstring :=
  map js
    ["the"; "and"; "for"; "with"; "this"; "that"; "from"; "into";
     "when"; "what"; "where"; "how"; "why"; "can"; "will"; "should";
     "would"; "could"; "has"; "have"; "had"; "are"; "was"; "were";
     "been"; "being"; "you"; "your"; "use"; "used"; "using"].

Definition isKeywordChar (c : N) : bool := isLower c || isDigit c.

(** /[^a-z0-9\s]/g *)
Definition nonWordRe : regex :=
  Cls (fun c => negb (isKeywordChar c || isWhiteSpace c)).

(** /\s+/ *)
Definition spaceRunRe : regex := plus ws.

(** /^\d+$/ *)
Definition digitsRe : regex := seqOf [Bol; plus (Cls isDigit); Eol].

Definition keepsWord (word : jsstring) : bool :=
  Nat.leb 3 (length word) && negb (existsb (jsEqb word) stopWords)
  && negb (test digitsRe word).

Definition extractKeywords (pf : Platform) (description : jsstring) : list jsstring :=
  let words :=
    filter keepsWord
      (splitRe spaceRunRe
         (replaceAll nonWordRe (js " ") (toLowerCase pf description))) in
  let uniqueWords := unique [] words in
  firstn 5 uniqueWords.

(** The TypeError of a method call on a value that has no such method. *)
Definition typeError (rt : Runtime) (expression : string) : Err :=
  newError (typeErrorMessage rt (js expression)).

(** [`${v}`] *)
Definition template (rt : Runtime) (v : jsval) : Result jsstring :=
  match v with
  | VStr s => Ok s
  | _ => coerceToString rt v
  end.

(** [deps.length > 0], read when [deps] is truthy *)
Definition hasItems (rt : Runtime) (deps : jsval) : bool :=
  match deps with
  | VStr s => nonEmpty s
  | VArr items => match items with [] => false | _ :: _ => true end
  | VObj _ => lengthPositive rt deps
  | _ => false
  end.

(** The values that [for (const dep of deps)] visits. *)
Definition itemsOf (rt : Runtime) (deps : jsval) : Result (list jsval) :=
  match deps with
  | VStr s => Ok (map VStr (codePoints s))
  | VArr items => Ok items
  | _ => iterate rt deps
  end.

(** The loop [for (const dep of deps) content += `- ${dep}\n`]. *)
Fixpoint dependencyLines (rt : Runtime) (deps : list jsval) : Result jsstring :=
  match deps with
  | [] => Ok []
  | dep :: rest =>
      match template rt dep with
      | Ok d =>
          match dependencyLines rt rest with
          | Ok more => Ok (js "- " ++ d ++ [LF] ++ more)
          | Throw e => Throw e
          end
      | Throw e => Throw e
      end
  end.

(** What the block [if (deps && deps.length > 0) { ... }] appends. *)
Definition dependenciesSection (rt : Runtime) (deps : jsval) : Result jsstring :=
  if truthy deps && hasItems rt deps then
    match itemsOf rt deps with
    | Ok items =>
        match dependencyLines rt items with
        | Ok lines => Ok ([LF; LF] ++ js "## Dependencies" ++ [LF; LF] ++ lines)
        | Throw e => Throw e
        end
    | Throw e => Throw e
    end
  else Ok [].

(** [`---\n${frontmatterYaml}---\n\n`] *)
Definition frontmatterBlock (frontmatterYaml : jsstring) : jsstring :=
  js "---" ++ [LF] ++ frontmatterYaml ++ js "---" ++ [LF; LF].

(** The heading that is added when the body does not start with one. *)
Definition mainHeading (body name : jsstring) : jsstring :=
  if negb (startsWith (trim body) (js "#")) then js "# " ++ name ++ [LF; LF] else [].

Definition steeringFooter : jsstring :=
  [LF; LF] ++ js "---" ++ [LF]
  ++ js "*Imported from Claude Skills via Skill Loader Power*" ++ [LF].

(** [toSteeringFile(skill, sourceUrl)], [now] being the reading of the
    clock that [new Date()] makes. *)
Definition toSteeringFile (pf : Platform) (rt : Runtime) (now : N)
    (skill : ParsedSkill) (sourceUrl : jsstring) : Result SteeringFile :=
  let name := getProp (frontmatter skill) (js "name") in
  match name with
  | VStr nameStr =>
      let filename := toKebabCase pf nameStr ++ js ".md" in
      let steeringFrontmatter :=
        VObj [(js "original_skill", name);
              (js "source_url", VStr sourceUrl);
              (js "imported_at", VStr (toISOString rt now))] in
      let frontmatterYaml := yamlDump rt steeringFrontmatter in
      let content0 := frontmatterBlock frontmatterYaml in
      let heading := mainHeading (body skill) nameStr in
      let description := getProp (frontmatter skill) (js "description") in
      match (if truthy description
             then match template rt description with
                  | Ok d => Ok (d ++ [LF; LF])
                  | Throw e => Throw e
                  end
             else Ok []) with
      | Ok descriptionPart =>
          match dependenciesSection rt (getProp (frontmatter skill) (js "dependencies")) with
          | Ok dependenciesPart =>
              Ok {| sf_filename := filename;
                    sf_content :=
                      content0 ++ heading ++ descriptionPart ++ body skill
                      ++ dependenciesPart ++ steeringFooter;
                    sf_originalSkill := nameStr;
                    sf_sourceUrl := sourceUrl;
                    sf_importedAt := now |}
          | Throw e => Throw e
          end
      | Throw e => Throw e
      end
  | _ => Throw (typeError rt "str.trim")
  end.

(** The lines under [## Import Metadata]. *)
Definition importMetadata (rt : Runtime) (now : N) (name sourceUrl : jsstring) : jsstring :=
  [LF; LF] ++ js "---" ++ [LF; LF] ++ js "## Import Metadata" ++ [LF; LF]
  ++ js "- **Original Skill**: " ++ name ++ [LF]
  ++ (if nonEmpty sourceUrl then js "- **Source URL**: " ++ sourceUrl ++ [LF] else [])
  ++ js "- **Imported At**: " ++ toISOString rt now ++ [LF]
  ++ js "- **Imported Via**: Skill Loader Power" ++ [LF].

(** [toPower(skill, sourceUrl)], [now] being the reading of the clock. *)
Definition toPower (pf : Platform) (rt : Runtime) (now : N)
    (skill : ParsedSkill) (sourceUrl : jsstring) : Result PowerStructure :=
  let name := getProp (frontmatter skill) (js "name") in
  match name with
  | VStr nameStr =>
      let powerName := toKebabCase pf nameStr in
      let description := getProp (frontmatter skill) (js "description") in
      match description with
      | VStr descriptionStr =>
          let keywords := extractKeywords pf descriptionStr in
          let powerFrontmatter :=
            VObj [(js "name", VStr powerName);
                  (js "displayName", name);
                  (js "description", description);
                  (js "keywords", strings keywords);
                  (js "author", VStr (js "Imported from Claude Skills"))] in
          let frontmatterYaml := yamlDump rt powerFrontmatter in
          let powerContent0 := frontmatterBlock frontmatterYaml in
          let heading := mainHeading (body skill) nameStr in
          match dependenciesSection rt (getProp (frontmatter skill) (js "dependencies")) with
          | Ok dependenciesPart =>
              Ok {| ps_powerName := powerName;
                    ps_files :=
                      [ {| pf_path := js "POWER.md";
                           pf_content :=
                             powerContent0 ++ heading ++ body skill ++ dependenciesPart
                             ++ importMetadata rt now nameStr sourceUrl |} ] |}
          | Throw e => Throw e
          end
      | _ => Throw (typeError rt "description.toLowerCase")
      end
  | _ => Throw (typeError rt "str.trim")
  end.

End Render.

(* ================================================================== *)
(** * tools/convert-to-steering.ts, tools/convert-to-power.ts *)
(* ================================================================== *)

Module ConvertTools.

Import ConversionEngine Tools Render.

Record SteeringOutput : Type := {
  so_steeringContent : jsstring;
  so_filename : jsstring;
  so_originalSkill : jsstring;
  so_sourceUrl : jsstring;
  so_importedAt : jsstring
}.

Record PowerOutput : Type := {
  po_powerContent : jsstring;
  po_powerName : jsstring;
  po_originalSkill : jsval;
  po_sourceUrl : jsstring;
  po_importedAt : jsstring
}.

(** [now] is the reading of the clock made by [toSteeringFile]. *)
Definition convertToSteeringHandler (pf : Platform) (rt : Runtime) (now : N)
    (content sourceUrl : jsstring) : Result SteeringOutput :=
  if blank content then Throw (newError (js "Skill content is required"))
  else
    match parseSkill pf content with
    | Ok parsed =>
        match toSteeringFile pf rt now parsed (orUnknown sourceUrl) with
        | Ok steering =>
            Ok {| so_steeringContent := sf_content steering;
                  so_filename := sf_filename steering;
                  so_originalSkill := sf_originalSkill steering;
                  so_sourceUrl := sf_sourceUrl steering;
                  so_importedAt := toISOString rt (sf_importedAt steering) |}
        | Throw e => Throw e
        end
    | Throw e => Throw e
    end.

(** [now] is the reading of the clock made by [toPower], [later] the one
    made by the handler afterwards. *)
Definition convertToPowerHandler (pf : Platform) (rt : Runtime) (now later : N)
    (content sourceUrl : jsstring) : Result PowerOutput :=
  if blank content then Throw (newError (js "Skill content is required"))
  else
    match parseSkill pf content with
    | Ok parsed =>
        match toPower pf rt now parsed (orUnknown sourceUrl) with
        | Ok power =>
            Ok {| po_powerContent :=
                    match ps_files power with
                    | file :: _ => pf_content file
                    | [] => []
                    end;
                  po_powerName := ps_powerName power;
                  po_originalSkill := getProp (frontmatter parsed) (js "name");
                  po_sourceUrl := orUnknown sourceUrl;
                  po_importedAt := toISOString rt later |}
        | Throw e => Throw e
        end
    | Throw e => Throw e
    end.

End ConvertTools.

(* ================================================================== *)
(** * core/skill-resolver.ts: search and leaderboard;
      tools/list-skills.ts, tools/search-skills.ts, tools/get-leaderboard.ts *)
(* ================================================================== *)

Module Listing.

Import JSLib SkillResolver Tools.

(** [searchSkillsSh(query)] *)
Definition matchesQuery (pf : Platform) (normalizedQuery : jsstring)
    (skill : SkillShEntry) : bool :=
  includes (toLowerCase pf (e_name skill)) normalizedQuery
  || match e_description skill with
     | Some d => nonEmpty d && includes (toLowerCase pf d) normalizedQuery
     | None => false
     end
  || includes (toLowerCase pf (e_owner skill)) normalizedQuery
  || includes (toLowerCase pf (e_repo skill)) normalizedQuery.

Definition searchSkillsSh (pf : Platform) (w : World) (query : jsstring)
    : M (list SkillShEntry) :=
  skills <- fetchSkillsDirectory pf w ;;
  let normalizedQuery := toLowerCase pf query in
  ret (filter (matchesQuery pf normalizedQuery) skills).

Definition leaderboardUrl (timeframe : jsstring) : jsstring :=
  if jsEqb timeframe (js "24h") then js "https://skills.sh/trending"
  else js "https://skills.sh".

(** [if (skill.metadata) skill.metadata.trending = true] *)
Definition markTrending (skill : SkillShEntry) : SkillShEntry :=
  match e_trending skill with
  | Some _ =>
      {| e_name := e_name skill; e_owner := e_owner skill; e_repo := e_repo skill;
         e_installs := e_installs skill; e_description := e_description skill;
         e_trending := Some true |}
  | None => skill
  end.

(** [getLeaderboard(timeframe)]; the type of [timeframe] is not checked at
    run time, so it is any string. *)
Definition getLeaderboard (pf : Platform) (w : World) (timeframe : jsstring)
    : M (list SkillShEntry) :=
  let u := leaderboardUrl timeframe in
  tryCatch
    (response <- fetch w u ;;
     if negb (r_ok response) then
       throw (newNetworkError (js "Failed to fetch leaderboard") u
                (Some (r_status response)) None
                [(js "statusText", VStr (r_statusText response));
                 (js "timeframe", VStr timeframe)])
     else
       let skills := parseSkillsFromHTML pf (r_text response) in
       ret (if jsEqb timeframe (js "24h") then map markTrending skills else skills))
    (fun error =>
       if instanceOf error NetworkError then throw error
       else
         throw (newNetworkError (js "Failed to fetch leaderboard") u None None
                  [(js "originalError", VStr (message error));
                   (js "timeframe", VStr timeframe)])).

(** One row of the output of the three tools; [ls_rank] is the [rank] of
    the leaderboard tool and the [relevance] of the search tool. *)
Record ListedSkill : Type := {
  ls_name : jsstring;
  ls_description : jsstring;
  ls_owner : jsstring;
  ls_repo : jsstring;
  ls_installs : jsnum;
  ls_rank : option Z;
  ls_trending : option bool
}.

(** [skill.description || ''] *)
Definition descriptionOf (skill : SkillShEntry) : jsstring :=
  match e_description skill with Some d => d | None => [] end.

Record ListSkillsResult : Type := {
  lr_skills : list ListedSkill;
  lr_total : nat;
  lr_page : Z;
  lr_pageSize : Z
}.

(** Numbers in the arguments of the tools are integers when present. *)
Definition listSkillsHandler (pf : Platform) (w : World) (page pageSize : option Z)
    : M ListSkillsResult :=
  setCache None ;;;
  leaderboard <- getLeaderboard pf w (js "all") ;;
  let page := orDefault page 1 in
  let pageSize := Z.min (orDefault pageSize 50) 100 in
  let start := ((page - 1) * pageSize)%Z in
  let stop := (start + pageSize)%Z in
  let paginatedSkills := slice start stop leaderboard in
  ret {| lr_skills :=
           map (fun skill =>
                  {| ls_name := e_name skill; ls_description := descriptionOf skill;
                     ls_owner := e_owner skill; ls_repo := e_repo skill;
                     ls_installs := e_installs skill;
                     ls_rank := None; ls_trending := None |})
               paginatedSkills;
         lr_total := length leaderboard;
         lr_page := page;
         lr_pageSize := pageSize |}.

Record GetLeaderboardResult : Type := {
  gl_skills : list ListedSkill;
  gl_timeframe : jsstring;
  gl_count : nat
}.

(** [list.map((x, index) => f x index)] *)
Fixpoint mapIndexed {A B : Type} (f : A -> nat -> B) (index : nat) (l : list A) : list B :=
  match l with
  | [] => []
  | x :: rest => f x index :: mapIndexed f (S index) rest
  end.

Definition getLeaderboardHandler (pf : Platform) (w : World)
    (timeframe : jsstring) (limit : option Z) : M GetLeaderboardResult :=
  setCache None ;;;
  let timeframe := if nonEmpty timeframe then timeframe else js "all" in
  leaderboard <- getLeaderboard pf w timeframe ;;
  let limit := Z.min (orDefault limit 20) 50 in
  let limitedResults := slice 0 limit leaderboard in
  ret {| gl_skills :=
           mapIndexed
             (fun skill index =>
                {| ls_name := e_name skill; ls_description := descriptionOf skill;
                   ls_owner := e_owner skill; ls_repo := e_repo skill;
                   ls_installs := e_installs skill;
                   ls_rank := Some (Z.of_nat index + 1)%Z;
                   ls_trending :=
                     Some (match e_trending skill with Some b => b | None => false end) |})
             0 limitedResults;
         gl_timeframe := timeframe;
         gl_count := length leaderboard |}.

(** The sign of [b.installs - a.installs], NaN counting as zero as [sort]
    takes it. *)
Definition byInstalls (a b : SkillShEntry) : Z :=
  match e_installs b, e_installs a with
  | Num y, Num x => Z.sgn (y - x)
  | Infinity, Num _ => 1
  | Num _, Infinity => (-1)
  | _, _ => 0
  end.

Record SearchSkillsResult : Type := {
  sr_skills : list ListedSkill;
  sr_query : jsstring;
  sr_count : nat
}.

Definition searchSkillsHandler (pf : Platform) (rt : Runtime) (w : World)
    (query : jsstring) (limit : option Z) : M SearchSkillsResult :=
  if blank query then throw (newError (js "Search query is required"))
  else
    setCache None ;;;
    found <- searchSkillsSh pf w query ;;
    let results := arraySort rt byInstalls found in
    let limit := Z.min (orDefault limit 20) 50 in
    let limitedResults := slice 0 limit results in
    ret {| sr_skills :=
             mapIndexed
               (fun skill index =>
                  {| ls_name := e_name skill; ls_description := descriptionOf skill;
                     ls_owner := e_owner skill; ls_repo := e_repo skill;
                     ls_installs := e_installs skill;
                     ls_rank := Some (Z.of_nat (length results) - Z.of_nat index)%Z;
                     ls_trending := None |})
               0 limitedResults;
           sr_query := query;
           sr_count := length results |}.

End Listing.

(* ================================================================== *)
(** * utils/cache.ts *)
(* ================================================================== *)

Module Cache.

Section WithData.

(** The type of the cached data; [undefined] is none of its values.  The
    time to live and the readings of the clock are whole numbers of
    milliseconds. *)
Variable T : Type.

Record CacheEntry : Type := {
  ce_data : T;
  ce_timestamp : Z
}.

(** The [Map] of the cache: its entries in insertion order, every key
    once. *)
Definition entries : Type := list (jsstring * CacheEntry).

Fixpoint mapGet (key : jsstring) (m : entries) : option CacheEntry :=
  match m with
  | [] => None
  | (k, e) :: rest => if jsEqb k key then Some e else mapGet key rest
  end.

(** [Map.prototype.set]: a key that is present keeps its place. *)
Fixpoint mapSet (key : jsstring) (e : CacheEntry) (m : entries) : entries :=
  match m with
  | [] => [(key, e)]
  | (k, e') :: rest =>
      if jsEqb k key then (k, e) :: rest else (k, e') :: mapSet key e rest
  end.

Definition mapDelete (key : jsstring) (m : entries) : entries :=
  filter (fun ke => negb (jsEqb (fst ke) key)) m.

(** [now - entry.timestamp > this.ttl] *)
Definition expired (ttl now : Z) (e : CacheEntry) : bool :=
  (now - ce_timestamp e >? ttl)%Z.

(** Every method takes the time to live of the cache, the reading of the
    clock it makes if it makes one, and the entries; it returns its result
    and the entries it leaves. *)
Definition get (ttl now : Z) (key : jsstring) (m : entries) : option T * entries :=
  match mapGet key m with
  | None => (None, m)
  | Some entry =>
      if expired ttl now entry then (None, mapDelete key m)
      else (Some (ce_data entry), m)
  end.

Definition set (now : Z) (key : jsstring) (data : T) (m : entries) : entries :=
  mapSet key {| ce_data := data; ce_timestamp := now |} m.

Definition has (ttl now : Z) (key : jsstring) (m : entries) : bool * entries :=
  match get ttl now key m with
  | (Some _, m') => (true, m')
  | (None, m') => (false, m')
  end.

Definition delete (key : jsstring) (m : entries) : entries := mapDelete key m.

Definition clear (m : entries) : entries := [].

Record Stats : Type := {
  size : nat;
  keys : list jsstring
}.

Definition getStats (ttl now : Z) (m : entries) : Stats * entries :=
  let m' := filter (fun ke => negb (expired ttl now (snd ke))) m in
  ({| size := length m'; keys := map fst m' |}, m').

End WithData.

End Cache.

(* ################################################################## *)
(** * Properties *)
(* ################################################################## *)

Import SecurityValidator SkillFetcher SkillResolver ConversionEngine Tools.

Unset Implicit Arguments.

(** A platform whose case mapping knows the ASCII letters only; it is
    used to run the definitions on concrete inputs. *)
Definition asciiLower (s : jsstring) : jsstring :=
  map (fun c => if isUpper c then (c + 32)%N else c) s.

Definition flatYaml (fields : list (jsstring * jsval)) : Platform :=
  {| toLowerCase := asciiLower;
     parseInstallCount := fun _ => Num 0;
     yamlLoad := fun _ => YamlLoaded (VObj fields) |}.

Definition asciiPlatform : Platform := flatYaml [].

Definition emptyState : State := {| trace := []; skillsCache := None |}.

(** The definitions at work on small inputs. *)
Example regex_examples :
  map mr_index (matchAll (seqOf [WordB; litI "sudo"; plus ws]) (js "Sudo ls; pseudo x; sudo  y"))
  = [0; 19]
  /\ map mr_text (matchAll (pipeToShell "curl") (js "curl -s https://x.sh | bash -s"))
     = [js "curl -s https://x.sh | bash"]
  /\ option_map (group 1) (exec frontmatterRegex (js "---" ++ [LF] ++ js "name: x" ++ [LF] ++ js "---" ++ [LF] ++ js "body"))
     = Some (js "name: x")
  /\ exec frontmatterRegex (js "text" ++ [LF] ++ js "---" ++ [LF] ++ js "name: x" ++ [LF] ++ js "---") = None.
Proof. vm_compute. repeat split. Qed.

Example toKebabCase_examples :
  toKebabCase asciiPlatform (js "PDF Extractor") = js "pdf-extractor"
  /\ toKebabCase asciiPlatform (js "React_Best_Practices") = js "react-best-practices"
  /\ toKebabCase asciiPlatform (js "My Skill!!!") = js "my-skill"
  /\ toKebabCase asciiPlatform (js "--a - b--") = js "a-b".
Proof. vm_compute. repeat split. Qed.

Example resolveFromGitHub_examples :
  option_map fullUrl
    (match resolveFromGitHub (js "vercel-labs/vercel-react-best-practices") with
     | Ok r => Some r | Throw _ => None end)
  = Some (js "https://raw.githubusercontent.com/vercel-labs/agent-skills/main/skills/vercel-react-best-practices/SKILL.md")
  /\ option_map skillPath
       (match resolveFromGitHub (js "anthropics/skills/skills/pdf") with
        | Ok r => Some r | Throw _ => None end)
     = Some (js "skills/pdf")
  /\ option_map skillPath
       (match resolveFromGitHub (js "anthropics/skills/pdf") with
        | Ok r => Some r | Throw _ => None end)
     = Some (js "skills/pdf").
Proof. vm_compute. repeat split. Qed.

(* ------------------------------------------------------------------ *)
(** ** Prefixes and substrings *)
(* ------------------------------------------------------------------ *)

Lemma startsWith_spec (p s : jsstring) :
  startsWith s p = true <-> exists rest, s = p ++ rest.
Proof.
  revert s. induction p as [|a p IH]; intros s; cbn [startsWith].
  - split; [intros _; exists s; reflexivity|reflexivity].
  - destruct s as [|b s].
    + split; [discriminate|intros [rest H]; discriminate].
    + rewrite andb_true_iff, N.eqb_eq, IH. split.
      * intros [-> [rest ->]]. exists rest. reflexivity.
      * intros [rest H]. inversion H; subst. eauto.
Qed.

Lemma includes_spec (p s : jsstring) :
  includes s p = true <-> exists pre post, s = pre ++ p ++ post.
Proof.
  induction s as [|c s IH]; cbn [includes].
  - rewrite orb_false_r, startsWith_spec. split.
    + intros [rest H]. exists [], rest. exact H.
    + intros [pre [post H]]. destruct pre; [eauto|discriminate].
  - rewrite orb_true_iff, startsWith_spec, IH. split.
    + intros [[rest H]|[pre [post H]]].
      * exists [], rest. exact H.
      * exists (c :: pre), post. rewrite H. reflexivity.
    + intros [pre [post H]]. destruct pre as [|d pre].
      * left. exists post. exact H.
      * right. inversion H; subst. eauto.
Qed.

(* ------------------------------------------------------------------ *)
(** ** Validator *)
(* ------------------------------------------------------------------ *)

Section ValidatorFacts.

Lemma matchAllFrom_here (r : regex) (pos : nat) (prev : option N) (c : N) (t : jsstring) :
  matchAllFrom r 0 pos prev (c :: t) =
  match matchAt r pos prev (c :: t) with
  | Some m => m :: matchAllFrom r (pred (length (mr_text m))) (S pos) (Some c) t
  | None => matchAllFrom r 0 (S pos) (Some c) t
  end.
Proof. reflexivity. Qed.

Definition rmRfRe : regex := seqOf [litI "rm"; plus ws; lit "-"; litI "rf"].

Lemma rmRf_matches_here (pos : nat) (prev : option N) (post : jsstring) :
  matchAt rmRfRe pos prev (js "rm -rf" ++ post) <> None.
Proof.
  unfold matchAt.
  replace (rmatch rmRfRe (MState pos prev (js "rm -rf" ++ post) []) Some)
    with (Some (MState (6 + pos) (Some 102%N) post [])).
  - discriminate.
  - vm_compute. reflexivity.
Qed.

Lemma rmRf_found (pre post : jsstring) :
  forall pos prev, matchAllFrom rmRfRe 0 pos prev (pre ++ js "rm -rf" ++ post) <> [].
Proof.
  induction pre as [|c pre IH]; intros pos prev.
  - change (js "rm -rf" ++ post) with (114%N :: (js "m -rf" ++ post)).
    cbn [app]. rewrite matchAllFrom_here.
    change (114%N :: (js "m -rf" ++ post)) with (js "rm -rf" ++ post).
    destruct (matchAt rmRfRe pos prev (js "rm -rf" ++ post)) eqn:E.
    + discriminate.
    + exfalso. exact (rmRf_matches_here pos prev post E).
  - cbn [app]. rewrite matchAllFrom_here.
    destruct (matchAt rmRfRe pos prev (c :: pre ++ js "rm -rf" ++ post)).
    + discriminate.
    + apply IH.
Qed.

Lemma scanWith_cons (ty : IssueType) (pd : regex * jsstring)
    (table : list (regex * jsstring)) (text : jsstring) :
  scanWith ty (pd :: table) text =
  map (fun m : rmatchResult =>
         {| i_type := ty; i_description := snd pd;
            i_location :=
              js "Line " ++ numToString (N.of_nat (getLineNumber text (mr_index m)))
              ++ js ": " ++ mr_text m |})
      (matchAll (fst pd) text)
  ++ scanWith ty table text.
Proof. reflexivity. Qed.


Lemma dangerous_found (pre post : jsstring) :
  exists i rest, scanForDangerousPatterns (pre ++ js "rm -rf /" ++ post) = i :: rest
                 /\ i_type i = dangerous_command.
Proof.
  unfold scanForDangerousPatterns, DANGEROUS_PATTERNS.
  rewrite scanWith_cons. cbn [fst snd].
  change (js "rm -rf /" ++ post) with (js "rm -rf" ++ (js " /" ++ post)).
  pose proof (rmRf_found pre (js " /" ++ post) 0 None) as H.
  fold rmRfRe. unfold matchAll.
  destruct (matchAllFrom rmRfRe 0 0 None (pre ++ js "rm -rf" ++ js " /" ++ post)) as [|m ms].
  - contradiction.
  - cbn [map app]. eexists. eexists. split; [reflexivity|reflexivity].
Qed.

Lemma hasType_true (ty : IssueType) (l : list SecurityIssue) :
  hasType ty l = true <-> exists i, In i l /\ i_type i = ty.
Proof.
  unfold hasType. rewrite existsb_exists. split; intros [i [Hin H]]; exists i; split; auto.
  - destruct (i_type i), ty; simpl in H; congruence.
  - rewrite H. destruct ty; reflexivity.
Qed.

Lemma determineSeverity_safe (l : list SecurityIssue) :
  determineSeverity l = safe <-> l = [].
Proof.
  destruct l as [|i l]; simpl; [tauto|].
  destruct (_ || _); split; congruence.
Qed.

Lemma determineSeverity_unsafe (l : list SecurityIssue) :
  determineSeverity l = unsafe <->
  exists i, In i l /\ (i_type i = untrusted_source \/ i_type i = dangerous_command).
Proof.
  split.
  - destruct l as [|i0 l]; [simpl; congruence|].
    unfold determineSeverity.
    destruct (hasType untrusted_source (i0 :: l)) eqn:Hu.
    + intros _. apply hasType_true in Hu. destruct Hu as [i [? ?]]. eauto.
    + destruct (hasType dangerous_command (i0 :: l)) eqn:Hd; simpl; [|congruence].
      intros _. apply hasType_true in Hd. destruct Hd as [i [? ?]]. eauto.
  - intros [i [Hin Hty]]. destruct l as [|i0 l]; [contradiction|].
    unfold determineSeverity.
    destruct Hty as [Hty|Hty].
    + assert (H : hasType untrusted_source (i0 :: l) = true) by (apply hasType_true; eauto).
      rewrite H. reflexivity.
    + assert (H : hasType dangerous_command (i0 :: l) = true) by (apply hasType_true; eauto).
      rewrite H. rewrite orb_true_r. reflexivity.
Qed.

Lemma determineSeverity_warning (l : list SecurityIssue) :
  determineSeverity l = warning <->
  l <> [] /\ forall i, In i l -> i_type i = suspicious_pattern.
Proof.
  split.
  - intros H. split.
    + intros ->. discriminate.
    + intros i Hin. destruct (i_type i) eqn:Hty; [|reflexivity|].
      * assert (determineSeverity l = unsafe) by (apply determineSeverity_unsafe; eauto).
        congruence.
      * assert (determineSeverity l = unsafe) by (apply determineSeverity_unsafe; eauto).
        congruence.
  - intros [Hne Hall]. destruct (determineSeverity l) eqn:Hs; [| reflexivity |].
    + apply determineSeverity_safe in Hs. contradiction.
    + apply determineSeverity_unsafe in Hs. destruct Hs as [i [Hin [H|H]]];
        rewrite (Hall i Hin) in H; discriminate.
Qed.

End ValidatorFacts.

(** C1.  The verdict of [validate] is [safe] exactly when there is no issue,
    [unsafe] exactly when some issue is of type untrusted_source or
    dangerous_command, and [warning] exactly when there are issues and all
    are of type suspicious_pattern; [isValid] holds exactly when the
    severity is not [unsafe].  A text that contains [rm -rf /], checked
    against a URL without the trusted prefix, is [unsafe], not valid, and
    has at least two issues: one of type untrusted_source and one of type
    dangerous_command. *)
Theorem validate_severity_rule (text u : jsstring) :
  let v := validate text u in
  (severity v = safe <-> issues v = [])
  /\ (severity v = unsafe <->
      exists i, In i (issues v)
                /\ (i_type i = untrusted_source \/ i_type i = dangerous_command))
  /\ (severity v = warning <->
      issues v <> [] /\ forall i, In i (issues v) -> i_type i = suspicious_pattern)
  /\ (isValid v = true <-> severity v <> unsafe)
  /\ (forall pre post,
        text = pre ++ js "rm -rf /" ++ post ->
        (forall rest, u <> js "https://raw.githubusercontent.com/" ++ rest) ->
        severity v = unsafe /\ isValid v = false /\ 2 <= length (issues v)
        /\ (exists i, In i (issues v) /\ i_type i = dangerous_command)
        /\ (exists i, In i (issues v) /\ i_type i = untrusted_source)).
Proof.
  cbv zeta. unfold validate. cbn [severity issues isValid].
  split; [apply determineSeverity_safe|].
  split; [apply determineSeverity_unsafe|].
  split; [apply determineSeverity_warning|].
  split.
  - destruct (determineSeverity _); simpl; split; congruence.
  - intros pre post -> Hprefix.
    assert (Hu : isUrlTrusted u = false).
    { unfold isUrlTrusted.
      destruct (startsWith u (js "https://raw.githubusercontent.com/")) eqn:E;
        [|reflexivity].
      apply startsWith_spec in E. destruct E as [rest E].
      exfalso. exact (Hprefix rest E). }
    rewrite Hu. cbn [negb].
    destruct (dangerous_found pre post) as [i [rest [Hscan Hty]]].
    rewrite Hscan. cbn [app].
    set (l := _ :: i :: _).
    assert (Hun : exists j, In j l /\ i_type j = untrusted_source).
    { eexists. split; [left; reflexivity|reflexivity]. }
    assert (Hd : exists j, In j l /\ i_type j = dangerous_command).
    { exists i. split; [right; left; reflexivity|exact Hty]. }
    assert (Hs : determineSeverity l = unsafe).
    { apply determineSeverity_unsafe. destruct Hd as [j [? ?]]. eauto. }
    rewrite Hs. repeat split; auto.
    subst l. cbn [length]. lia.
Qed.

Lemma validate_severity_rule_witness :
  let v := validate (js "cleanup: rm -rf / --no-preserve-root")
             (js "http://example.org/SKILL.md") in
  severity v = unsafe /\ isValid v = false /\ 2 <= length (issues v)
  /\ (exists i, In i (issues v) /\ i_type i = dangerous_command)
  /\ (exists i, In i (issues v) /\ i_type i = untrusted_source).
Proof.
  exact (proj2 (proj2 (proj2 (proj2
           (validate_severity_rule (js "cleanup: rm -rf / --no-preserve-root")
              (js "http://example.org/SKILL.md")))))
         (js "cleanup: ") (js " --no-preserve-root") eq_refl
         (fun rest H => ltac:(discriminate H))).
Defined.

(* ------------------------------------------------------------------ *)
(** ** Traces of effectful code *)
(* ------------------------------------------------------------------ *)

Definition isCall (e : Event) : bool :=
  match e with EvCall _ => true | _ => false end.

(** The tool handlers entered so far, in order. *)
Definition calls (t : list Event) : list Event := filter isCall t.

(** A computation is [quiet] when it enters no tool handler. *)
Definition quiet {A} (m : M A) : Prop :=
  forall st r st', m st = (r, st') -> calls (trace st') = calls (trace st).

Section MonadFacts.

Context {A B : Type}.

Lemma quiet_ret (a : A) : quiet (ret a).
Proof. intros st r st' H. inversion H. reflexivity. Qed.

Lemma quiet_throw (e : Err) : quiet (@throw A e).
Proof. intros st r st' H. inversion H. reflexivity. Qed.

Lemma quiet_bind (m : M A) (f : A -> M B) :
  quiet m -> (forall a, quiet (f a)) -> quiet (bind m f).
Proof.
  intros Hm Hf st r st' H. unfold bind in H.
  destruct (m st) as [[a|e] st1] eqn:E.
  - rewrite (Hf a _ _ _ H). exact (Hm _ _ _ E).
  - inversion H; subst. exact (Hm _ _ _ E).
Qed.

Lemma quiet_tryCatch (m : M A) (h : Err -> M A) :
  quiet m -> (forall e, quiet (h e)) -> quiet (tryCatch m h).
Proof.
  intros Hm Hh st r st' H. unfold tryCatch in H.
  destruct (m st) as [[a|e] st1] eqn:E.
  - inversion H; subst. exact (Hm _ _ _ E).
  - rewrite (Hh e _ _ _ H). exact (Hm _ _ _ E).
Qed.

Lemma quiet_liftResult (r : Result A) : quiet (liftResult r).
Proof. destruct r; [apply quiet_ret|apply quiet_throw]. Qed.

End MonadFacts.

Lemma quiet_emit (e : Event) : isCall e = false -> quiet (emit e).
Proof.
  intros He st r st' H. inversion H; subst. cbn [trace].
  unfold calls. rewrite filter_app. cbn [filter]. rewrite He. apply app_nil_r.
Qed.

Lemma quiet_getTrace : quiet getTrace.
Proof. intros st r st' H. inversion H. reflexivity. Qed.

Lemma quiet_getCache : quiet getCache.
Proof. intros st r st' H. inversion H. reflexivity. Qed.

Lemma quiet_setCache c : quiet (setCache c).
Proof. intros st r st' H. inversion H. reflexivity. Qed.

Create HintDb quiet.
#[local] Hint Resolve quiet_ret quiet_throw quiet_liftResult quiet_getTrace
  quiet_getCache quiet_setCache : quiet.

Ltac quiet_step :=
  first
    [ solve [auto with quiet]
    | apply quiet_emit; reflexivity
    | apply quiet_bind; [|intros ?]
    | apply quiet_tryCatch; [|intros ?] ].

Lemma quiet_fetch w u : quiet (fetch w u).
Proof.
  unfold fetch. repeat quiet_step.
  destruct (transport w _ u); auto with quiet.
Qed.

Lemma quiet_dateNow w : quiet (dateNow w).
Proof. unfold dateNow. repeat quiet_step. Qed.

Lemma quiet_sleep ms : quiet (sleep ms).
Proof. apply quiet_emit. reflexivity. Qed.

#[local] Hint Resolve quiet_fetch quiet_dateNow quiet_sleep : quiet.

Lemma quiet_fetchUrl w u : quiet (fetchUrl w u).
Proof.
  unfold fetchUrl. repeat quiet_step.
  - destruct (negb _); auto with quiet.
  - destruct (instanceOf _ _); auto with quiet.
Qed.

#[local] Hint Resolve quiet_fetchUrl : quiet.

Lemma quiet_retryLoop w u remaining :
  forall attempt lastError, quiet (retryLoop w u remaining attempt lastError).
Proof.
  induction remaining as [|n IH]; intros attempt lastError; cbn [retryLoop].
  - auto with quiet.
  - repeat quiet_step.
    destruct (includes _ _); [auto with quiet|].
    quiet_step; [destruct (Nat.ltb _ _); auto with quiet | apply IH].
Qed.

Lemma quiet_fetchWithRetry w u : quiet (fetchWithRetry w u).
Proof. apply quiet_retryLoop. Qed.

#[local] Hint Resolve quiet_fetchWithRetry : quiet.

Lemma quiet_branchLoop w resolved branches :
  forall tried lastError, quiet (branchLoop w resolved branches tried lastError).
Proof.
  induction branches as [|b more IH]; intros tried lastError; cbn [branchLoop].
  - auto with quiet.
  - quiet_step.
    + repeat quiet_step.
    + destruct (_ || _).
      * destruct (jsEqb b lastBranch); [auto with quiet|apply IH].
      * destruct (jsEqb b lastBranch); [|apply IH].
        destruct (instanceOf _ _); auto with quiet.
Qed.

Lemma quiet_fetchSkill w resolved : quiet (fetchSkill w resolved).
Proof. apply quiet_branchLoop. Qed.

Lemma quiet_fetchSkillsDirectory pf w : quiet (fetchSkillsDirectory pf w).
Proof.
  unfold fetchSkillsDirectory. quiet_step; [auto with quiet|].
  quiet_step.
  - destruct a as [[data ts]|]; repeat quiet_step.
  - destruct a0; [auto with quiet|].
    quiet_step.
    + quiet_step; [auto with quiet|].
      destruct (negb _); [auto with quiet|]. repeat quiet_step.
    + quiet_step; [auto with quiet|].
      destruct a0 as [[data ts]|]; [auto with quiet|].
      destruct (instanceOf _ _); auto with quiet.
Qed.

Lemma quiet_resolve pf w identifier : quiet (resolve pf w identifier).
Proof.
  unfold resolve. destruct (includes _ _).
  - destruct (resolveFromGitHub identifier); auto with quiet.
  - unfold resolveFromSkillsSh. quiet_step.
    + quiet_step; [apply quiet_fetchSkillsDirectory|].
      destruct (pickFromDirectory _ _ _); auto with quiet.
    + destruct (_ || _); auto with quiet.
Qed.

Lemma quiet_fetchSkillHandler pf w identifier : quiet (fetchSkillHandler pf w identifier).
Proof.
  unfold fetchSkillHandler. destruct (blank identifier); [auto with quiet|].
  quiet_step; [auto with quiet|].
  quiet_step; [apply quiet_resolve|].
  quiet_step; [apply quiet_fetchSkill|].
  auto with quiet.
Qed.

(* ------------------------------------------------------------------ *)
(** ** Import workflow *)
(* ------------------------------------------------------------------ *)

Definition withEvent (st : State) (e : Event) : State :=
  {| trace := trace st ++ [e]; skillsCache := skillsCache st |}.

(** The conversion that the workflow calls for the requested format. *)
Definition conversionCall (args : ImportSkillArgs) (fr : FetchSkillResult) : Event :=
  if jsEqb (outputFormat args) (js "steering")
  then EvCall (CallConvertToSteering (f_content fr) (f_url fr))
  else EvCall (CallConvertToPower (f_content fr) (f_url fr)).

(** Whether the conversion handler for the requested format returns. *)
Definition conversionSucceeds (cv : Converters) (args : ImportSkillArgs)
    (fr : FetchSkillResult) : bool :=
  if jsEqb (outputFormat args) (js "steering")
  then match convertToSteeringHandler cv (f_content fr) (f_url fr) with
       | Ok _ => true | Throw _ => false end
  else match convertToPowerHandler cv (f_content fr) (f_url fr) with
       | Ok _ => true | Throw _ => false end.

Lemma calls_app (t1 t2 : list Event) : calls (t1 ++ t2) = calls t1 ++ calls t2.
Proof. apply filter_app. Qed.

Lemma validateSkillHandler_verdict content u v :
  validateSkillHandler content u = Ok v ->
  v = validate content (orUnknown u).
Proof.
  unfold validateSkillHandler. destruct (blank content); congruence.
Qed.

Lemma unsafe_not_valid text u :
  severity (validate text u) = unsafe -> isValid (validate text u) = false.
Proof.
  unfold validate. cbn [severity isValid]. intros ->. reflexivity.
Qed.

Lemma convertStep_run cv args fr v st :
  exists r,
    convertStep cv args fr v st = (Ok r, withEvent st (conversionCall args fr))
    /\ validationResult r = (if success r then v else None)
    /\ success r = conversionSucceeds cv args fr
    \/ exists e,
    convertStep cv args fr v st = (Throw e, withEvent st (conversionCall args fr))
    /\ conversionSucceeds cv args fr = false.
Proof.
  unfold convertStep, conversionCall, conversionSucceeds.
  destruct (jsEqb (outputFormat args) (js "steering")).
  - destruct (convertToSteeringHandler cv (f_content fr) (f_url fr)) as [c|e] eqn:E.
    + eexists. left. unfold bind, emit, liftResult, ret.
      split; [reflexivity|]. split; reflexivity.
    + exists (failure args [] None []). right. exists e.
      unfold bind, emit, liftResult, throw. split; reflexivity.
  - destruct (convertToPowerHandler cv (f_content fr) (f_url fr)) as [c|e] eqn:E.
    + eexists. left. unfold bind, emit, liftResult, ret.
      split; [reflexivity|]. split; reflexivity.
    + exists (failure args [] None []). right. exists e.
      unfold bind, emit, liftResult, throw. split; reflexivity.
Qed.

(** C2.  Take an import request that passes the argument checks and whose
    fetch succeeds.  If validation is not skipped and the verdict on the
    fetched content is [unsafe], the import returns a failure whose error
    message is "Security validation failed: " followed by the descriptions
    of all issues joined with ", ", and the handlers entered are the fetch
    and the validation only: no conversion handler is called.  If
    skipValidation is set, no validation is made: the handlers entered are
    the fetch and the conversion for the requested format, and the import
    succeeds exactly when that conversion returns. *)
Theorem import_blocks_unsafe_content
    (pf : Platform) (cv : Converters) (w : World) (args : ImportSkillArgs)
    (st st1 : State) (fr : FetchSkillResult) :
  blank (identifier args) = false ->
  outputFormat args = js "steering" \/ outputFormat args = js "power" ->
  fetchSkillHandler pf w (identifier args)
    (withEvent st (EvCall (CallFetchSkill (identifier args)))) = (Ok fr, st1) ->
  (validationWanted args = true ->
   forall v, validateSkillHandler (f_content fr) (f_url fr) = Ok v ->
   severity v = unsafe ->
   let msg := js "Security validation failed: "
              ++ join (js ", ") (map i_description (issues v)) in
   let st2 := withEvent st1 (EvCall (CallValidateSkill (f_content fr) (f_url fr))) in
   importSkillHandler pf cv w args st = (Ok (failure args (f_url fr) (Some v) msg), st2)
   /\ success (failure args (f_url fr) (Some v) msg) = false
   /\ error (failure args (f_url fr) (Some v) msg) = Some msg
   /\ calls (trace st2) =
      calls (trace st) ++ [EvCall (CallFetchSkill (identifier args));
                           EvCall (CallValidateSkill (f_content fr) (f_url fr))])
  /\ (skipValidation args = Some true ->
      let st2 := withEvent st1 (conversionCall args fr) in
      exists r,
        importSkillHandler pf cv w args st = (Ok r, st2)
        /\ calls (trace st2) =
           calls (trace st) ++ [EvCall (CallFetchSkill (identifier args));
                                conversionCall args fr]
        /\ validationResult r = None
        /\ success r = conversionSucceeds cv args fr).
Proof.
  intros Hid Hfmt Hfetch.
  assert (Hcalls1 : calls (trace st1) =
                    calls (trace st) ++ [EvCall (CallFetchSkill (identifier args))]).
  { rewrite (quiet_fetchSkillHandler pf w (identifier args) _ _ _ Hfetch).
    cbn [withEvent trace]. rewrite calls_app. reflexivity. }
  assert (Hguard : negb (nonEmpty (outputFormat args))
                   || negb (jsEqb (outputFormat args) (js "steering")
                            || jsEqb (outputFormat args) (js "power")) = false).
  { destruct Hfmt as [-> | ->]; reflexivity. }
  assert (Hrun : forall k : FetchSkillResult -> M ImportSkillResult,
            tryCatch
              (if blank (identifier args) then
                 throw (newError (js "Skill identifier is required"))
               else if negb (nonEmpty (outputFormat args))
                       || negb (jsEqb (outputFormat args) (js "steering")
                                || jsEqb (outputFormat args) (js "power")) then
                 throw (newError (js "Output format must be " ++ [34%N] ++ js "steering"
                                    ++ [34%N] ++ js " or " ++ [34%N] ++ js "power"
                                    ++ [34%N]))
               else
                 emit (EvCall (CallFetchSkill (identifier args))) ;;;
                 fetchResult <- fetchSkillHandler pf w (identifier args) ;;
                 k fetchResult)
              (fun error => ret (failure args [] None (message error))) st
            = match k fr st1 with
              | (Ok a, st') => (Ok a, st')
              | (Throw e, st') => (Ok (failure args [] None (message e)), st')
              end).
  { intros k. rewrite Hid, Hguard. unfold tryCatch, bind at 1 2.
    cbn [emit]. fold (withEvent st (EvCall (CallFetchSkill (identifier args)))).
    rewrite Hfetch. destruct (k fr st1) as [[a|e] st']; reflexivity. }
  split.
  - intros Hwanted v Hv Hsev msg st2.
    assert (Hinvalid : isValid v = false).
    { rewrite (validateSkillHandler_verdict _ _ _ Hv) in *.
      apply unsafe_not_valid. exact Hsev. }
    split; [|split; [reflexivity|split; [reflexivity|]]].
    + unfold importSkillHandler. rewrite Hrun.
      unfold validateAndConvert. rewrite Hwanted.
      unfold bind, emit, liftResult. rewrite Hv. cbn [ret].
      rewrite Hinvalid. reflexivity.
    + subst st2. cbn [withEvent trace]. rewrite calls_app, Hcalls1, <- app_assoc.
      reflexivity.
  - intros Hskip st2.
    assert (Hwanted : validationWanted args = false).
    { unfold validationWanted. rewrite Hskip. reflexivity. }
    assert (Hc : calls (trace st2) =
                 calls (trace st) ++ [EvCall (CallFetchSkill (identifier args));
                                      conversionCall args fr]).
    { subst st2. cbn [withEvent trace]. rewrite calls_app, Hcalls1, <- app_assoc.
      unfold conversionCall. destruct (jsEqb _ _); reflexivity. }
    destruct (convertStep_run cv args fr None st1) as [r [[Hr [Hv Hs]] | [e [Hr Hs]]]].
    + exists r. unfold importSkillHandler. rewrite Hrun.
      unfold validateAndConvert. rewrite Hwanted, Hr.
      repeat split; auto. rewrite Hv. destruct (success r); reflexivity.
    + exists (failure args [] None (message e)).
      unfold importSkillHandler. rewrite Hrun.
      unfold validateAndConvert. rewrite Hwanted, Hr.
      repeat split; auto.
Qed.

(** A world that serves one unsafe document from the main branch. *)
Definition unsafeWorld : World :=
  {| transport := fun _ _ => Responded 200 (js "OK") (js "Run: sudo rm -rf / now");
     clock := fun _ => 0%N |}.

Definition echoConverters : Converters :=
  {| convertToSteeringHandler := fun c _ =>
       Ok {| steeringContent := c; s_filename := js "x.md"; s_originalSkill := js "x" |};
     convertToPowerHandler := fun c _ =>
       Ok {| powerContent := c; powerName := js "x" |} |}.

Definition importArgs (skip : option bool) : ImportSkillArgs :=
  {| identifier := js "acme/cleanup"; outputFormat := js "steering";
     skipValidation := skip |}.

Definition fetchedRun : Result FetchSkillResult * State :=
  fetchSkillHandler asciiPlatform unsafeWorld (js "acme/cleanup")
    (withEvent emptyState (EvCall (CallFetchSkill (js "acme/cleanup")))).

Definition fetchedResult : FetchSkillResult :=
  match fst fetchedRun with
  | Ok fr => fr
  | Throw _ =>
      {| f_content := []; f_url := []; f_name := []; f_owner := []; f_repo := [];
         f_skillPath := []; f_fetchedAt := 0%N |}
  end.

Lemma import_blocks_unsafe_content_witness :
  (exists v,
     fst (importSkillHandler asciiPlatform echoConverters unsafeWorld (importArgs None)
            emptyState)
     = Ok (failure (importArgs None) (f_url fetchedResult) (Some v)
             (js "Security validation failed: "
                ++ join (js ", ") (map i_description (issues v)))))
  /\ (exists r,
        fst (importSkillHandler asciiPlatform echoConverters unsafeWorld
               (importArgs (Some true)) emptyState) = Ok r
        /\ success r = true).
Proof.
  assert (Hf : fetchSkillHandler asciiPlatform unsafeWorld (js "acme/cleanup")
                 (withEvent emptyState (EvCall (CallFetchSkill (js "acme/cleanup"))))
               = (Ok fetchedResult, snd fetchedRun)).
  { vm_compute. reflexivity. }
  split.
  - exists (validate (f_content fetchedResult) (orUnknown (f_url fetchedResult))).
    destruct (import_blocks_unsafe_content asciiPlatform echoConverters unsafeWorld
                (importArgs None) emptyState (snd fetchedRun) fetchedResult
                eq_refl (or_introl eq_refl) Hf) as [H _].
    destruct (H eq_refl _ eq_refl eq_refl) as [E _].
    rewrite E. reflexivity.
  - destruct (import_blocks_unsafe_content asciiPlatform echoConverters unsafeWorld
                (importArgs (Some true)) emptyState (snd fetchedRun) fetchedResult
                eq_refl (or_introl eq_refl) Hf) as [_ H].
    destruct (H eq_refl) as [r [E [_ [_ Hs]]]].
    exists r. rewrite E. split; [reflexivity|]. rewrite Hs. reflexivity.
Defined.

(* ------------------------------------------------------------------ *)
(** ** Resolver *)
(* ------------------------------------------------------------------ *)

Lemma jsEqb_eq (a b : jsstring) : jsEqb a b = true <-> a = b.
Proof.
  unfold jsEqb. destruct (list_eq_dec N.eq_dec a b); split; congruence.
Qed.

Lemma jsEqb_refl (a : jsstring) : jsEqb a a = true.
Proof. apply jsEqb_eq. reflexivity. Qed.

Lemma jsEqb_neq (a b : jsstring) : jsEqb a b = false <-> a <> b.
Proof.
  unfold jsEqb. destruct (list_eq_dec N.eq_dec a b); split; congruence.
Qed.

(** C9.  For an identifier that contains the separator, [resolve] returns
    what [resolveFromGitHub] computes from the identifier text alone and
    leaves the state as it was: no event is added to the trace (the directory
    listing is not fetched, the clock is not read) and the directory cache is
    unchanged.  The outcome is the same for every platform, world and cache,
    and it is either a coordinate of origin [GitHub] without directory
    metadata or the error "Invalid identifier format". *)
Theorem resolve_explicit_coordinate_leaves_cache
    (pf pf' : Platform) (w w' : World) (identifier : jsstring) (st st' : State) :
  includes identifier (js "/") = true ->
  resolve pf w identifier st = (resolveFromGitHub identifier, st)
  /\ trace (snd (resolve pf w identifier st)) = trace st
  /\ skillsCache (snd (resolve pf w identifier st)) = skillsCache st
  /\ fst (resolve pf w identifier st) = fst (resolve pf' w' identifier st')
  /\ match resolveFromGitHub identifier with
     | Ok r => source r = GitHub /\ metadata r = None
     | Throw e => err_class e = SkillResolutionError
                  /\ message e = js "Invalid identifier format"
     end.
Proof.
  intros Hsep.
  assert (H : forall p v s, resolve p v identifier s = (resolveFromGitHub identifier, s)).
  { intros p v s. unfold resolve. rewrite Hsep.
    destruct (resolveFromGitHub identifier); reflexivity. }
  rewrite !H. cbn [fst snd]. repeat split.
  unfold resolveFromGitHub.
  destruct (segments identifier) as [|a [|b [|c rest]]]; cbn; repeat split.
Qed.

Definition staleCache : State :=
  {| trace := [EvNow];
     skillsCache :=
       Some ([ {| e_name := js "pdf"; e_owner := js "anthropics"; e_repo := js "skills";
                  e_installs := Num 12; e_description := None; e_trending := None |} ],
             0%N) |}.

Lemma resolve_explicit_coordinate_leaves_cache_witness :
  resolve asciiPlatform unsafeWorld (js "vercel-labs/agent-skills/react") staleCache
  = (resolveFromGitHub (js "vercel-labs/agent-skills/react"), staleCache)
  /\ fst (resolve asciiPlatform unsafeWorld (js "owner/") staleCache)
     = fst (resolve asciiPlatform unsafeWorld (js "owner/") emptyState).
Proof.
  split.
  - exact (proj1 (resolve_explicit_coordinate_leaves_cache asciiPlatform asciiPlatform
                    unsafeWorld unsafeWorld (js "vercel-labs/agent-skills/react")
                    staleCache staleCache eq_refl)).
  - exact (proj1 (proj2 (proj2 (proj2
             (resolve_explicit_coordinate_leaves_cache asciiPlatform asciiPlatform
                unsafeWorld unsafeWorld (js "owner/") staleCache emptyState eq_refl))))).
Defined.

Section DirectoryLookup.

Variable pf : Platform.




Lemma resolve_short_name w identifier st st' skills :
  includes identifier (js "/") = false ->
  fetchSkillsDirectory pf w st = (Ok skills, st') ->
  resolve pf w identifier st = (pickFromDirectory pf identifier skills, st').
Proof.
  intros Hsep Hdir. unfold resolve. rewrite Hsep.
  unfold resolveFromSkillsSh, tryCatch, bind. rewrite Hdir.
  destruct (pickFromDirectory pf identifier skills) as [r|e] eqn:Ep; [reflexivity|].
  unfold throw.
  assert (Hc : instanceOf e SkillResolutionError = true).
  { unfold pickFromDirectory in Ep.
    destruct (filter _ skills) as [|a [|b rest]]; try discriminate.
    - inversion Ep. reflexivity.
    - destruct (find _ _); inversion Ep. reflexivity. }
  rewrite Hc. reflexivity.
Qed.


End DirectoryLookup.


(** A directory page that lists pdf-extractor before pdf. *)
Definition directoryPage : jsstring :=
  js "<a class='row' href=" ++ [quote] ++ js "/anthropics/skills/pdf-extractor" ++ [quote]
  ++ js "><h3>PDF Extractor</h3><p>anthropics/skills</p><span>30.4K</span></a>"
  ++ js "<a class='row' href=" ++ [quote] ++ js "/anthropics/skills/pdf" ++ [quote]
  ++ js "><h3>PDF</h3><p>anthropics/skills</p><span>973</span></a>".

Definition directoryWorld : World :=
  {| transport := fun _ _ => Responded 200 (js "OK") directoryPage;
     clock := fun _ => 1000%N |}.



Definition pdfEntry : SkillShEntry :=
  {| e_name := js "pdf"; e_owner := js "anthropics"; e_repo := js "skills";
     e_installs := Num 0;
     e_description := Some (js "PDF from anthropics/skills");
     e_trending := Some false |}.


(* ------------------------------------------------------------------ *)
(** ** Fetcher *)
(* ------------------------------------------------------------------ *)

(** What [fetchUrl] makes of the answer of the transport. *)
Definition fetchUrlResult (u : jsstring) (o : FetchOutcome) : Result jsstring :=
  match o with
  | Responded status statusText body =>
      if ((200 <=? status) && (status <=? 299))%N then Ok body
      else Throw (newNetworkError
                    (js "HTTP " ++ numToString status ++ js ": " ++ statusText)
                    u (Some status) None [(js "statusText", VStr statusText)])
  | Rejected msg =>
      Throw (newNetworkError (js "Failed to fetch URL") u None None
               [(js "originalError", VStr msg)])
  end.






Definition branchUrl (resolved : ResolvedSkill) (branch : jsstring) : jsstring :=
  constructGitHubRawUrl (owner resolved) (repo resolved) branch (skillPath resolved).

Section FetcherFacts.

Variable w : World.

Lemma fetchUrl_run u st :
  fetchUrl w u st = (fetchUrlResult u (transport w (trace st) u), withEvent st (EvFetch u)).
Proof.
  unfold fetchUrl, tryCatch, bind, fetch, getTrace, emit, bind. cbn [trace].
  unfold fetchUrlResult, withEvent.
  destruct (transport w (trace st) u) as [status statusText body|msg].
  - unfold ret, r_ok. cbn [r_status r_statusText r_text].
    destruct ((200 <=? status)%N && (status <=? 299)%N); reflexivity.
  - reflexivity.
Qed.







(** On a ref that is not the last one, every failure of the per-ref fetch
    moves on to the next ref, in the state the fetch left. *)
Lemma branchLoop_advance resolved branch more tried lastError st e st' :
  jsEqb branch lastBranch = false ->
  fetchWithRetry w (branchUrl resolved branch) st = (Throw e, st') ->
  branchLoop w resolved (branch :: more) tried lastError st
  = branchLoop w resolved more (tried ++ [branch]) (Some e) st'.
Proof.
  intros Hlast Hf. cbn [branchLoop]. unfold tryCatch at 1, bind at 1.
  fold (branchUrl resolved branch). rewrite Hf, Hlast.
  destruct (_ || _); reflexivity.
Qed.

Lemma branchLoop_success resolved branch more tried lastError st body st' :
  fetchWithRetry w (branchUrl resolved branch) st = (Ok body, st') ->
  branchLoop w resolved (branch :: more) tried lastError st
  = (Ok {| raw := body; url := branchUrl resolved branch;
           fetchedAt := clock w (trace st'); c_source := resolved |},
     withEvent st' EvNow).
Proof.
  intros Hf. cbn [branchLoop]. unfold tryCatch at 1, bind at 1.
  fold (branchUrl resolved branch). rewrite Hf. reflexivity.
Qed.

End FetcherFacts.



Definition pdfSkill : ResolvedSkill :=
  {| owner := js "anthropics"; repo := js "skills"; skillPath := js "skills/pdf";
     fullUrl := js "https://raw.githubusercontent.com/anthropics/skills/main/skills/pdf/SKILL.md";
     source := GitHub; metadata := None |}.


(** Every request is refused before any response arrives. *)
Definition rejectingWorld : World :=
  {| transport := fun _ _ => Rejected (js "connect ECONNREFUSED");
     clock := fun _ => 0%N |}.

(** Every request is answered with status 500. *)
Definition serverErrorWorld : World :=
  {| transport := fun _ _ => Responded 500 (js "Internal Server Error") [];
     clock := fun _ => 0%N |}.

(** Every request is answered with status 404. *)
Definition missingWorld : World :=
  {| transport := fun _ _ => Responded 404 (js "Not Found") [];
     clock := fun _ => 0%N |}.



Section FetchSkillErrors.

Variable w : World.

Lemma retryLoop_error u remaining :
  forall attempt lastError st e st',
    retryLoop w u remaining attempt lastError st = (Throw e, st') ->
    instanceOf e NetworkError = true
    /\ ((message e = js "Resource not found" /\ statusCode e = Some 404%N)
        \/ (message e = js "Failed to fetch after 3 attempts" /\ statusCode e = None
            /\ lookup (js "triedBranches") (context e) = None
            /\ exists m, lookup (js "lastError") (context e) = Some (VStr m))).
Proof.
  induction remaining as [|n IH]; intros attempt lastError st e st' H.
  - cbn [retryLoop] in H. inversion H; subst. split; [reflexivity|]. right.
    repeat split. eexists. reflexivity.
  - cbn [retryLoop] in H. unfold tryCatch in H. rewrite fetchUrl_run in H.
    destruct (fetchUrlResult u _) as [body|e0]; [discriminate|].
    destruct (includes (message e0) (js "404")).
    + inversion H; subst. split; [reflexivity|]. left. split; reflexivity.
    + unfold bind at 1 in H.
      destruct (Nat.ltb attempt (maxRetries - 1)); cbn [sleep emit ret] in H;
        eapply IH; exact H.
Qed.

(** Every error of [fetchSkill] is one of two: after not-found on the last
    ref, it lists the refs tried and carries no last error; after any other
    failure on the last ref, it is the error of the per-ref fetch, which
    carries a last error and no list of refs. *)
Lemma fetchSkill_error resolved st e st' :
  fetchSkill w resolved st = (Throw e, st') ->
  (statusCode e = Some 404%N
   /\ lookup (js "triedBranches") (context e) = Some (strings defaultBranches)
   /\ lookup (js "lastError") (context e) = None)
  \/ (message e = js "Failed to fetch after 3 attempts"
      /\ lookup (js "triedBranches") (context e) = None
      /\ exists m, lookup (js "lastError") (context e) = Some (VStr m)).
Proof.
  unfold fetchSkill, defaultBranches. intros H.
  destruct (fetchWithRetry w (branchUrl resolved (js "main")) st) as [[b1|e1] st1] eqn:F1.
  { rewrite (branchLoop_success w resolved _ _ _ _ _ _ _ F1) in H. discriminate. }
  rewrite (branchLoop_advance w resolved (js "main") _ _ _ st _ _ eq_refl F1) in H.
  destruct (fetchWithRetry w (branchUrl resolved (js "master")) st1) as [[b2|e2] st2] eqn:F2.
  { rewrite (branchLoop_success w resolved _ _ _ _ _ _ _ F2) in H. discriminate. }
  rewrite (branchLoop_advance w resolved (js "master") _ _ _ st1 _ _ eq_refl F2) in H.
  destruct (fetchWithRetry w (branchUrl resolved (js "HEAD")) st2) as [[b3|e3] st3] eqn:F3.
  { rewrite (branchLoop_success w resolved _ _ _ _ _ _ _ F3) in H. discriminate. }
  cbn [branchLoop] in H. unfold tryCatch at 1, bind at 1 in H.
  fold (branchUrl resolved (js "HEAD")) in H. rewrite F3 in H.
  change (jsEqb (js "HEAD") lastBranch) with true in H. cbv iota in H.
  destruct (retryLoop_error _ _ _ _ _ _ _ F3) as [Hc [[Hm Hs]|[Hm [Hs [Ht Hl]]]]];
    rewrite Hm, Hs, Hc in H.
  - replace (includes (js "Resource not found") (js "404")) with false in H
      by (vm_compute; reflexivity).
    cbn in H. inversion H; subst. left. repeat split.
  - replace (includes (js "Failed to fetch after 3 attempts") (js "404")) with false in H
      by (vm_compute; reflexivity).
    cbn [orb andb] in H. inversion H; subst. right. auto.
Qed.

End FetchSkillErrors.

(** C4.  When every ref answers 500, the error of [fetchSkill] is the error
    of the last per-ref fetch: it carries the last underlying error and no
    list of the refs tried.  When every ref answers 404, the error lists the
    three refs tried and carries no last underlying error.  (The error that
    would carry both is built only on paths that are never taken.) *)
Theorem fetchSkill_exhausted_error_context :
  (exists e st',
     fetchSkill serverErrorWorld pdfSkill emptyState = (Throw e, st')
     /\ message e = js "Failed to fetch after 3 attempts"
     /\ lookup (js "lastError") (context e)
        = Some (VStr (js "HTTP 500: Internal Server Error"))
     /\ lookup (js "triedBranches") (context e) = None)
  /\ (exists e st',
        fetchSkill missingWorld pdfSkill emptyState = (Throw e, st')
        /\ statusCode e = Some 404%N
        /\ lookup (js "triedBranches") (context e)
           = Some (strings [js "main"; js "master"; js "HEAD"])
        /\ lookup (js "lastError") (context e) = None).
Proof.
  split; eexists; eexists; (split; [vm_compute; reflexivity|]);
    repeat split; vm_compute; reflexivity.
Qed.

(* ------------------------------------------------------------------ *)
(** ** The matcher never runs out of fuel *)
(* ------------------------------------------------------------------ *)

(** [y] can be the state of a continuation called from [x]: the position
    moved forward by as much as the input got shorter. *)
Definition reach (x y : mstate) : Prop :=
  m_pos x <= m_pos y /\ (m_pos y - m_pos x) + length (m_rest y) = length (m_rest x).

(** A matcher is local when it consults its continuation at reachable
    states only. *)
Definition localMatcher (m : matcher) : Prop :=
  forall x k k', (forall y, reach x y -> k y = k' y) -> m x k = m x k'.

Section Fuel.

Lemma reach_refl (x : mstate) : reach x x.
Proof. unfold reach. lia. Qed.

Lemma reach_trans (x y z : mstate) : reach x y -> reach y z -> reach x z.
Proof. unfold reach. lia. Qed.

Lemma orElse_ext (a a' : option mstate) (b b' : unit -> option mstate) :
  a = a' -> b tt = b' tt -> orElse a b = orElse a' b'.
Proof. intros -> H. destruct a'; [reflexivity|exact H]. Qed.

Lemma repeatMatcher_local (m : matcher) (g : bool) :
  localMatcher m ->
  forall fuel lo hi, localMatcher (repeatMatcher m g fuel lo hi).
Proof.
  intros Hm. induction fuel as [|fuel IH]; intros lo hi x k k' Hk; [reflexivity|].
  cbn [repeatMatcher].
  assert (Hd : forall y, reach x y ->
             (if Nat.eqb lo 0 && Nat.eqb (m_pos y) (m_pos x) then None
              else repeatMatcher m g fuel (pred lo) (option_map pred hi) y k)
             = (if Nat.eqb lo 0 && Nat.eqb (m_pos y) (m_pos x) then None
                else repeatMatcher m g fuel (pred lo) (option_map pred hi) y k')).
  { intros y Hy. destruct (Nat.eqb lo 0 && Nat.eqb (m_pos y) (m_pos x)); [reflexivity|].
    apply IH. intros z Hz. apply Hk. exact (reach_trans x y z Hy Hz). }
  pose proof (Hk x (reach_refl x)) as Hx.
  destruct hi as [[|h]|]; [exact Hx| |];
    (destruct lo as [|lo]; [destruct g; apply orElse_ext; auto|auto]).
Qed.

Lemma rmatch_local (r : regex) : localMatcher (rmatch r).
Proof.
  induction r as [|p|a IHa b IHb|a IHa b IHb|g lo hi a IHa|i a IHa| | |];
    intros x k k' Hk; cbn [rmatch].
  - apply Hk, reach_refl.
  - destruct (m_rest x) as [|c t] eqn:E; [reflexivity|].
    destruct (p c); [|reflexivity].
    apply Hk. unfold reach, step. cbn [m_pos m_rest]. rewrite E. cbn [length]. lia.
  - apply IHa. intros y Hy. apply IHb. intros z Hz. apply Hk.
    exact (reach_trans x y z Hy Hz).
  - apply orElse_ext; [apply IHa|apply IHb]; exact Hk.
  - apply repeatMatcher_local; assumption.
  - apply IHa. intros y Hy. apply Hk. exact Hy.
  - destruct (Nat.eqb (m_pos x) 0); [apply Hk, reach_refl|reflexivity].
  - destruct (m_rest x); [apply Hk, reach_refl|reflexivity].
  - destruct (xorb _ _); [apply Hk, reach_refl|reflexivity].
Qed.

(** With more fuel than the minimum plus the input left, the result of
    the repetition does not depend on the fuel. *)
Lemma repeatMatcher_fuel (m : matcher) (g : bool) :
  localMatcher m ->
  forall fuel fuel' lo hi x k,
    lo + length (m_rest x) < fuel -> lo + length (m_rest x) < fuel' ->
    repeatMatcher m g fuel lo hi x k = repeatMatcher m g fuel' lo hi x k.
Proof.
  intros Hm. induction fuel as [|fuel IH]; intros fuel' lo hi x k Hf Hf'; [lia|].
  destruct fuel' as [|fuel']; [lia|]. cbn [repeatMatcher].
  assert (Hd : forall y, reach x y ->
             (if Nat.eqb lo 0 && Nat.eqb (m_pos y) (m_pos x) then None
              else repeatMatcher m g fuel (pred lo) (option_map pred hi) y k)
             = (if Nat.eqb lo 0 && Nat.eqb (m_pos y) (m_pos x) then None
                else repeatMatcher m g fuel' (pred lo) (option_map pred hi) y k)).
  { intros y [Hy1 Hy2].
    destruct (Nat.eqb lo 0) eqn:El; cbn [andb].
    - apply Nat.eqb_eq in El. subst lo.
      destruct (Nat.eqb (m_pos y) (m_pos x)) eqn:Ep; [reflexivity|].
      apply Nat.eqb_neq in Ep. apply IH; cbn [pred]; lia.
    - apply Nat.eqb_neq in El. apply IH; lia. }
  destruct hi as [[|h]|]; [reflexivity| |];
    (destruct lo as [|lo];
     [destruct g; apply orElse_ext; auto; apply Hm; exact Hd|apply Hm; exact Hd]).
Qed.

(** The fuel that [rmatch] gives to a repetition is enough: any larger
    amount gives the same result. *)
Lemma rmatch_fuel_enough (g : bool) (lo : nat) (hi : option nat) (a : regex)
    (x : mstate) (k : cont) (fuel : nat) :
  lo + length (m_rest x) < fuel ->
  repeatMatcher (rmatch a) g fuel lo hi x k = rmatch (Rep g lo hi a) x k.
Proof.
  intros H. cbn [rmatch]. apply repeatMatcher_fuel; [apply rmatch_local|exact H|lia].
Qed.

End Fuel.

(* ------------------------------------------------------------------ *)
(** ** The matcher on runs of one class *)
(* ------------------------------------------------------------------ *)

(** Length of the longest prefix whose code units are all in the class. *)
Fixpoint runLength (p : N -> bool) (s : jsstring) : nat :=
  match s with
  | c :: t => if p c then S (runLength p t) else 0
  | [] => 0
  end.

(** What the greedy star of a class does: take the longest run, then give
    back one code unit at a time until the continuation accepts. *)
Fixpoint greedyStar (p : N -> bool) (k : cont) (x : mstate) (s : jsstring)
    {struct s} : option mstate :=
  match s with
  | c :: t => if p c then orElse (greedyStar p k (step c t x) t) (fun _ => k x) else k x
  | [] => k x
  end.

(** The continuation of [$]. *)
Definition atEnd : cont :=
  fun y => match m_rest y with [] => Some y | _ :: _ => None end.

Section ClassRuns.

Variable p : N -> bool.

Lemma repeat_star_class (s : jsstring) :
  forall x fuel k,
    m_rest x = s -> length s < fuel ->
    repeatMatcher (rmatch (Cls p)) true fuel 0 None x k = greedyStar p k x s.
Proof.
  induction s as [|c t IH]; intros x fuel k Hrest Hfuel;
    (destruct fuel as [|fuel]; [cbn [length] in Hfuel; lia|]).
  - cbn [repeatMatcher rmatch greedyStar]. rewrite Hrest. reflexivity.
  - cbn [repeatMatcher rmatch greedyStar]. rewrite Hrest.
    destruct (p c); [|reflexivity].
    cbn [step m_pos].
    replace (Nat.eqb (S (m_pos x)) (m_pos x)) with false
      by (symmetry; apply Nat.eqb_neq; lia).
    rewrite andb_false_r.
    rewrite IH; [reflexivity|reflexivity|cbn [length] in Hfuel; lia].
Qed.

Lemma rmatch_plus_class (x : mstate) (k : cont) :
  rmatch (plus (Cls p)) x k
  = match m_rest x with
    | c :: t => if p c then greedyStar p k (step c t x) t else None
    | [] => None
    end.
Proof.
  unfold plus. cbn [rmatch repeatMatcher].
  destruct (m_rest x) as [|c t] eqn:E; [reflexivity|].
  destruct (p c); [|reflexivity].
  cbn [Nat.eqb andb pred option_map].
  apply repeat_star_class; [reflexivity|cbn [length]; lia].
Qed.

(** With the final continuation the star stops after the longest run. *)
Lemma greedyStar_longest (s : jsstring) :
  forall x, exists y,
    greedyStar p Some x s = Some y
    /\ m_pos y = m_pos x + runLength p s /\ m_caps y = m_caps x.
Proof.
  induction s as [|c t IH]; intros x; cbn [greedyStar runLength].
  - exists x. repeat split. lia.
  - destruct (p c).
    + destruct (IH (step c t x)) as [y [E [Hp Hc]]]. exists y.
      rewrite E. cbn [orElse]. repeat split; [|exact Hc].
      rewrite Hp. cbn [step m_pos]. lia.
    + exists x. repeat split. lia.
Qed.

(** Before [$] the star succeeds exactly when the whole rest is a run. *)
Lemma greedyStar_atEnd (s : jsstring) :
  forall x, m_rest x = s ->
    if forallb p s
    then exists y, greedyStar p atEnd x s = Some y
                   /\ m_pos y = m_pos x + length s /\ m_caps y = m_caps x
    else greedyStar p atEnd x s = None.
Proof.
  induction s as [|c t IH]; intros x Hrest; cbn [greedyStar forallb].
  - exists x. unfold atEnd. rewrite Hrest. repeat split. cbn [length]. lia.
  - destruct (p c); cbn [andb].
    + specialize (IH (step c t x) eq_refl).
      destruct (forallb p t).
      * destruct IH as [y [E [Hp Hc]]]. exists y. rewrite E. cbn [orElse].
        repeat split; [|exact Hc]. rewrite Hp. cbn [step m_pos length]. lia.
      * rewrite IH. cbn [orElse]. unfold atEnd. rewrite Hrest. reflexivity.
    + unfold atEnd. rewrite Hrest. reflexivity.
Qed.

Lemma runLength_le (s : jsstring) : runLength p s <= length s.
Proof.
  induction s as [|c t IH]; cbn [runLength length]; [lia|].
  destruct (p c); lia.
Qed.

Lemma matchAt_class (pos : nat) (prev : option N) (s : jsstring) :
  matchAt (Cls p) pos prev s
  = match s with
    | c :: t => if p c then Some (MatchResult pos [c] []) else None
    | [] => None
    end.
Proof.
  unfold matchAt. cbn [rmatch m_rest].
  destruct s as [|c t]; [reflexivity|].
  destruct (p c); [|reflexivity].
  cbn [step m_pos m_caps]. replace (S pos - pos) with 1 by lia. reflexivity.
Qed.

Lemma matchAt_plus_class (pos : nat) (prev : option N) (s : jsstring) :
  match s with
  | c :: t =>
      if p c
      then exists m, matchAt (plus (Cls p)) pos prev s = Some m
                     /\ length (mr_text m) = S (runLength p t)
      else matchAt (plus (Cls p)) pos prev s = None
  | [] => matchAt (plus (Cls p)) pos prev s = None
  end.
Proof.
  unfold matchAt. rewrite rmatch_plus_class. cbn [m_rest].
  destruct s as [|c t]; [reflexivity|].
  destruct (p c); [|reflexivity].
  destruct (greedyStar_longest t (step c t (MState pos prev (c :: t) [])))
    as [y [E [Hp Hc]]].
  rewrite E. eexists. split; [reflexivity|]. cbn [mr_text].
  rewrite Hp. cbn [step m_pos].
  replace (S pos + runLength p t - pos) with (S (runLength p t)) by lia.
  rewrite length_firstn. pose proof (runLength_le t). cbn [length]. lia.
Qed.

(** ** Replacing single code units and runs *)

(** Every code unit of the class is replaced. *)
Lemma replaceAll_class (rep : jsstring) (s : jsstring) :
  forall pos prev,
    replaceAllFrom (Cls p) rep 0 pos prev s
    = flat_map (fun c => if p c then rep else [c]) s.
Proof.
  induction s as [|c t IH]; intros pos prev; cbn [replaceAllFrom flat_map].
  - rewrite matchAt_class. reflexivity.
  - rewrite matchAt_class. destruct (p c).
    + cbn [mr_text length]. rewrite IH. reflexivity.
    + rewrite IH. reflexivity.
Qed.

(** Every run of the class is replaced as a whole; [inRun] tells whether
    the run at the start has been replaced already. *)
Fixpoint collapse (rep : jsstring) (inRun : bool) (s : jsstring) : jsstring :=
  match s with
  | [] => []
  | c :: t =>
      if p c then (if inRun then [] else rep) ++ collapse rep true t
      else c :: collapse rep false t
  end.

Lemma replaceAll_plus_class (rep : jsstring) (s : jsstring) :
  (forall pos prev,
     replaceAllFrom (plus (Cls p)) rep 0 pos prev s = collapse rep false s)
  /\ (forall pos prev,
        replaceAllFrom (plus (Cls p)) rep (runLength p s) pos prev s
        = collapse rep true s).
Proof.
  induction s as [|c t [IHa IHb]].
  - split; intros pos prev; cbn [runLength replaceAllFrom collapse];
      pose proof (matchAt_plus_class pos prev []) as H; cbn beta iota in H; rewrite H;
      reflexivity.
  - assert (Ha : forall pos prev,
               replaceAllFrom (plus (Cls p)) rep 0 pos prev (c :: t)
               = collapse rep false (c :: t)).
    { intros pos prev. cbn [replaceAllFrom collapse].
      pose proof (matchAt_plus_class pos prev (c :: t)) as H. cbn beta iota in H.
      destruct (p c).
      - destruct H as [m [E Hl]]. rewrite E, Hl, IHb. reflexivity.
      - rewrite H, IHa. reflexivity. }
    split; [exact Ha|].
    intros pos prev. cbn [runLength]. destruct (p c) eqn:Ep.
    + cbn [replaceAllFrom collapse]. rewrite Ep, IHb. reflexivity.
    + rewrite Ha. cbn [collapse]. rewrite Ep. reflexivity.
Qed.

End ClassRuns.

(* ------------------------------------------------------------------ *)
(** ** Literals and the frontmatter pattern *)
(* ------------------------------------------------------------------ *)

(** The state after a literal has been matched. *)
Fixpoint advance (cs : jsstring) (x : mstate) : mstate :=
  match cs with
  | [] => x
  | c :: cs' => advance cs' (step c (tl (m_rest x)) x)
  end.

(** What the lazy star of [[\s\S]] does: try the continuation, and take
    one more code unit when it refuses. *)
Fixpoint lazyAny (k : cont) (x : mstate) (s : jsstring) {struct s} : option mstate :=
  orElse (k x)
    (fun _ => match s with
              | c :: t => lazyAny k (step c t x) t
              | [] => None
              end).

Definition openMarker : jsstring := js "---" ++ [LF].
Definition closeMarker : jsstring := LF :: js "---".

(** Offset of the first closing marker. *)
Fixpoint closeOffset (s : jsstring) : option nat :=
  if startsWith s closeMarker then Some 0
  else match s with
       | _ :: t => option_map S (closeOffset t)
       | [] => None
       end.

(** A metadata block in the words of the specification: the text starts
    with three dashes and a line feed; the block runs up to the first line
    feed that three dashes follow. *)
Definition blockLength (text : jsstring) : option nat :=
  if startsWith text openMarker then closeOffset (skipn 4 text) else None.

Section Frontmatter.

Lemma rmatch_seqOf_cons (r : regex) (rs : list regex) (x : mstate) (k : cont) :
  rmatch (seqOf (r :: rs)) x k = rmatch r x (fun y => rmatch (seqOf rs) y k).
Proof. destruct rs; reflexivity. Qed.

Lemma rmatch_literal (cs : jsstring) :
  forall x k,
    rmatch (seqOf (map chr cs)) x k
    = if startsWith (m_rest x) cs then k (advance cs x) else None.
Proof.
  induction cs as [|c cs IH]; intros x k; [reflexivity|].
  cbn [map]. rewrite rmatch_seqOf_cons. unfold chr at 1. cbn [rmatch startsWith].
  destruct (m_rest x) as [|d t] eqn:E; [reflexivity|].
  destruct (N.eqb_spec c d) as [<-|Hne]; cbn [andb]; [|reflexivity].
  rewrite IH. cbn [advance step m_rest]. rewrite E. reflexivity.
Qed.

Lemma advance_fields (cs : jsstring) :
  forall x,
    m_pos (advance cs x) = m_pos x + length cs
    /\ m_caps (advance cs x) = m_caps x
    /\ m_rest (advance cs x) = skipn (length cs) (m_rest x).
Proof.
  induction cs as [|c cs IH]; intros x; cbn [advance length skipn].
  - repeat split. lia.
  - destruct (IH (step c (tl (m_rest x)) x)) as [H1 [H2 H3]].
    rewrite H1, H2, H3. cbn [step m_pos m_caps m_rest].
    repeat split; [lia|]. destruct (m_rest x); [destruct (length cs)|]; reflexivity.
Qed.

Lemma repeat_lazy_any (s : jsstring) :
  forall x fuel k,
    m_rest x = s -> length s < fuel ->
    repeatMatcher (rmatch any) false fuel 0 None x k = lazyAny k x s.
Proof.
  induction s as [|c t IH]; intros x fuel k Hx Hfuel;
    (destruct fuel as [|fuel]; [cbn [length] in Hfuel; lia|]).
  - cbn [repeatMatcher lazyAny]. unfold any. cbn [rmatch]. rewrite Hx. reflexivity.
  - cbn [repeatMatcher lazyAny]. unfold any at 1. cbn [rmatch]. rewrite Hx.
    apply orElse_ext; [reflexivity|]. cbn [step m_pos].
    replace (Nat.eqb (S (m_pos x)) (m_pos x)) with false
      by (symmetry; apply Nat.eqb_neq; lia).
    rewrite andb_false_r. cbn [option_map pred].
    apply IH; [reflexivity|cbn [length] in Hfuel; lia].
Qed.

(** The lazy star stops at the first closing marker and captures what
    it passed. *)
Lemma lazyAny_close (x1 : mstate) (s : jsstring) :
  forall x, m_rest x = s ->
    let k := fun y => rmatch (seqOf (map chr closeMarker)) (capture 1 x1 y) Some in
    match closeOffset s with
    | Some j =>
        exists y, lazyAny k x s = Some y
                  /\ m_pos y = m_pos x + j + 4
                  /\ m_caps y
                     = (1, firstn (m_pos x + j - m_pos x1) (m_rest x1)) :: m_caps x
    | None => lazyAny k x s = None
    end.
Proof.
  induction s as [|c t IH]; intros x Hx k.
  - cbn [closeOffset lazyAny]. subst k. cbv beta. rewrite rmatch_literal.
    cbn [capture m_rest]. rewrite Hx. reflexivity.
  - cbn [closeOffset lazyAny]. subst k. cbv beta. rewrite rmatch_literal.
    cbn [capture m_rest]. rewrite Hx.
    destruct (startsWith (c :: t) closeMarker).
    + eexists. split; [reflexivity|].
      destruct (advance_fields closeMarker (capture 1 x1 x)) as [H1 [H2 _]].
      rewrite H1, H2. cbn [capture m_pos m_caps].
      change (length closeMarker) with 4.
      replace (m_pos x + 0) with (m_pos x) by lia. split; reflexivity.
    + cbn [orElse]. specialize (IH (step c t x) eq_refl). cbv zeta in IH.
      destruct (closeOffset t) as [j|]; cbn [option_map].
      * destruct IH as [y [E [Hp Hc]]]. exists y. split; [exact E|].
        cbn [step m_pos m_caps] in Hp, Hc. split; [lia|].
        rewrite Hc. replace (S (m_pos x) + j) with (m_pos x + S j) by lia. reflexivity.
      * exact IH.
Qed.

(** The frontmatter pattern finds the metadata block of the
    specification; the match spans the two markers and the block. *)
Lemma exec_frontmatter (text : jsstring) :
  exec frontmatterRegex text
  = match blockLength text with
    | Some j => Some (MatchResult 0 (firstn (4 + j + 4) text)
                        [(1, firstn j (skipn 4 text))])
    | None => None
    end.
Proof.
  assert (Hlater : forall s p prev, execFrom frontmatterRegex (S p) prev s = None).
  { induction s as [|c t IH]; intros p prev; [reflexivity|].
    cbn [execFrom].
    change (matchAt frontmatterRegex (S p) prev (c :: t)) with (@None rmatchResult).
    apply IH. }
  set (x0 := MState 0 None text []).
  assert (Hm : rmatch frontmatterRegex x0 Some
               = if startsWith text openMarker
                 then lazyAny (fun y => rmatch (seqOf (map chr closeMarker))
                                          (capture 1 (advance openMarker x0) y) Some)
                        (advance openMarker x0) (skipn 4 text)
                 else None).
  { change (rmatch frontmatterRegex x0 Some)
      with (rmatch (seqOf (map chr openMarker)) x0
              (fun x1 => repeatMatcher (rmatch any) false (S (0 + length (m_rest x1))) 0 None
                           x1 (fun y => rmatch (seqOf (map chr closeMarker))
                                          (capture 1 x1 y) Some))).
    rewrite rmatch_literal. subst x0. cbn [m_rest].
    destruct (startsWith text openMarker); [|reflexivity].
    pose proof (proj2 (proj2 (advance_fields openMarker (MState 0 None text [])))) as Hr.
    apply repeat_lazy_any;
      [exact Hr|rewrite Hr; cbn [m_rest]; change (length openMarker) with 4; lia]. }
  unfold blockLength.
  pose proof (lazyAny_close (advance openMarker x0) (skipn 4 text) (advance openMarker x0)
                (proj2 (proj2 (advance_fields openMarker x0)))) as Hl.
  cbv zeta in Hl.
  destruct (advance_fields openMarker x0) as [Hp [Hc Hr]].
  cbn [m_pos m_caps m_rest x0] in Hp, Hc, Hr. change (length openMarker) with 4 in *.
  assert (Hsome : forall y, rmatch frontmatterRegex x0 Some = Some y ->
            exec frontmatterRegex text
            = Some (MatchResult 0 (firstn (m_pos y - 0) text) (m_caps y))).
  { intros y E. unfold exec. destruct text as [|c t]; cbn [execFrom]; unfold matchAt;
      fold x0; rewrite E; reflexivity. }
  assert (Hnone : rmatch frontmatterRegex x0 Some = None ->
            exec frontmatterRegex text = None).
  { intros E. unfold exec. destruct text as [|c t]; cbn [execFrom]; unfold matchAt;
      fold x0; rewrite E; [reflexivity|apply Hlater]. }
  rewrite Hm in Hsome, Hnone.
  destruct (startsWith text openMarker); [|apply Hnone; reflexivity].
  destruct (closeOffset (skipn 4 text)) as [j|].
  - destruct Hl as [y [E [Hy Hcaps]]]. rewrite (Hsome y E).
    rewrite Hy, Hcaps, Hp, Hc, Hr.
    replace (0 + 4 + j + 4 - 0) with (4 + j + 4) by lia.
    replace (0 + 4 + j - (0 + 4)) with j by lia. reflexivity.
  - apply Hnone. exact Hl.
Qed.

End Frontmatter.

(* ------------------------------------------------------------------ *)
(** ** Parser *)
(* ------------------------------------------------------------------ *)

(** The metadata block that [parseSkill] sees: the text of capture group 1
    when the frontmatter pattern matches at the start. *)
Definition metadataBlock (text : jsstring) : option jsstring :=
  option_map (group 1) (exec frontmatterRegex text).

(** The error condition in the words of the specification: empty input, a
    block that is not a mapping, or a mapping without the key [name] or the
    key [description]. *)
Definition specErrorCondition (pf : Platform) (text : jsstring) : Prop :=
  blank text = true
  \/ (exists y, metadataBlock text = Some y
                /\ forall fields, yamlLoad pf y <> YamlLoaded (VObj fields))
  \/ (exists y fields,
        metadataBlock text = Some y
        /\ yamlLoad pf y = YamlLoaded (VObj fields)
        /\ (lookup (js "name") fields = None
            \/ lookup (js "description") fields = None)).

(** The error condition of the code: the loader throws, or the value is
    falsy or not an object, or [name] or [description] is falsy. *)
Definition rejectsBlock (pf : Platform) (y : jsstring) : Prop :=
  match yamlLoad pf y with
  | YamlLoaded v =>
      truthy v = false \/ typeofObject v = false
      \/ truthy (getProp v (js "name")) = false
      \/ truthy (getProp v (js "description")) = false
  | YamlException _ _ | YamlOtherError _ => True
  end.

Lemma metadataBlock_exec text y :
  metadataBlock text = Some y <->
  exists m, exec frontmatterRegex text = Some m /\ group 1 m = y.
Proof.
  unfold metadataBlock. destruct (exec frontmatterRegex text) as [m|]; cbn.
  - split; [intros H; inversion H; eauto|intros [m' [H1 H2]]; inversion H1; subst; auto].
  - split; [discriminate|intros [m' [H1 _]]; discriminate].
Qed.

Lemma metadataBlock_spec (text y : jsstring) :
  metadataBlock text = Some y <->
  exists j, blockLength text = Some j /\ y = firstn j (skipn 4 text).
Proof.
  unfold metadataBlock. rewrite exec_frontmatter.
  destruct (blockLength text) as [j|]; cbn [option_map].
  - change (group 1 (MatchResult 0 (firstn (4 + j + 4) text)
                       [(1, firstn j (skipn 4 text))]))
      with (firstn j (skipn 4 text)).
    split.
    + intros H. inversion H. eauto.
    + intros [j' [H ->]]. inversion H. reflexivity.
  - split; [discriminate|]. intros [j [H _]]. discriminate.
Qed.

(** C6, as the code has it.  A metadata block is present when the text
    starts with three dashes and a line feed and, after them, a line feed
    followed by three dashes occurs; the block is the text up to the first
    such occurrence.  [parseSkill] raises an error exactly when the
    input is empty or blank, or a metadata block is present at the start and
    its YAML fails to load, or loads to a value that is falsy or not an
    object, or to an object whose [name] or [description] is falsy (absent,
    null, empty, zero or false).  Without a metadata block a non-blank input
    parses, with the default metadata and the trimmed input as body.  Every
    document returned has a truthy [name]; when the name is a string it is
    not empty. *)
Theorem parseSkill_error_cases (pf : Platform) (text : jsstring) :
  (forall y, metadataBlock text = Some y <->
             exists j, blockLength text = Some j /\ y = firstn j (skipn 4 text))
  /\ ((exists e, parseSkill pf text = Throw e) <->
      blank text = true
      \/ exists y, metadataBlock text = Some y /\ rejectsBlock pf y)
  /\ (blank text = false -> metadataBlock text = None ->
      parseSkill pf text
      = Ok {| frontmatter := defaultFrontmatter; body := trim text;
              sections := extractSections (trim text) |})
  /\ (forall p, parseSkill pf text = Ok p ->
      truthy (getProp (frontmatter p) (js "name")) = true
      /\ forall s, getProp (frontmatter p) (js "name") = VStr s -> s <> []).
Proof.
  assert (Hname : forall p, parseSkill pf text = Ok p ->
                  truthy (getProp (frontmatter p) (js "name")) = true).
  { intros p. unfold parseSkill.
    destruct (_ || _); [discriminate|].
    destruct (exec frontmatterRegex text) as [m|].
    - destruct (yamlLoad pf (group 1 m)) as [v|msg l|msg]; try discriminate.
      destruct (_ || _); [discriminate|].
      destruct (truthy (getProp v (js "name"))) eqn:Hn; [|discriminate].
      destruct (truthy (getProp v (js "description"))); [|discriminate].
      cbn [negb]. intros H. inversion H; subst. exact Hn.
    - intros H. inversion H; subst. reflexivity. }
  split; [exact (metadataBlock_spec text)|].
  split; [|split].
  - unfold parseSkill, rejectsBlock, metadataBlock. fold (blank text).
    destruct (blank text); [split; eauto|].
    destruct (exec frontmatterRegex text) as [m|]; cbn [option_map].
    + destruct (yamlLoad pf (group 1 m)) as [v|msg l|msg] eqn:Ey.
      * destruct (truthy v) eqn:Hv; cbn [negb orb].
        2:{ split; [intros _; right; exists (group 1 m); rewrite Ey; auto|eauto]. }
        destruct (typeofObject v) eqn:Ho; cbn [negb].
        2:{ split; [intros _; right; exists (group 1 m); rewrite Ey; auto|eauto]. }
        destruct (truthy (getProp v (js "name"))) eqn:Hn; cbn [negb].
        2:{ split; [intros _; right; exists (group 1 m); rewrite Ey; auto|eauto]. }
        destruct (truthy (getProp v (js "description"))) eqn:Hd; cbn [negb].
        2:{ split; [intros _; right; exists (group 1 m); rewrite Ey; auto 6|eauto]. }
        split; [intros [e He]; discriminate|].
        intros [H|[y [Hy Hr]]]; [discriminate|].
        inversion Hy; subst. rewrite Ey in Hr.
        destruct Hr as [H|[H|[H|H]]]; congruence.
      * split; [intros _; right; exists (group 1 m); rewrite Ey; auto|eauto].
      * split; [intros _; right; exists (group 1 m); rewrite Ey; auto|eauto].
    + split; [intros [e He]; discriminate|].
      intros [H|[y [Hy _]]]; discriminate.
  - intros Hb Hm. unfold parseSkill. fold (blank text). rewrite Hb.
    unfold metadataBlock in Hm.
    destruct (exec frontmatterRegex text); [discriminate|reflexivity].
  - intros p Hp. split; [exact (Hname p Hp)|].
    intros s Hs. pose proof (Hname p Hp) as H. rewrite Hs in H.
    destruct s; [discriminate|discriminate].
Qed.

(** The document of the specification's parsing scenario. *)
Definition demoDocument : jsstring :=
  js "---" ++ [LF] ++ js "name: Test" ++ [LF] ++ js "description: Demo" ++ [LF]
  ++ js "---" ++ [LF] ++ [LF] ++ js "# Test" ++ [LF] ++ [LF] ++ js "Body".

Definition demoPlatform : Platform :=
  flatYaml [(js "name", VStr (js "Test")); (js "description", VStr (js "Demo"))].

Lemma parseSkill_error_cases_witness :
  parseSkill demoPlatform demoDocument
  = Ok {| frontmatter := VObj [(js "name", VStr (js "Test"));
                               (js "description", VStr (js "Demo"))];
          body := js "# Test" ++ [LF] ++ [LF] ++ js "Body";
          sections := [ {| heading := js "Test"; content := js "Body"; level := 1 |} ] |}
  /\ truthy (getProp (VObj [(js "name", VStr (js "Test"));
                            (js "description", VStr (js "Demo"))]) (js "name")) = true
  /\ parseSkill asciiPlatform (js "Just text")
     = Ok {| frontmatter := defaultFrontmatter; body := trim (js "Just text");
             sections := extractSections (trim (js "Just text")) |}.
Proof.
  assert (E : parseSkill demoPlatform demoDocument
              = Ok {| frontmatter := VObj [(js "name", VStr (js "Test"));
                                           (js "description", VStr (js "Demo"))];
                      body := js "# Test" ++ [LF] ++ [LF] ++ js "Body";
                      sections := [ {| heading := js "Test"; content := js "Body";
                                       level := 1 |} ] |}).
  { vm_compute. reflexivity. }
  split; [exact E|]. split.
  - exact (proj1 (proj2 (proj2 (proj2 (parseSkill_error_cases demoPlatform demoDocument)))
                    _ E)).
  - exact (proj1 (proj2 (proj2 (parseSkill_error_cases asciiPlatform (js "Just text"))))
             eq_refl eq_refl).
Defined.

(** A metadata block whose [name] key is present with the value 0, as
    js-yaml loads it. *)
Definition emptyNameDocument : jsstring :=
  js "---" ++ [LF] ++ js "name: 0" ++ [LF] ++ js "description: Demo" ++ [LF]
  ++ js "---" ++ [LF] ++ js "Body".

Definition emptyNamePlatform : Platform :=
  flatYaml [(js "name", VNum 0); (js "description", VStr (js "Demo"))].

(** C6 as the specification words it fails: the block is a mapping that has
    both keys, and [parseSkill] raises "missing required field: name". *)
Lemma parseSkill_rejects_empty_name :
  (exists e, parseSkill emptyNamePlatform emptyNameDocument = Throw e
             /\ message e = js "Skill frontmatter missing required field: name")
  /\ ~ specErrorCondition emptyNamePlatform emptyNameDocument.
Proof.
  split.
  - eexists. split; vm_compute; reflexivity.
  - intros [H|[[y [Hy Hn]]|[y [fields [Hy [Hl H]]]]]].
    + vm_compute in H. discriminate.
    + apply (Hn [(js "name", VNum 0); (js "description", VStr (js "Demo"))]). reflexivity.
    + cbn in Hl. inversion Hl; subst fields.
      destruct H as [H|H]; vm_compute in H; discriminate.
Qed.

(* ------------------------------------------------------------------ *)
(** ** Lines *)
(* ------------------------------------------------------------------ *)

Section SplitJoin.

Variable sep : N.

Lemma split_not_nil (s : jsstring) : split sep s <> [].
Proof.
  destruct s as [|c t]; cbn [split]; [discriminate|].
  destruct (N.eqb c sep); [discriminate|].
  destruct (split sep t); discriminate.
Qed.

Lemma join_cons (p : jsstring) (ps : list jsstring) :
  ps <> [] -> join [sep] (p :: ps) = p ++ sep :: join [sep] ps.
Proof. destruct ps; [congruence|reflexivity]. Qed.

Lemma join_split (s : jsstring) : join [sep] (split sep s) = s.
Proof.
  induction s as [|c t IH]; [reflexivity|].
  cbn [split]. destruct (N.eqb c sep) eqn:E.
  - apply N.eqb_eq in E. subst c.
    rewrite join_cons by apply split_not_nil. rewrite IH. reflexivity.
  - pose proof (split_not_nil t) as Hne.
    destruct (split sep t) as [|l ls]; [congruence|].
    destruct ls as [|l' ls'].
    + cbn [join] in *. rewrite IH. reflexivity.
    + rewrite join_cons in * by discriminate. cbn [app]. rewrite IH. reflexivity.
Qed.

Lemma split_no_sep (s : jsstring) : Forall (fun l => ~ In sep l) (split sep s).
Proof.
  induction s as [|c t IH]; cbn [split].
  - constructor; [intros []|constructor].
  - destruct (N.eqb c sep) eqn:E.
    + constructor; [intros []|exact IH].
    + destruct (split sep t) as [|l ls]; [repeat constructor; intros [H|[]]|].
      * apply N.eqb_neq in E. congruence.
      * inversion IH; subst. constructor; [|assumption].
        intros [H|H]; [apply N.eqb_neq in E; congruence|contradiction].
Qed.

Lemma split_line (l : jsstring) : ~ In sep l -> split sep l = [l].
Proof.
  induction l as [|c t IH]; intros H; [reflexivity|].
  cbn [split]. destruct (N.eqb c sep) eqn:E.
  - apply N.eqb_eq in E. exfalso. apply H. left. exact E.
  - rewrite IH; [reflexivity|]. intros Hin. apply H. right. exact Hin.
Qed.

Lemma split_app_sep (l rest : jsstring) :
  ~ In sep l -> split sep (l ++ sep :: rest) = l :: split sep rest.
Proof.
  induction l as [|c t IH]; intros H.
  - cbn [app split]. rewrite N.eqb_refl. reflexivity.
  - cbn [app split]. destruct (N.eqb c sep) eqn:E.
    + apply N.eqb_eq in E. exfalso. apply H. left. exact E.
    + rewrite IH; [reflexivity|]. intros Hin. apply H. right. exact Hin.
Qed.

Lemma split_join (ls : list jsstring) :
  ls <> [] -> Forall (fun l => ~ In sep l) ls -> split sep (join [sep] ls) = ls.
Proof.
  induction ls as [|l ls IH]; intros Hne Hall; [congruence|].
  inversion Hall; subst.
  destruct ls as [|l' ls'].
  - cbn [join]. apply split_line. assumption.
  - rewrite join_cons by discriminate. rewrite split_app_sep by assumption.
    rewrite IH; [reflexivity|discriminate|assumption].
Qed.

End SplitJoin.

(* ------------------------------------------------------------------ *)
(** ** Section splitting *)
(* ------------------------------------------------------------------ *)

(** A line whose trimmed text starts with the fence marker. *)
Definition isFenceLine (line : jsstring) : bool := startsWith (trim line) fence.

(** A heading-shaped line: the header pattern matches it. *)
Definition isHeading (line : jsstring) : bool :=
  match exec headerRegex line with Some _ => true | None => false end.

(** The running fence toggle: flipped by every fence line. *)
Definition toggle (b : bool) (line : jsstring) : bool :=
  if isFenceLine line then negb b else b.

Definition fenceAfter (b : bool) (lines : list jsstring) : bool :=
  fold_left toggle lines b.

(** A boundary: a heading-shaped line at which the toggle is off. *)
Definition isBoundary (b : bool) (line : jsstring) : bool :=
  negb (toggle b line) && isHeading line.

(** The boundaries among the lines, the toggle being [b] before them. *)
Fixpoint boundaries (b : bool) (lines : list jsstring) : list jsstring :=
  match lines with
  | [] => []
  | l :: ls => (if isBoundary b l then [l] else []) ++ boundaries (toggle b l) ls
  end.

(** Heading text and level of a heading-shaped line. *)
Definition headingOf (line : jsstring) : jsstring * nat :=
  match exec headerRegex line with
  | Some m => (trim (group 2 m), length (group 1 m))
  | None => ([], 0)
  end.

Definition openSection (line : jsstring) : SkillSection :=
  {| heading := fst (headingOf line); content := []; level := snd (headingOf line) |}.

Definition syntheticSection (text : jsstring) : SkillSection :=
  {| heading := js "Content"; content := trim text; level := 1 |}.

Definition headOf (s : SkillSection) : jsstring * nat := (heading s, level s).

Section SectionFacts.

Lemma header_needs_hash (line : jsstring) :
  startsWith line [hash] = false -> isHeading line = false.
Proof.
  intros H. unfold isHeading, exec.
  assert (Hlater : forall s p prev, execFrom headerRegex (S p) prev s = None).
  { induction s as [|c t IH]; intros p prev; [reflexivity|].
    cbn [execFrom]. change (matchAt headerRegex (S p) prev (c :: t)) with (@None rmatchResult).
    apply IH. }
  destruct line as [|c t].
  - reflexivity.
  - cbn [startsWith] in H. rewrite andb_true_r in H.
    cbn [execFrom].
    assert (Hm : matchAt headerRegex 0 None (c :: t) = None).
    { unfold matchAt, headerRegex. cbn -[N.eqb]. rewrite H. reflexivity. }
    rewrite Hm, Hlater. reflexivity.
Qed.

Lemma trimStart_keeps (c : N) (t : jsstring) :
  isWhiteSpace c = false -> trimStart (c :: t) = c :: t.
Proof. intros H. cbn [trimStart]. rewrite H. reflexivity. Qed.

Lemma trimStart_snoc (s : jsstring) (c : N) :
  isWhiteSpace c = false -> exists s', trimStart (s ++ [c]) = s' ++ [c].
Proof.
  intros H. induction s as [|d s IH].
  - exists []. cbn [app trimStart]. rewrite H. reflexivity.
  - cbn [app trimStart]. destruct (isWhiteSpace d); [exact IH|].
    exists (d :: s). reflexivity.
Qed.

Lemma trim_keeps_head (c : N) (t : jsstring) :
  isWhiteSpace c = false -> exists t', trim (c :: t) = c :: t'.
Proof.
  intros H. unfold trim, trimEnd. rewrite trimStart_keeps by exact H.
  cbn [rev]. destruct (trimStart_snoc (rev t) c H) as [s' E].
  rewrite E, rev_app_distr. cbn [rev app]. eauto.
Qed.

Lemma heading_not_fence (line : jsstring) :
  isHeading line = true -> isFenceLine line = false.
Proof.
  intros H. destruct (startsWith line [hash]) eqn:Hs.
  - destruct line as [|c t]; [discriminate|].
    cbn [startsWith] in Hs. rewrite andb_true_r in Hs.
    apply N.eqb_eq in Hs. subst c.
    destruct (trim_keeps_head hash t eq_refl) as [t' E].
    unfold isFenceLine. rewrite E. reflexivity.
  - rewrite (header_needs_hash line Hs) in H. discriminate.
Qed.

Lemma fence_not_heading (line : jsstring) :
  isFenceLine line = true -> isHeading line = false.
Proof.
  intros H. destruct (isHeading line) eqn:E; [|reflexivity].
  rewrite (heading_not_fence line E) in H. discriminate.
Qed.

Lemma stepLine_boundary (st : LoopState) (line : jsstring) :
  isBoundary (inCodeBlock st) line = true ->
  stepLine st line
  = {| l_sections :=
         match currentSection st with
         | Some cs => l_sections st ++ [closeSection cs (currentContent st)]
         | None => l_sections st
         end;
       currentSection := Some (openSection line);
       currentContent := [];
       inCodeBlock := false |}.
Proof.
  unfold isBoundary, toggle, isFenceLine, isHeading, stepLine, openSection, headingOf.
  destruct (if startsWith (trim line) fence then negb (inCodeBlock st) else inCodeBlock st);
    [discriminate|].
  cbn [negb andb]. destruct (exec headerRegex line); [reflexivity|discriminate].
Qed.

Lemma stepLine_plain (st : LoopState) (line : jsstring) :
  isBoundary (inCodeBlock st) line = false ->
  stepLine st line
  = {| l_sections := l_sections st;
       currentSection := currentSection st;
       currentContent := currentContent st ++ [line];
       inCodeBlock := toggle (inCodeBlock st) line |}.
Proof.
  unfold isBoundary, toggle, isFenceLine, isHeading, stepLine.
  destruct (if startsWith (trim line) fence then negb (inCodeBlock st) else inCodeBlock st);
    cbn [negb andb]; [reflexivity|].
  destruct (exec headerRegex line); [discriminate|reflexivity].
Qed.

Lemma boundary_toggle (b : bool) (line : jsstring) :
  isBoundary b line = true -> toggle b line = false /\ b = false.
Proof.
  unfold isBoundary. intros H. apply andb_true_iff in H. destruct H as [Ht Hh].
  apply negb_true_iff in Ht. split; [exact Ht|].
  unfold toggle in Ht. rewrite (heading_not_fence line Hh) in Ht. exact Ht.
Qed.

Lemma boundaries_app (b : bool) (l1 l2 : list jsstring) :
  boundaries b (l1 ++ l2) = boundaries b l1 ++ boundaries (fenceAfter b l1) l2.
Proof.
  revert b. induction l1 as [|l ls IH]; intros b; [reflexivity|].
  cbn [app boundaries fenceAfter fold_left]. rewrite IH, app_assoc. reflexivity.
Qed.

(** Without a boundary the loop only accumulates lines. *)
Lemma fold_no_boundary (lines : list jsstring) :
  forall st,
    boundaries (inCodeBlock st) lines = [] ->
    fold_left stepLine lines st
    = {| l_sections := l_sections st;
         currentSection := currentSection st;
         currentContent := currentContent st ++ lines;
         inCodeBlock := fenceAfter (inCodeBlock st) lines |}.
Proof.
  induction lines as [|l ls IH]; intros st H.
  - cbn [fold_left fenceAfter]. rewrite app_nil_r. destruct st; reflexivity.
  - cbn [boundaries] in H. destruct (isBoundary (inCodeBlock st) l) eqn:E; [discriminate|].
    cbn [app] in H. cbn [fold_left]. rewrite (stepLine_plain st l E).
    rewrite IH by exact H. cbn [l_sections currentSection currentContent inCodeBlock].
    rewrite <- app_assoc. reflexivity.
Qed.

(** The state of the loop right after the first boundary [h]: whatever
    came before is gone. *)
Definition afterFirstHeading (h : jsstring) : LoopState :=
  {| l_sections := []; currentSection := Some (openSection h); currentContent := [];
     inCodeBlock := false |}.

Lemma fold_first_boundary (pre : list jsstring) (h : jsstring) (rest : list jsstring) :
  boundaries false pre = [] ->
  isBoundary (fenceAfter false pre) h = true ->
  fold_left stepLine (pre ++ h :: rest) initialLoopState
  = fold_left stepLine rest (afterFirstHeading h).
Proof.
  intros Hpre Hh. rewrite fold_left_app.
  rewrite (fold_no_boundary pre initialLoopState Hpre).
  cbn [fold_left]. rewrite stepLine_boundary by exact Hh. reflexivity.
Qed.

Lemma boundaries_first (lines : list jsstring) :
  forall b, boundaries b lines <> [] ->
  exists pre h rest,
    lines = pre ++ h :: rest /\ boundaries b pre = []
    /\ isBoundary (fenceAfter b pre) h = true
    /\ boundaries b lines = h :: boundaries false rest.
Proof.
  induction lines as [|l ls IH]; intros b H; [cbn in H; congruence|].
  cbn [boundaries] in H. destruct (isBoundary b l) eqn:E.
  - exists [], l, ls. cbn [app boundaries fenceAfter fold_left]. rewrite E.
    destruct (boundary_toggle b l E) as [Ht _]. rewrite Ht. auto.
  - cbn [app] in H. destruct (IH _ H) as [pre [h [rest [E1 [E2 [E3 E4]]]]]].
    exists (l :: pre), h, rest. cbn [app boundaries fenceAfter fold_left].
    rewrite E, E1, E2. cbn [app]. repeat split; auto.
    rewrite <- E4, <- E1. reflexivity.
Qed.

(** With a section open, the sections that the loop returns are the
    closed ones, the open one, and one per boundary still to come. *)
Lemma heads_with_open_section (lines : list jsstring) :
  forall st cs,
    currentSection st = Some cs ->
    map headOf (finish (fold_left stepLine lines st))
    = map headOf (l_sections st) ++ headOf cs
      :: map headingOf (boundaries (inCodeBlock st) lines).
Proof.
  induction lines as [|l ls IH]; intros st cs Hcs.
  - cbn [fold_left boundaries map]. unfold finish. rewrite Hcs.
    rewrite map_app. reflexivity.
  - cbn [fold_left boundaries]. destruct (isBoundary (inCodeBlock st) l) eqn:E.
    + rewrite (stepLine_boundary st l E), Hcs.
      erewrite IH by reflexivity.
      cbn [l_sections inCodeBlock app map].
      destruct (boundary_toggle _ _ E) as [Ht _]. rewrite Ht.
      rewrite map_app, <- app_assoc. cbn [map app].
      unfold headOf at 3, openSection. cbn [heading level].
      rewrite <- surjective_pairing. reflexivity.
    + rewrite (stepLine_plain st l E).
      erewrite IH by (cbn [currentSection]; exact Hcs). reflexivity.
Qed.

(** A text without boundary becomes one synthetic section. *)
Lemma extractSections_no_boundary (text : jsstring) :
  boundaries false (split LF text) = [] ->
  extractSections text = [syntheticSection text].
Proof.
  intros H. unfold extractSections.
  rewrite (fold_no_boundary _ initialLoopState H).
  unfold finish. cbn [currentSection currentContent l_sections initialLoopState app].
  pose proof (split_not_nil LF text) as Hne.
  destruct (split LF text) as [|l ls] eqn:E; [congruence|].
  rewrite <- E, join_split. reflexivity.
Qed.

End SectionFacts.

(* ------------------------------------------------------------------ *)
(** ** The shape of a heading line *)
(* ------------------------------------------------------------------ *)

(** Whether a matcher result is a match. *)
Definition accepts (o : option mstate) : bool :=
  match o with Some _ => true | None => false end.

(** Acceptance of a greedy star of a class before a continuation that
    accepts according to [f] of the input left. *)
Fixpoint starAccepts (p : N -> bool) (f : jsstring -> bool) (s : jsstring) : bool :=
  match s with
  | c :: t => if p c then starAccepts p f t || f s else f s
  | [] => f []
  end.

(** What the bounded greedy repetition of a class does. *)
Fixpoint greedyUpTo (p : N -> bool) (k : cont) (n : nat) (x : mstate) (s : jsstring)
    {struct n} : option mstate :=
  match n with
  | O => k x
  | S n' =>
      match s with
      | c :: t =>
          if p c then orElse (greedyUpTo p k n' (step c t x) t) (fun _ => k x) else k x
      | [] => k x
      end
  end.

Fixpoint upToAccepts (p : N -> bool) (f : jsstring -> bool) (n : nat) (s : jsstring) : bool :=
  match n with
  | O => f s
  | S n' =>
      match s with
      | c :: t => if p c then upToAccepts p f n' t || f s else f s
      | [] => f []
      end
  end.

(** A code unit that [.] matches comes next. *)
Definition textStarts (s : jsstring) : bool :=
  match s with c :: _ => negb (isLineTerminator c) | [] => false end.

(** One or more whitespace code units, then text. *)
Definition spaceThenText (s : jsstring) : bool :=
  match s with
  | c :: t => isWhiteSpace c && starAccepts isWhiteSpace textStarts t
  | [] => false
  end.

(** A heading line in the words of the specification: 1 to 6 leading [#],
    then whitespace, then text. *)
Definition headingShape (line : jsstring) : bool :=
  match line with
  | c :: t => N.eqb hash c && upToAccepts (N.eqb hash) spaceThenText 5 t
  | [] => false
  end.

Section HeadingShape.

Lemma accepts_orElse (a : option mstate) (b : unit -> option mstate) :
  accepts (orElse a b) = accepts a || accepts (b tt).
Proof. destruct a; reflexivity. Qed.

Lemma greedyStar_accepts (p : N -> bool) (f : jsstring -> bool) (k : cont) :
  (forall y, accepts (k y) = f (m_rest y)) ->
  forall s x, m_rest x = s -> accepts (greedyStar p k x s) = starAccepts p f s.
Proof.
  intros Hk. induction s as [|c t IH]; intros x Hx; cbn [greedyStar starAccepts].
  - rewrite Hk, Hx. reflexivity.
  - destruct (p c).
    + rewrite accepts_orElse, IH by reflexivity. rewrite Hk, Hx. reflexivity.
    + rewrite Hk, Hx. reflexivity.
Qed.

Lemma greedyUpTo_accepts (p : N -> bool) (f : jsstring -> bool) (k : cont) :
  (forall y, accepts (k y) = f (m_rest y)) ->
  forall n s x, m_rest x = s -> accepts (greedyUpTo p k n x s) = upToAccepts p f n s.
Proof.
  intros Hk. induction n as [|n IH]; intros s x Hx; cbn [greedyUpTo upToAccepts].
  - rewrite Hk, Hx. reflexivity.
  - destruct s as [|c t]; [rewrite Hk, Hx; reflexivity|].
    destruct (p c).
    + rewrite accepts_orElse, IH by reflexivity. rewrite Hk, Hx. reflexivity.
    + rewrite Hk, Hx. reflexivity.
Qed.

Lemma repeat_upTo_class (p : N -> bool) (n : nat) :
  forall s x fuel k,
    m_rest x = s -> length s < fuel ->
    repeatMatcher (rmatch (Cls p)) true fuel 0 (Some n) x k = greedyUpTo p k n x s.
Proof.
  induction n as [|n IH]; intros s x fuel k Hx Hfuel;
    (destruct fuel as [|fuel]; [lia|]).
  - reflexivity.
  - cbn [repeatMatcher rmatch greedyUpTo]. rewrite Hx.
    destruct s as [|c t]; [reflexivity|].
    destruct (p c); [|reflexivity].
    cbn [step m_pos].
    replace (Nat.eqb (S (m_pos x)) (m_pos x)) with false
      by (symmetry; apply Nat.eqb_neq; lia).
    rewrite andb_false_r. cbn [option_map pred].
    rewrite (IH t); [reflexivity|reflexivity|cbn [length] in Hfuel; lia].
Qed.

Lemma starAccepts_true (p : N -> bool) (s : jsstring) :
  starAccepts p (fun _ => true) s = true.
Proof.
  induction s as [|c t IH]; cbn [starAccepts]; [reflexivity|].
  destruct (p c); [apply orb_true_r|reflexivity].
Qed.

(** The text group accepts when a code unit that is no line terminator
    comes next. *)
Lemma text_accepts (y : mstate) :
  accepts (rmatch (Grp 2 (plus dot)) y Some) = textStarts (m_rest y).
Proof.
  cbn [rmatch]. unfold dot. rewrite rmatch_plus_class. unfold textStarts.
  destruct (m_rest y) as [|c t]; [reflexivity|].
  destruct (negb (isLineTerminator c)); [|reflexivity].
  rewrite (greedyStar_accepts _ (fun _ => true)); [apply starAccepts_true| |reflexivity].
  reflexivity.
Qed.

Lemma space_text_accepts (y : mstate) :
  accepts (rmatch (Seq (plus ws) (Grp 2 (plus dot))) y Some) = spaceThenText (m_rest y).
Proof.
  cbn [rmatch]. unfold ws at 1. rewrite rmatch_plus_class. unfold spaceThenText.
  destruct (m_rest y) as [|c t]; [reflexivity|].
  destruct (isWhiteSpace c); [|reflexivity].
  cbn [andb]. apply greedyStar_accepts; [|reflexivity].
  intros z. apply (text_accepts z).
Qed.

Lemma header_accepts (line : jsstring) :
  accepts (rmatch headerRegex (MState 0 None line []) Some) = headingShape line.
Proof.
  unfold headerRegex. cbn [seqOf].
  change (rmatch (Seq Bol (Seq (Grp 1 (Rep true 1 (Some 6) (chr hash)))
                             (Seq (plus ws) (Grp 2 (plus dot)))))
            (MState 0 None line []) Some)
    with (repeatMatcher (rmatch (Cls (N.eqb hash))) true (S (1 + length line)) 1 (Some 6)
            (MState 0 None line [])
            (fun y => rmatch (Seq (plus ws) (Grp 2 (plus dot)))
                        (capture 1 (MState 0 None line []) y) Some)).
  cbn [repeatMatcher rmatch m_rest]. unfold headingShape.
  destruct line as [|c t]; [reflexivity|].
  destruct (N.eqb hash c); [|reflexivity].
  cbn [andb Nat.eqb option_map pred length Nat.add].
  rewrite (repeat_upTo_class (N.eqb hash) 5 t); [|reflexivity|cbn [length]; lia].
  apply greedyUpTo_accepts; [|reflexivity].
  intros y. exact (space_text_accepts (capture 1 (MState 0 None (c :: t) []) y)).
Qed.

(** The header pattern matches exactly the lines of the heading shape. *)
Lemma isHeading_shape (line : jsstring) : isHeading line = headingShape line.
Proof.
  rewrite <- header_accepts. unfold isHeading, exec.
  assert (Hlater : forall s p prev, execFrom headerRegex (S p) prev s = None).
  { induction s as [|c t IH]; intros p prev; [reflexivity|].
    cbn [execFrom]. change (matchAt headerRegex (S p) prev (c :: t)) with (@None rmatchResult).
    apply IH. }
  destruct line as [|c t]; cbn [execFrom]; unfold matchAt.
  - destruct (rmatch headerRegex (MState 0 None [] []) Some); reflexivity.
  - destruct (rmatch headerRegex (MState 0 None (c :: t) []) Some); [reflexivity|].
    rewrite Hlater. reflexivity.
Qed.

Lemma upToAccepts_spec (f : jsstring -> bool) (n : nat) :
  forall s,
    upToAccepts (N.eqb hash) f n s = true <->
    exists j u, j <= n /\ s = repeat hash j ++ u /\ f u = true.
Proof.
  induction n as [|n IH]; intros s; cbn [upToAccepts].
  - split.
    + intros H. exists 0, s. repeat split; [lia|exact H].
    + intros [j [u [Hj [Hs Hf]]]]. assert (j = 0) by lia. subst j s. exact Hf.
  - destruct s as [|c t].
    + split.
      * intros H. exists 0, []. repeat split; [lia|exact H].
      * intros [j [u [_ [Hs Hf]]]]. destruct j; [|discriminate].
        cbn [repeat app] in Hs. subst u. exact Hf.
    + destruct (N.eqb_spec hash c) as [<-|Hne].
      * rewrite orb_true_iff, IH. split.
        -- intros [[j [u [Hj [Hs Hf]]]]|H].
           ++ exists (S j), u. subst t. repeat split; [lia|exact Hf].
           ++ exists 0, (hash :: t). repeat split; [lia|exact H].
        -- intros [j [u [Hj [Hs Hf]]]]. destruct j as [|j].
           ++ right. cbn [repeat app] in Hs. subst u. exact Hf.
           ++ left. cbn [repeat app] in Hs. inversion Hs; subst t.
              exists j, u. repeat split; [lia|exact Hf].
      * split.
        -- intros H. exists 0, (c :: t). repeat split; [lia|exact H].
        -- intros [j [u [_ [Hs Hf]]]]. destruct j as [|j].
           ++ cbn [repeat app] in Hs. subst u. exact Hf.
           ++ cbn [repeat app] in Hs. inversion Hs; congruence.
Qed.

(** The heading shape spelled out: between 1 and 6 [#], and after them
    whitespace followed by text. *)
Lemma headingShape_spec (line : jsstring) :
  headingShape line = true <->
  exists n u, 1 <= n <= 6 /\ line = repeat hash n ++ u /\ spaceThenText u = true.
Proof.
  unfold headingShape. destruct line as [|c t].
  - split; [discriminate|].
    intros [n [u [Hn [Hs _]]]]. destruct n; [lia|discriminate].
  - rewrite andb_true_iff, upToAccepts_spec, N.eqb_eq. split.
    + intros [<- [j [u [Hj [Hs Hf]]]]]. exists (S j), u. subst t.
      repeat split; [lia|lia|exact Hf].
    + intros [n [u [Hn [Hs Hf]]]]. destruct n as [|n]; [lia|].
      cbn [repeat app] in Hs. inversion Hs; subst.
      split; [reflexivity|]. exists n, u. repeat split; [lia|exact Hf].
Qed.

End HeadingShape.

Example heading_examples :
  isHeading (js "# Title") = true
  /\ isHeading (js "###### Deep") = true
  /\ isHeading (js "####### Seven") = false
  /\ isHeading (js "#NoSpace") = false
  /\ isHeading (js " # Indented") = false
  /\ isHeading (js "#") = false
  /\ headingOf (js "##  Usage  ") = (js "Usage", 2).
Proof. vm_compute. repeat split. Qed.

Section FenceFacts.

Definition plainLine (l : jsstring) : Prop :=
  startsWith l [hash] = false /\ isFenceLine l = false.

Lemma plain_lines (ls : list jsstring) (b : bool) :
  Forall plainLine ls -> boundaries b ls = [] /\ fenceAfter b ls = b.
Proof.
  induction 1 as [|l ls [Hh Hf] _ IH]; [split; reflexivity|].
  cbn [boundaries fenceAfter fold_left]. unfold isBoundary, toggle. rewrite Hf.
  rewrite (header_needs_hash l Hh), andb_false_r. exact IH.
Qed.

Lemma fenced_lines (ls : list jsstring) :
  Forall (fun l => isFenceLine l = false) ls ->
  boundaries true ls = [] /\ fenceAfter true ls = true.
Proof.
  induction 1 as [|l ls Hf _ IH]; [split; reflexivity|].
  cbn [boundaries fenceAfter fold_left]. unfold isBoundary, toggle. rewrite Hf.
  exact IH.
Qed.

Lemma single_fence_no_boundary (pre inner post : list jsstring) (opening closing : jsstring) :
  Forall plainLine pre ->
  isFenceLine opening = true ->
  Forall (fun l => isFenceLine l = false) inner ->
  isFenceLine closing = true ->
  Forall plainLine post ->
  boundaries false (pre ++ [opening] ++ inner ++ [closing] ++ post) = [].
Proof.
  intros Hpre Ho Hin Hc Hpost.
  destruct (plain_lines pre false Hpre) as [B1 F1].
  destruct (fenced_lines inner Hin) as [B2 F2].
  destruct (plain_lines post false Hpost) as [B3 _].
  rewrite boundaries_app, B1, F1. cbn [app boundaries].
  unfold isBoundary at 1, toggle at 1 2. rewrite Ho. cbn [negb andb app].
  rewrite boundaries_app, B2, F2. cbn [app boundaries].
  unfold isBoundary at 1, toggle at 1 2. rewrite Hc.
  rewrite (fence_not_heading closing Hc). cbn [negb andb app]. exact B3.
Qed.

(** With a boundary, headings and levels of the sections are those of the
    boundary lines. *)
Lemma extractSections_heads (text : jsstring) :
  boundaries false (split LF text) <> [] ->
  map headOf (extractSections text) = map headingOf (boundaries false (split LF text)).
Proof.
  intros Hne. destruct (boundaries_first (split LF text) false Hne)
    as [pre [h [rest [E1 [E2 [E3 E4]]]]]].
  unfold extractSections. rewrite E1.
  rewrite (fold_first_boundary pre h rest E2 E3).
  rewrite (heads_with_open_section rest (afterFirstHeading h) (openSection h) eq_refl).
  rewrite <- E1, E4. cbn [afterFirstHeading l_sections inCodeBlock map app].
  unfold headOf, openSection. cbn [heading level].
  rewrite <- surjective_pairing. reflexivity.
Qed.

End FenceFacts.

(** C7.  The header pattern matches exactly the lines that start with 1 to
    6 [#], then whitespace, then text.  A boundary is such a heading-shaped
    line at which the running fence toggle is off; a line at which the
    toggle is on is never one.  The
    sections that [extractSections] returns start at the boundaries and only
    there: with at least one boundary, headings and levels of the sections
    are those of the boundary lines, in order; without any, there is exactly
    one section, the synthetic one over the whole text.  So a text whose
    lines outside one fenced block neither start with # nor open a fence
    gives exactly one section, whose content is the whole trimmed text, the
    fenced block included, whatever lines the block holds. *)
Theorem sections_respect_fences (text : jsstring) :
  let lines := split LF text in
  (forall l, isHeading l = true <->
             exists n u, 1 <= n <= 6 /\ l = repeat hash n ++ u
                         /\ spaceThenText u = true)
  /\ (forall b l, toggle b l = true -> isBoundary b l = false)
  /\ (boundaries false lines <> [] ->
      map headOf (extractSections text) = map headingOf (boundaries false lines))
  /\ (boundaries false lines = [] -> extractSections text = [syntheticSection text])
  /\ length (extractSections text) = Nat.max 1 (length (boundaries false lines))
  /\ (forall pre opening inner closing post,
        lines = pre ++ [opening] ++ inner ++ [closing] ++ post ->
        Forall plainLine pre ->
        isFenceLine opening = true ->
        Forall (fun l => isFenceLine l = false) inner ->
        isFenceLine closing = true ->
        Forall plainLine post ->
        extractSections text
        = [ {| heading := js "Content"; content := trim text; level := 1 |} ]).
Proof.
  intros lines.
  assert (H1 : boundaries false lines <> [] ->
               map headOf (extractSections text) = map headingOf (boundaries false lines)).
  { apply extractSections_heads. }
  assert (H2 : boundaries false lines = [] -> extractSections text = [syntheticSection text]).
  { apply extractSections_no_boundary. }
  split.
  { intros l. rewrite isHeading_shape. apply headingShape_spec. }
  split.
  { intros b l Ht. unfold isBoundary. rewrite Ht. reflexivity. }
  split; [exact H1|]. split; [exact H2|]. split.
  - destruct (boundaries false lines) as [|h hs] eqn:E.
    + rewrite H2 by reflexivity. reflexivity.
    + rewrite <- (length_map headOf), H1 by discriminate.
      rewrite length_map. cbn [length]. lia.
  - intros pre opening inner closing post E Hpre Ho Hin Hc Hpost.
    apply H2. rewrite E.
    apply single_fence_no_boundary; assumption.
Qed.

(** A text with a comment line in a fenced block between two plain lines. *)
Definition fencedDocument : jsstring :=
  js "Install it:" ++ [LF] ++ js "```bash" ++ [LF] ++ js "# update first" ++ [LF]
  ++ js "apt update" ++ [LF] ++ js "```" ++ [LF] ++ js "Done.".

Lemma sections_respect_fences_witness :
  extractSections fencedDocument
  = [ {| heading := js "Content"; content := trim fencedDocument; level := 1 |} ].
Proof.
  refine (proj2 (proj2 (proj2 (proj2 (proj2 (sections_respect_fences fencedDocument)))))
            [js "Install it:"] (js "```bash") [js "# update first"; js "apt update"]
            (js "```") [js "Done."] _ _ _ _ _ _).
  - vm_compute. reflexivity.
  - repeat constructor.
  - reflexivity.
  - repeat constructor.
  - reflexivity.
  - repeat constructor.
Defined.

(** C10.  When the lines of a body are [pre], then [h], then [rest], where
    [h] is the first boundary (a heading-shaped line at which the fence
    toggle is off), the sections are those of the text that starts at [h]:
    they are computed from [h] and [rest] alone, so the lines of [pre] are in
    no section, and the first section is the one that [h] opens.  The same
    sections result for every other preamble before the same lines.  The
    body field of a parsed document is the text the sections were cut from,
    preamble included.  Only a body without any boundary gives the single
    synthetic section over the whole body. *)
Theorem sections_drop_preamble
    (text : jsstring) (pre : list jsstring) (h : jsstring) (rest : list jsstring) :
  split LF text = pre ++ h :: rest ->
  boundaries false pre = [] ->
  isBoundary (fenceAfter false pre) h = true ->
  extractSections text = extractSections (join [LF] (h :: rest))
  /\ extractSections text = finish (fold_left stepLine rest (afterFirstHeading h))
  /\ (forall text' pre',
        split LF text' = pre' ++ h :: rest ->
        boundaries false pre' = [] ->
        isBoundary (fenceAfter false pre') h = true ->
        extractSections text' = extractSections text)
  /\ (exists first others,
        extractSections text = first :: others /\ headOf first = headingOf h)
  /\ (forall pf document p,
        parseSkill pf document = Ok p -> body p = text ->
        sections p = extractSections text /\ join [LF] (pre ++ h :: rest) = body p)
  /\ (forall other, boundaries false (split LF other) = [] ->
        extractSections other = [syntheticSection other]).
Proof.
  intros Hsplit Hpre Hh.
  assert (Hfold : forall t p, split LF t = p ++ h :: rest ->
                   boundaries false p = [] ->
                   isBoundary (fenceAfter false p) h = true ->
                   extractSections t = finish (fold_left stepLine rest (afterFirstHeading h))).
  { intros t p E B I. unfold extractSections. rewrite E.
    rewrite (fold_first_boundary p h rest B I). reflexivity. }
  assert (Hoff : fenceAfter false pre = false).
  { destruct (boundary_toggle _ _ Hh) as [_ Hb]. exact Hb. }
  assert (Hlines : split LF (join [LF] (h :: rest)) = [] ++ h :: rest).
  { cbn [app]. apply split_join; [discriminate|].
    pose proof (split_no_sep LF text) as Hall. rewrite Hsplit in Hall.
    apply Forall_app in Hall. tauto. }
  split.
  { rewrite (Hfold text pre Hsplit Hpre Hh).
    symmetry. apply (Hfold _ [] Hlines eq_refl).
    cbn [fenceAfter fold_left]. rewrite <- Hoff. exact Hh. }
  split; [exact (Hfold text pre Hsplit Hpre Hh)|].
  split.
  { intros text' pre' E B I. rewrite (Hfold text' pre' E B I).
    symmetry. exact (Hfold text pre Hsplit Hpre Hh). }
  split.
  { assert (Hne : boundaries false (split LF text) <> []).
    { rewrite Hsplit, boundaries_app, Hpre. cbn [app boundaries]. rewrite Hh. discriminate. }
    pose proof (extractSections_heads text Hne) as Hheads.
    rewrite Hsplit, boundaries_app, Hpre in Hheads. cbn [app boundaries] in Hheads.
    rewrite Hh in Hheads. cbn [app map] in Hheads.
    destruct (extractSections text) as [|first others]; [discriminate|].
    exists first, others. split; [reflexivity|]. cbn [map] in Hheads. congruence. }
  split.
  { intros pf document p Hp Hb. split.
    - rewrite <- Hb. revert Hp. unfold parseSkill.
      destruct (_ || _); [discriminate|].
      destruct (exec frontmatterRegex document) as [m|].
      + destruct (yamlLoad pf (group 1 m)) as [v|msg l|msg]; try discriminate.
        destruct (_ || _); [discriminate|].
        destruct (negb (truthy (getProp v (js "name")))); [discriminate|].
        destruct (negb (truthy (getProp v (js "description")))); [discriminate|].
        intros H. inversion H; subst. reflexivity.
      + intros H. inversion H; subst. reflexivity.
    - rewrite Hb, <- Hsplit. apply join_split. }
  exact extractSections_no_boundary.
Qed.

(** A body with two lines of preamble before its first heading. *)
Definition preambleDocument : jsstring :=
  js "Written by the tools team." ++ [LF] ++ js "See the wiki." ++ [LF]
  ++ js "# Setup" ++ [LF] ++ js "Run it.".

Lemma sections_drop_preamble_witness :
  extractSections preambleDocument
  = extractSections (join [LF] [js "# Setup"; js "Run it."])
  /\ extractSections (join [LF] [js "# Setup"; js "Run it."])
     = [ {| heading := js "Setup"; content := js "Run it."; level := 1 |} ].
Proof.
  split.
  - refine (proj1 (sections_drop_preamble preambleDocument
                     [js "Written by the tools team."; js "See the wiki."]
                     (js "# Setup") [js "Run it."] _ _ _)).
    + vm_compute. reflexivity.
    + vm_compute. reflexivity.
    + vm_compute. reflexivity.
  - vm_compute. reflexivity.
Defined.

(* ------------------------------------------------------------------ *)
(** ** Kebab case *)
(* ------------------------------------------------------------------ *)

Definition isHyphen : N -> bool := N.eqb hyphen.
Definition isSpaceOrUnderscore (c : N) : bool := isWhiteSpace c || (c =? underscore)%N.

Fixpoint stripLeading (s : jsstring) : jsstring :=
  match s with
  | c :: t => if isHyphen c then stripLeading t else s
  | [] => []
  end.

Fixpoint stripTrailing (s : jsstring) : jsstring :=
  match s with
  | c :: t => if isHyphen c && forallb isHyphen t then [] else c :: stripTrailing t
  | [] => []
  end.

(** The rule in the words of the specification, after the [trim] that the
    code applies first: lowercase; collapse runs of whitespace and
    underscores to one hyphen; strip what is outside [a-z0-9-]; collapse
    repeated hyphens; trim leading and trailing hyphens. *)
Definition kebabRule (lower : jsstring -> jsstring) (s : jsstring) : jsstring :=
  stripTrailing
    (stripLeading
       (collapse isHyphen [hyphen] false
          (filter isKebabChar
             (collapse isSpaceOrUnderscore [hyphen] false (lower (trim s)))))).

Section EdgeMatches.

Lemma matchAt_edges (pos : nat) (prev : option N) (s : jsstring) :
  match s with
  | c :: t =>
      if isHyphen c then
        if Nat.eqb pos 0
        then exists m, matchAt edgesRe pos prev s = Some m
                       /\ length (mr_text m) = S (runLength isHyphen t)
        else if forallb isHyphen t
             then exists m, matchAt edgesRe pos prev s = Some m
                            /\ length (mr_text m) = S (length t)
             else matchAt edgesRe pos prev s = None
      else matchAt edgesRe pos prev s = None
  | [] => matchAt edgesRe pos prev s = None
  end.
Proof.
  unfold matchAt, edgesRe. cbn [rmatch]. fold (plus (chr hyphen)).
  unfold chr. fold isHyphen. rewrite !rmatch_plus_class. cbn [m_pos m_rest].
  destruct s as [|c t].
  - destruct (Nat.eqb pos 0); reflexivity.
  - destruct (isHyphen c).
    2:{ destruct (Nat.eqb pos 0); reflexivity. }
    set (x := step c t (MState pos prev (c :: t) [])).
    destruct (Nat.eqb pos 0).
    + destruct (greedyStar_longest isHyphen t x) as [y [E [Hp Hc]]].
      rewrite E. cbn [orElse]. eexists. split; [reflexivity|].
      cbn [mr_text]. rewrite Hp. subst x. cbn [step m_pos].
      replace (S pos + runLength isHyphen t - pos) with (S (runLength isHyphen t)) by lia.
      rewrite length_firstn. pose proof (runLength_le isHyphen t). cbn [length]. lia.
    + cbn [orElse].
      pose proof (greedyStar_atEnd isHyphen t x eq_refl) as H.
      change (fun y : mstate => match m_rest y with
                                | [] => Some y
                                | _ :: _ => None
                                end) with atEnd.
      destruct (forallb isHyphen t).
      * destruct H as [y [E [Hp Hc]]]. rewrite E. eexists. split; [reflexivity|].
        cbn [mr_text]. rewrite Hp. subst x. cbn [step m_pos].
        replace (S pos + length t - pos) with (S (length t)) by lia.
        rewrite length_firstn. cbn [length]. lia.
      * rewrite H. reflexivity.
Qed.

Lemma replace_edges_skip_all (t : jsstring) :
  forall pos prev, replaceAllFrom edgesRe [] (length t) pos prev t = [].
Proof.
  induction t as [|c t IH]; intros pos prev; cbn [length replaceAllFrom].
  - pose proof (matchAt_edges pos prev []) as H. cbn beta iota in H. rewrite H.
    reflexivity.
  - apply IH.
Qed.

Lemma replace_edges_tail (s : jsstring) :
  forall pos prev, pos <> 0 ->
    replaceAllFrom edgesRe [] 0 pos prev s = stripTrailing s.
Proof.
  induction s as [|c t IH]; intros pos prev Hpos; cbn [replaceAllFrom stripTrailing];
    pose proof (matchAt_edges pos prev) as H.
  - specialize (H []). cbn beta iota in H. rewrite H. reflexivity.
  - specialize (H (c :: t)). cbn beta iota in H.
    replace (Nat.eqb pos 0) with false in H by (symmetry; apply Nat.eqb_neq; exact Hpos).
    destruct (isHyphen c); cbn [andb].
    + destruct (forallb isHyphen t).
      * destruct H as [m [E Hl]]. rewrite E, Hl. cbn [app].
        apply replace_edges_skip_all.
      * rewrite H. rewrite IH by lia. reflexivity.
    + rewrite H. rewrite IH by lia. reflexivity.
Qed.

Lemma replace_edges_after_run (t : jsstring) :
  forall pos prev, pos <> 0 ->
    replaceAllFrom edgesRe [] (runLength isHyphen t) pos prev t
    = stripTrailing (stripLeading t).
Proof.
  induction t as [|c t IH]; intros pos prev Hpos.
  - cbn [runLength stripLeading]. apply replace_edges_tail. exact Hpos.
  - cbn [runLength stripLeading]. destruct (isHyphen c) eqn:E.
    + cbn [replaceAllFrom]. apply IH. lia.
    + apply replace_edges_tail. exact Hpos.
Qed.

Lemma replaceAll_edges (s : jsstring) :
  replaceAll edgesRe [] s = stripTrailing (stripLeading s).
Proof.
  unfold replaceAll. destruct s as [|c t]; cbn [replaceAllFrom stripLeading].
  - pose proof (matchAt_edges 0 None []) as H. cbn beta iota in H. rewrite H.
    reflexivity.
  - pose proof (matchAt_edges 0 None (c :: t)) as H. cbn beta iota in H.
    destruct (isHyphen c) eqn:E.
    + cbn [Nat.eqb] in H. destruct H as [m [Em Hl]]. rewrite Em, Hl. cbn [app].
      apply replace_edges_after_run. discriminate.
    + rewrite H. cbn [stripTrailing]. rewrite E. cbn [andb].
      rewrite replace_edges_tail by discriminate. reflexivity.
Qed.

End EdgeMatches.

Lemma strip_special (s : jsstring) :
  flat_map (fun c => if negb (isKebabChar c) then [] else [c]) s = filter isKebabChar s.
Proof.
  induction s as [|c t IH]; [reflexivity|].
  cbn [flat_map filter]. rewrite IH. destruct (isKebabChar c); reflexivity.
Qed.

(** [toKebabCase] computes the rule. *)
Lemma toKebabCase_rule (pf : Platform) (s : jsstring) :
  toKebabCase pf s = kebabRule (toLowerCase pf) s.
Proof.
  unfold toKebabCase, kebabRule.
  rewrite replaceAll_edges.
  unfold hyphensRe, spacesRe, specialRe, chr, replaceAll.
  fold isHyphen. fold isKebabChar.
  rewrite (proj1 (replaceAll_plus_class isHyphen (js "-") _)).
  rewrite replaceAll_class, strip_special.
  change (fun c : N => isWhiteSpace c || (c =? underscore)%N) with isSpaceOrUnderscore.
  rewrite (proj1 (replaceAll_plus_class isSpaceOrUnderscore (js "-") _)).
  reflexivity.
Qed.

(** The strings that [toKebabCase] returns: code units of [a-z0-9-] only,
    no two hyphens in a row, no hyphen at either end. *)
Fixpoint noDouble (s : jsstring) : bool :=
  match s with
  | a :: t =>
      match t with
      | b :: _ => negb (isHyphen a && isHyphen b)
      | [] => true
      end && noDouble t
  | [] => true
  end.

Definition headClean (s : jsstring) : bool :=
  match s with c :: _ => negb (isHyphen c) | [] => true end.

Fixpoint lastClean (s : jsstring) : bool :=
  match s with
  | [] => true
  | c :: t => match t with [] => negb (isHyphen c) | _ :: _ => lastClean t end
  end.

Definition kebabForm (s : jsstring) : Prop :=
  forallb isKebabChar s = true /\ noDouble s = true
  /\ headClean s = true /\ lastClean s = true.

Section KebabFacts.

Lemma kebabChar_range (c : N) :
  isKebabChar c = true -> (45 <= c <= 122)%N /\ c <> 95%N.
Proof.
  unfold isKebabChar, isLower, isDigit, hyphen.
  rewrite !orb_true_iff, !andb_true_iff, !N.leb_le, N.eqb_eq. lia.
Qed.

Lemma kebabChar_not_space (c : N) :
  isKebabChar c = true -> isSpaceOrUnderscore c = false.
Proof.
  intros H. apply kebabChar_range in H.
  unfold isSpaceOrUnderscore, isWhiteSpace, memN, underscore. cbn [existsb].
  repeat rewrite orb_false_iff. repeat split;
    try (apply N.eqb_neq; lia).
  apply andb_false_iff. left. apply N.leb_gt. lia.
Qed.

Lemma kebabChar_not_white (c : N) : isKebabChar c = true -> isWhiteSpace c = false.
Proof.
  intros H. apply kebabChar_not_space in H. unfold isSpaceOrUnderscore in H.
  apply orb_false_iff in H. tauto.
Qed.

Lemma isHyphen_eq (c : N) : isHyphen c = true -> c = hyphen.
Proof. unfold isHyphen. intros H. apply N.eqb_eq in H. congruence. Qed.

Lemma hyphen_kebabChar (c : N) : isHyphen c = true -> isKebabChar c = true.
Proof. intros H. rewrite (isHyphen_eq c H). reflexivity. Qed.

(** *** What each step of the rule establishes *)

Lemma collapse_hyphens_chars (b : bool) (s : jsstring) :
  forallb isKebabChar s = true ->
  forallb isKebabChar (collapse isHyphen [hyphen] b s) = true.
Proof.
  revert b. induction s as [|c t IH]; intros b H; [reflexivity|].
  cbn [forallb] in H. apply andb_true_iff in H. destruct H as [Hc Ht].
  cbn [collapse]. destruct (isHyphen c).
  - destruct b; cbn [app forallb]; rewrite ?IH by exact Ht; reflexivity.
  - cbn [forallb]. rewrite Hc, IH by exact Ht. reflexivity.
Qed.

Lemma collapse_hyphens_noDouble (s : jsstring) :
  forall b,
    noDouble (collapse isHyphen [hyphen] b s) = true
    /\ (b = true -> headClean (collapse isHyphen [hyphen] b s) = true).
Proof.
  induction s as [|c t IH]; intros b; [split; reflexivity|].
  cbn [collapse]. destruct (isHyphen c) eqn:E.
  - destruct (IH true) as [Hn Hh]. specialize (Hh eq_refl).
    destruct b; cbn [app].
    + split; [exact Hn|intros _; exact Hh].
    + split; [|discriminate]. cbn [noDouble]. rewrite Hn.
      destruct (collapse isHyphen [hyphen] true t) as [|d u]; [reflexivity|].
      cbn [headClean] in Hh. apply negb_true_iff in Hh. rewrite Hh, andb_false_r.
      reflexivity.
  - destruct (IH false) as [Hn _]. split.
    + cbn [noDouble]. rewrite Hn, E.
      destruct (collapse isHyphen [hyphen] false t); reflexivity.
    + intros _. cbn [headClean]. rewrite E. reflexivity.
Qed.

Lemma stripLeading_keeps (s : jsstring) :
  forallb isKebabChar s = true -> noDouble s = true ->
  forallb isKebabChar (stripLeading s) = true
  /\ noDouble (stripLeading s) = true /\ headClean (stripLeading s) = true.
Proof.
  induction s as [|c t IH]; intros Hc Hn; [repeat split|].
  cbn [stripLeading]. destruct (isHyphen c) eqn:E.
  - cbn [forallb noDouble] in Hc, Hn.
    apply andb_true_iff in Hc. apply andb_true_iff in Hn. apply IH; tauto.
  - repeat split; [exact Hc|exact Hn|]. cbn [headClean]. rewrite E. reflexivity.
Qed.

Lemma stripTrailing_nil (s : jsstring) :
  stripTrailing s = [] -> forallb isHyphen s = true.
Proof.
  destruct s as [|c t]; [reflexivity|]. cbn [stripTrailing forallb].
  destruct (isHyphen c && forallb isHyphen t); [reflexivity|discriminate].
Qed.

Lemma stripTrailing_keeps (s : jsstring) :
  forallb isKebabChar s = true -> noDouble s = true -> headClean s = true ->
  forallb isKebabChar (stripTrailing s) = true
  /\ noDouble (stripTrailing s) = true
  /\ headClean (stripTrailing s) = true
  /\ lastClean (stripTrailing s) = true.
Proof.
  intros Hc Hn Hh.
  assert (H : forallb isKebabChar (stripTrailing s) = true
              /\ noDouble (stripTrailing s) = true
              /\ lastClean (stripTrailing s) = true).
  { clear Hh. induction s as [|c t IH]; [repeat split|].
    cbn [forallb noDouble] in Hc, Hn.
    apply andb_true_iff in Hc. destruct Hc as [Hc Hct].
    apply andb_true_iff in Hn. destruct Hn as [Hn Hnt].
    destruct (IH Hct Hnt) as [I1 [I2 I3]].
    cbn [stripTrailing]. destruct (isHyphen c && forallb isHyphen t) eqn:E;
      [repeat split|].
    cbn [forallb noDouble lastClean]. rewrite Hc, I1, I2.
    destruct (stripTrailing t) as [|d u] eqn:Et.
    - repeat split. apply stripTrailing_nil in Et. rewrite Et, andb_true_r in E.
      rewrite E. reflexivity.
    - repeat split; [|exact I3]. rewrite andb_true_r.
      destruct t as [|d' u']; [discriminate|]. cbn [stripTrailing] in Et.
      destruct (isHyphen d' && forallb isHyphen u'); [discriminate|].
      inversion Et; subst. exact Hn. }
  destruct H as [H1 [H2 H3]]. repeat split; auto.
  destruct s as [|c t]; [reflexivity|]. cbn [headClean] in Hh.
  apply negb_true_iff in Hh. cbn [stripTrailing]. rewrite Hh. cbn [andb headClean].
  rewrite Hh. reflexivity.
Qed.

(** *** What each step of the rule leaves alone *)

Lemma collapse_none (p : N -> bool) (rep : jsstring) (s : jsstring) :
  forallb (fun c => negb (p c)) s = true -> collapse p rep false s = s.
Proof.
  induction s as [|c t IH]; intros H; [reflexivity|].
  cbn [forallb] in H. apply andb_true_iff in H. destruct H as [Hc Ht].
  apply negb_true_iff in Hc. cbn [collapse]. rewrite Hc, IH by exact Ht. reflexivity.
Qed.

Lemma filter_all (f : N -> bool) (s : jsstring) :
  forallb f s = true -> filter f s = s.
Proof.
  induction s as [|c t IH]; intros H; [reflexivity|].
  cbn [forallb] in H. apply andb_true_iff in H. destruct H as [Hc Ht].
  cbn [filter]. rewrite Hc, IH by exact Ht. reflexivity.
Qed.

Lemma collapse_hyphens_fixed (s : jsstring) :
  forall b, noDouble s = true -> (b = true -> headClean s = true) ->
            collapse isHyphen [hyphen] b s = s.
Proof.
  induction s as [|c t IH]; intros b Hn Hh; [reflexivity|].
  cbn [noDouble] in Hn. apply andb_true_iff in Hn. destruct Hn as [Hn Hnt].
  cbn [collapse]. destruct (isHyphen c) eqn:E.
  - destruct b.
    + specialize (Hh eq_refl). cbn [headClean] in Hh. rewrite E in Hh. discriminate.
    + cbn [app]. rewrite (isHyphen_eq c E). f_equal. apply IH; [exact Hnt|].
      intros _. destruct t as [|d u]; [reflexivity|].
      cbn [headClean]. cbn beta iota in Hn. cbn [andb] in Hn. exact Hn.
  - f_equal. apply IH; [exact Hnt|discriminate].
Qed.

Lemma stripLeading_fixed (s : jsstring) : headClean s = true -> stripLeading s = s.
Proof.
  destruct s as [|c t]; [reflexivity|]. cbn [headClean stripLeading].
  intros H. apply negb_true_iff in H. rewrite H. reflexivity.
Qed.

Lemma lastClean_not_hyphens (s : jsstring) :
  s <> [] -> lastClean s = true -> forallb isHyphen s = false.
Proof.
  induction s as [|c t IH]; intros Hne H; [congruence|].
  cbn [lastClean] in H. cbn [forallb]. destruct t as [|d u].
  - apply negb_true_iff in H. rewrite H. reflexivity.
  - rewrite IH; [apply andb_false_r|discriminate|exact H].
Qed.

Lemma stripTrailing_fixed (s : jsstring) : lastClean s = true -> stripTrailing s = s.
Proof.
  induction s as [|c t IH]; intros H; [reflexivity|].
  cbn [stripTrailing]. cbn [lastClean] in H. destruct t as [|d u].
  - apply negb_true_iff in H. rewrite H. reflexivity.
  - rewrite (lastClean_not_hyphens (d :: u)) by (discriminate || exact H).
    rewrite andb_false_r, IH by exact H. reflexivity.
Qed.

Lemma trimStart_fixed (s : jsstring) :
  match s with c :: _ => isWhiteSpace c = false | [] => True end -> trimStart s = s.
Proof.
  destruct s as [|c t]; [reflexivity|]. intros H. cbn [trimStart]. rewrite H. reflexivity.
Qed.

Lemma lastClean_rev_head (s : jsstring) :
  forallb isKebabChar s = true ->
  match rev s with c :: _ => isWhiteSpace c = false | [] => True end.
Proof.
  intros H. destruct (rev s) as [|c t] eqn:E; [exact I|].
  apply kebabChar_not_white.
  rewrite forallb_forall in H. apply H. apply in_rev. rewrite E. left. reflexivity.
Qed.

Lemma trim_fixed (s : jsstring) : forallb isKebabChar s = true -> trim s = s.
Proof.
  intros H. unfold trim, trimEnd.
  rewrite (trimStart_fixed s).
  - rewrite trimStart_fixed by (apply lastClean_rev_head; exact H). apply rev_involutive.
  - destruct s as [|c t]; [exact I|]. apply kebabChar_not_white.
    cbn [forallb] in H. apply andb_true_iff in H. tauto.
Qed.

Lemma kebabRule_form (lower : jsstring -> jsstring) (s : jsstring) :
  kebabForm (kebabRule lower s).
Proof.
  unfold kebabRule, kebabForm.
  set (u := filter isKebabChar _).
  assert (Hu : forallb isKebabChar u = true).
  { subst u. apply forallb_forall. intros c Hc. apply filter_In in Hc. tauto. }
  pose proof (collapse_hyphens_chars false u Hu) as H1.
  destruct (collapse_hyphens_noDouble u false) as [H2 _].
  destruct (stripLeading_keeps _ H1 H2) as [H3 [H4 H5]].
  exact (stripTrailing_keeps _ H3 H4 H5).
Qed.

Lemma kebabRule_fixed (lower : jsstring -> jsstring) (s : jsstring) :
  (forall t, forallb isKebabChar t = true -> lower t = t) ->
  kebabForm s -> kebabRule lower s = s.
Proof.
  intros Hlower [Hc [Hn [Hh Hl]]]. unfold kebabRule.
  rewrite (trim_fixed s Hc), (Hlower s Hc).
  rewrite (collapse_none isSpaceOrUnderscore [hyphen] s).
  - rewrite (filter_all _ _ Hc).
    rewrite (collapse_hyphens_fixed s false Hn) by discriminate.
    rewrite (stripLeading_fixed s Hh). apply stripTrailing_fixed. exact Hl.
  - apply forallb_forall. intros c Hin. apply negb_true_iff.
    apply kebabChar_not_space. rewrite forallb_forall in Hc. apply Hc. exact Hin.
Qed.

End KebabFacts.

(** C8.  [toKebabCase] computes the rule: trim, lowercase, collapse runs of
    whitespace and underscores to one hyphen, strip every code unit outside
    [a-z0-9-], collapse repeated hyphens, trim leading and trailing hyphens.
    Its result consists of code units of [a-z0-9-] without two hyphens in a
    row and without a hyphen at either end.  On a platform whose
    [toLowerCase] leaves strings over [a-z0-9-] unchanged (as the Unicode
    case mapping does), [toKebabCase] is idempotent. *)
Theorem toKebabCase_idempotent (pf : Platform) (s : jsstring) :
  (forall t, forallb isKebabChar t = true -> toLowerCase pf t = t) ->
  toKebabCase pf s = kebabRule (toLowerCase pf) s
  /\ kebabForm (toKebabCase pf s)
  /\ toKebabCase pf (toKebabCase pf s) = toKebabCase pf s.
Proof.
  intros Hlower. split; [apply toKebabCase_rule|].
  assert (Hform : kebabForm (toKebabCase pf s)).
  { rewrite toKebabCase_rule. apply kebabRule_form. }
  split; [exact Hform|].
  rewrite (toKebabCase_rule pf (toKebabCase pf s)).
  apply kebabRule_fixed; assumption.
Qed.

Lemma asciiLower_fixed (t : jsstring) :
  forallb isKebabChar t = true -> asciiLower t = t.
Proof.
  unfold asciiLower. induction t as [|c t IH]; intros H; [reflexivity|].
  cbn [forallb] in H. apply andb_true_iff in H. destruct H as [Hc Ht].
  cbn [map]. rewrite IH by exact Ht.
  replace (isUpper c) with false; [reflexivity|].
  symmetry. revert Hc. unfold isKebabChar, isLower, isDigit, isUpper, hyphen.
  rewrite !orb_true_iff, !andb_true_iff, andb_false_iff, !N.leb_le, !N.leb_gt, N.eqb_eq.
  lia.
Qed.

Lemma toKebabCase_idempotent_witness :
  toKebabCase asciiPlatform (js "  My_Skill  (v2)!! ") = js "my-skill-v2"
  /\ toKebabCase asciiPlatform (toKebabCase asciiPlatform (js "  My_Skill  (v2)!! "))
     = toKebabCase asciiPlatform (js "  My_Skill  (v2)!! ").
Proof.
  split; [vm_compute; reflexivity|].
  exact (proj2 (proj2 (toKebabCase_idempotent asciiPlatform (js "  My_Skill  (v2)!! ")
                         asciiLower_fixed))).
Defined.

(* ################################################################## *)
(** * Further properties *)
(* ################################################################## *)

Import JSLib Render.

(* ------------------------------------------------------------------ *)
(** ** Trimming *)
(* ------------------------------------------------------------------ *)

Section TrimFacts.

Lemma trimStart_idem (s : jsstring) : trimStart (trimStart s) = trimStart s.
Proof.
  induction s as [|c t IH]; [reflexivity|].
  cbn [trimStart]. destruct (isWhiteSpace c) eqn:E; [exact IH|].
  cbn [trimStart]. rewrite E. reflexivity.
Qed.

Lemma trimEnd_idem (s : jsstring) : trimEnd (trimEnd s) = trimEnd s.
Proof. unfold trimEnd. rewrite rev_involutive, trimStart_idem. reflexivity. Qed.

Lemma trimStart_head (s : jsstring) (c : N) (t : jsstring) :
  trimStart s = c :: t -> isWhiteSpace c = false.
Proof.
  induction s as [|d s IH]; [discriminate|].
  cbn [trimStart]. destruct (isWhiteSpace d) eqn:E; [exact IH|].
  intros H. inversion H; subst. exact E.
Qed.

Lemma trimEnd_keeps_head (c : N) (t : jsstring) :
  isWhiteSpace c = false -> exists t', trimEnd (c :: t) = c :: t'.
Proof.
  intros H. unfold trimEnd. cbn [rev].
  destruct (trimStart_snoc (rev t) c H) as [s' E].
  rewrite E, rev_app_distr. cbn [rev app]. eauto.
Qed.

Lemma trim_idem (s : jsstring) : trim (trim s) = trim s.
Proof.
  unfold trim. destruct (trimStart s) as [|c t] eqn:E.
  - reflexivity.
  - pose proof (trimStart_head s c t E) as Hc.
    destruct (trimEnd_keeps_head c t Hc) as [t' E'].
    rewrite E', (trimStart_keeps c t' Hc), <- E'. apply trimEnd_idem.
Qed.

(** What [trim] returns is empty or has a first and a last code unit
    that are no whitespace. *)
Definition trimmed (s : jsstring) : Prop :=
  (forall c t, s = c :: t -> isWhiteSpace c = false)
  /\ (forall c t, s = t ++ [c] -> isWhiteSpace c = false).

Lemma trimEnd_last (s : jsstring) (c : N) (t : jsstring) :
  trimEnd s = t ++ [c] -> isWhiteSpace c = false.
Proof.
  unfold trimEnd. intros H.
  apply (f_equal (@rev N)) in H. rewrite rev_involutive, rev_app_distr in H.
  cbn [rev app] in H. exact (trimStart_head _ _ _ H).
Qed.

Lemma trim_trimmed (s : jsstring) : trimmed (trim s).
Proof.
  split.
  - intros c t H. unfold trim in H.
    destruct (trimStart s) as [|d u] eqn:E; [discriminate|].
    pose proof (trimStart_head s d u E) as Hd.
    destruct (trimEnd_keeps_head d u Hd) as [u' E']. rewrite E' in H.
    inversion H; subst. exact Hd.
  - intros c t H. exact (trimEnd_last _ _ _ H).
Qed.

End TrimFacts.

(* ------------------------------------------------------------------ *)
(** ** What a match of a pattern is *)
(* ------------------------------------------------------------------ *)

(** [n] steps of a relation on matcher states. *)
Fixpoint iter (R : mstate -> mstate -> Prop) (n : nat) (x y : mstate) : Prop :=
  match n with
  | O => y = x
  | S n' => exists m, R x m /\ iter R n' m y
  end.

(** The numbers of iterations that a quantifier allows. *)
Definition countOK (lo : nat) (hi : option nat) (n : nat) : Prop :=
  match hi with
  | Some h => n <= h /\ (lo <= n \/ n = h)
  | None => lo <= n
  end.

(** [sem r x y]: the pattern [r] can take the matcher from state [x] to
    state [y]. *)
Fixpoint sem (r : regex) (x y : mstate) {struct r} : Prop :=
  match r with
  | Eps => y = x
  | Cls p => exists c t, m_rest x = c :: t /\ p c = true /\ y = step c t x
  | Seq a b => exists m, sem a x m /\ sem b m y
  | Alt a b => sem a x y \/ sem b x y
  | Rep _ lo hi a => exists n, countOK lo hi n /\ iter (sem a) n x y
  | Grp i a => exists m, sem a x m /\ y = capture i x m
  | Bol => m_pos x = 0 /\ y = x
  | Eol => m_rest x = [] /\ y = x
  | WordB => xorb (prevIsWord x) (nextIsWord x) = true /\ y = x
  end.

(** [w] is the input between the states [x] and [y]. *)
Definition span (x : mstate) (w : jsstring) (y : mstate) : Prop :=
  m_rest x = w ++ m_rest y /\ m_pos y = m_pos x + length w.

Section Soundness.

Lemma repeatMatcher_sound (a : regex) (g : bool) :
  (forall x k z, rmatch a x k = Some z -> exists y, sem a x y /\ k y = Some z) ->
  forall fuel lo hi x k z,
    repeatMatcher (rmatch a) g fuel lo hi x k = Some z ->
    exists n y, countOK lo hi n /\ iter (sem a) n x y /\ k y = Some z.
Proof.
  intros IHa. induction fuel as [|fuel IH]; intros lo hi x k z H; [discriminate|].
  cbn [repeatMatcher] in H.
  assert (Hstop : k x = Some z -> hi = Some 0 \/ lo = 0 ->
                  exists n y, countOK lo hi n /\ iter (sem a) n x y /\ k y = Some z).
  { intros Hk Hc. exists 0, x. split; [|split; [reflexivity|exact Hk]].
    unfold countOK. destruct Hc as [->| ->]; [lia|]. destruct hi; lia. }
  assert (Hmore : forall y,
            sem a x y ->
            repeatMatcher (rmatch a) g fuel (pred lo) (option_map pred hi) y k = Some z ->
            hi <> Some 0 ->
            exists n y', countOK lo hi n /\ iter (sem a) n x y' /\ k y' = Some z).
  { intros y Hy Hr Hhi. destruct (IH _ _ _ _ _ Hr) as [n [y' [Hc [Hi Hk]]]].
    exists (S n), y'. split; [|split; [exists y; auto|exact Hk]].
    unfold countOK in *. destruct hi as [h|]; cbn [option_map] in Hc.
    - destruct h as [|h]; [congruence|]. cbn [pred] in Hc. lia.
    - lia. }
  destruct hi as [[|h]|].
  - apply Hstop; auto.
  - destruct lo as [|lo].
    + destruct g; unfold orElse in H.
      * destruct (rmatch a x _) as [z'|] eqn:E.
        -- inversion H; subst z'. destruct (IHa _ _ _ E) as [y [Hy Hd]].
           destruct (Nat.eqb 0 0 && Nat.eqb (m_pos y) (m_pos x)); [discriminate|].
           apply (Hmore y Hy Hd). discriminate.
        -- apply Hstop; auto.
      * destruct (k x) as [z'|] eqn:E.
        -- inversion H; subst z'. apply Hstop; auto.
        -- destruct (IHa _ _ _ H) as [y [Hy Hd]].
           destruct (Nat.eqb 0 0 && Nat.eqb (m_pos y) (m_pos x)); [discriminate|].
           apply (Hmore y Hy Hd). discriminate.
    + destruct (IHa _ _ _ H) as [y [Hy Hd]]. cbn [Nat.eqb andb] in Hd.
      apply (Hmore y Hy Hd). discriminate.
  - destruct lo as [|lo].
    + destruct g; unfold orElse in H.
      * destruct (rmatch a x _) as [z'|] eqn:E.
        -- inversion H; subst z'. destruct (IHa _ _ _ E) as [y [Hy Hd]].
           destruct (Nat.eqb 0 0 && Nat.eqb (m_pos y) (m_pos x)); [discriminate|].
           apply (Hmore y Hy Hd). discriminate.
        -- apply Hstop; auto.
      * destruct (k x) as [z'|] eqn:E.
        -- inversion H; subst z'. apply Hstop; auto.
        -- destruct (IHa _ _ _ H) as [y [Hy Hd]].
           destruct (Nat.eqb 0 0 && Nat.eqb (m_pos y) (m_pos x)); [discriminate|].
           apply (Hmore y Hy Hd). discriminate.
    + destruct (IHa _ _ _ H) as [y [Hy Hd]]. cbn [Nat.eqb andb] in Hd.
      apply (Hmore y Hy Hd). discriminate.
Qed.

(** Whatever the matcher returns went through a match of the pattern. *)
Lemma rmatch_sound (r : regex) :
  forall x k z, rmatch r x k = Some z -> exists y, sem r x y /\ k y = Some z.
Proof.
  induction r as [|p|a IHa b IHb|a IHa b IHb|g lo hi a IHa|i a IHa| | |];
    intros x k z H; cbn [rmatch] in H; cbn [sem].
  - eauto.
  - destruct (m_rest x) as [|c t] eqn:E; [discriminate|].
    destruct (p c) eqn:Ep; [|discriminate].
    exists (step c t x). split; [|exact H]. exists c, t. auto.
  - destruct (IHa _ _ _ H) as [m [Hm Hb]].
    destruct (IHb _ _ _ Hb) as [y [Hy Hk]]. eauto.
  - unfold orElse in H. destruct (rmatch a x k) as [z'|] eqn:E.
    + inversion H; subst z'. destruct (IHa _ _ _ E) as [y [Hy Hk]]. eauto.
    + destruct (IHb _ _ _ H) as [y [Hy Hk]]. eauto.
  - destruct (repeatMatcher_sound a g IHa _ _ _ _ _ _ H) as [n [y [Hc [Hi Hk]]]].
    eauto.
  - destruct (IHa _ _ _ H) as [m [Hm Hk]]. eauto.
  - destruct (Nat.eqb (m_pos x) 0) eqn:E; [|discriminate].
    apply Nat.eqb_eq in E. eauto.
  - destruct (m_rest x) eqn:E; [|discriminate]. eauto.
  - destruct (xorb _ _) eqn:E; [|discriminate]. eauto.
Qed.

Lemma span_refl (x : mstate) : span x [] x.
Proof. unfold span. cbn [app length]. split; [reflexivity|lia]. Qed.

Lemma span_trans (x y z : mstate) (u v : jsstring) :
  span x u y -> span y v z -> span x (u ++ v) z.
Proof.
  unfold span. intros [H1 H2] [H3 H4]. rewrite H1, H3, <- app_assoc, length_app.
  split; [reflexivity|lia].
Qed.

Lemma iter_span (R : mstate -> mstate -> Prop) :
  (forall x y, R x y -> exists w, span x w y) ->
  forall n x y, iter R n x y -> exists w, span x w y.
Proof.
  intros HR. induction n as [|n IH]; intros x y H; cbn [iter] in H.
  - subst y. exists []. apply span_refl.
  - destruct H as [m [Hm Hi]]. destruct (HR _ _ Hm) as [u Hu].
    destruct (IH _ _ Hi) as [v Hv]. exists (u ++ v). exact (span_trans _ _ _ _ _ Hu Hv).
Qed.

(** A match consumes a piece of the input and nothing else. *)
Lemma sem_span (r : regex) : forall x y, sem r x y -> exists w, span x w y.
Proof.
  induction r as [|p|a IHa b IHb|a IHa b IHb|g lo hi a IHa|i a IHa| | |];
    intros x y H; cbn [sem] in H.
  - subst y. exists []. apply span_refl.
  - destruct H as [c [t [E [_ ->]]]]. exists [c]. unfold span, step.
    cbn [m_rest m_pos app length]. split; [exact E|lia].
  - destruct H as [m [Hm Hy]]. destruct (IHa _ _ Hm) as [u Hu].
    destruct (IHb _ _ Hy) as [v Hv]. exists (u ++ v). exact (span_trans _ _ _ _ _ Hu Hv).
  - destruct H as [H|H]; eauto.
  - destruct H as [n [_ Hi]]. exact (iter_span _ IHa _ _ _ Hi).
  - destruct H as [m [Hm ->]]. destruct (IHa _ _ Hm) as [w Hw]. exists w. exact Hw.
  - destruct H as [_ ->]. exists []. apply span_refl.
  - destruct H as [_ ->]. exists []. apply span_refl.
  - destruct H as [_ ->]. exists []. apply span_refl.
Qed.

Lemma span_unique (x y : mstate) (u v : jsstring) : span x u y -> span x v y -> u = v.
Proof.
  unfold span. intros [H1 H2] [H3 H4].
  assert (Hl : length u = length v) by lia.
  rewrite H1 in H3. clear - H3 Hl. revert v H3 Hl.
  induction u as [|c u IH]; intros [|d v] H Hl; try discriminate; [reflexivity|].
  cbn [app] in H. inversion H; subst. f_equal. apply IH; [assumption|].
  cbn [length] in Hl. lia.
Qed.

Lemma span_firstn (x y : mstate) (w : jsstring) :
  span x w y -> firstn (m_pos y - m_pos x) (m_rest x) = w.
Proof.
  unfold span. intros [H1 H2]. rewrite H1, H2.
  replace (m_pos x + length w - m_pos x) with (length w + 0) by lia.
  rewrite firstn_app_2. cbn [firstn]. apply app_nil_r.
Qed.

(** The captured text of a group is the input its body went over. *)
Lemma capture_caps (i : nat) (x y : mstate) (w : jsstring) :
  span x w y -> m_caps (capture i x y) = (i, w) :: m_caps y.
Proof. intros H. unfold capture. cbn [m_caps]. rewrite (span_firstn _ _ _ H). reflexivity. Qed.

Lemma capture_span (i : nat) (x y : mstate) (w : jsstring) :
  span x w y -> span x w (capture i x y).
Proof. unfold span, capture. cbn [m_rest m_pos]. tauto. Qed.

(** Iterations of one class: the input gone over is made of the class. *)
Lemma iter_class (p : N -> bool) :
  forall n x y,
    iter (sem (Cls p)) n x y ->
    exists w, span x w y /\ length w = n /\ forallb p w = true /\ m_caps y = m_caps x.
Proof.
  induction n as [|n IH]; intros x y H; cbn [iter] in H.
  - subst y. exists []. repeat split. apply span_refl.
  - destruct H as [m [Hm Hi]]. cbn [sem] in Hm.
    destruct Hm as [c [t [E [Hp ->]]]].
    destruct (IH _ _ Hi) as [w [Hs [Hl [Hf Hc]]]].
    exists (c :: w). repeat split.
    + destruct Hs as [Hs _]. cbn [step m_rest] in Hs. rewrite E, Hs. reflexivity.
    + destruct Hs as [_ Hs]. cbn [step m_pos] in Hs. cbn [length]. lia.
    + cbn [length]. lia.
    + cbn [forallb]. rewrite Hp. exact Hf.
    + exact Hc.
Qed.

(** A quantified class. *)
Lemma sem_rep_class (g : bool) (lo : nat) (hi : option nat) (p : N -> bool)
    (x y : mstate) :
  sem (Rep g lo hi (Cls p)) x y ->
  exists w, span x w y /\ countOK lo hi (length w) /\ forallb p w = true
            /\ m_caps y = m_caps x.
Proof.
  cbn [sem]. intros [n [Hc Hi]].
  destruct (iter_class p n x y Hi) as [w [Hs [Hl [Hf Hcaps]]]].
  exists w. subst n. auto.
Qed.

(** A sequence of classes, such as a literal, goes over as many code
    units as it has classes, one of each class in turn. *)
Fixpoint pointwise (ps : list (N -> bool)) (w : jsstring) : Prop :=
  match ps, w with
  | [], [] => True
  | p :: ps', c :: w' => p c = true /\ pointwise ps' w'
  | _, _ => False
  end.

Lemma sem_classes (ps : list (N -> bool)) :
  forall x y,
    sem (seqOf (map Cls ps)) x y ->
    exists w, span x w y /\ pointwise ps w /\ m_caps y = m_caps x.
Proof.
  induction ps as [|p ps IH]; intros x y H.
  - cbn [map seqOf sem] in H. subst y. exists []. repeat split. apply span_refl.
  - assert (Hseq : exists m, sem (Cls p) x m /\ sem (seqOf (map Cls ps)) m y).
    { cbn [map seqOf] in H. destruct (map Cls ps) as [|q qs] eqn:E.
      - exists y. split; [exact H|]. cbn [seqOf sem]. reflexivity.
      - exact H. }
    destruct Hseq as [m [Hm Hy]]. cbn [sem] in Hm.
    destruct Hm as [c [t [E [Hp ->]]]].
    destruct (IH _ _ Hy) as [w [Hs [Hw Hc]]].
    exists (c :: w). repeat split.
    + destruct Hs as [Hs _]. cbn [step m_rest] in Hs. rewrite E, Hs. reflexivity.
    + destruct Hs as [_ Hs]. cbn [step m_pos] in Hs. cbn [length]. lia.
    + exact Hp.
    + exact Hw.
    + exact Hc.
Qed.

Lemma pointwise_length (ps : list (N -> bool)) :
  forall w, pointwise ps w -> length w = length ps.
Proof.
  induction ps as [|p ps IH]; intros [|c w] H; cbn [pointwise] in H;
    try contradiction; [reflexivity|].
  cbn [length]. f_equal. apply IH. tauto.
Qed.

(** A literal of the pattern syntax is matched by itself only. *)
Lemma pointwise_literal (l : jsstring) :
  forall w, pointwise (map N.eqb l) w -> w = l.
Proof.
  induction l as [|c l IH]; intros [|d w] H; cbn [map pointwise] in H;
    try contradiction; [reflexivity|].
  destruct H as [Hc Hw]. apply N.eqb_eq in Hc. subst d. f_equal. exact (IH _ Hw).
Qed.

Lemma sem_lit (l : string) (x y : mstate) :
  sem (lit l) x y -> span x (js l) y /\ m_caps y = m_caps x.
Proof.
  unfold lit, chr. rewrite <- map_map with (f := N.eqb) (g := Cls).
  intros H. destruct (sem_classes _ _ _ H) as [w [Hs [Hw Hc]]].
  rewrite (pointwise_literal _ _ Hw) in Hs. auto.
Qed.

(** A seqOf with at least two patterns is a sequence. *)
Lemma sem_seqOf_cons (r : regex) (rs : list regex) (x y : mstate) :
  sem (seqOf (r :: rs)) x y -> exists m, sem r x m /\ sem (seqOf rs) m y.
Proof.
  destruct rs as [|r' rs]; cbn [seqOf sem].
  - intros H. exists y. auto.
  - auto.
Qed.

(** What [matchAt] returns is a match that starts at the position. *)
Lemma matchAt_sound (r : regex) (pos : nat) (prev : option N) (s : jsstring)
    (m : rmatchResult) :
  matchAt r pos prev s = Some m ->
  exists y, sem r (MState pos prev s []) y
            /\ span (MState pos prev s []) (mr_text m) y
            /\ mr_index m = pos /\ mr_groups m = m_caps y.
Proof.
  unfold matchAt. destruct (rmatch r _ Some) as [y|] eqn:E; [|discriminate].
  intros H. inversion H; subst m. cbn [mr_text mr_index mr_groups].
  destruct (rmatch_sound r _ _ _ E) as [y' [Hy Hk]]. inversion Hk; subst y'.
  exists y. split; [exact Hy|]. split; [|auto].
  destruct (sem_span r _ _ Hy) as [w Hw].
  pose proof (span_firstn _ _ _ Hw) as Hf. cbn [m_pos m_rest] in Hf.
  rewrite Hf. exact Hw.
Qed.

End Soundness.

(** The code unit before the end of a non-empty prefix. *)
Definition prevAfter (prev : option N) (pre : jsstring) : option N :=
  match rev pre with c :: _ => Some c | [] => prev end.

Section Occurrences.

Variable r : regex.

Lemma prevAfter_cons (prev : option N) (c : N) (pre : jsstring) :
  prevAfter (Some c) pre = prevAfter prev (c :: pre).
Proof.
  unfold prevAfter. cbn [rev]. destruct (rev pre) as [|d u]; reflexivity.
Qed.

(** Every match that [matchAll] lists is a match at its index. *)
Lemma matchAllFrom_sound (s : jsstring) :
  forall skip pos prev m,
    In m (matchAllFrom r skip pos prev s) ->
    exists pre post,
      s = pre ++ post
      /\ matchAt r (pos + length pre) (prevAfter prev pre) post = Some m.
Proof.
  induction s as [|c t IH]; intros skip pos prev m H.
  - destruct skip as [|skip]; cbn [matchAllFrom] in H; [|contradiction].
    destruct (matchAt r pos prev []) as [m'|] eqn:E; [|contradiction].
    destruct H as [<-|[]]. exists [], []. cbn [app length prevAfter rev].
    rewrite Nat.add_0_r. auto.
  - assert (Hlater : forall skip',
              In m (matchAllFrom r skip' (S pos) (Some c) t) ->
              exists pre post,
                c :: t = pre ++ post
                /\ matchAt r (pos + length pre) (prevAfter prev pre) post = Some m).
    { intros skip' Hin. destruct (IH _ _ _ _ Hin) as [pre [post [E Hm]]].
      exists (c :: pre), post. cbn [app length]. rewrite E.
      split; [reflexivity|].
      rewrite <- prevAfter_cons. replace (pos + S (length pre)) with (S pos + length pre) by lia.
      exact Hm. }
    destruct skip as [|skip]; cbn [matchAllFrom] in H; [|eauto].
    destruct (matchAt r pos prev (c :: t)) as [m'|] eqn:E; [|eauto].
    destruct H as [<-|H]; [|eauto].
    exists [], (c :: t). cbn [app length prevAfter rev]. rewrite Nat.add_0_r. auto.
Qed.

Lemma matchAll_sound (s : jsstring) (m : rmatchResult) :
  In m (matchAll r s) ->
  exists pre post,
    s = pre ++ post /\ matchAt r (length pre) (prevAfter None pre) post = Some m.
Proof. intros H. exact (matchAllFrom_sound s 0 0 None m H). Qed.

(** A match somewhere in the input makes the list of [matchAll]
    non-empty: the search finds it or a match before it. *)
Lemma matchAllFrom_found (pre post : jsstring) :
  forall pos prev,
    matchAt r (pos + length pre) (prevAfter prev pre) post <> None ->
    matchAllFrom r 0 pos prev (pre ++ post) <> [].
Proof.
  induction pre as [|c pre IH]; intros pos prev Hm.
  - cbn [app length prevAfter rev] in *. rewrite Nat.add_0_r in Hm.
    destruct post as [|d post]; cbn [matchAllFrom];
      destruct (matchAt r pos prev _); congruence.
  - cbn [app]. rewrite matchAllFrom_here.
    destruct (matchAt r pos prev (c :: pre ++ post)); [discriminate|].
    apply IH.
    rewrite prevAfter_cons with (prev := prev).
    replace (S pos + length pre) with (pos + length (c :: pre)) by (cbn [length]; lia).
    exact Hm.
Qed.

End Occurrences.

(* ------------------------------------------------------------------ *)
(** ** Validator: what is found, and where *)
(* ------------------------------------------------------------------ *)

(** The literals of the table of suspicious file operations. *)
Definition fileOpLiterals : list (string * jsstring) :=
  [ ("/etc/", js "Access to system configuration directory (/etc/)");
    ("/usr/", js "Access to system binaries directory (/usr/)");
    ("/bin/", js "Access to system binaries directory (/bin/)");
    ("~/.", js "Access to hidden files in home directory") ].

(** The ASCII case folding of one code unit. *)
Definition lowerUnit (c : N) : N := if isUpper c then (c + 32)%N else c.

Section ValidatorScan.

Lemma fileOps_table :
  SUSPICIOUS_FILE_OPS = map (fun ld => (litI (fst ld), snd ld)) fileOpLiterals.
Proof. reflexivity. Qed.

(** Under the i flag a code unit that is no capital letter is matched by
    the code units that fold to it. *)
Lemma chrI_folds (c d : N) :
  isUpper c = false ->
  (N.eqb d c || N.eqb d (toggleCase c)) = true <-> lowerUnit d = c.
Proof.
  intros Hc. unfold lowerUnit, toggleCase. rewrite Hc. revert Hc.
  unfold isUpper, isLower.
  destruct ((97 <=? c)%N && (c <=? 122)%N) eqn:El;
    destruct ((65 <=? d)%N && (d <=? 90)%N) eqn:Eu;
    rewrite ?andb_true_iff, ?andb_false_iff, ?N.leb_le, ?N.leb_gt in *;
    rewrite orb_true_iff, !N.eqb_eq; intros Hc; lia.
Qed.

Lemma pointwise_folds (l w : jsstring) :
  forallb (fun c => negb (isUpper c)) l = true ->
  pointwise (map (fun c d => N.eqb d c || N.eqb d (toggleCase c)) l) w
  <-> map lowerUnit w = l.
Proof.
  revert w. induction l as [|c l IH]; intros [|d w] Hl; cbn [map pointwise forallb] in *;
    try (split; [contradiction|discriminate]); [tauto|].
  apply andb_true_iff in Hl. destruct Hl as [Hc Hl]. apply negb_true_iff in Hc.
  rewrite (chrI_folds c d Hc), (IH w Hl). split.
  - intros [<- <-]. reflexivity.
  - intros H. inversion H; subst. auto.
Qed.

(** A match of a literal under the i flag goes over a text that folds to
    the literal. *)
Lemma sem_litI (l : string) (x y : mstate) :
  forallb (fun c => negb (isUpper c)) (js l) = true ->
  sem (litI l) x y -> exists w, span x w y /\ asciiLower w = js l.
Proof.
  intros Hl. unfold litI, chrI.
  rewrite <- map_map with (f := fun c d => N.eqb d c || N.eqb d (toggleCase c)) (g := Cls).
  intros H. destruct (sem_classes _ _ _ H) as [w [Hs [Hw _]]].
  exists w. split; [exact Hs|]. apply (pointwise_folds _ _ Hl). exact Hw.
Qed.

(** The matcher on a sequence of classes. *)
Lemma rmatch_classes (ps : list (N -> bool)) :
  forall w x k,
    pointwise ps w ->
    forall rest, m_rest x = w ++ rest ->
    exists y, rmatch (seqOf (map Cls ps)) x k = k y /\ span x w y /\ m_rest y = rest.
Proof.
  induction ps as [|p ps IH]; intros [|c w] x k Hw rest Hx; cbn [pointwise] in Hw;
    try contradiction.
  - exists x. cbn [map seqOf rmatch]. repeat split; [|exact Hx].
    cbn [app length]. lia.
  - destruct Hw as [Hp Hw].
    assert (Hseq : rmatch (seqOf (map Cls (p :: ps))) x k
                   = rmatch (Cls p) x (fun y => rmatch (seqOf (map Cls ps)) y k)).
    { cbn [map seqOf]. destruct (map Cls ps) eqn:E; reflexivity. }
    rewrite Hseq. cbn [rmatch]. rewrite Hx. cbn [app]. rewrite Hp.
    destruct (IH w (step c (w ++ rest) x) k Hw rest eq_refl) as [y [Hy [Hs Hr]]].
    exists y. split; [exact Hy|]. split; [|exact Hr].
    destruct Hs as [Hs1 Hs2]. cbn [step m_rest m_pos] in *.
    split; [rewrite Hx, Hr; reflexivity|cbn [length]; lia].
Qed.

Lemma matchAt_litI (l : string) (w rest : jsstring) (pos : nat) (prev : option N) :
  forallb (fun c => negb (isUpper c)) (js l) = true ->
  asciiLower w = js l ->
  matchAt (litI l) pos prev (w ++ rest) <> None.
Proof.
  intros Hl Hw. unfold matchAt, litI, chrI.
  rewrite <- map_map with (f := fun c d => N.eqb d c || N.eqb d (toggleCase c)) (g := Cls).
  destruct (rmatch_classes _ w (MState pos prev (w ++ rest) []) Some
              (proj2 (pointwise_folds _ _ Hl) Hw) rest eq_refl) as [y [Hy _]].
  rewrite Hy. discriminate.
Qed.

(** Membership in the issues of a scan. *)
Lemma in_scanWith (ty : IssueType) (table : list (regex * jsstring)) (text : jsstring)
    (i : SecurityIssue) :
  In i (scanWith ty table text) <->
  exists r d m,
    In (r, d) table /\ In m (matchAll r text)
    /\ i = {| i_type := ty; i_description := d;
              i_location :=
                js "Line " ++ numToString (N.of_nat (getLineNumber text (mr_index m)))
                ++ js ": " ++ mr_text m |}.
Proof.
  unfold scanWith. rewrite in_flat_map. split.
  - intros [[r d] [Ht Hi]]. apply in_map_iff in Hi. destruct Hi as [m [<- Hm]].
    exists r, d, m. auto.
  - intros [r [d [m [Ht [Hm ->]]]]]. exists (r, d). split; [exact Ht|].
    apply in_map_iff. exists m. auto.
Qed.

(** The issues of [validate], part by part. *)
Lemma in_validate_issues (text u : jsstring) (i : SecurityIssue) :
  In i (issues (validate text u)) <->
  (isUrlTrusted u = false
   /\ i = {| i_type := untrusted_source;
             i_description := js "Content does not originate from trusted GitHub domain";
             i_location := u |})
  \/ In i (scanWith dangerous_command DANGEROUS_PATTERNS text)
  \/ In i (scanWith suspicious_pattern SUSPICIOUS_FILE_OPS text)
  \/ In i (scanWith suspicious_pattern CODE_INJECTION_PATTERNS text).
Proof.
  unfold validate. cbn [issues]. rewrite !in_app_iff.
  unfold scanForDangerousPatterns, scanForSuspiciousFileOps, scanForCodeInjection.
  destruct (isUrlTrusted u); cbn [negb In]; intuition congruence.
Qed.

(** Lines are counted from one, by the line feeds before the index. *)
Lemma split_length (sep : N) (s : jsstring) :
  length (split sep s) = S (count_occ N.eq_dec s sep).
Proof.
  induction s as [|c t IH]; [reflexivity|].
  cbn [split count_occ]. destruct (N.eqb_spec c sep) as [->|Hne].
  - destruct (N.eq_dec sep sep); [|congruence]. cbn [length]. rewrite IH. reflexivity.
  - destruct (N.eq_dec c sep); [congruence|].
    pose proof (split_not_nil sep t) as Hnn.
    destruct (split sep t) as [|l ls]; [congruence|]. exact IH.
Qed.

Lemma getLineNumber_count (pre post : jsstring) :
  getLineNumber (pre ++ post) (length pre) = S (count_occ N.eq_dec pre LF).
Proof.
  unfold getLineNumber. rewrite firstn_app, Nat.sub_diag, firstn_all.
  cbn [firstn]. rewrite app_nil_r. apply split_length.
Qed.

(** Every match listed by [matchAll] is an occurrence in the text. *)
Lemma matchAll_occurrence (r : regex) (text : jsstring) (m : rmatchResult) :
  In m (matchAll r text) ->
  exists pre post y,
    text = pre ++ mr_text m ++ post /\ mr_index m = length pre
    /\ sem r (MState (length pre) (prevAfter None pre) (mr_text m ++ post) []) y
    /\ span (MState (length pre) (prevAfter None pre) (mr_text m ++ post) [])
            (mr_text m) y
    /\ mr_groups m = m_caps y.
Proof.
  intros H. destruct (matchAll_sound r text m H) as [pre [rest [E Hm]]].
  destruct (matchAt_sound r _ _ _ _ Hm) as [y [Hy [Hs [Hi Hg]]]].
  pose proof Hs as [Hs1 _]. cbn [m_rest] in Hs1.
  exists pre, (m_rest y), y. rewrite <- Hs1. auto.
Qed.

End ValidatorScan.

Section ValidatorIssues.

Lemma issue_of_match (ty : IssueType) (table : list (regex * jsstring)) (text : jsstring)
    (r : regex) (d : jsstring) :
  In (r, d) table -> matchAll r text <> [] ->
  exists i, In i (scanWith ty table text) /\ i_description i = d /\ i_type i = ty.
Proof.
  intros Ht Hm. destruct (matchAll r text) as [|m ms] eqn:E; [congruence|].
  eexists. split.
  - apply in_scanWith. exists r, d, m. split; [exact Ht|]. split; [|reflexivity].
    rewrite E. left. reflexivity.
  - split; reflexivity.
Qed.

Lemma occurrence_found (r : regex) (pre w post : jsstring) :
  (forall pos prev, matchAt r pos prev (w ++ post) <> None) ->
  matchAll r (pre ++ w ++ post) <> [].
Proof. intros H. unfold matchAll. apply matchAllFrom_found. apply H. Qed.

End ValidatorIssues.

(** X1.  The four suspicious file operations are reported exactly when they
    occur: [validate] lists an issue with the description of [/etc/],
    [/usr/], [/bin/] or [~/.] if and only if the text contains that literal,
    the case of ASCII letters apart.  Such an issue is of type
    suspicious_pattern, and a text that contains one of the literals is
    never rated safe. *)
Theorem validate_reports_file_operations
    (text u : jsstring) (l : string) (d : jsstring) :
  In (l, d) fileOpLiterals ->
  ((exists i, In i (issues (validate text u)) /\ i_description i = d)
   <-> exists pre w post, text = pre ++ w ++ post /\ asciiLower w = js l)
  /\ (forall i, In i (issues (validate text u)) -> i_description i = d ->
      i_type i = suspicious_pattern)
  /\ ((exists pre w post, text = pre ++ w ++ post /\ asciiLower w = js l) ->
      severity (validate text u) <> safe).
Proof.
  intros Hld.
  assert (Hlower : forallb (fun c => negb (isUpper c)) (js l) = true).
  { cbn [fileOpLiterals In] in Hld.
    destruct Hld as [H|[H|[H|[H|[]]]]]; inversion H; subst; reflexivity. }
  assert (Hfrom : forall i, In i (issues (validate text u)) -> i_description i = d ->
            i_type i = suspicious_pattern
            /\ exists m, In m (matchAll (litI l) text)).
  { intros i Hi Hd. apply in_validate_issues in Hi.
    cbn [fileOpLiterals In] in Hld.
    destruct Hi as [[_ ->]|[Hi|[Hi|Hi]]].
    - exfalso. cbn [i_description] in Hd.
      destruct Hld as [H|[H|[H|[H|[]]]]]; inversion H as [[Hl' Hd']];
        rewrite <- Hd' in Hd; vm_compute in Hd; discriminate Hd.
    - exfalso. apply in_scanWith in Hi. destruct Hi as [r [d' [m [Ht [_ ->]]]]].
      cbn [i_description] in Hd.
      cbn [DANGEROUS_PATTERNS In] in Ht.
      destruct Ht as [Ht|[Ht|[Ht|[Ht|[Ht|[Ht|[]]]]]]];
        apply (f_equal snd) in Ht; cbn [snd] in Ht; rewrite <- Ht in Hd;
        destruct Hld as [H|[H|[H|[H|[]]]]]; inversion H as [[Hl' Hd']];
        rewrite <- Hd' in Hd; vm_compute in Hd; discriminate Hd.
    - apply in_scanWith in Hi. destruct Hi as [r [d' [m [Ht [Hm ->]]]]].
      cbn [i_description] in Hd. split; [reflexivity|].
      exists m.
      assert (Hr : r = litI l).
      { cbn [SUSPICIOUS_FILE_OPS In] in Ht.
        destruct Ht as [Ht|[Ht|[Ht|[Ht|[]]]]];
          inversion Ht as [[Hr Hd1]];
          destruct Hld as [H|[H|[H|[H|[]]]]]; inversion H as [[Hl' Hd']];
          first [ reflexivity
                | rewrite <- Hd', <- Hd1 in Hd; vm_compute in Hd; discriminate Hd ]. }
      rewrite <- Hr. exact Hm.
    - exfalso. apply in_scanWith in Hi. destruct Hi as [r [d' [m [Ht [_ ->]]]]].
      cbn [i_description] in Hd.
      cbn [CODE_INJECTION_PATTERNS In] in Ht.
      destruct Ht as [Ht|[Ht|[]]];
        apply (f_equal snd) in Ht; cbn [snd] in Ht; rewrite <- Ht in Hd;
        destruct Hld as [H|[H|[H|[H|[]]]]]; inversion H as [[Hl' Hd']];
        rewrite <- Hd' in Hd; vm_compute in Hd; discriminate Hd. }
  assert (Hto : (exists pre w post, text = pre ++ w ++ post /\ asciiLower w = js l) ->
                exists i, In i (issues (validate text u)) /\ i_description i = d).
  { intros [pre [w [post [-> Hw]]]].
    assert (Ht : In (litI l, d) SUSPICIOUS_FILE_OPS).
    { rewrite fileOps_table. apply in_map_iff. exists (l, d). auto. }
    destruct (issue_of_match suspicious_pattern _ (pre ++ w ++ post) _ _ Ht) as [i [Hi [Hd _]]].
    { apply occurrence_found. intros pos prev. apply matchAt_litI; assumption. }
    exists i. split; [|exact Hd]. apply in_validate_issues. auto. }
  split; [split|split].
  - intros [i [Hi Hd]]. destruct (Hfrom i Hi Hd) as [_ [m Hm]].
    destruct (matchAll_occurrence _ _ _ Hm) as [pre [post [y [E [_ [Hy [Hs _]]]]]]].
    destruct (sem_litI l _ _ Hlower Hy) as [w [Hw Hfold]].
    rewrite (span_unique _ _ _ _ Hs Hw) in E. eauto.
  - exact Hto.
  - intros i Hi Hd. exact (proj1 (Hfrom i Hi Hd)).
  - intros Hocc Hsafe. destruct (Hto Hocc) as [i [Hi _]].
    unfold validate in Hsafe. cbn [severity] in Hsafe.
    apply determineSeverity_safe in Hsafe.
    unfold validate in Hi. cbn [issues] in Hi. rewrite Hsafe in Hi. contradiction.
Qed.

Lemma validate_reports_file_operations_witness :
  exists i,
    In i (issues (validate (js "cat /ETC/passwd")
                    (js "https://raw.githubusercontent.com/o/r/main/skills/s/SKILL.md")))
    /\ i_description i = js "Access to system configuration directory (/etc/)".
Proof.
  apply (proj2 (proj1 (validate_reports_file_operations
                         (js "cat /ETC/passwd")
                         (js "https://raw.githubusercontent.com/o/r/main/skills/s/SKILL.md")
                         "/etc/" (js "Access to system configuration directory (/etc/)")
                         (or_introl eq_refl)))).
  exists (js "cat "), (js "/ETC/"), (js "passwd"). split; reflexivity.
Defined.

(** X2.  Where the issues of [validate] point.  An issue of type
    untrusted_source is located at the URL, which then lacks the trusted
    prefix.  Every other issue is located at a piece [w] of the text, as
    [Line n: w], where [n] is one more than the number of line feeds
    before [w]: lines are counted from one. *)
Theorem validate_issue_locations (text u : jsstring) (i : SecurityIssue) :
  In i (issues (validate text u)) ->
  (i_type i = untrusted_source /\ i_location i = u
   /\ forall rest, u <> js "https://raw.githubusercontent.com/" ++ rest)
  \/ (i_type i <> untrusted_source
      /\ exists pre w post,
           text = pre ++ w ++ post
           /\ i_location i
              = js "Line " ++ numToString (N.of_nat (S (count_occ N.eq_dec pre LF)))
                ++ js ": " ++ w).
Proof.
  intros Hi. apply in_validate_issues in Hi.
  assert (Hscan : forall ty table,
            ty <> untrusted_source -> In i (scanWith ty table text) ->
            i_type i <> untrusted_source
            /\ exists pre w post,
                 text = pre ++ w ++ post
                 /\ i_location i
                    = js "Line " ++ numToString (N.of_nat (S (count_occ N.eq_dec pre LF)))
                      ++ js ": " ++ w).
  { intros ty table Hty Hin. apply in_scanWith in Hin.
    destruct Hin as [r [d [m [_ [Hm ->]]]]]. cbn [i_type i_location].
    split; [exact Hty|].
    destruct (matchAll_occurrence _ _ _ Hm) as [pre [post [y [E [Hidx _]]]]].
    exists pre, (mr_text m), post. split; [exact E|].
    rewrite Hidx. rewrite E at 1. rewrite getLineNumber_count. reflexivity. }
  destruct Hi as [[Hu ->]|[Hi|[Hi|Hi]]].
  - left. cbn [i_type i_location]. repeat split.
    intros rest E. unfold isUrlTrusted in Hu.
    assert (Hs : startsWith u (js "https://raw.githubusercontent.com/") = true).
    { apply startsWith_spec. eauto. }
    congruence.
  - right. apply (Hscan dangerous_command DANGEROUS_PATTERNS); [discriminate|exact Hi].
  - right. apply (Hscan suspicious_pattern SUSPICIOUS_FILE_OPS); [discriminate|exact Hi].
  - right. apply (Hscan suspicious_pattern CODE_INJECTION_PATTERNS); [discriminate|exact Hi].
Qed.

(** A text whose third line runs a command with elevated privilege. *)
Definition sudoText : jsstring :=
  js "Setup" ++ [LF] ++ [LF] ++ js "Run sudo make install".

Definition sudoIssue : SecurityIssue :=
  {| i_type := dangerous_command;
     i_description := js "Elevated privilege command (sudo)";
     i_location := js "Line 3: sudo " |}.

Lemma validate_issue_locations_witness :
  In sudoIssue (issues (validate sudoText (js "https://raw.githubusercontent.com/o/r")))
  /\ ((i_type sudoIssue = untrusted_source
       /\ i_location sudoIssue = js "https://raw.githubusercontent.com/o/r"
       /\ forall rest, js "https://raw.githubusercontent.com/o/r"
                       <> js "https://raw.githubusercontent.com/" ++ rest)
      \/ (i_type sudoIssue <> untrusted_source
          /\ exists pre w post,
               sudoText = pre ++ w ++ post
               /\ i_location sudoIssue
                  = js "Line " ++ numToString (N.of_nat (S (count_occ N.eq_dec pre LF)))
                    ++ js ": " ++ w)).
Proof.
  assert (H : In sudoIssue
                (issues (validate sudoText (js "https://raw.githubusercontent.com/o/r")))).
  { vm_compute. left. reflexivity. }
  split; [exact H|].
  exact (validate_issue_locations sudoText (js "https://raw.githubusercontent.com/o/r")
           sudoIssue H).
Defined.

(** X3.  The validate_skill tool rejects blank content with the error
    "Skill content is required" and otherwise returns the verdict of
    [validate] on the content and the URL, where a URL that is absent or
    empty counts as [unknown].  So a call without URL never accepts: its
    verdict is unsafe and not valid, with an issue of type
    untrusted_source located at [unknown] in the first place; the same
    holds for every URL that lacks the trusted prefix. *)
Theorem validateSkillHandler_url_required (content u : jsstring) :
  (blank content = true ->
   validateSkillHandler content u = Throw (newError (js "Skill content is required")))
  /\ (blank content = false ->
      validateSkillHandler content u = Ok (validate content (orUnknown u))
      /\ ((forall rest, u <> js "https://raw.githubusercontent.com/" ++ rest) ->
          let v := validate content (orUnknown u) in
          severity v = unsafe /\ isValid v = false
          /\ exists rest,
               issues v
               = {| i_type := untrusted_source;
                    i_description :=
                      js "Content does not originate from trusted GitHub domain";
                    i_location := orUnknown u |} :: rest))
  /\ orUnknown [] = js "unknown".
Proof.
  unfold validateSkillHandler. split; [intros ->; reflexivity|].
  split; [|reflexivity].
  intros ->. split; [reflexivity|]. intros Hu.
  assert (Ht : isUrlTrusted (orUnknown u) = false).
  { unfold orUnknown. destruct u as [|c t]; [reflexivity|]. cbn [nonEmpty].
    unfold isUrlTrusted.
    destruct (startsWith (c :: t) (js "https://raw.githubusercontent.com/")) eqn:E;
      [|reflexivity].
    apply startsWith_spec in E. destruct E as [rest E]. exfalso. exact (Hu rest E). }
  cbv zeta. unfold validate. rewrite Ht. cbn [negb app severity isValid issues].
  set (l := _ :: _).
  assert (Hs : determineSeverity l = unsafe).
  { apply determineSeverity_unsafe. eexists. split; [left; reflexivity|]. left. reflexivity. }
  rewrite Hs. repeat split. eexists. reflexivity.
Qed.

(* ------------------------------------------------------------------ *)
(** ** Sections: their fields and their contents *)
(* ------------------------------------------------------------------ *)

Section ExecFacts.

Variable r : regex.

(** What [exec] returns is a match at its index. *)
Lemma execFrom_sound (s : jsstring) :
  forall pos prev m,
    execFrom r pos prev s = Some m ->
    exists pre post,
      s = pre ++ post
      /\ matchAt r (pos + length pre) (prevAfter prev pre) post = Some m.
Proof.
  induction s as [|c t IH]; intros pos prev m H; cbn [execFrom] in H.
  - destruct (matchAt r pos prev []) as [m'|] eqn:E; [|discriminate].
    inversion H; subst m'. exists [], []. cbn [app length prevAfter rev].
    rewrite Nat.add_0_r. auto.
  - destruct (matchAt r pos prev (c :: t)) as [m'|] eqn:E.
    + inversion H; subst m'. exists [], (c :: t). cbn [app length prevAfter rev].
      rewrite Nat.add_0_r. auto.
    + destruct (IH _ _ _ H) as [pre [post [Es Hm]]].
      exists (c :: pre), post. cbn [app length]. rewrite Es. split; [reflexivity|].
      rewrite <- prevAfter_cons.
      replace (pos + S (length pre)) with (S pos + length pre) by lia. exact Hm.
Qed.

End ExecFacts.

Section HeaderGroups.

(** The groups of a match of the header pattern: 1 to 6 [#], then
    whitespace, then the text captured as the heading. *)
Lemma header_groups (line : jsstring) (m : rmatchResult) :
  exec headerRegex line = Some m ->
  exists hashes sp txt rest,
    line = hashes ++ sp ++ txt ++ rest
    /\ group 1 m = hashes /\ group 2 m = txt
    /\ 1 <= length hashes <= 6 /\ forallb (N.eqb hash) hashes = true
    /\ 1 <= length sp /\ forallb isWhiteSpace sp = true
    /\ 1 <= length txt
    /\ forallb (fun c => negb (isLineTerminator c)) txt = true.
Proof.
  intros H. destruct (execFrom_sound _ _ _ _ _ H) as [pre [post [E Hm]]].
  destruct (matchAt_sound _ _ _ _ _ Hm) as [y [Hy [_ [_ Hg]]]].
  set (x0 := MState (0 + length pre) (prevAfter None pre) post []) in *.
  unfold headerRegex in Hy.
  destruct (sem_seqOf_cons _ _ _ _ Hy) as [m1 [H1 Hy1]]. cbn [sem] in H1.
  destruct H1 as [Hpos ->].
  assert (Hpre : pre = []).
  { subst x0. cbn [m_pos] in Hpos. destruct pre; [reflexivity|cbn [length] in Hpos; lia]. }
  subst pre. cbn [app] in E. subst post.
  destruct (sem_seqOf_cons _ _ _ _ Hy1) as [m2 [H2 Hy2]].
  change (exists m', sem (Rep true 1 (Some 6) (Cls (N.eqb hash))) x0 m'
                     /\ m2 = capture 1 x0 m') in H2.
  destruct H2 as [m2' [H2 ->]].
  destruct (sem_rep_class _ _ _ _ _ _ H2) as [hashes [Hs1 [Hc1 [Hf1 Hcaps1]]]].
  destruct (sem_seqOf_cons _ _ _ _ Hy2) as [m3 [H3 Hy3]].
  destruct (sem_rep_class _ _ _ _ _ _ H3) as [sp [Hs2 [Hc2 [Hf2 Hcaps2]]]].
  change (exists m', sem (Rep true 1 None (Cls (fun c => negb (isLineTerminator c)))) m3 m'
                     /\ y = capture 2 m3 m') in Hy3.
  destruct Hy3 as [m4 [H4 ->]].
  destruct (sem_rep_class _ _ _ _ _ _ H4) as [txt [Hs3 [Hc3 [Hf3 Hcaps3]]]].
  rewrite (capture_caps 2 _ _ _ Hs3), Hcaps3, Hcaps2, (capture_caps 1 _ _ _ Hs1), Hcaps1 in Hg.
  exists hashes, sp, txt, (m_rest m4).
  assert (Hline : line = hashes ++ sp ++ txt ++ m_rest m4).
  { destruct Hs1 as [Hs1 _]. destruct Hs2 as [Hs2 _]. destruct Hs3 as [Hs3 _].
    cbn [capture m_rest] in Hs2. subst x0. cbn [m_rest] in Hs1.
    rewrite Hs1, Hs2, Hs3. reflexivity. }
  unfold group. rewrite Hg. cbn [find fst snd Nat.eqb].
  unfold countOK in Hc1, Hc2, Hc3.
  repeat split; try assumption; lia.
Qed.

End HeaderGroups.

(** The fields of a section that the loop may hold or return. *)
Definition headingFields (s : SkillSection) : Prop :=
  1 <= level s <= 6 /\ trim (heading s) = heading s.

Definition sectionFields (s : SkillSection) : Prop :=
  headingFields s /\ trim (content s) = content s.

Section SectionFields.

Lemma closeSection_fields (cs : SkillSection) (ls : list jsstring) :
  headingFields cs -> sectionFields (closeSection cs ls).
Proof.
  intros H. split; [exact H|]. cbn [closeSection content]. apply trim_idem.
Qed.

(** The invariant of the loop of [extractSections]. *)
Definition loopFields (st : LoopState) : Prop :=
  Forall sectionFields (l_sections st)
  /\ match currentSection st with Some cs => headingFields cs | None => True end.

Lemma stepLine_fields (st : LoopState) (line : jsstring) :
  loopFields st -> loopFields (stepLine st line).
Proof.
  intros [Hs Hc]. unfold stepLine.
  set (b := if startsWith (trim line) fence then negb (inCodeBlock st) else inCodeBlock st).
  destruct (if negb b then exec headerRegex line else None) as [m|] eqn:E.
  - destruct (negb b); [|discriminate].
    destruct (header_groups line m E) as [hashes [sp [txt [rest [_ [G1 [G2 [Hl _]]]]]]]].
    split; cbn [l_sections currentSection].
    + destruct (currentSection st) as [cs|]; [|exact Hs].
      apply Forall_app. split; [exact Hs|].
      constructor; [|constructor]. apply closeSection_fields. exact Hc.
    + split; cbn [level heading]; [rewrite G1; exact Hl|apply trim_idem].
  - split; cbn [l_sections currentSection]; assumption.
Qed.

Lemma fold_fields (lines : list jsstring) :
  forall st, loopFields st -> loopFields (fold_left stepLine lines st).
Proof.
  induction lines as [|l ls IH]; intros st H; [exact H|].
  cbn [fold_left]. apply IH. apply stepLine_fields. exact H.
Qed.

Lemma finish_fields (st : LoopState) :
  loopFields st -> Forall sectionFields (finish st).
Proof.
  intros [Hs Hc]. unfold finish. destruct (currentSection st) as [cs|].
  - apply Forall_app. split; [exact Hs|].
    constructor; [|constructor]. apply closeSection_fields. exact Hc.
  - destruct (currentContent st); [exact Hs|].
    apply Forall_app. split; [exact Hs|]. constructor; [|constructor].
    split; [split|]; cbn [level heading content]; [lia|reflexivity|apply trim_idem].
Qed.

End SectionFields.

(** X4.  Every section that [extractSections] returns has a level between
    1 and 6, a heading that [trim] leaves unchanged and a content that
    [trim] leaves unchanged: neither starts or ends with whitespace. *)
Theorem extractSections_fields (text : jsstring) :
  Forall (fun s => 1 <= level s <= 6
                   /\ trim (heading s) = heading s /\ trimmed (heading s)
                   /\ trim (content s) = content s /\ trimmed (content s))
         (extractSections text).
Proof.
  assert (H : Forall sectionFields (extractSections text)).
  { unfold extractSections. apply finish_fields, fold_fields.
    split; [constructor|exact I]. }
  apply Forall_forall. intros s Hs. rewrite Forall_forall in H.
  destruct (H s Hs) as [[Hl Hh] Hc].
  repeat split; try assumption; try lia.
  - rewrite <- Hh. apply trim_trimmed.
  - rewrite <- Hh. apply trim_trimmed.
  - rewrite <- Hc. apply trim_trimmed.
  - rewrite <- Hc. apply trim_trimmed.
Qed.

Section SectionContents.

(** Sections closed before a run of the loop stay in front of its
    result. *)
Definition withSections (done : list SkillSection) (st : LoopState) : LoopState :=
  {| l_sections := done ++ l_sections st;
     currentSection := currentSection st;
     currentContent := currentContent st;
     inCodeBlock := inCodeBlock st |}.

Lemma stepLine_withSections (done : list SkillSection) (st : LoopState) (line : jsstring) :
  stepLine (withSections done st) line = withSections done (stepLine st line).
Proof.
  unfold stepLine, withSections.
  cbn [l_sections currentSection currentContent inCodeBlock].
  destruct (if negb _ then exec headerRegex line else None); [|reflexivity].
  destruct (currentSection st); cbn [l_sections]; rewrite ?app_assoc; reflexivity.
Qed.

Lemma fold_withSections (lines : list jsstring) :
  forall done st,
    fold_left stepLine lines (withSections done st)
    = withSections done (fold_left stepLine lines st).
Proof.
  induction lines as [|l ls IH]; intros done st; [reflexivity|].
  cbn [fold_left]. rewrite stepLine_withSections. apply IH.
Qed.

Lemma finish_withSections (done : list SkillSection) (st : LoopState) :
  finish (withSections done st) = done ++ finish st.
Proof.
  unfold finish, withSections.
  cbn [l_sections currentSection currentContent].
  destruct (currentSection st); [rewrite app_assoc; reflexivity|].
  destruct (currentContent st); [reflexivity|rewrite app_assoc; reflexivity].
Qed.

(** The section that a heading line opens, closed over the lines that
    follow it. *)
Definition sectionOver (h : jsstring) (lines : list jsstring) : SkillSection :=
  {| heading := fst (headingOf h);
     content := trim (join [LF] lines);
     level := snd (headingOf h) |}.

Lemma fold_heading_block (h : jsstring) (blk : list jsstring) :
  isBoundary false h = true ->
  boundaries false blk = [] ->
  fold_left stepLine (h :: blk) initialLoopState
  = {| l_sections := []; currentSection := Some (openSection h);
       currentContent := blk; inCodeBlock := fenceAfter false blk |}.
Proof.
  intros Hh Hblk. cbn [fold_left].
  rewrite (stepLine_boundary initialLoopState h Hh).
  cbn [initialLoopState currentSection l_sections].
  rewrite fold_no_boundary by exact Hblk. reflexivity.
Qed.

End SectionContents.

(** X5.  The content of a section is the text between its heading and the
    next one.  When the lines of a body are a boundary [h] (a heading line
    outside fences), lines [blk] without boundary, and nothing more, the
    body is one section: that of [h], whose content is the trimmed text of
    [blk].  When another boundary [h'] follows [blk], the first section is
    the same, and the remaining sections are those of the text that starts
    at [h']. *)
Theorem extractSections_contents
    (text : jsstring) (h : jsstring) (blk : list jsstring) :
  isBoundary false h = true ->
  boundaries false blk = [] ->
  (split LF text = h :: blk -> extractSections text = [sectionOver h blk])
  /\ (forall h' rest,
        split LF text = h :: blk ++ h' :: rest ->
        isBoundary (fenceAfter false blk) h' = true ->
        extractSections text
        = sectionOver h blk :: extractSections (join [LF] (h' :: rest))).
Proof.
  intros Hh Hblk. split.
  - intros E. unfold extractSections. rewrite E, (fold_heading_block h blk Hh Hblk).
    reflexivity.
  - intros h' rest E Hh'.
    assert (Hoff : fenceAfter false blk = false).
    { destruct (boundary_toggle _ _ Hh') as [_ Hb]. exact Hb. }
    assert (Hlines : split LF (join [LF] (h' :: rest)) = h' :: rest).
    { apply split_join; [discriminate|].
      pose proof (split_no_sep LF text) as Hall. rewrite E in Hall.
      inversion Hall as [|? ? _ Hall']; subst.
      apply Forall_app in Hall'. tauto. }
    unfold extractSections at 1. rewrite E.
    change (h :: blk ++ h' :: rest) with ((h :: blk) ++ h' :: rest).
    rewrite fold_left_app, (fold_heading_block h blk Hh Hblk).
    cbn [fold_left]. rewrite stepLine_boundary by exact Hh'.
    cbn [currentSection l_sections currentContent app].
    change {| l_sections := [closeSection (openSection h) blk];
              currentSection := Some (openSection h');
              currentContent := []; inCodeBlock := false |}
      with (withSections [closeSection (openSection h) blk] (afterFirstHeading h')).
    rewrite fold_withSections, finish_withSections. cbn [app]. f_equal.
    unfold extractSections. rewrite Hlines.
    assert (F : isBoundary (fenceAfter false []) h' = true).
    { cbn [fenceAfter fold_left]. rewrite <- Hoff. exact Hh'. }
    pose proof (fold_first_boundary [] h' rest eq_refl F) as Hf.
    cbn [app] in Hf. rewrite Hf. reflexivity.
Qed.

(** A body with two headings, a fenced comment under the first. *)
Definition twoSections : jsstring :=
  js "# Install" ++ [LF] ++ js "```" ++ [LF] ++ js "# not a heading" ++ [LF]
  ++ js "```" ++ [LF] ++ js "## Use" ++ [LF] ++ js "Run it.".

Lemma extractSections_contents_witness :
  extractSections twoSections
  = sectionOver (js "# Install") [js "```"; js "# not a heading"; js "```"]
    :: extractSections (join [LF] [js "## Use"; js "Run it."]).
Proof.
  refine (proj2 (extractSections_contents twoSections (js "# Install")
                   [js "```"; js "# not a heading"; js "```"] _ _)
            (js "## Use") [js "Run it."] _ _).
  - vm_compute. reflexivity.
  - vm_compute. reflexivity.
  - vm_compute. reflexivity.
  - vm_compute. reflexivity.
Defined.

(* ------------------------------------------------------------------ *)
(** ** Parser: a document put together from its parts *)
(* ------------------------------------------------------------------ *)

Section AssembledDocument.

(** The closing marker cannot overlap itself, so behind a block that does
    not contain it, it is found right at the end of the block. *)
Lemma closeOffset_first (y rest : jsstring) :
  includes y closeMarker = false ->
  closeOffset (y ++ closeMarker ++ rest) = Some (length y).
Proof.
  induction y as [|a y IH]; intros H.
  - reflexivity.
  - cbn [includes] in H. apply orb_false_iff in H. destruct H as [Hs Hi].
    cbn [app closeOffset].
    assert (Hno : startsWith (a :: y ++ closeMarker ++ rest) closeMarker = false).
    { destruct y as [|b [|c [|d y']]].
      - cbn [app closeMarker js map list_ascii_of_string startsWith].
        cbn -[N.eqb]. change (45 =? 10)%N with false. apply andb_false_r.
      - cbn -[N.eqb]. change (45 =? 10)%N with false. rewrite !andb_false_r. reflexivity.
      - cbn -[N.eqb]. change (45 =? 10)%N with false. rewrite !andb_false_r. reflexivity.
      - cbn -[N.eqb] in Hs |- *. exact Hs. }
    rewrite Hno, (IH Hi). reflexivity.
Qed.

Lemma blockLength_assembled (y rest : jsstring) :
  includes y closeMarker = false ->
  blockLength (openMarker ++ y ++ closeMarker ++ rest) = Some (length y).
Proof.
  intros H. unfold blockLength.
  change (startsWith (openMarker ++ y ++ closeMarker ++ rest) openMarker) with true.
  cbv iota. change (skipn 4 (openMarker ++ y ++ closeMarker ++ rest))
    with (y ++ closeMarker ++ rest).
  apply closeOffset_first. exact H.
Qed.

Lemma assembled_not_blank (tail : jsstring) : blank (openMarker ++ tail) = false.
Proof.
  unfold blank. change (openMarker ++ tail) with (45%N :: (js "--" ++ [LF] ++ tail)).
  cbn [nonEmpty negb orb].
  destruct (trim_keeps_head 45%N (js "--" ++ [LF] ++ tail) eq_refl) as [t' E].
  rewrite E. reflexivity.
Qed.

End AssembledDocument.

(** X6.  A document put together from a metadata block and a body is taken
    apart again by [parseSkill].  When the text is three dashes, a line
    feed, a block [y] that contains no line feed followed by three dashes,
    then a line feed, three dashes and any [rest], the YAML loader is given
    exactly [y].  If it returns an object with truthy name and description,
    the result has that object as its metadata, the trimmed [rest] as its
    body and the sections of that body. *)
Theorem parseSkill_assembled (pf : Platform) (y rest : jsstring) (v : jsval) :
  includes y closeMarker = false ->
  yamlLoad pf y = YamlLoaded v ->
  truthy v = true -> typeofObject v = true ->
  truthy (getProp v (js "name")) = true ->
  truthy (getProp v (js "description")) = true ->
  metadataBlock (openMarker ++ y ++ closeMarker ++ rest) = Some y
  /\ parseSkill pf (openMarker ++ y ++ closeMarker ++ rest)
     = Ok {| frontmatter := v; body := trim rest;
             sections := extractSections (trim rest) |}.
Proof.
  intros Hy Hload Hv Hobj Hname Hdesc.
  set (text := openMarker ++ y ++ closeMarker ++ rest).
  pose proof (exec_frontmatter text) as Hexec.
  unfold text in Hexec at 2. rewrite (blockLength_assembled y rest Hy) in Hexec.
  assert (Hg : firstn (length y) (skipn 4 text) = y).
  { change (skipn 4 text) with (y ++ closeMarker ++ rest).
    rewrite firstn_app, Nat.sub_diag, firstn_all. cbn [firstn]. apply app_nil_r. }
  assert (Hrest : skipn (length (firstn (4 + length y + 4) text)) text = rest).
  { assert (Hlen : length text = 4 + length y + 4 + length rest).
    { unfold text. rewrite !length_app. change (length openMarker) with 4.
      change (length closeMarker) with 4. lia. }
    rewrite length_firstn, Nat.min_l by lia.
    unfold text. change openMarker with (firstn 4 openMarker).
    replace (4 + length y + 4) with (length (openMarker ++ y ++ closeMarker))
      by (rewrite !length_app; change (length openMarker) with 4;
          change (length closeMarker) with 4; lia).
    change (firstn 4 openMarker) with openMarker.
    replace (openMarker ++ y ++ closeMarker ++ rest)
      with ((openMarker ++ y ++ closeMarker) ++ rest)
      by (rewrite <- !app_assoc; reflexivity).
    rewrite skipn_app, Nat.sub_diag, skipn_all. reflexivity. }
  rewrite Hg in Hexec. split.
  - unfold metadataBlock. fold text. rewrite Hexec. reflexivity.
  - unfold parseSkill. fold text.
    pose proof (assembled_not_blank (y ++ closeMarker ++ rest)) as Hb.
    unfold blank in Hb. fold text in Hb. rewrite Hb, Hexec.
    unfold group at 1. cbn [mr_groups find fst snd Nat.eqb].
    rewrite Hload, Hv, Hobj, Hname, Hdesc. cbn [negb orb mr_text].
    rewrite Hrest. reflexivity.
Qed.

(** A platform whose YAML loader knows one block. *)
Definition pdfBlock : jsstring :=
  js "name: PDF Tools" ++ [LF] ++ js "description: Work with PDF files".

Definition pdfMetadata : jsval :=
  VObj [(js "name", VStr (js "PDF Tools"));
        (js "description", VStr (js "Work with PDF files"))].

Definition pdfPlatform : Platform :=
  {| toLowerCase := asciiLower;
     parseInstallCount := fun _ => Num 0;
     yamlLoad := fun y => if jsEqb y pdfBlock then YamlLoaded pdfMetadata
                          else YamlOtherError (js "unexpected block") |}.

Lemma parseSkill_assembled_witness :
  parseSkill pdfPlatform
    (openMarker ++ pdfBlock ++ closeMarker ++ [LF] ++ js "# Usage" ++ [LF] ++ js "Read it.")
  = Ok {| frontmatter := pdfMetadata;
          body := trim ([LF] ++ js "# Usage" ++ [LF] ++ js "Read it.");
          sections := extractSections (trim ([LF] ++ js "# Usage" ++ [LF] ++ js "Read it.")) |}.
Proof.
  refine (proj2 (parseSkill_assembled pdfPlatform pdfBlock
                   ([LF] ++ js "# Usage" ++ [LF] ++ js "Read it.") pdfMetadata
                   _ _ _ _ _ _)); reflexivity.
Defined.

(* ------------------------------------------------------------------ *)
(** ** Kebab case: when nothing is left *)
(* ------------------------------------------------------------------ *)

Section KebabEmpty.

Lemma keywordChar_kebab (c : N) :
  isKebabChar c = isKeywordChar c || isHyphen c.
Proof. unfold isKebabChar, isKeywordChar, isHyphen. rewrite (N.eqb_sym c hyphen). reflexivity. Qed.

Lemma hyphen_not_keyword (c : N) : isHyphen c = true -> isKeywordChar c = false.
Proof.
  intros H. apply isHyphen_eq in H. subst c. reflexivity.
Qed.

Lemma space_not_keyword (c : N) : isSpaceOrUnderscore c = true -> isKeywordChar c = false.
Proof.
  intros H. destruct (isKeywordChar c) eqn:E; [|reflexivity].
  assert (Hk : isKebabChar c = true) by (rewrite keywordChar_kebab, E; reflexivity).
  rewrite (kebabChar_not_space c Hk) in H. discriminate.
Qed.

(** Collapsing runs into hyphens neither adds nor removes letters and
    digits. *)
Lemma collapse_keeps_keyword (p : N -> bool) (s : jsstring) :
  (forall c, p c = true -> isKeywordChar c = false) ->
  forall b,
    existsb isKeywordChar (collapse p [hyphen] b s) = existsb isKeywordChar s.
Proof.
  intros Hp. induction s as [|c t IH]; intros b; [reflexivity|].
  cbn [collapse existsb]. destruct (p c) eqn:E.
  - rewrite (Hp c E). destruct b; cbn [app existsb orb]; apply IH.
  - cbn [existsb]. rewrite IH. reflexivity.
Qed.

Lemma filter_keeps_keyword (s : jsstring) :
  existsb isKeywordChar (filter isKebabChar s) = existsb isKeywordChar s.
Proof.
  induction s as [|c t IH]; [reflexivity|].
  cbn [filter existsb]. rewrite keywordChar_kebab.
  destruct (isKeywordChar c) eqn:E; cbn [orb existsb].
  - rewrite E. reflexivity.
  - destruct (isHyphen c); cbn [existsb]; rewrite ?E; exact IH.
Qed.

(** Stripping the hyphens at both ends leaves nothing exactly when there
    is no letter and no digit. *)
Lemma strip_empty (u : jsstring) :
  forallb isKebabChar u = true ->
  stripTrailing (stripLeading u) = [] <-> existsb isKeywordChar u = false.
Proof.
  induction u as [|c t IH]; intros H; [cbn; tauto|].
  cbn [forallb] in H. apply andb_true_iff in H. destruct H as [Hc Ht].
  cbn [stripLeading existsb]. rewrite keywordChar_kebab in Hc.
  destruct (isHyphen c) eqn:E.
  - rewrite (hyphen_not_keyword c E). cbn [orb]. exact (IH Ht).
  - rewrite orb_false_r in Hc. rewrite Hc. cbn [orb stripTrailing].
    rewrite E. cbn [andb]. split; discriminate.
Qed.

End KebabEmpty.

(** X7.  [toKebabCase] returns the empty string exactly when the trimmed
    and lowercased input contains no code unit of [a-z0-9]: a name made of
    punctuation or of letters outside ASCII only leaves nothing to name a
    file or a power after. *)
Theorem toKebabCase_empty (pf : Platform) (s : jsstring) :
  toKebabCase pf s = []
  <-> existsb isKeywordChar (toLowerCase pf (trim s)) = false.
Proof.
  rewrite toKebabCase_rule. unfold kebabRule.
  set (L := toLowerCase pf (trim s)).
  set (B := filter isKebabChar (collapse isSpaceOrUnderscore [hyphen] false L)).
  assert (HB : forallb isKebabChar B = true).
  { subst B. apply forallb_forall. intros c Hc. apply filter_In in Hc. tauto. }
  rewrite (strip_empty _ (collapse_hyphens_chars false B HB)).
  rewrite (collapse_keeps_keyword isHyphen B hyphen_not_keyword).
  subst B. rewrite filter_keeps_keyword.
  rewrite (collapse_keeps_keyword isSpaceOrUnderscore L space_not_keyword).
  reflexivity.
Qed.

(* ------------------------------------------------------------------ *)
(** ** Keywords *)
(* ------------------------------------------------------------------ *)

(** Splitting at the runs of a class: [inRun] tells whether the run at the
    start has been passed already, [piece] is the piece in progress. *)
Fixpoint splitRuns (p : N -> bool) (inRun : bool) (piece s : jsstring)
    : list jsstring :=
  match s with
  | [] => [piece]
  | c :: t =>
      if p c then (if inRun then [] else [piece]) ++ splitRuns p true [] t
      else splitRuns p false (piece ++ [c]) t
  end.

Section SplitRuns.

Variable p : N -> bool.

(** [split] with the pattern of a run of a class splits at the runs. *)
Lemma splitRe_runs (s : jsstring) :
  (forall pos prev piece,
     splitReFrom (plus (Cls p)) 0 pos prev piece s = splitRuns p false piece s)
  /\ (forall pos prev,
        splitReFrom (plus (Cls p)) (runLength p s) pos prev [] s
        = splitRuns p true [] s).
Proof.
  induction s as [|c t [IHa IHb]].
  - split; intros; reflexivity.
  - assert (Ha : forall pos prev piece,
               splitReFrom (plus (Cls p)) 0 pos prev piece (c :: t)
               = splitRuns p false piece (c :: t)).
    { intros pos prev piece. cbn [splitReFrom splitRuns].
      pose proof (matchAt_plus_class p pos prev (c :: t)) as H. cbn beta iota in H.
      destruct (p c).
      - destruct H as [m [E Hl]]. rewrite E, Hl, IHb. reflexivity.
      - rewrite H, IHa. reflexivity. }
    split; [exact Ha|].
    intros pos prev. cbn [runLength]. destruct (p c) eqn:Ep.
    + cbn [splitReFrom splitRuns]. rewrite Ep, IHb. reflexivity.
    + rewrite Ha. cbn [splitRuns]. rewrite Ep. reflexivity.
Qed.

(** The pieces are made of the code units outside the class. *)
Lemma splitRuns_pieces (q : N -> bool) (s : jsstring) :
  (forall c, In c s -> p c = false -> q c = true) ->
  forall b piece,
    forallb q piece = true ->
    Forall (fun w => forallb q w = true) (splitRuns p b piece s).
Proof.
  induction s as [|c t IH]; intros Hs b piece Hp; cbn [splitRuns].
  - constructor; [exact Hp|constructor].
  - assert (Ht : forall d, In d t -> p d = false -> q d = true).
    { intros d Hd. apply Hs. right. exact Hd. }
    destruct (p c) eqn:E.
    + apply Forall_app. split.
      * destruct b; [constructor|constructor; [exact Hp|constructor]].
      * apply IH; [exact Ht|reflexivity].
    + apply IH; [exact Ht|]. rewrite forallb_app, Hp. cbn [forallb].
      rewrite (Hs c (or_introl eq_refl) E). reflexivity.
Qed.

End SplitRuns.

Section UniqueFacts.

Lemma existsb_jsEqb (w : jsstring) (l : list jsstring) :
  existsb (jsEqb w) l = true <-> In w l.
Proof.
  rewrite existsb_exists. split.
  - intros [x [Hin H]]. apply jsEqb_eq in H. subst x. exact Hin.
  - intros H. exists w. split; [exact H|apply jsEqb_refl].
Qed.

Lemma unique_in (words : list jsstring) :
  forall seen w, In w (unique seen words) -> In w words /\ ~ In w seen.
Proof.
  induction words as [|x rest IH]; intros seen w H; [contradiction|].
  cbn [unique] in H. destruct (existsb (jsEqb x) seen) eqn:E.
  - destruct (IH _ _ H) as [H1 H2]. split; [right; exact H1|exact H2].
  - destruct H as [<-|H].
    + split; [left; reflexivity|]. intros Hin.
      apply existsb_jsEqb in Hin. congruence.
    + destruct (IH _ _ H) as [H1 H2]. split; [right; exact H1|].
      intros Hin. apply H2. right. exact Hin.
Qed.

Lemma unique_NoDup (words : list jsstring) :
  forall seen, NoDup (unique seen words).
Proof.
  induction words as [|x rest IH]; intros seen; cbn [unique]; [constructor|].
  destruct (existsb (jsEqb x) seen); [apply IH|].
  constructor; [|apply IH].
  intros Hin. destruct (unique_in _ _ _ Hin) as [_ Hn]. apply Hn. left. reflexivity.
Qed.

Lemma firstn_In {A : Type} (n : nat) (l : list A) (x : A) :
  In x (firstn n l) -> In x l.
Proof.
  revert n. induction l as [|a l IH]; intros [|n] H; cbn [firstn] in H;
    try contradiction.
  destruct H as [H|H]; [left; exact H|right; exact (IH _ H)].
Qed.

Lemma firstn_NoDup {A : Type} (n : nat) (l : list A) : NoDup l -> NoDup (firstn n l).
Proof.
  revert n. induction l as [|a l IH]; intros [|n] H; cbn [firstn]; try constructor.
  - inversion H; subst. intros Hin. apply firstn_In in Hin. contradiction.
  - inversion H; subst. apply IH. assumption.
Qed.

End UniqueFacts.

Section DigitsTest.

(** [/^\d+$/] accepts the non-empty strings of digits. *)
Lemma test_digits (w : jsstring) :
  w <> [] -> forallb isDigit w = true -> test digitsRe w = true.
Proof.
  intros Hne Hd. destruct w as [|c t]; [congruence|].
  cbn [forallb] in Hd. apply andb_true_iff in Hd. destruct Hd as [Hc Ht].
  unfold test, exec. cbn [execFrom]. unfold matchAt.
  assert (E : exists y, rmatch digitsRe (MState 0 None (c :: t) []) Some = Some y).
  { unfold digitsRe. cbn [seqOf].
    change (rmatch (Seq Bol (Seq (plus (Cls isDigit)) Eol)) (MState 0 None (c :: t) []) Some)
      with (rmatch (plus (Cls isDigit)) (MState 0 None (c :: t) []) atEnd).
    rewrite rmatch_plus_class. cbn [m_rest]. rewrite Hc.
    pose proof (greedyStar_atEnd isDigit t (step c t (MState 0 None (c :: t) [])) eq_refl)
      as H.
    rewrite Ht in H. destruct H as [y [E _]]. eauto. }
  destruct E as [y E]. rewrite E. reflexivity.
Qed.

Lemma keyword_has_letter (w : jsstring) :
  w <> [] -> forallb isKeywordChar w = true -> test digitsRe w = false ->
  existsb isLower w = true.
Proof.
  intros Hne Hk Ht. destruct (existsb isLower w) eqn:E; [reflexivity|].
  rewrite test_digits in Ht; [discriminate|exact Hne|].
  apply forallb_forall. intros c Hc.
  rewrite forallb_forall in Hk. specialize (Hk c Hc).
  unfold isKeywordChar in Hk.
  destruct (isLower c) eqn:El; [|exact Hk].
  assert (existsb isLower w = true) by (apply existsb_exists; eauto). congruence.
Qed.

End DigitsTest.

(** The words that [extractKeywords] filters. *)
Lemma keyword_candidates (pf : Platform) (description : jsstring) :
  Forall (fun w => forallb isKeywordChar w = true)
    (splitRe spaceRunRe (replaceAll nonWordRe (js " ") (toLowerCase pf description))).
Proof.
  set (t := replaceAll nonWordRe (js " ") (toLowerCase pf description)).
  assert (Ht : forall c, In c t -> isWhiteSpace c = false -> isKeywordChar c = true).
  { subst t. unfold replaceAll, nonWordRe. rewrite replaceAll_class.
    intros c Hc Hw. apply in_flat_map in Hc. destruct Hc as [d [_ Hc]].
    destruct (negb (isKeywordChar d || isWhiteSpace d)) eqn:E.
    - cbn [js] in Hc. destruct Hc as [<-|[]]. discriminate.
    - destruct Hc as [<-|[]]. apply negb_false_iff in E. rewrite Hw, orb_false_r in E.
      exact E. }
  unfold splitRe. destruct t as [|c u] eqn:Et.
  - unfold spaceRunRe, ws.
    pose proof (matchAt_plus_class isWhiteSpace 0 None []) as H. cbn beta iota in H.
    rewrite H. repeat constructor.
  - unfold spaceRunRe, ws. rewrite (proj1 (splitRe_runs isWhiteSpace (c :: u))).
    apply splitRuns_pieces; [exact Ht|reflexivity].
Qed.

(** X8.  [extractKeywords] returns at most five keywords, all different;
    every one of them has three code units or more, all of [a-z0-9] and at
    least one of them a letter, and is none of the stop words. *)
Theorem extractKeywords_form (pf : Platform) (description : jsstring) :
  let keywords := extractKeywords pf description in
  length keywords <= 5
  /\ NoDup keywords
  /\ Forall (fun w => 3 <= length w
                      /\ forallb isKeywordChar w = true
                      /\ existsb isLower w = true
                      /\ ~ In w stopWords)
            keywords.
Proof.
  cbv zeta. unfold extractKeywords.
  set (words := filter keepsWord _).
  split; [rewrite length_firstn; lia|].
  split; [apply firstn_NoDup, unique_NoDup|].
  apply Forall_forall. intros w Hw.
  apply firstn_In in Hw. apply unique_in in Hw. destruct Hw as [Hw _].
  subst words. apply filter_In in Hw. destruct Hw as [Hin Hkeep].
  pose proof (keyword_candidates pf description) as Hc.
  rewrite Forall_forall in Hc. specialize (Hc w Hin).
  unfold keepsWord in Hkeep.
  apply andb_true_iff in Hkeep. destruct Hkeep as [Hkeep Hdig].
  apply andb_true_iff in Hkeep. destruct Hkeep as [Hlen Hstop].
  apply Nat.leb_le in Hlen. apply negb_true_iff in Hstop, Hdig.
  repeat split; try assumption.
  - apply keyword_has_letter; [|exact Hc|exact Hdig].
    intros ->. cbn [length] in Hlen. lia.
  - intros Hs. apply existsb_jsEqb in Hs. congruence.
Qed.

(* ------------------------------------------------------------------ *)
(** ** Steering files and powers *)
(* ------------------------------------------------------------------ *)

(** What [yaml.dump] is given by the two converters. *)
Definition steeringFrontmatter (rt : Runtime) (now : N) (name sourceUrl : jsstring)
    : jsval :=
  VObj [(js "original_skill", VStr name);
        (js "source_url", VStr sourceUrl);
        (js "imported_at", VStr (toISOString rt now))].

Definition powerFrontmatter (pf : Platform) (name description : jsstring) : jsval :=
  VObj [(js "name", VStr (toKebabCase pf name));
        (js "displayName", VStr name);
        (js "description", VStr description);
        (js "keywords", strings (extractKeywords pf description));
        (js "author", VStr (js "Imported from Claude Skills"))].


Section RenderFacts.






End RenderFacts.



(** X11.  When the two converters refuse.  Both reject blank content with
    the error "Skill content is required" and pass on the error of
    [parseSkill] unchanged.  Both throw when the name in the metadata is no
    string; convert_to_power also throws when the description is no string,
    which convert_to_steering accepts if the value can be made a string. *)
Theorem converters_refuse
    (pf : Platform) (rt : Runtime) (now later : N) (content sourceUrl : jsstring) :
  (blank content = true ->
   ConvertTools.convertToSteeringHandler pf rt now content sourceUrl
   = Throw (newError (js "Skill content is required"))
   /\ ConvertTools.convertToPowerHandler pf rt now later content sourceUrl
      = Throw (newError (js "Skill content is required")))
  /\ (forall e, blank content = false -> parseSkill pf content = Throw e ->
      ConvertTools.convertToSteeringHandler pf rt now content sourceUrl = Throw e
      /\ ConvertTools.convertToPowerHandler pf rt now later content sourceUrl = Throw e)
  /\ (forall parsed, blank content = false -> parseSkill pf content = Ok parsed ->
      (forall s, getProp (frontmatter parsed) (js "name") <> VStr s) ->
      ConvertTools.convertToSteeringHandler pf rt now content sourceUrl
      = Throw (typeError rt "str.trim")
      /\ ConvertTools.convertToPowerHandler pf rt now later content sourceUrl
         = Throw (typeError rt "str.trim"))
  /\ (forall parsed name, blank content = false -> parseSkill pf content = Ok parsed ->
      getProp (frontmatter parsed) (js "name") = VStr name ->
      (forall s, getProp (frontmatter parsed) (js "description") <> VStr s) ->
      ConvertTools.convertToPowerHandler pf rt now later content sourceUrl
      = Throw (typeError rt "description.toLowerCase")).
Proof.
  unfold ConvertTools.convertToSteeringHandler, ConvertTools.convertToPowerHandler.
  split; [intros ->; split; reflexivity|].
  split; [intros e -> ->; split; reflexivity|].
  split.
  - intros parsed -> -> Hname. unfold toSteeringFile, toPower.
    destruct (getProp (frontmatter parsed) (js "name")) as [| | | | |s| |];
      try (split; reflexivity).
    exfalso. exact (Hname s eq_refl).
  - intros parsed name -> -> Hname Hdesc. unfold toPower. rewrite Hname.
    destruct (getProp (frontmatter parsed) (js "description")) as [| | | | |s| |];
      try reflexivity.
    exfalso. exact (Hdesc s eq_refl).
Qed.

(** A stable insertion sort, for a comparator given by its sign. *)
Fixpoint insertSorted {A : Type} (cmp : A -> A -> Z) (x : A) (l : list A) : list A :=
  match l with
  | [] => [x]
  | y :: rest => if (cmp x y <=? 0)%Z then x :: l else y :: insertSorted cmp x rest
  end.

Definition stableSort {A : Type} (cmp : A -> A -> Z) (l : list A) : list A :=
  fold_right (insertSorted cmp) [] l.

(** A runtime that is used to run the definitions on concrete inputs. *)
Definition demoRuntime : Runtime :=
  {| yamlDump := fun v =>
       match v with
       | VObj fields => flat_map (fun kv => fst kv ++ js ": ..." ++ [LF]) fields
       | _ => [LF]
       end;
     toISOString := fun n => js "T+" ++ numToString n;
     typeErrorMessage := fun expression => expression ++ js " is not a function";
     coerceToString := fun _ => Ok (js "[object Object]");
     lengthPositive := fun _ => false;
     iterate := fun _ => Throw (newError (js "deps is not iterable"));
     arraySort := fun A cmp l => stableSort cmp l |}.

(** A skill whose name would leave the steering directory if it were used
    as it is. *)
Definition escapingBlock : jsstring :=
  js "name: ../../Etc/Passwd" ++ [LF] ++ js "description: Reads the PDF files of a folder".

Definition escapingPlatform : Platform :=
  {| toLowerCase := asciiLower;
     parseInstallCount := fun _ => Num 0;
     yamlLoad := fun y =>
       if jsEqb y escapingBlock
       then YamlLoaded (VObj [(js "name", VStr (js "../../Etc/Passwd"));
                              (js "description",
                               VStr (js "Reads the PDF files of a folder"))])
       else YamlOtherError (js "unexpected block") |}.

Definition escapingDocument : jsstring :=
  openMarker ++ escapingBlock ++ closeMarker ++ [LF] ++ js "Body.".





(* ------------------------------------------------------------------ *)
(** ** Coordinates written out in full *)
(* ------------------------------------------------------------------ *)

Section ExplicitCoordinates.

Lemma segments_parts (identifier part : jsstring) :
  In part (segments identifier) -> part <> [] /\ ~ In SLASH part.
Proof.
  unfold segments. intros H. apply filter_In in H. destruct H as [Hin Hne].
  split; [intros ->; discriminate|].
  pose proof (split_no_sep SLASH identifier) as Hall.
  rewrite Forall_forall in Hall. exact (Hall part Hin).
Qed.

Lemma rawUrl_trusted (o r p : jsstring) : isUrlTrusted (rawUrl o r p) = true.
Proof. unfold isUrlTrusted, rawUrl. apply startsWith_spec. eauto. Qed.

(** The URL that the fetcher builds for the main branch of a path that
    does not start with a slash is the URL that the resolver gives. *)
Lemma mainUrl_rawUrl (o r p : jsstring) :
  startsWith p (js "/") = false ->
  constructGitHubRawUrl o r (js "main") p = rawUrl o r p.
Proof.
  intros H. unfold constructGitHubRawUrl, rawUrl, githubRawBaseUrl. rewrite H.
  reflexivity.
Qed.

Lemma branchUrl_trusted (resolved : ResolvedSkill) (branch : jsstring) :
  isUrlTrusted (branchUrl resolved branch) = true.
Proof.
  unfold isUrlTrusted, branchUrl, constructGitHubRawUrl, githubRawBaseUrl.
  apply startsWith_spec. eexists. reflexivity.
Qed.

(** What a resolved coordinate looks like. *)
Lemma resolveFromGitHub_shape (identifier : jsstring) (r : ResolvedSkill) :
  resolveFromGitHub identifier = Ok r ->
  2 <= length (segments identifier)
  /\ (exists rest, skillPath r = js "skills" ++ rest
                   /\ (rest = [] \/ exists t, rest = SLASH :: t))
  /\ fullUrl r = rawUrl (owner r) (repo r) (skillPath r)
  /\ source r = GitHub /\ metadata r = None.
Proof.
  unfold resolveFromGitHub. intros Hr.
  destruct (segments identifier) as [|a [|b [|c rest]]] eqn:Es; try discriminate.
  - inversion Hr; subst r. cbn [length owner repo skillPath fullUrl source metadata].
    repeat split; [lia|]. exists (SLASH :: b). split; [reflexivity|].
    right. eexists. reflexivity.
  - inversion Hr; subst r. cbn [length owner repo skillPath fullUrl source metadata hd].
    repeat split; [lia|].
    destruct (jsEqb c (js "skills")) eqn:Ec.
    + apply jsEqb_eq in Ec. subst c. destruct rest as [|d rest'].
      * exists []. split; [reflexivity|]. left. reflexivity.
      * exists (js "/" ++ join (js "/") (d :: rest')). split; [reflexivity|].
        right. eexists. reflexivity.
    + exists (SLASH :: join (js "/") (c :: rest)). split; [reflexivity|].
      right. eexists. reflexivity.
Qed.

(** The URL of a resolved skill is the one that the fetcher requests
    first. *)
Lemma rawUrl_first (r : ResolvedSkill) (rest : jsstring) :
  skillPath r = js "skills" ++ rest ->
  fullUrl r = rawUrl (owner r) (repo r) (skillPath r) ->
  fullUrl r = branchUrl r (js "main") /\ isUrlTrusted (fullUrl r) = true.
Proof.
  intros Hp Hu. split; [|rewrite Hu; apply rawUrl_trusted].
  unfold branchUrl. rewrite mainUrl_rawUrl; [exact Hu|]. rewrite Hp. reflexivity.
Qed.

End ExplicitCoordinates.

(** X12.  A coordinate written with slashes resolves exactly when it has
    two or more non-empty segments; empty segments (a slash at either end,
    two slashes in a row) do not count.  With fewer segments the error is the
    [SkillResolutionError] "Invalid identifier format".  With two segments
    the repository is [agent-skills]; with more, the first two are owner and
    repository.  In both cases the path starts with the segment [skills]
    (which is not doubled when the identifier has it already), the URL is
    the one that the fetcher requests first (main branch), and it has the
    trusted prefix. *)
Theorem resolveFromGitHub_coordinates (identifier : jsstring) :
  (forall part, In part (segments identifier) -> part <> [] /\ ~ In SLASH part)
  /\ (length (segments identifier) < 2 ->
      exists e, resolveFromGitHub identifier = Throw e
                /\ err_class e = SkillResolutionError
                /\ message e = js "Invalid identifier format"
                /\ suggestions e = [js "Try: owner/repo"; js "Try: owner/repo/skill-name"])
  /\ (forall o name, segments identifier = [o; name] ->
      exists r, resolveFromGitHub identifier = Ok r
                /\ owner r = o /\ repo r = js "agent-skills"
                /\ skillPath r = js "skills/" ++ name)
  /\ (forall o rp first more, segments identifier = o :: rp :: first :: more ->
      exists r, resolveFromGitHub identifier = Ok r
                /\ owner r = o /\ repo r = rp
                /\ (first = js "skills" -> skillPath r = join (js "/") (first :: more))
                /\ (first <> js "skills" ->
                    skillPath r = js "skills/" ++ join (js "/") (first :: more)))
  /\ (forall r, resolveFromGitHub identifier = Ok r ->
      2 <= length (segments identifier)
      /\ (exists rest, skillPath r = js "skills" ++ rest
                       /\ (rest = [] \/ exists t, rest = SLASH :: t))
      /\ fullUrl r = branchUrl r (js "main")
      /\ isUrlTrusted (fullUrl r) = true
      /\ source r = GitHub /\ metadata r = None).
Proof.
  split; [exact (segments_parts identifier)|].
  unfold resolveFromGitHub.
  split.
  { intros Hl. destruct (segments identifier) as [|a [|b rest]];
      [| |cbn [length] in Hl; lia]; eexists; repeat split. }
  split.
  { intros o name ->. eexists. repeat split. }
  split.
  { intros o rp first more ->. eexists. split; [reflexivity|].
    cbn [owner repo skillPath hd]. repeat split.
    - intros ->. reflexivity.
    - intros Hne. apply jsEqb_neq in Hne. rewrite Hne. reflexivity. }
  intros r Hr.
  destruct (resolveFromGitHub_shape identifier r Hr) as [Hl [[rest [Hp Hrest]] [Hu [Hs Hm]]]].
  destruct (rawUrl_first r rest Hp Hu) as [Hmain Htrusted].
  split; [exact Hl|]. split; [exists rest; auto|]. auto.
Qed.

(* ------------------------------------------------------------------ *)
(** ** What a computation may add to the trace *)
(* ------------------------------------------------------------------ *)

(** [within allowed cost n m]: whatever [m] adds to the trace consists of
    allowed events whose costs sum up to [n] at most. *)
Definition within (allowed : Event -> Prop) (cost : Event -> nat) (n : nat)
    {A : Type} (m : M A) : Prop :=
  forall st r st',
    m st = (r, st') ->
    exists es, trace st' = trace st ++ es
               /\ Forall allowed es /\ list_sum (map cost es) <= n.

Section Within.

Variable allowed : Event -> Prop.
Variable cost : Event -> nat.

Context {A B : Type}.

Lemma within_weaken (n n' : nat) (m : M A) :
  within allowed cost n m -> n <= n' -> within allowed cost n' m.
Proof.
  intros H Hn st r st' E. destruct (H _ _ _ E) as [es [H1 [H2 H3]]].
  exists es. repeat split; auto. lia.
Qed.

Lemma within_ret (a : A) : within allowed cost 0 (ret a).
Proof.
  intros st r st' E. inversion E; subst. exists []. rewrite app_nil_r.
  repeat split; auto.
Qed.

Lemma within_throw (e : Err) : within allowed cost 0 (@throw A e).
Proof.
  intros st r st' E. inversion E; subst. exists []. rewrite app_nil_r.
  repeat split; auto.
Qed.

Lemma within_seq (es1 es2 : list Event) (n1 n2 : nat) (t t1 t2 : list Event) :
  t1 = t ++ es1 -> Forall allowed es1 -> list_sum (map cost es1) <= n1 ->
  t2 = t1 ++ es2 -> Forall allowed es2 -> list_sum (map cost es2) <= n2 ->
  exists es, t2 = t ++ es /\ Forall allowed es /\ list_sum (map cost es) <= n1 + n2.
Proof.
  intros -> H1 H2 -> H3 H4. exists (es1 ++ es2). rewrite app_assoc.
  split; [reflexivity|]. split; [apply Forall_app; auto|].
  rewrite map_app, list_sum_app. lia.
Qed.

Lemma within_bind (n1 n2 : nat) (m : M A) (f : A -> M B) :
  within allowed cost n1 m -> (forall a, within allowed cost n2 (f a)) ->
  within allowed cost (n1 + n2) (bind m f).
Proof.
  intros Hm Hf st r st' E. unfold bind in E.
  destruct (m st) as [[a|e] st1] eqn:Em.
  - destruct (Hm _ _ _ Em) as [es1 [H1 [H2 H3]]].
    destruct (Hf a _ _ _ E) as [es2 [H4 [H5 H6]]].
    exact (within_seq es1 es2 n1 n2 _ _ _ H1 H2 H3 H4 H5 H6).
  - inversion E; subst. destruct (Hm _ _ _ Em) as [es1 [H1 [H2 H3]]].
    exists es1. repeat split; auto. lia.
Qed.

Lemma within_tryCatch (n1 n2 : nat) (m : M A) (h : Err -> M A) :
  within allowed cost n1 m -> (forall e, within allowed cost n2 (h e)) ->
  within allowed cost (n1 + n2) (tryCatch m h).
Proof.
  intros Hm Hh st r st' E. unfold tryCatch in E.
  destruct (m st) as [[a|e] st1] eqn:Em.
  - inversion E; subst. destruct (Hm _ _ _ Em) as [es1 [H1 [H2 H3]]].
    exists es1. repeat split; auto. lia.
  - destruct (Hm _ _ _ Em) as [es1 [H1 [H2 H3]]].
    destruct (Hh e _ _ _ E) as [es2 [H4 [H5 H6]]].
    exact (within_seq es1 es2 n1 n2 _ _ _ H1 H2 H3 H4 H5 H6).
Qed.

End Within.

Section WithinEffects.

Variable allowed : Event -> Prop.
Variable cost : Event -> nat.

Lemma within_emit (e : Event) : allowed e -> within allowed cost (cost e) (emit e).
Proof.
  intros He st r st' E. inversion E; subst. cbn [trace]. exists [e].
  split; [reflexivity|]. split; [constructor; auto|]. cbn [map list_sum fold_right]. lia.
Qed.

Lemma within_getTrace : within allowed cost 0 getTrace.
Proof.
  intros st r st' E. inversion E; subst. exists []. rewrite app_nil_r. repeat split; auto.
Qed.

Lemma within_getCache : within allowed cost 0 getCache.
Proof.
  intros st r st' E. inversion E; subst. exists []. rewrite app_nil_r. repeat split; auto.
Qed.

Lemma within_setCache c : within allowed cost 0 (setCache c).
Proof.
  intros st r st' E. inversion E; subst. cbn [trace]. exists []. rewrite app_nil_r.
  repeat split; auto.
Qed.

Lemma within_fetch (w : World) (u : jsstring) :
  allowed (EvFetch u) -> within allowed cost (cost (EvFetch u)) (fetch w u).
Proof.
  intros Hu. unfold fetch.
  apply (within_bind allowed cost 0 (cost (EvFetch u))); [apply within_getTrace|].
  intros h. replace (cost (EvFetch u)) with (cost (EvFetch u) + 0) by lia.
  apply within_bind; [apply within_emit; exact Hu|]. intros _.
  destruct (transport w h u); [apply within_ret|apply within_throw].
Qed.

Lemma within_dateNow (w : World) :
  allowed EvNow -> within allowed cost (cost EvNow) (dateNow w).
Proof.
  intros Hn. unfold dateNow.
  apply (within_bind allowed cost 0 (cost EvNow)); [apply within_getTrace|].
  intros h. replace (cost EvNow) with (cost EvNow + 0) by lia.
  apply within_bind; [apply within_emit; exact Hn|]. intros _. apply within_ret.
Qed.

Lemma within_fetchUrl (w : World) (u : jsstring) :
  allowed (EvFetch u) -> within allowed cost (cost (EvFetch u)) (fetchUrl w u).
Proof.
  intros Hu. unfold fetchUrl.
  replace (cost (EvFetch u)) with (cost (EvFetch u) + 0 + 0) by lia.
  apply within_tryCatch.
  - apply within_bind; [apply within_fetch; exact Hu|]. intros response.
    destruct (negb (r_ok response)); [apply within_throw|apply within_ret].
  - intros e. destruct (instanceOf e NetworkError); apply within_throw.
Qed.

(** The cost of the retry loop: one request per attempt, and a sleep after
    the first and the second attempt. *)
Fixpoint retryCost (u : jsstring) (remaining attempt : nat) : nat :=
  match remaining with
  | O => 0
  | S remaining' =>
      cost (EvFetch u)
      + ((if Nat.ltb attempt (maxRetries - 1)
          then cost (EvSleep (retryDelayMs * 2 ^ N.of_nat attempt)) else 0)
         + retryCost u remaining' (S attempt))
  end.

Lemma within_retryLoop (w : World) (u : jsstring) :
  allowed (EvFetch u) ->
  (forall attempt, attempt < maxRetries - 1 ->
                   allowed (EvSleep (retryDelayMs * 2 ^ N.of_nat attempt))) ->
  forall remaining attempt lastError,
    within allowed cost (retryCost u remaining attempt)
      (retryLoop w u remaining attempt lastError).
Proof.
  intros Hu Hs. induction remaining as [|n IH]; intros attempt lastError;
    cbn [retryLoop retryCost].
  - apply within_throw.
  - apply within_tryCatch; [apply within_fetchUrl; exact Hu|].
    intros e. destruct (includes (message e) (js "404")).
    + eapply within_weaken; [apply within_throw|lia].
    + apply within_bind; [|intros _; apply IH].
      destruct (Nat.ltb attempt (maxRetries - 1)) eqn:E.
      * apply within_emit. apply Hs. apply Nat.ltb_lt. exact E.
      * apply within_ret.
Qed.

(** The cost of the loop over the branches. *)
Definition branchesCost (resolved : ResolvedSkill) (branches : list jsstring) : nat :=
  list_sum (map (fun b => retryCost (branchUrl resolved b) maxRetries 0 + cost EvNow)
                branches).

Lemma within_branchLoop (w : World) (resolved : ResolvedSkill) :
  allowed EvNow ->
  (forall ms, In ms [1000; 2000]%N -> allowed (EvSleep ms)) ->
  forall branches,
    (forall b, In b branches -> allowed (EvFetch (branchUrl resolved b))) ->
    forall tried lastError,
      within allowed cost (branchesCost resolved branches)
        (branchLoop w resolved branches tried lastError).
Proof.
  intros Hn Hs. induction branches as [|b more IH]; intros Hb tried lastError;
    cbn [branchLoop].
  - apply within_throw.
  - unfold branchesCost. cbn [map list_sum fold_right]. fold (branchesCost resolved more).
    fold (branchUrl resolved b).
    apply within_tryCatch.
    + apply within_bind.
      * apply within_retryLoop; [apply Hb; left; reflexivity|].
        intros attempt Ha. apply Hs.
        change (maxRetries - 1) with 2 in Ha.
        destruct attempt as [|[|a]]; [left; reflexivity|right; left; reflexivity|lia].
      * intros content. replace (cost EvNow) with (cost EvNow + 0) by lia.
        apply within_bind; [apply within_dateNow; exact Hn|]. intros now.
        apply within_ret.
    + assert (Hmore : forall t l, within allowed cost (branchesCost resolved more)
                                    (branchLoop w resolved more t l)).
      { apply IH. intros b' Hb'. apply Hb. right. exact Hb'. }
      intros e. destruct (_ || _); destruct (jsEqb b lastBranch);
        try apply Hmore; try (eapply within_weaken; [apply within_throw|lia]).
      destruct (instanceOf e NetworkError);
        (eapply within_weaken; [apply within_throw|lia]).
Qed.

End WithinEffects.

Section FetchSuccess.

Variable w : World.
Variable resolved : ResolvedSkill.

Lemma fetchWithRetry_extends (u : jsstring) (s s1 : State) (r : Result jsstring) :
  fetchWithRetry w u s = (r, s1) -> exists es, trace s1 = trace s ++ es.
Proof.
  intros E.
  destruct (within_retryLoop (fun _ => True) (fun _ => 0) w u I (fun _ _ => I)
              _ _ _ _ _ _ E) as [es [Hes _]].
  eauto.
Qed.

(** A content comes from one of the branches, and the clock is read
    last. *)
Lemma branchLoop_ok (branches : list jsstring) :
  forall tried lastError s s' c,
    branchLoop w resolved branches tried lastError s = (Ok c, s') ->
    (exists b, In b branches /\ url c = branchUrl resolved b)
    /\ c_source c = resolved
    /\ exists t, trace s' = trace s ++ t ++ [EvNow].
Proof.
  induction branches as [|b more IH]; intros tried lastError s s' c E;
    cbn [branchLoop] in E; [discriminate|].
  fold (branchUrl resolved b) in E. unfold tryCatch at 1, bind at 1 in E.
  destruct (fetchWithRetry w (branchUrl resolved b) s) as [[content|e] s1] eqn:Ef;
    destruct (fetchWithRetry_extends _ _ _ _ Ef) as [es1 Hes1].
  - unfold bind, dateNow, getTrace, emit, ret, bind in E. inversion E; subst.
    cbn [url c_source trace]. split; [exists b; split; [left|]; reflexivity|].
    split; [reflexivity|]. exists es1. rewrite Hes1, <- app_assoc. reflexivity.
  - assert (Hrec : forall t l, branchLoop w resolved more t l s1 = (Ok c, s') ->
              (exists b0, In b0 (b :: more) /\ url c = branchUrl resolved b0)
              /\ c_source c = resolved /\ exists t0, trace s' = trace s ++ t0 ++ [EvNow]).
    { intros t l E'. destruct (IH _ _ _ _ _ E') as [[b0 [Hb0 Hu]] [Hs [t0 Hn]]].
      split; [exists b0; split; [right; exact Hb0|exact Hu]|].
      split; [exact Hs|]. exists (es1 ++ t0). rewrite Hn, Hes1, <- !app_assoc.
      reflexivity. }
    destruct (_ || _); destruct (jsEqb b lastBranch);
      try discriminate; try (exact (Hrec _ _ E)).
    destruct (instanceOf e NetworkError); discriminate.
Qed.

(** Whatever goes wrong, the error is of the class [NetworkError]. *)
Lemma branchLoop_error_class (branches : list jsstring) :
  forall tried lastError s s' e,
    branchLoop w resolved branches tried lastError s = (Throw e, s') ->
    err_class e = NetworkError.
Proof.
  induction branches as [|b more IH]; intros tried lastError s s' e E;
    cbn [branchLoop] in E.
  - inversion E; subst. reflexivity.
  - unfold tryCatch at 1, bind at 1 in E.
    destruct (fetchWithRetry w _ s) as [[content|e0] s1] eqn:Ef.
    + unfold bind, dateNow, getTrace, emit, ret, bind in E. discriminate.
    + destruct (_ || _); destruct (jsEqb b lastBranch);
        try exact (IH _ _ _ _ _ E);
        try (inversion E; subst; reflexivity).
      destruct (instanceOf e0 NetworkError) eqn:Ei.
      * inversion E; subst. unfold instanceOf in Ei.
        destruct (err_class e); try discriminate. reflexivity.
      * inversion E; subst. reflexivity.
Qed.

End FetchSuccess.

(** The events that a fetch of a skill may add to the trace. *)
Definition fetchEvent (resolved : ResolvedSkill) (e : Event) : Prop :=
  match e with
  | EvFetch u =>
      (exists b, In b defaultBranches /\ u = branchUrl resolved b)
      /\ isUrlTrusted u = true
  | EvSleep ms => ms = 1000%N \/ ms = 2000%N
  | EvNow => True
  | EvCall _ => False
  end.

Definition requests (es : list Event) : nat :=
  list_sum (map (fun e => match e with EvFetch _ => 1 | _ => 0 end) es).

(** The time slept, in milliseconds. *)
Definition sleptFor (es : list Event) : nat :=
  list_sum (map (fun e => match e with EvSleep ms => N.to_nat ms | _ => 0 end) es).

(** X13.  The effort of [fetchSkill] is bounded and stays with one host.
    Whatever the network answers, a call makes at most nine requests (three
    branches, three attempts each), each for the raw URL of the skill on
    one of the branches main, master and HEAD, which has the trusted
    prefix; it sleeps for 1000 or 2000 ms at a time and for nine seconds
    at most in all; it enters no tool handler.  When it returns a content,
    the URL of the content is one of the three, and the clock was read
    once more at the end; when it fails, the error is a [NetworkError]. *)
Theorem fetchSkill_effort (w : World) (resolved : ResolvedSkill) (st st' : State)
    (r : Result SkillContent) :
  fetchSkill w resolved st = (r, st') ->
  exists es,
    trace st' = trace st ++ es
    /\ Forall (fetchEvent resolved) es
    /\ requests es <= 9
    /\ sleptFor es <= 9 * 1000
    /\ match r with
       | Ok c =>
           (exists b, In b defaultBranches /\ url c = branchUrl resolved b)
           /\ isUrlTrusted (url c) = true
           /\ c_source c = resolved
           /\ exists before, es = before ++ [EvNow]
       | Throw e => err_class e = NetworkError
       end.
Proof.
  intros H.
  assert (Hallowed : forall b, In b defaultBranches ->
                       fetchEvent resolved (EvFetch (branchUrl resolved b))).
  { intros b Hb. split; [eauto|apply branchUrl_trusted]. }
  assert (Hsleep : forall ms, In ms [1000; 2000]%N -> fetchEvent resolved (EvSleep ms)).
  { intros ms [<-|[<-|[]]]; cbn; auto. }
  pose proof (within_branchLoop (fetchEvent resolved)
                (fun e => match e with EvFetch _ => 1 | _ => 0 end)
                w resolved I Hsleep defaultBranches Hallowed [] None st r st' H)
    as [es [Ht [Hall Hreq]]].
  pose proof (within_branchLoop (fetchEvent resolved)
                (fun e => match e with EvSleep ms => N.to_nat ms | _ => 0 end)
                w resolved I Hsleep defaultBranches Hallowed [] None st r st' H)
    as [es' [Ht' [_ Hslept]]].
  assert (es' = es) by (rewrite Ht in Ht'; exact (app_inv_head _ _ _ (eq_sym Ht'))).
  subst es'. exists es.
  split; [exact Ht|]. split; [exact Hall|].
  split; [exact Hreq|].
  split.
  { unfold sleptFor. etransitivity; [exact Hslept|]. vm_compute. reflexivity. }
  destruct r as [c|e].
  - destruct (branchLoop_ok w resolved _ _ _ _ _ _ H) as [[b [Hb Hu]] [Hs [t Hn]]].
    split; [eauto|]. split; [rewrite Hu; apply branchUrl_trusted|].
    split; [exact Hs|].
    exists t. rewrite Ht in Hn. exact (app_inv_head _ _ _ Hn).
  - exact (branchLoop_error_class w resolved _ _ _ _ _ _ H).
Qed.

(** Every request refused: nine requests and nine seconds of sleep, the
    bounds are reached. *)
Definition refusedRun : Result SkillContent * State :=
  Eval vm_compute in fetchSkill rejectingWorld pdfSkill emptyState.

Lemma fetchSkill_effort_witness :
  fetchSkill rejectingWorld pdfSkill emptyState = refusedRun
  /\ requests (trace (snd refusedRun)) = 9
  /\ sleptFor (trace (snd refusedRun)) = 9 * 1000
  /\ exists es,
       trace (snd refusedRun) = trace emptyState ++ es
       /\ Forall (fetchEvent pdfSkill) es
       /\ requests es <= 9
       /\ sleptFor es <= 9 * 1000
       /\ match fst refusedRun with
          | Ok c =>
              (exists b, In b defaultBranches /\ url c = branchUrl pdfSkill b)
              /\ isUrlTrusted (url c) = true
              /\ c_source c = pdfSkill
              /\ exists before, es = before ++ [EvNow]
          | Throw e => err_class e = NetworkError
          end.
Proof.
  split; [vm_compute; reflexivity|].
  split; [vm_compute; reflexivity|].
  split; [vm_compute; reflexivity|].
  apply (fetchSkill_effort rejectingWorld pdfSkill emptyState).
  vm_compute. reflexivity.
Defined.

(* ------------------------------------------------------------------ *)
(** ** The directory of skills.sh and its cache *)
(* ------------------------------------------------------------------ *)

(** The cache answers: there is one, and at the reading of the clock it is
    younger than an hour. *)
Definition servedFromCache (w : World) (st : State) : bool :=
  match skillsCache st with
  | Some (_, timestamp) =>
      (Z.of_N (clock w (trace st)) - Z.of_N timestamp <? CACHE_TTL)%Z
  | None => false
  end.

(** The clock is read when there is a cache, to tell its age. *)
Definition ageCheck (st : State) : list Event :=
  match skillsCache st with Some _ => [EvNow] | None => [] end.

(** The page of a response with a status from 200 to 299. *)
Definition pageOf (o : FetchOutcome) : option jsstring :=
  match o with
  | Responded status _ body =>
      if ((200 <=? status) && (status <=? 299))%N then Some body else None
  | Rejected _ => None
  end.

Section DirectoryRuns.

Variable pf : Platform.
Variable w : World.

(** The run with a cache. *)
Lemma directory_cached (t : list Event) (data : list SkillShEntry) (timestamp : N) :
  fetchSkillsDirectory pf w {| trace := t; skillsCache := Some (data, timestamp) |}
  = if (Z.of_N (clock w t) - Z.of_N timestamp <? CACHE_TTL)%Z
    then (Ok data, {| trace := t ++ [EvNow]; skillsCache := Some (data, timestamp) |})
    else
      match pageOf (transport w (t ++ [EvNow]) skillsShUrl) with
      | Some body =>
          (Ok (parseSkillsFromHTML pf body),
           {| trace := (t ++ [EvNow]) ++ [EvFetch skillsShUrl; EvNow];
              skillsCache :=
                Some (parseSkillsFromHTML pf body,
                      clock w ((t ++ [EvNow]) ++ [EvFetch skillsShUrl])) |})
      | None =>
          (Ok data, {| trace := (t ++ [EvNow]) ++ [EvFetch skillsShUrl];
                       skillsCache := Some (data, timestamp) |})
      end.
Proof.
  cbv [fetchSkillsDirectory tryCatch fetch dateNow bind getTrace emit
       getCache setCache ret throw trace skillsCache].
  destruct (Z.of_N (clock w t) - Z.of_N timestamp <? CACHE_TTL)%Z; [reflexivity|].
  destruct (transport w (t ++ [EvNow]) skillsShUrl) as [status statusText body|msg];
    unfold pageOf, r_ok; cbn [r_status r_statusText r_text]; [|reflexivity].
  destruct ((200 <=? status) && (status <=? 299))%N; cbn [negb].
  - rewrite <- !app_assoc. reflexivity.
  - reflexivity.
Qed.

(** The error of a failed request when there is no cache. *)
Definition directoryError (o : FetchOutcome) : Err :=
  match o with
  | Responded status statusText _ =>
      newNetworkError (js "Failed to fetch skills.sh directory")
        skillsShUrl (Some status) None [(js "statusText", VStr statusText)]
  | Rejected msg =>
      newNetworkError (js "Failed to fetch skills.sh directory")
        skillsShUrl None None
        [(js "originalError", VStr msg);
         (js "suggestion", VStr (js "Check your internet connection and try again"))]
  end.

(** The run without a cache. *)
Lemma directory_uncached (t : list Event) :
  fetchSkillsDirectory pf w {| trace := t; skillsCache := None |}
  = match pageOf (transport w t skillsShUrl) with
    | Some body =>
        (Ok (parseSkillsFromHTML pf body),
         {| trace := t ++ [EvFetch skillsShUrl; EvNow];
            skillsCache :=
              Some (parseSkillsFromHTML pf body, clock w (t ++ [EvFetch skillsShUrl])) |})
    | None =>
        (Throw (directoryError (transport w t skillsShUrl)),
         {| trace := t ++ [EvFetch skillsShUrl]; skillsCache := None |})
    end.
Proof.
  cbv [fetchSkillsDirectory tryCatch fetch dateNow bind getTrace emit
       getCache setCache ret throw trace skillsCache].
  destruct (transport w t skillsShUrl) as [status statusText body|msg];
    unfold pageOf, r_ok, directoryError; cbn [r_status r_statusText r_text];
    [|reflexivity].
  destruct ((200 <=? status) && (status <=? 299))%N; cbn [negb].
  - rewrite <- !app_assoc. reflexivity.
  - reflexivity.
Qed.

Lemma directoryError_class (o : FetchOutcome) :
  err_class (directoryError o) = NetworkError
  /\ message (directoryError o) = js "Failed to fetch skills.sh directory".
Proof. destruct o; split; reflexivity. Qed.

(** The events of a run: the clock when there is a cache, then at most one
    request and one more reading of the clock; the only failure is that
    of the request. *)
Lemma directory_events (st st' : State) (r : Result (list SkillShEntry)) :
  fetchSkillsDirectory pf w st = (r, st') ->
  (exists es,
     trace st' = trace st ++ es
     /\ (es = [EvNow] \/ es = ageCheck st ++ [EvFetch skillsShUrl]
         \/ es = ageCheck st ++ [EvFetch skillsShUrl; EvNow]))
  /\ (forall e, r = Throw e -> err_class e = NetworkError).
Proof.
  destruct st as [t [[data timestamp]|]]; unfold ageCheck; cbn [trace skillsCache].
  - rewrite directory_cached.
    destruct (Z.of_N (clock w t) - Z.of_N timestamp <? CACHE_TTL)%Z.
    + intros E. inversion E; subst. cbn [trace]. split; [eauto|]. discriminate.
    + destruct (pageOf _); intros E; inversion E; subst; cbn [trace];
        rewrite <- app_assoc; (split; [eauto|discriminate]).
  - rewrite directory_uncached.
    destruct (pageOf _); intros E; inversion E; subst; cbn [trace app].
    + split; [eauto|discriminate].
    + split; [eauto|]. intros e He. inversion He; subst.
      apply directoryError_class.
Qed.

End DirectoryRuns.

(** X14.  The directory cache of the resolver.  A cache younger than an
    hour is returned after one reading of the clock, without any request.
    Otherwise the page of skills.sh is requested once.  If the response
    has a status from 200 to 299, the skills parsed from its body are
    returned and cached with the time read after the response.  If the
    request fails in any way, the cache stays as it was: a stale cache is
    returned as if it were fresh, and only when there is none the call
    fails, with the [NetworkError] "Failed to fetch skills.sh
    directory". *)
Theorem fetchSkillsDirectory_cache (pf : Platform) (w : World) (st : State) :
  let out := fetchSkillsDirectory pf w st in
  let asked := trace st ++ ageCheck st in
  (servedFromCache w st = true ->
   exists data timestamp,
     skillsCache st = Some (data, timestamp)
     /\ out = (Ok data, withEvent st EvNow))
  /\ (servedFromCache w st = false ->
      forall body,
        pageOf (transport w asked skillsShUrl) = Some body ->
        out = (Ok (parseSkillsFromHTML pf body),
               {| trace := asked ++ [EvFetch skillsShUrl; EvNow];
                  skillsCache :=
                    Some (parseSkillsFromHTML pf body,
                          clock w (asked ++ [EvFetch skillsShUrl])) |}))
  /\ (servedFromCache w st = false ->
      pageOf (transport w asked skillsShUrl) = None ->
      snd out = {| trace := asked ++ [EvFetch skillsShUrl];
                   skillsCache := skillsCache st |}
      /\ match skillsCache st with
         | Some (data, _) => fst out = Ok data
         | None =>
             exists e, fst out = Throw e
                       /\ err_class e = NetworkError
                       /\ message e = js "Failed to fetch skills.sh directory"
         end).
Proof.
  cbv zeta. unfold servedFromCache, ageCheck, withEvent.
  destruct st as [t [[data timestamp]|]]; cbn [trace skillsCache].
  - rewrite directory_cached.
    destruct (Z.of_N (clock w t) - Z.of_N timestamp <? CACHE_TTL)%Z.
    + split; [intros _; exists data, timestamp; split; reflexivity|].
      split; intros H; discriminate H.
    + split; [intros H; discriminate H|].
      split.
      * intros _ body Hb. rewrite Hb. reflexivity.
      * intros _ Hb. rewrite Hb. cbn [fst snd]. split; reflexivity.
  - rewrite app_nil_r, directory_uncached.
    split; [intros H; discriminate H|].
    split.
    + intros _ body Hb. rewrite Hb. reflexivity.
    + intros _ Hb. rewrite Hb. cbn [fst snd]. split; [reflexivity|].
      eexists. split; [reflexivity|]. apply directoryError_class.
Qed.

Section ResolveFacts.

Variable pf : Platform.
Variable w : World.

(** An entry of the directory that matches gives a skill at a trusted
    URL. *)
Lemma entry_resolved (n : jsstring) (entry : SkillShEntry) :
  isMatch pf n entry = true ->
  (exists rest, skillPath (skillShEntryToResolvedSkill entry) = js "skills" ++ rest)
  /\ fullUrl (skillShEntryToResolvedSkill entry)
     = branchUrl (skillShEntryToResolvedSkill entry) (js "main")
  /\ isUrlTrusted (fullUrl (skillShEntryToResolvedSkill entry)) = true
  /\ includes (toLowerCase pf (e_name entry)) n = true.
Proof.
  intros Hm.
  assert (Hp : skillPath (skillShEntryToResolvedSkill entry)
               = js "skills" ++ SLASH :: e_name entry) by reflexivity.
  destruct (rawUrl_first _ _ Hp eq_refl) as [Hmain Htrusted].
  split; [eauto|]. split; [exact Hmain|]. split; [exact Htrusted|].
  unfold isMatch in Hm. apply orb_true_iff in Hm. destruct Hm as [Hm|Hm]; [|exact Hm].
  apply jsEqb_eq in Hm. rewrite Hm. apply includes_spec. exists [], [].
  rewrite app_nil_r. reflexivity.
Qed.

(** What is picked from the directory is one of the entries that match. *)
Lemma pick_entry (identifier : jsstring) (skills : list SkillShEntry) (r : ResolvedSkill) :
  pickFromDirectory pf identifier skills = Ok r ->
  exists entry, In entry skills
                /\ isMatch pf (toLowerCase pf identifier) entry = true
                /\ r = skillShEntryToResolvedSkill entry.
Proof.
  unfold pickFromDirectory. set (n := toLowerCase pf identifier).
  assert (Hin : forall entry, In entry (filter (isMatch pf n) skills) ->
                  In entry skills /\ isMatch pf n entry = true).
  { intros entry H. apply filter_In in H. exact H. }
  destruct (filter (isMatch pf n) skills) as [|a [|b rest]]; [discriminate| |].
  - intros E. inversion E; subst r. exists a.
    destruct (Hin a (or_introl eq_refl)). auto.
  - destruct (find (isExact pf n) (a :: b :: rest)) as [x|] eqn:Ex; [|discriminate].
    intros E. inversion E; subst r. exists x. apply find_some in Ex.
    destruct (Hin x (proj1 Ex)). auto.
Qed.

Lemma pick_error (identifier : jsstring) (skills : list SkillShEntry) (e : Err) :
  pickFromDirectory pf identifier skills = Throw e -> err_class e = SkillResolutionError.
Proof.
  unfold pickFromDirectory.
  destruct (filter _ skills) as [|a [|b rest]]; try discriminate.
  - intros E. inversion E. reflexivity.
  - destruct (find _ _); intros E; inversion E. reflexivity.
Qed.

Lemma resolve_ok (identifier : jsstring) (st st' : State) (r : ResolvedSkill) :
  resolve pf w identifier st = (Ok r, st') ->
  (exists rest, skillPath r = js "skills" ++ rest)
  /\ fullUrl r = branchUrl r (js "main")
  /\ isUrlTrusted (fullUrl r) = true
  /\ (includes identifier (js "/") = false ->
      exists entry,
        r = skillShEntryToResolvedSkill entry
        /\ includes (toLowerCase pf (e_name entry)) (toLowerCase pf identifier) = true).
Proof.
  intros E. destruct (includes identifier (js "/")) eqn:Hsep.
  - unfold resolve in E. rewrite Hsep in E.
    destruct (resolveFromGitHub identifier) as [r0|e] eqn:Er; inversion E; subst.
    destruct (resolveFromGitHub_shape identifier r Er) as [_ [[rest [Hp _]] [Hu _]]].
    destruct (rawUrl_first r rest Hp Hu) as [Hmain Htrusted].
    split; [eauto|]. split; [exact Hmain|]. split; [exact Htrusted|]. discriminate.
  - destruct (fetchSkillsDirectory pf w st) as [[skills|e] st1] eqn:Ed.
    + rewrite (resolve_short_name pf w identifier st st1 skills Hsep Ed) in E.
      inversion E as [[Hpick Hst]].
      destruct (pick_entry identifier skills r Hpick) as [entry [_ [Hm ->]]].
      destruct (entry_resolved _ entry Hm) as [H1 [H2 [H3 H4]]].
      split; [exact H1|]. split; [exact H2|]. split; [exact H3|].
      intros _. exists entry. split; [reflexivity|exact H4].
    + exfalso. unfold resolve in E. rewrite Hsep in E.
      unfold resolveFromSkillsSh, tryCatch, bind in E. rewrite Ed in E.
      destruct (_ || _); discriminate E.
Qed.

Lemma resolve_error (identifier : jsstring) (st st' : State) (e : Err) :
  resolve pf w identifier st = (Throw e, st') ->
  err_class e = SkillResolutionError \/ err_class e = NetworkError.
Proof.
  intros E. unfold resolve in E. destruct (includes identifier (js "/")) eqn:Hsep.
  - left. unfold resolveFromGitHub in E.
    destruct (segments identifier) as [|a [|b [|c rest]]]; inversion E; reflexivity.
  - unfold resolveFromSkillsSh, tryCatch, bind in E.
    destruct (fetchSkillsDirectory pf w st) as [[skills|e0] st1] eqn:Ed.
    + destruct (pickFromDirectory pf identifier skills) as [r|e1] eqn:Ep;
        cbn [ret throw] in E; [discriminate|].
      unfold instanceOf in E.
      rewrite (pick_error identifier skills e1 Ep) in E. cbn in E.
      inversion E; subst. left. exact (pick_error identifier skills e Ep).
    + destruct (directory_events pf w st st1 _ Ed) as [_ Herr].
      specialize (Herr e0 eq_refl). unfold instanceOf in E. rewrite Herr in E.
      cbn in E. inversion E; subst. right. exact Herr.
Qed.

End ResolveFacts.

(** X15.  What [resolve] returns and does.  It adds to the trace readings
    of the clock and at most one request, which is for the page of
    skills.sh.  A resolved skill has a path that starts with [skills], and
    its URL is the trusted raw URL of the main branch, which the fetcher
    requests first; when the identifier has no slash, the skill is made
    from an entry of the directory whose lowercased name contains the
    lowercased identifier.  Every error is a [SkillResolutionError] or a
    [NetworkError]. *)
Theorem resolve_outcome (pf : Platform) (w : World) (identifier : jsstring) (st : State) :
  let out := resolve pf w identifier st in
  (exists es,
     trace (snd out) = trace st ++ es
     /\ Forall (fun e => e = EvNow \/ e = EvFetch skillsShUrl) es
     /\ requests es <= 1)
  /\ match fst out with
     | Ok r =>
         (exists rest, skillPath r = js "skills" ++ rest)
         /\ fullUrl r = branchUrl r (js "main")
         /\ isUrlTrusted (fullUrl r) = true
         /\ (includes identifier (js "/") = false ->
             exists entry,
               r = skillShEntryToResolvedSkill entry
               /\ includes (toLowerCase pf (e_name entry)) (toLowerCase pf identifier)
                  = true)
     | Throw e => err_class e = SkillResolutionError \/ err_class e = NetworkError
     end.
Proof.
  cbv zeta.
  destruct (resolve pf w identifier st) as [r st'] eqn:E. cbn [fst snd].
  split.
  - destruct (includes identifier (js "/")) eqn:Hsep.
    + exists []. unfold resolve in E. rewrite Hsep in E.
      assert (st' = st) by (destruct (resolveFromGitHub identifier); inversion E; reflexivity).
      subst st'. rewrite app_nil_r. repeat split; [constructor|cbn; lia].
    + unfold resolve in E. rewrite Hsep in E.
      unfold resolveFromSkillsSh, tryCatch, bind in E.
      destruct (fetchSkillsDirectory pf w st) as [[skills|e] st1] eqn:Ed;
        destruct (directory_events pf w st st1 _ Ed) as [[es [Ht Hes]] _].
      * assert (st' = st1).
        { destruct (pickFromDirectory pf identifier skills); cbn [ret throw] in E.
          - inversion E; reflexivity.
          - destruct (_ || _); inversion E; reflexivity. }
        subst st'. exists es. split; [exact Ht|].
        unfold ageCheck in Hes.
        destruct Hes as [->|[->| ->]]; destruct (skillsCache st);
          (split; [cbn [app]; repeat (apply Forall_cons; [auto|]); apply Forall_nil
                  |cbn; lia]).
      * assert (st' = st1) by (destruct (_ || _); inversion E; reflexivity).
        subst st'. exists es. split; [exact Ht|].
        unfold ageCheck in Hes.
        destruct Hes as [->|[->| ->]]; destruct (skillsCache st);
          (split; [cbn [app]; repeat (apply Forall_cons; [auto|]); apply Forall_nil
                  |cbn; lia]).
  - destruct r as [r|e].
    + exact (resolve_ok pf w identifier st st' r E).
    + exact (resolve_error pf w identifier st st' e E).
Qed.

(* ------------------------------------------------------------------ *)
(** ** The tools that fetch: what they ask of the network *)
(* ------------------------------------------------------------------ *)

Section ToolEffort.

Variable allowed : Event -> Prop.
Variable cost : Event -> nat.

(** [D] bounds the cost of reading the directory, [K] that of fetching a
    skill. *)
Variables D K : nat.

Hypothesis Hnow : allowed EvNow.
Hypothesis Hcall : forall c, allowed (EvCall c).
Hypothesis Hdir : allowed (EvFetch skillsShUrl).
Hypothesis Hraw : forall u, isUrlTrusted u = true -> allowed (EvFetch u).
Hypothesis Hsleep : forall ms, In ms [1000; 2000]%N -> allowed (EvSleep ms).
Hypothesis Hcall0 : forall c, cost (EvCall c) = 0.
Hypothesis HD : cost EvNow + (cost (EvFetch skillsShUrl) + cost EvNow) <= D.
Hypothesis HK : forall resolved, branchesCost cost resolved defaultBranches <= K.

Lemma within_resolve (pf : Platform) (w : World) (identifier : jsstring) :
  within allowed cost D (resolve pf w identifier).
Proof.
  intros st r st' E. unfold resolve in E.
  destruct (includes identifier (js "/")).
  - assert (st' = st) by (destruct (resolveFromGitHub identifier); inversion E; reflexivity).
    subst st'. exists []. rewrite app_nil_r. repeat split; [constructor|cbn; lia].
  - unfold resolveFromSkillsSh, tryCatch, bind in E.
    destruct (fetchSkillsDirectory pf w st) as [[skills|e] st1] eqn:Ed;
      destruct (directory_events pf w st st1 _ Ed) as [[es [Ht Hes]] _].
    + assert (st' = st1).
      { destruct (pickFromDirectory pf identifier skills); cbn [ret throw] in E.
        - inversion E; reflexivity.
        - destruct (_ || _); inversion E; reflexivity. }
      subst st'. exists es. split; [exact Ht|].
      unfold ageCheck in Hes.
      destruct Hes as [->|[->| ->]]; destruct (skillsCache st);
        (split; [cbn [app]; repeat (apply Forall_cons; [auto|]); apply Forall_nil
                |cbn [app map list_sum fold_right]; lia]).
    + assert (st' = st1) by (destruct (_ || _); inversion E; reflexivity).
      subst st'. exists es. split; [exact Ht|].
      unfold ageCheck in Hes.
      destruct Hes as [->|[->| ->]]; destruct (skillsCache st);
        (split; [cbn [app]; repeat (apply Forall_cons; [auto|]); apply Forall_nil
                |cbn [app map list_sum fold_right]; lia]).
Qed.

Lemma within_fetchSkill (w : World) (resolved : ResolvedSkill) :
  within allowed cost K (fetchSkill w resolved).
Proof.
  eapply within_weaken; [|apply (HK resolved)].
  apply within_branchLoop; [exact Hnow|exact Hsleep|].
  intros b _. apply Hraw. apply branchUrl_trusted.
Qed.

Lemma within_fetchSkillHandler (pf : Platform) (w : World) (identifier : jsstring) :
  within allowed cost (D + K) (fetchSkillHandler pf w identifier).
Proof.
  unfold fetchSkillHandler. destruct (blank identifier).
  - eapply within_weaken; [apply within_throw|lia].
  - apply (within_weaken allowed cost (0 + (D + (K + 0)))); [|lia].
    apply within_bind; [apply within_setCache|]. intros _.
    apply within_bind; [apply within_resolve|]. intros resolved.
    apply within_bind; [apply within_fetchSkill|]. intros content.
    apply within_ret.
Qed.






End ToolEffort.

(** The events of the tools that fetch a skill: requests for the page of
    skills.sh and for URLs with the trusted prefix, sleeps of one or two
    seconds, readings of the clock and calls of tool handlers. *)
Definition toolEvent (e : Event) : Prop :=
  match e with
  | EvFetch u => u = skillsShUrl \/ isUrlTrusted u = true
  | EvSleep ms => ms = 1000%N \/ ms = 2000%N
  | EvNow => True
  | EvCall _ => True
  end.

(** What bounds the events of the tools: ten requests and nine seconds of
    sleep. *)
Definition toolBudget (es : list Event) : Prop :=
  Forall toolEvent es /\ requests es <= 10 /\ sleptFor es <= 9 * 1000.

Section ToolBudget.

Lemma toolEvent_sleep (ms : N) : In ms [1000; 2000]%N -> toolEvent (EvSleep ms).
Proof. intros [<-|[<-|[]]]; cbn; auto. Qed.

(** A computation that stays within the bounds on requests and on sleep
    stays within the budget. *)
Lemma budget_of_within {A : Type} (m : M A) :
  within toolEvent (fun e => match e with EvFetch _ => 1 | _ => 0 end) (1 + 9) m ->
  within toolEvent (fun e => match e with EvSleep ms => N.to_nat ms | _ => 0 end)
    (0 + 9 * 1000) m ->
  forall st r st', m st = (r, st') ->
    exists es, trace st' = trace st ++ es /\ toolBudget es.
Proof.
  intros H1 H2 st r st' E.
  destruct (H1 _ _ _ E) as [es [Ht [Hall Hreq]]].
  destruct (H2 _ _ _ E) as [es' [Ht' [_ Hslept]]].
  assert (es' = es) by (rewrite Ht in Ht'; exact (app_inv_head _ _ _ (eq_sym Ht'))).
  subst es'. exists es. split; [exact Ht|]. split; [exact Hall|].
  split; [exact Hreq|exact Hslept].
Qed.

Lemma requests_branches (resolved : ResolvedSkill) :
  branchesCost (fun e => match e with EvFetch _ => 1 | _ => 0 end) resolved defaultBranches
  <= 9.
Proof. cbv. lia. Qed.

Lemma sleep_branches (resolved : ResolvedSkill) :
  branchesCost (fun e => match e with EvSleep ms => N.to_nat ms | _ => 0 end)
    resolved defaultBranches
  <= 9 * 1000.
Proof. vm_compute. reflexivity. Qed.

Lemma fetchSkillHandler_budget (pf : Platform) (w : World) (identifier : jsstring)
    (st st' : State) (r : Result FetchSkillResult) :
  fetchSkillHandler pf w identifier st = (r, st') ->
  exists es, trace st' = trace st ++ es /\ toolBudget es.
Proof.
  apply budget_of_within; apply within_fetchSkillHandler;
    try exact I; try (intros; exact I); try (left; reflexivity);
    try (intros u Hu; right; exact Hu); try exact toolEvent_sleep;
    try (intros; reflexivity); try (cbn; lia);
    try exact requests_branches; try exact sleep_branches.
Qed.


(** An identifier with a slash is resolved without any event. *)
Lemma resolve_explicit (pf : Platform) (w : World) (identifier : jsstring) (st : State) :
  includes identifier (js "/") = true ->
  resolve pf w identifier st = (resolveFromGitHub identifier, st).
Proof.
  intros Hsep. unfold resolve. rewrite Hsep.
  destruct (resolveFromGitHub identifier); reflexivity.
Qed.

(** The events of a fetch from GitHub alone. *)
Definition rawEvent (e : Event) : Prop :=
  match e with
  | EvFetch u => isUrlTrusted u = true
  | EvSleep ms => ms = 1000%N \/ ms = 2000%N
  | EvNow => True
  | EvCall _ => False
  end.

Lemma fetchSkillHandler_explicit (pf : Platform) (w : World) (identifier : jsstring)
    (st st' : State) (r : Result FetchSkillResult) :
  includes identifier (js "/") = true ->
  fetchSkillHandler pf w identifier st = (r, st') ->
  exists es, trace st' = trace st ++ es /\ Forall rawEvent es /\ requests es <= 9.
Proof.
  intros Hsep E. unfold fetchSkillHandler in E.
  destruct (blank identifier).
  { inversion E; subst. exists []. rewrite app_nil_r. repeat split; [constructor|cbn; lia]. }
  unfold bind at 1 in E. unfold setCache at 1 in E. unfold bind at 1 in E.
  rewrite (resolve_explicit pf w identifier _ Hsep) in E.
  destruct (resolveFromGitHub identifier) as [resolved|e].
  - unfold bind at 1 in E.
    destruct (fetchSkill w resolved _) as [r0 st1] eqn:Ef.
    assert (Hst : st' = st1) by (destruct r0; inversion E; reflexivity).
    subst st'.
    assert (Hw : within rawEvent (fun e => match e with EvFetch _ => 1 | _ => 0 end) 9
                   (fetchSkill w resolved)).
    { eapply within_weaken; [|apply (requests_branches resolved)].
      apply within_branchLoop; [exact I| |].
      - intros ms [<-|[<-|[]]]; cbn; auto.
      - intros b _. apply branchUrl_trusted. }
    destruct (Hw _ _ _ Ef) as [es [Ht [Hall Hreq]]]. cbn [trace] in Ht.
    exists es. split; [exact Ht|]. split; [exact Hall|exact Hreq].
  - inversion E; subst. cbn [trace]. exists []. rewrite app_nil_r.
    repeat split; [constructor|cbn; lia].
Qed.

End ToolBudget.

(* ------------------------------------------------------------------ *)
(** ** fetch_skill and import_skill: what they return *)
(* ------------------------------------------------------------------ *)

Section FetchTool.

Variable pf : Platform.
Variable w : World.

(** The run of the handler for an identifier that is not blank. *)
Lemma fetchSkillHandler_steps (identifier : jsstring) (st st' : State)
    (r : Result FetchSkillResult) :
  blank identifier = false ->
  fetchSkillHandler pf w identifier st = (r, st') ->
  (exists e st1,
     resolve pf w identifier {| trace := trace st; skillsCache := None |} = (Throw e, st1)
     /\ r = Throw e)
  \/ (exists resolved st1,
        resolve pf w identifier {| trace := trace st; skillsCache := None |}
        = (Ok resolved, st1)
        /\ ((exists e, fetchSkill w resolved st1 = (Throw e, st') /\ r = Throw e)
            \/ exists content,
                 fetchSkill w resolved st1 = (Ok content, st')
                 /\ r = Ok {| f_content := raw content; f_url := url content;
                              f_name :=
                                (let popped := last (split SLASH (skillPath resolved)) [] in
                                 if nonEmpty popped then popped else identifier);
                              f_owner := owner resolved; f_repo := repo resolved;
                              f_skillPath := skillPath resolved;
                              f_fetchedAt := fetchedAt content |})).
Proof.
  intros Hb E. unfold fetchSkillHandler in E. rewrite Hb in E.
  unfold bind at 1 in E. unfold setCache at 1 in E. unfold bind at 1 in E.
  destruct (resolve pf w identifier _) as [[resolved|e] st1] eqn:Er.
  - right. exists resolved, st1. split; [reflexivity|].
    unfold bind at 1 in E.
    destruct (fetchSkill w resolved st1) as [[content|e] st2] eqn:Ef.
    + right. exists content. inversion E; subst. split; reflexivity.
    + left. exists e. inversion E; subst. split; reflexivity.
  - left. exists e, st1. inversion E; subst. split; reflexivity.
Qed.

Lemma blank_nonEmpty (s : jsstring) : blank s = false -> nonEmpty s = true.
Proof.
  unfold blank. intros H. apply orb_false_iff in H. destruct H as [H _].
  apply negb_false_iff. exact H.
Qed.

(** What a fetched skill looks like. *)
Lemma fetchSkillHandler_ok (identifier : jsstring) (st st' : State) (fr : FetchSkillResult) :
  fetchSkillHandler pf w identifier st = (Ok fr, st') ->
  blank identifier = false
  /\ isUrlTrusted (f_url fr) = true
  /\ (exists b, In b defaultBranches
                /\ f_url fr
                   = constructGitHubRawUrl (f_owner fr) (f_repo fr) b (f_skillPath fr))
  /\ (exists rest, f_skillPath fr = js "skills" ++ rest)
  /\ nonEmpty (f_name fr) = true
  /\ (f_name fr = last (split SLASH (f_skillPath fr)) [] \/ f_name fr = identifier).
Proof.
  intros E. destruct (blank identifier) eqn:Hb.
  { unfold fetchSkillHandler in E. rewrite Hb in E. discriminate E. }
  split; [reflexivity|].
  destruct (fetchSkillHandler_steps identifier st st' _ Hb E)
    as [[e [st1 [_ Hr]]]|[resolved [st1 [Er [[e [_ Hr]]|[content [Ef Hr]]]]]]];
    try discriminate Hr.
  inversion Hr; subst fr. cbn [f_url f_owner f_repo f_skillPath f_name].
  destruct (branchLoop_ok w resolved _ _ _ _ _ _ Ef) as [[b [Hin Hu]] _].
  destruct (resolve_ok pf w identifier _ _ resolved Er) as [Hpath _].
  split; [rewrite Hu; apply branchUrl_trusted|].
  split; [exists b; split; [exact Hin|exact Hu]|].
  split; [exact Hpath|].
  destruct (nonEmpty (last (split SLASH (skillPath resolved)) [])) eqn:Hn.
  - split; [exact Hn|left; reflexivity].
  - split; [apply blank_nonEmpty; exact Hb|right; reflexivity].
Qed.

Lemma fetchSkillHandler_error (identifier : jsstring) (st st' : State) (e : Err) :
  blank identifier = false ->
  fetchSkillHandler pf w identifier st = (Throw e, st') ->
  err_class e = SkillResolutionError \/ err_class e = NetworkError.
Proof.
  intros Hb E.
  destruct (fetchSkillHandler_steps identifier st st' _ Hb E)
    as [[e0 [st1 [Er Hr]]]|[resolved [st1 [Er [[e0 [Ef Hr]]|[content [Ef Hr]]]]]]];
    try discriminate Hr; inversion Hr; subst e0.
  - exact (resolve_error pf w identifier _ _ e Er).
  - right. exact (branchLoop_error_class w resolved _ _ _ _ _ _ Ef).
Qed.

End FetchTool.

(** X16.  The fetch_skill tool.  A blank identifier is refused with the
    error "Skill identifier is required" before anything is done.
    Otherwise the tool makes at most ten requests, one for the page of
    skills.sh and nine for URLs with the trusted prefix, and sleeps nine
    seconds at most; for an identifier with a slash it asks skills.sh
    nothing: every request is for a URL with the trusted prefix.  The URL
    it returns is the one the content came from:
    the raw URL of the returned owner, repository and path on one of the
    branches main, master and HEAD, with the trusted prefix.  The path
    starts with [skills]; the name is not empty: it is the last segment of
    the path, or the identifier when that segment is empty.  Every error
    for an identifier that is not blank is a [SkillResolutionError] or a
    [NetworkError]. *)
Theorem fetchSkillHandler_outcome
    (pf : Platform) (w : World) (identifier : jsstring) (st : State) :
  let out := fetchSkillHandler pf w identifier st in
  (blank identifier = true ->
   out = (Throw (newError (js "Skill identifier is required")), st))
  /\ (exists es, trace (snd out) = trace st ++ es /\ toolBudget es)
  /\ (includes identifier (js "/") = true ->
      exists es, trace (snd out) = trace st ++ es
                 /\ Forall rawEvent es /\ requests es <= 9)
  /\ match fst out with
     | Ok fr =>
         blank identifier = false
         /\ isUrlTrusted (f_url fr) = true
         /\ (exists b, In b defaultBranches
                       /\ f_url fr
                          = constructGitHubRawUrl (f_owner fr) (f_repo fr) b
                              (f_skillPath fr))
         /\ (exists rest, f_skillPath fr = js "skills" ++ rest)
         /\ nonEmpty (f_name fr) = true
         /\ (f_name fr = last (split SLASH (f_skillPath fr)) [] \/ f_name fr = identifier)
     | Throw e =>
         blank identifier = false ->
         err_class e = SkillResolutionError \/ err_class e = NetworkError
     end.
Proof.
  cbv zeta. split.
  { intros Hb. unfold fetchSkillHandler. rewrite Hb. reflexivity. }
  destruct (fetchSkillHandler pf w identifier st) as [r st'] eqn:E. cbn [fst snd].
  split; [exact (fetchSkillHandler_budget pf w identifier st st' r E)|].
  split; [intros Hsep; exact (fetchSkillHandler_explicit pf w identifier st st' r Hsep E)|].
  destruct r as [fr|e].
  - exact (fetchSkillHandler_ok pf w identifier st st' fr E).
  - intros Hb. exact (fetchSkillHandler_error pf w identifier st st' e Hb E).
Qed.


Section ImportFacts.

Variable pf : Platform.
Variable cv : Converters.
Variable w : World.
Variable args : ImportSkillArgs.








End ImportFacts.


(* ------------------------------------------------------------------ *)
(** ** The import with the converters of the repository *)
(* ------------------------------------------------------------------ *)

(** The two conversion tools as the import calls them; [now] and [later]
    are the readings of the clock that they make. *)
Definition toolConverters (pf : Platform) (rt : Runtime) (now later : N) : Converters :=
  {| convertToSteeringHandler := fun content sourceUrl =>
       match ConvertTools.convertToSteeringHandler pf rt now content sourceUrl with
       | Ok out =>
           Ok {| steeringContent := ConvertTools.so_steeringContent out;
                 s_filename := ConvertTools.so_filename out;
                 s_originalSkill := ConvertTools.so_originalSkill out |}
       | Throw e => Throw e
       end;
     convertToPowerHandler := fun content sourceUrl =>
       match ConvertTools.convertToPowerHandler pf rt now later content sourceUrl with
       | Ok out =>
           Ok {| powerContent := ConvertTools.po_powerContent out;
                 powerName := ConvertTools.po_powerName out |}
       | Throw e => Throw e
       end |}.

Section ImportPaths.

Variable pf : Platform.
Variable rt : Runtime.
Variables now later : N.




End ImportPaths.


(** A world that serves the document with the escaping name at every
    URL. *)
Definition escapingWorld : World :=
  {| transport := fun _ _ => Responded 200 (js "OK") escapingDocument;
     clock := fun _ => 0%N |}.

Definition escapingImport : ImportSkillArgs :=
  {| identifier := js "anthropics/skills/pdf"; outputFormat := js "power";
     skipValidation := None |}.



(* ------------------------------------------------------------------ *)
(** ** Slices and indexed maps *)
(* ------------------------------------------------------------------ *)

From Stdlib Require Import Sorting.Permutation Sorting.Sorted.

Import Listing.

Section SliceFacts.

Context {A B : Type}.

Lemma firstn_short (n : nat) (l : list A) : length l <= n -> firstn n l = l.
Proof.
  revert n. induction l as [|a l IH]; intros [|n] H; cbn [firstn length] in *;
    try reflexivity; [lia|].
  f_equal. apply IH. lia.
Qed.

Lemma skipn_long (n : nat) (l : list A) : length l <= n -> skipn n l = [].
Proof.
  revert n. induction l as [|a l IH]; intros [|n] H; cbn [skipn length] in *;
    try reflexivity; [lia|].
  apply IH. lia.
Qed.

Lemma nth_error_window (n k i : nat) (l : list A) :
  nth_error (firstn n (skipn k l)) i
  = if Nat.ltb i n then nth_error l (k + i) else None.
Proof.
  destruct (Nat.ltb_spec i n) as [Hlt|Hge].
  - rewrite nth_error_firstn. destruct (Nat.ltb_spec i n); [|lia].
    apply nth_error_skipn.
  - apply nth_error_None. rewrite length_firstn. lia.
Qed.

(** A slice between two indices that are not negative, the first not
    after the second, holds the elements from the first up to the
    second. *)
Lemma slice_window (start stop : Z) (l : list A) :
  (0 <= start <= stop)%Z ->
  slice start stop l
  = firstn (Z.to_nat (stop - start)) (skipn (Z.to_nat start) l).
Proof.
  intros H. unfold slice, relativeIndex.
  destruct (Z.ltb_spec start 0) as [|_]; [lia|].
  destruct (Z.ltb_spec stop 0) as [|_]; [lia|].
  assert (Hn : Z.to_nat (stop - start) = Z.to_nat stop - Z.to_nat start) by lia.
  rewrite Hn.
  destruct (Nat.le_gt_cases (length l) (Z.to_nat start)) as [Hlong|Hshort].
  - rewrite Nat.min_r by lia. rewrite !skipn_long by lia.
    rewrite !firstn_nil. reflexivity.
  - rewrite (Nat.min_l (Z.to_nat start)) by lia.
    destruct (Nat.le_gt_cases (Z.to_nat stop) (length l)) as [Hin|Hout].
    + rewrite Nat.min_l by lia. reflexivity.
    + rewrite Nat.min_r by lia.
      rewrite !firstn_short; [reflexivity| |]; rewrite length_skipn; lia.
Qed.

(** A slice from the start up to a negative index leaves out that many
    elements at the end. *)
Lemma slice_negative (stop : Z) (l : list A) :
  (stop < 0)%Z ->
  slice 0 stop l = firstn (length l - Z.to_nat (- stop)) l.
Proof.
  intros H. unfold slice, relativeIndex. cbn [Z.ltb Z.compare Z.to_nat Nat.min skipn].
  destruct (Z.ltb_spec stop 0) as [_|]; [|lia].
  rewrite Nat.sub_0_r. f_equal. lia.
Qed.

Lemma mapIndexed_length (f : A -> nat -> B) (l : list A) :
  forall k, length (mapIndexed f k l) = length l.
Proof.
  induction l as [|a l IH]; intros k; cbn [mapIndexed length]; [reflexivity|].
  rewrite IH. reflexivity.
Qed.

Lemma mapIndexed_nth (f : A -> nat -> B) (l : list A) :
  forall k i,
    nth_error (mapIndexed f k l) i
    = option_map (fun a => f a (k + i)) (nth_error l i).
Proof.
  induction l as [|a l IH]; intros k [|i]; cbn [mapIndexed nth_error option_map];
    try reflexivity.
  - rewrite Nat.add_0_r. reflexivity.
  - rewrite IH. replace (S k + i) with (k + S i) by lia. reflexivity.
Qed.

End SliceFacts.

Section DefaultFacts.

(** [n || d] with a positive default is positive when the argument is not
    negative. *)
Lemma orDefault_positive (n : option Z) (d : Z) :
  (0 < d)%Z -> (forall z, n = Some z -> 0 <= z)%Z -> (0 < orDefault n d)%Z.
Proof.
  intros Hd Hn. unfold orDefault. destruct n as [z|]; [|exact Hd].
  specialize (Hn z eq_refl). destruct (Z.eqb_spec z 0); lia.
Qed.

End DefaultFacts.

(* ------------------------------------------------------------------ *)
(** ** list_skills, get_leaderboard, search_skills *)
(* ------------------------------------------------------------------ *)

(** The error of a failed request for a leaderboard. *)
Definition leaderboardError (timeframe : jsstring) (o : FetchOutcome) : Err :=
  match o with
  | Responded status statusText _ =>
      newNetworkError (js "Failed to fetch leaderboard") (leaderboardUrl timeframe)
        (Some status) None
        [(js "statusText", VStr statusText); (js "timeframe", VStr timeframe)]
  | Rejected msg =>
      newNetworkError (js "Failed to fetch leaderboard") (leaderboardUrl timeframe)
        None None
        [(js "originalError", VStr msg); (js "timeframe", VStr timeframe)]
  end.

(** The fields that a row shares with the entry it is made from. *)
Definition rowOf (skill : SkillShEntry) (row : ListedSkill) : Prop :=
  ls_name row = e_name skill /\ ls_description row = descriptionOf skill
  /\ ls_owner row = e_owner skill /\ ls_repo row = e_repo skill
  /\ ls_installs row = e_installs skill.

Section LeaderboardFacts.

Variable pf : Platform.
Variable w : World.

(** One request, for the page of the time frame. *)
Lemma getLeaderboard_run (timeframe : jsstring) (st : State) :
  getLeaderboard pf w timeframe st
  = (match pageOf (transport w (trace st) (leaderboardUrl timeframe)) with
     | Some body =>
         Ok (if jsEqb timeframe (js "24h")
             then map markTrending (parseSkillsFromHTML pf body)
             else parseSkillsFromHTML pf body)
     | None => Throw (leaderboardError timeframe
                        (transport w (trace st) (leaderboardUrl timeframe)))
     end,
     withEvent st (EvFetch (leaderboardUrl timeframe))).
Proof.
  cbv [getLeaderboard tryCatch fetch bind getTrace emit ret throw withEvent].
  cbn [trace skillsCache].
  destruct (transport w (trace st) (leaderboardUrl timeframe))
    as [status statusText body|msg];
    unfold pageOf, r_ok, leaderboardError; cbn [r_status r_statusText r_text];
    [|reflexivity].
  destruct ((200 <=? status) && (status <=? 299))%N; reflexivity.
Qed.

Lemma leaderboardError_class (timeframe : jsstring) (o : FetchOutcome) :
  err_class (leaderboardError timeframe o) = NetworkError
  /\ message (leaderboardError timeframe o) = js "Failed to fetch leaderboard".
Proof. destruct o; split; reflexivity. Qed.

(** The parser marks no entry as trending; [getLeaderboard] marks them
    all for the time frame of a day. *)
Lemma parsed_not_trending (html : jsstring) (skill : SkillShEntry) :
  In skill (parseSkillsFromHTML pf html) -> e_trending skill = Some false.
Proof.
  unfold parseSkillsFromHTML.
  destruct (map _ (matchAll skillPattern html)) as [|a rest] eqn:E.
  - intros H. apply in_map_iff in H. destruct H as [[m count] [<- _]]. reflexivity.
  - rewrite <- E. intros H. apply in_map_iff in H. destruct H as [m [<- _]]. reflexivity.
Qed.

End LeaderboardFacts.

Section RowFacts.

Context {A : Type}.
Variable f : A -> nat -> ListedSkill.

(** The rows made from the first [n] entries. *)
Lemma rows_firstn (n : nat) (l : list A) (i : nat) (row : ListedSkill) :
  nth_error (mapIndexed f 0 (firstn n l)) i = Some row ->
  i < n /\ exists a, nth_error l i = Some a /\ row = f a i.
Proof.
  rewrite mapIndexed_nth. cbn [Nat.add].
  pose proof (nth_error_window n 0 i l) as Hw. cbn [skipn Nat.add] in Hw. rewrite Hw.
  destruct (Nat.ltb_spec i n) as [Hlt|Hge]; [|discriminate].
  destruct (nth_error l i) as [a|]; [|discriminate].
  cbn [option_map]. intros H. inversion H. eauto.
Qed.

End RowFacts.

(** X19.  The get_leaderboard tool.  It makes one request: for the
    trending page when the time frame is [24h], for the front page
    otherwise, also when no time frame is given.  From a response with a
    status from 200 to 299 it returns the time frame, the number of all
    entries parsed as [count], and rows for the first entries: as many as
    the limit says, 20 when there is none, 50 at most.  The row at index
    [i] is made from the entry at index [i], has rank [i + 1], and is
    marked trending exactly when the time frame is [24h].  A negative
    limit does not give an empty list but all entries except that many at
    the end.  Every failure of the request is a [NetworkError] "Failed to
    fetch leaderboard". *)
Theorem getLeaderboardHandler_ranks
    (pf : Platform) (w : World) (timeframe : jsstring) (limit : option Z) (st : State) :
  let out := getLeaderboardHandler pf w timeframe limit st in
  let asked := if nonEmpty timeframe then timeframe else js "all" in
  let page := if jsEqb timeframe (js "24h")
              then js "https://skills.sh/trending" else js "https://skills.sh" in
  trace (snd out) = trace st ++ [EvFetch page]
  /\ match pageOf (transport w (trace st) page) with
     | Some body =>
         exists result,
           fst out = Ok result
           /\ gl_timeframe result = asked
           /\ gl_count result = length (parseSkillsFromHTML pf body)
           /\ ((forall z, limit = Some z -> 0 <= z)%Z ->
               let n := Z.to_nat (Z.min (orDefault limit 20) 50) in
               1 <= n <= 50
               /\ length (gl_skills result) = Nat.min n (gl_count result)
               /\ forall i row,
                    nth_error (gl_skills result) i = Some row ->
                    exists skill,
                      nth_error (parseSkillsFromHTML pf body) i = Some skill
                      /\ rowOf skill row
                      /\ ls_rank row = Some (Z.of_nat i + 1)%Z
                      /\ ls_trending row = Some (jsEqb timeframe (js "24h")))
           /\ (forall z, limit = Some z -> (z < 0)%Z ->
               length (gl_skills result) = gl_count result - Z.to_nat (- z))
     | None =>
         exists e, fst out = Throw e
                   /\ err_class e = NetworkError
                   /\ message e = js "Failed to fetch leaderboard"
     end.
Proof.
  cbv zeta.
  set (asked := if nonEmpty timeframe then timeframe else js "all").
  assert (Hday : jsEqb asked (js "24h") = jsEqb timeframe (js "24h")).
  { subst asked. destruct timeframe; reflexivity. }
  set (page := if jsEqb timeframe (js "24h")
               then js "https://skills.sh/trending" else js "https://skills.sh").
  destruct (getLeaderboardHandler pf w timeframe limit st) as [r st'] eqn:E.
  unfold getLeaderboardHandler in E. fold asked in E.
  unfold bind, setCache in E. rewrite getLeaderboard_run in E.
  cbn [trace withEvent] in E. unfold leaderboardUrl in E. rewrite Hday in E.
  fold page in E. cbn [fst snd].
  destruct (pageOf (transport w (trace st) page)) as [body|] eqn:Hpage;
    cbn [ret] in E; inversion E; subst r st'; clear E; cbn [trace].
  - split; [reflexivity|].
    set (leaderboard := if jsEqb timeframe (js "24h")
                        then map markTrending (parseSkillsFromHTML pf body)
                        else parseSkillsFromHTML pf body).
    assert (Hlen : length leaderboard = length (parseSkillsFromHTML pf body)).
    { subst leaderboard. destruct (jsEqb timeframe (js "24h")); [apply length_map|reflexivity]. }
    assert (Hentry : forall i skill', nth_error leaderboard i = Some skill' ->
              exists skill, nth_error (parseSkillsFromHTML pf body) i = Some skill
                            /\ e_name skill' = e_name skill
                            /\ descriptionOf skill' = descriptionOf skill
                            /\ e_owner skill' = e_owner skill
                            /\ e_repo skill' = e_repo skill
                            /\ e_installs skill' = e_installs skill
                            /\ e_trending skill' = Some (jsEqb timeframe (js "24h"))).
    { intros i skill' Hi. subst leaderboard. destruct (jsEqb timeframe (js "24h")).
      - rewrite nth_error_map in Hi.
        destruct (nth_error (parseSkillsFromHTML pf body) i) as [skill|] eqn:Es;
          [|discriminate].
        cbn [option_map] in Hi. inversion Hi; subst skill'. exists skill.
        split; [reflexivity|].
        pose proof (parsed_not_trending pf body skill (nth_error_In _ _ Es)) as Ht.
        unfold markTrending, descriptionOf. rewrite Ht. cbn. repeat split.
      - exists skill'. split; [exact Hi|]. repeat split.
        exact (parsed_not_trending pf body skill' (nth_error_In _ _ Hi)). }
    eexists. split; [reflexivity|]. cbn [gl_timeframe gl_count gl_skills].
    split; [reflexivity|]. split; [exact Hlen|].
    split.
    + intros Hlimit.
      pose proof (orDefault_positive limit 20 ltac:(lia) Hlimit) as Hpos.
      split; [lia|].
      rewrite slice_window by lia. rewrite Z.sub_0_r. cbn [Z.to_nat skipn].
      split.
      * rewrite mapIndexed_length, length_firstn, Hlen. reflexivity.
      * intros i row Hrow. apply rows_firstn in Hrow.
        destruct Hrow as [_ [skill' [Hi ->]]].
        destruct (Hentry i skill' Hi) as [skill [Hs [H1 [H2 [H3 [H4 [H5 H6]]]]]]].
        exists skill. split; [exact Hs|]. unfold rowOf.
        cbn [ls_name ls_description ls_owner ls_repo ls_installs ls_rank ls_trending].
        rewrite H6. repeat split; assumption.
    + intros z -> Hz. cbn [orDefault]. destruct (Z.eqb_spec z 0) as [|_]; [lia|].
      rewrite Z.min_l by lia. rewrite slice_negative by lia.
      rewrite mapIndexed_length, length_firstn, Hlen. lia.
  - split; [reflexivity|].
    eexists. split; [reflexivity|]. apply leaderboardError_class.
Qed.

(** The row that list_skills makes from an entry. *)
Definition plainRow (skill : SkillShEntry) : ListedSkill :=
  {| ls_name := e_name skill; ls_description := descriptionOf skill;
     ls_owner := e_owner skill; ls_repo := e_repo skill;
     ls_installs := e_installs skill; ls_rank := None; ls_trending := None |}.

(** X20.  The list_skills tool.  It makes one request, for the front page
    of skills.sh, whatever the page asked for.  From a response with a
    status from 200 to 299 it returns the number of all entries parsed as
    [total], the page number (1 by default) and the page size (50 by
    default, 100 at most).  When the numbers given are not negative, page
    [p] of size [s] holds the entries at the indices from [(p - 1) * s] up
    to [p * s], in their order: the row at index [i] is made from the entry
    at index [(p - 1) * s + i], so that the pages of one listing neither
    overlap nor leave an entry out, and a page beyond the end is empty.
    Every failure of the request is a [NetworkError] "Failed to fetch
    leaderboard". *)
Theorem listSkillsHandler_pages
    (pf : Platform) (w : World) (page pageSize : option Z) (st : State) :
  let out := listSkillsHandler pf w page pageSize st in
  trace (snd out) = trace st ++ [EvFetch (js "https://skills.sh")]
  /\ match pageOf (transport w (trace st) (js "https://skills.sh")) with
     | Some body =>
         exists result,
           fst out = Ok result
           /\ lr_total result = length (parseSkillsFromHTML pf body)
           /\ lr_page result = orDefault page 1
           /\ lr_pageSize result = Z.min (orDefault pageSize 50) 100
           /\ ((forall z, page = Some z -> 0 <= z)%Z ->
               (forall z, pageSize = Some z -> 0 <= z)%Z ->
               let p := Z.to_nat (lr_page result) in
               let s := Z.to_nat (lr_pageSize result) in
               1 <= p /\ 1 <= s <= 100
               /\ length (lr_skills result) = Nat.min s (lr_total result - (p - 1) * s)
               /\ forall i,
                    nth_error (lr_skills result) i
                    = if Nat.ltb i s
                      then option_map plainRow
                             (nth_error (parseSkillsFromHTML pf body) ((p - 1) * s + i))
                      else None)
     | None =>
         exists e, fst out = Throw e
                   /\ err_class e = NetworkError
                   /\ message e = js "Failed to fetch leaderboard"
     end.
Proof.
  cbv zeta.
  destruct (listSkillsHandler pf w page pageSize st) as [r st'] eqn:E.
  unfold listSkillsHandler in E. unfold bind, setCache in E.
  rewrite getLeaderboard_run in E. cbn [trace withEvent] in E.
  change (leaderboardUrl (js "all")) with (js "https://skills.sh") in E.
  change (jsEqb (js "all") (js "24h")) with false in E. cbn [fst snd].
  destruct (pageOf (transport w (trace st) (js "https://skills.sh"))) as [body|] eqn:Hpage;
    cbn [ret] in E; inversion E; subst r st'; clear E; cbn [trace].
  - split; [reflexivity|].
    set (all := parseSkillsFromHTML pf body).
    eexists. split; [reflexivity|].
    cbn [lr_total lr_page lr_pageSize lr_skills].
    split; [reflexivity|]. split; [reflexivity|]. split; [reflexivity|].
    intros Hpage0 Hsize0.
    pose proof (orDefault_positive page 1 ltac:(lia) Hpage0) as Hp.
    pose proof (orDefault_positive pageSize 50 ltac:(lia) Hsize0) as Hs.
    set (p := orDefault page 1) in *.
    set (s := Z.min (orDefault pageSize 50) 100).
    assert (Hs' : (1 <= s <= 100)%Z) by (subst s; lia).
    split; [lia|]. split; [lia|].
    rewrite slice_window by nia.
    replace ((p - 1) * s + s - (p - 1) * s)%Z with s by lia.
    replace (Z.to_nat ((p - 1) * s)) with ((Z.to_nat p - 1) * Z.to_nat s) by nia.
    split.
    + rewrite length_map, length_firstn, length_skipn. reflexivity.
    + intros i. rewrite nth_error_map, nth_error_window.
      destruct (Nat.ltb i (Z.to_nat s)); reflexivity.
  - split; [reflexivity|].
    eexists. split; [reflexivity|]. apply leaderboardError_class.
Qed.

Section SortFacts.

Context {A : Type}.

(** A slice from the start is a prefix. *)
Lemma slice_prefix (stop : Z) (l : list A) : exists n, slice 0 stop l = firstn n l.
Proof.
  destruct (Z.ltb_spec stop 0) as [Hneg|Hpos].
  - eexists. apply slice_negative. exact Hneg.
  - eexists. rewrite slice_window by lia. cbn [Z.to_nat skipn]. reflexivity.
Qed.

Lemma sorted_nth (R : A -> A -> Prop) (l : list A) :
  StronglySorted R l ->
  forall i j a b, i < j -> nth_error l i = Some a -> nth_error l j = Some b -> R a b.
Proof.
  induction 1 as [|x l Hs IH Hall]; intros i j a b Hij Ha Hb.
  - destruct i; discriminate Ha.
  - destruct j as [|j]; [lia|]. cbn [nth_error] in Hb. destruct i as [|i].
    + cbn [nth_error] in Ha. inversion Ha; subst x.
      rewrite Forall_forall in Hall. apply Hall. exact (nth_error_In _ _ Hb).
    + cbn [nth_error] in Ha. apply (IH i j); [lia|assumption|assumption].
Qed.

End SortFacts.

(** The comparator puts the entry with more installs first. *)
Lemma byInstalls_order (a b : SkillShEntry) (x y : Z) :
  e_installs a = Num x -> e_installs b = Num y ->
  (byInstalls a b <= 0)%Z -> (y <= x)%Z.
Proof. unfold byInstalls. intros -> ->. lia. Qed.

(** The row that search_skills makes from the entry at an index of the
    sorted results. *)
Definition scoredRow (count : nat) (skill : SkillShEntry) (index : nat) : ListedSkill :=
  {| ls_name := e_name skill; ls_description := descriptionOf skill;
     ls_owner := e_owner skill; ls_repo := e_repo skill;
     ls_installs := e_installs skill;
     ls_rank := Some (Z.of_nat count - Z.of_nat index)%Z;
     ls_trending := None |}.

Section SearchFacts.

Variable pf : Platform.
Variable rt : Runtime.
Variable w : World.

(** The run of the handler for a query that is not blank: the directory
    is read without a cache, filtered, sorted and cut. *)
Lemma searchSkillsHandler_run (query : jsstring) (limit : option Z) (st : State) :
  blank query = false ->
  searchSkillsHandler pf rt w query limit st
  = match pageOf (transport w (trace st) skillsShUrl) with
    | Some body =>
        let results :=
          arraySort rt byInstalls
            (filter (matchesQuery pf (toLowerCase pf query)) (parseSkillsFromHTML pf body)) in
        (Ok {| sr_skills :=
                 mapIndexed (scoredRow (length results)) 0
                   (slice 0 (Z.min (orDefault limit 20) 50) results);
               sr_query := query;
               sr_count := length results |},
         {| trace := trace st ++ [EvFetch skillsShUrl; EvNow];
            skillsCache :=
              Some (parseSkillsFromHTML pf body,
                    clock w (trace st ++ [EvFetch skillsShUrl])) |})
    | None =>
        (Throw (directoryError (transport w (trace st) skillsShUrl)),
         {| trace := trace st ++ [EvFetch skillsShUrl]; skillsCache := None |})
    end.
Proof.
  intros Hb. unfold searchSkillsHandler. rewrite Hb.
  unfold searchSkillsSh, bind, setCache. rewrite directory_uncached.
  destruct (pageOf (transport w (trace st) skillsShUrl)); reflexivity.
Qed.

End SearchFacts.

(** X21.  The search_skills tool.  A blank query is refused with the
    error "Search query is required" before anything is done.  Otherwise
    the page of skills.sh is requested, without regard to any cache; a
    failure of the request is the [NetworkError] "Failed to fetch skills.sh
    directory".  Given that sorting rearranges, every row returned is made
    from an entry of the page whose lowercased name, description, owner or
    repository contains the lowercased query; [count] is the number of all
    such entries, not of the rows; the row at index [i] has relevance
    [count - i], so relevance tells the position and nothing else.  With a
    limit that is not negative there are as many rows as the limit says
    (20 by default, 50 at most) or as there are matches.  Given that
    sorting orders numbers, rows come with installs in descending
    order. *)
Theorem searchSkillsHandler_results
    (pf : Platform) (rt : Runtime) (w : World) (query : jsstring) (limit : option Z)
    (st : State) :
  (forall l, Permutation (arraySort rt byInstalls l) l) ->
  let out := searchSkillsHandler pf rt w query limit st in
  (blank query = true ->
   out = (Throw (newError (js "Search query is required")), st))
  /\ (blank query = false ->
      match pageOf (transport w (trace st) skillsShUrl) with
      | Some body =>
          let found :=
            filter (matchesQuery pf (toLowerCase pf query)) (parseSkillsFromHTML pf body) in
          exists result,
            fst out = Ok result
            /\ sr_query result = query
            /\ sr_count result = length found
            /\ (forall i row,
                  nth_error (sr_skills result) i = Some row ->
                  ls_rank row = Some (Z.of_nat (sr_count result) - Z.of_nat i)%Z
                  /\ exists skill,
                       In skill (parseSkillsFromHTML pf body)
                       /\ matchesQuery pf (toLowerCase pf query) skill = true
                       /\ rowOf skill row)
            /\ ((forall z, limit = Some z -> 0 <= z)%Z ->
                length (sr_skills result)
                = Nat.min (Z.to_nat (Z.min (orDefault limit 20) 50)) (sr_count result))
            /\ (StronglySorted (fun a b => byInstalls a b <= 0)%Z
                  (arraySort rt byInstalls found) ->
                (forall skill, In skill found -> exists z, e_installs skill = Num z) ->
                forall i j ri rj,
                  i < j ->
                  nth_error (sr_skills result) i = Some ri ->
                  nth_error (sr_skills result) j = Some rj ->
                  exists x y, ls_installs ri = Num x /\ ls_installs rj = Num y
                              /\ (y <= x)%Z)
      | None =>
          exists e, fst out = Throw e
                    /\ err_class e = NetworkError
                    /\ message e = js "Failed to fetch skills.sh directory"
      end).
Proof.
  intros Hperm. cbv zeta. split.
  { intros Hb. unfold searchSkillsHandler. rewrite Hb. reflexivity. }
  intros Hb. rewrite (searchSkillsHandler_run pf rt w query limit st Hb).
  destruct (pageOf (transport w (trace st) skillsShUrl)) as [body|];
    [|cbn [fst]; eexists; split; [reflexivity|apply directoryError_class]].
  cbv zeta. cbn [fst].
  set (found := filter (matchesQuery pf (toLowerCase pf query)) (parseSkillsFromHTML pf body)).
  set (results := arraySort rt byInstalls found).
  assert (Hlen : length results = length found).
  { apply Permutation_length. apply Hperm. }
  eexists. split; [reflexivity|]. cbn [sr_query sr_count sr_skills].
  split; [reflexivity|]. split; [exact Hlen|].
  destruct (slice_prefix (Z.min (orDefault limit 20) 50) results) as [n Hn].
  split; [|split].
  - intros i row Hrow. rewrite Hn in Hrow. apply rows_firstn in Hrow.
    destruct Hrow as [_ [skill [Hi ->]]]. split; [reflexivity|].
    exists skill.
    assert (Hin : In skill found).
    { apply (Permutation_in _ (Hperm found)). exact (nth_error_In _ _ Hi). }
    apply filter_In in Hin. destruct Hin as [Hin Hm].
    split; [exact Hin|]. split; [exact Hm|]. repeat split.
  - intros Hlimit.
    pose proof (orDefault_positive limit 20 ltac:(lia) Hlimit) as Hpos.
    rewrite slice_window by lia. rewrite Z.sub_0_r. cbn [Z.to_nat skipn].
    rewrite mapIndexed_length, length_firstn. reflexivity.
  - intros Hsorted Hnum i j ri rj Hij Hi Hj. rewrite Hn in Hi, Hj.
    apply rows_firstn in Hi, Hj.
    destruct Hi as [_ [a [Ha ->]]]. destruct Hj as [_ [b [Hb' ->]]].
    assert (Hfound : forall s, In s results -> In s found).
    { intros s Hs. exact (Permutation_in _ (Hperm found) Hs). }
    destruct (Hnum a (Hfound a (nth_error_In _ _ Ha))) as [x Hx].
    destruct (Hnum b (Hfound b (nth_error_In _ _ Hb'))) as [y Hy].
    exists x, y. cbn [scoredRow ls_installs]. split; [exact Hx|]. split; [exact Hy|].
    apply (byInstalls_order a b x y Hx Hy).
    exact (sorted_nth _ results Hsorted i j a b Hij Ha Hb').
Qed.

Section InsertionSort.

Context {A : Type}.
Variable cmp : A -> A -> Z.

Lemma insertSorted_perm (x : A) (l : list A) : Permutation (insertSorted cmp x l) (x :: l).
Proof.
  induction l as [|y l IH]; cbn [insertSorted]; [apply Permutation_refl|].
  destruct (cmp x y <=? 0)%Z; [apply Permutation_refl|].
  apply (perm_trans (perm_skip y IH)). apply perm_swap.
Qed.

Lemma stableSort_perm (l : list A) : Permutation (stableSort cmp l) l.
Proof.
  induction l as [|x l IH]; cbn [stableSort fold_right]; [apply perm_nil|].
  apply (perm_trans (insertSorted_perm x _)). apply perm_skip. exact IH.
Qed.

End InsertionSort.

(** A platform that reads the two install counts of the directory
    page. *)
Definition countingPlatform : Platform :=
  {| toLowerCase := asciiLower;
     parseInstallCount := fun s =>
       if jsEqb s (js "30.4K") then Num 30400
       else if jsEqb s (js "973") then Num 973 else Num 0;
     yamlLoad := fun _ => YamlOtherError (js "no metadata") |}.

Lemma searchSkillsHandler_results_witness :
  exists result,
    fst (searchSkillsHandler countingPlatform demoRuntime directoryWorld (js "PDF") None
           emptyState) = Ok result
    /\ sr_count result = 2
    /\ map ls_name (sr_skills result) = [js "pdf-extractor"; js "pdf"]
    /\ map ls_installs (sr_skills result) = [Num 30400; Num 973]
    /\ map ls_rank (sr_skills result) = [Some 2%Z; Some 1%Z].
Proof.
  pose proof (proj2 (searchSkillsHandler_results countingPlatform demoRuntime
                       directoryWorld (js "PDF") None emptyState
                       (stableSort_perm byInstalls))
                    eq_refl) as H.
  change (pageOf (transport directoryWorld (trace emptyState) skillsShUrl))
    with (Some directoryPage) in H.
  cbv beta iota zeta in H.
  destruct H as [result [H1 _]]. exists result. split; [exact H1|].
  assert (Hr : Ok result
               = fst (searchSkillsHandler countingPlatform demoRuntime directoryWorld
                        (js "PDF") None emptyState)) by (symmetry; exact H1).
  vm_compute in Hr. inversion Hr. vm_compute. repeat split.
Defined.

(* ------------------------------------------------------------------ *)
(** ** The entries parsed from a page of skills.sh *)
(* ------------------------------------------------------------------ *)

(** [goes x w caps y]: from [x] the matcher went over [w] and reached [y],
    adding the captures [caps], the last one first. *)
Definition goes (x : mstate) (w : jsstring) (caps : list (nat * jsstring)) (y : mstate)
    : Prop :=
  span x w y /\ m_caps y = caps ++ m_caps x.

Section Goes.

Lemma goes_trans (x m y : mstate) (u v : jsstring) (c1 c2 : list (nat * jsstring)) :
  goes x u c1 m -> goes m v c2 y -> goes x (u ++ v) (c2 ++ c1) y.
Proof.
  intros [H1 H2] [H3 H4]. split; [exact (span_trans _ _ _ _ _ H1 H3)|].
  rewrite H4, H2, app_assoc. reflexivity.
Qed.

Lemma goes_lit (l : string) (x y : mstate) : sem (lit l) x y -> goes x (js l) [] y.
Proof. intros H. destruct (sem_lit l x y H) as [H1 H2]. split; assumption. Qed.

Lemma goes_chr (c : N) (x y : mstate) : sem (chr c) x y -> goes x [c] [] y.
Proof.
  cbn [chr sem]. intros [d [t [E [Hd ->]]]]. apply N.eqb_eq in Hd. subst d.
  split; [|reflexivity]. unfold span, step. cbn [m_rest m_pos app length].
  split; [exact E|lia].
Qed.

Lemma goes_class (g : bool) (lo : nat) (hi : option nat) (p : N -> bool) (x y : mstate) :
  sem (Rep g lo hi (Cls p)) x y ->
  exists w, goes x w [] y /\ countOK lo hi (length w) /\ forallb p w = true.
Proof.
  intros H. destruct (sem_rep_class _ _ _ _ _ _ H) as [w [Hs [Hc [Hf Hcaps]]]].
  exists w. split; [split; [exact Hs|exact Hcaps]|split; assumption].
Qed.

Lemma goes_group (i : nat) (g : bool) (lo : nat) (hi : option nat) (p : N -> bool)
    (x y : mstate) :
  sem (Grp i (Rep g lo hi (Cls p))) x y ->
  exists w, goes x w [(i, w)] y /\ countOK lo hi (length w) /\ forallb p w = true.
Proof.
  intros [m [Hm ->]].
  destruct (sem_rep_class _ _ _ _ _ _ Hm) as [w [Hs [Hc [Hf Hcaps]]]].
  exists w. split; [|split; assumption].
  split; [exact (capture_span i _ _ _ Hs)|].
  rewrite (capture_caps i _ _ _ Hs), Hcaps. reflexivity.
Qed.

(** A piece that is not empty and avoids one code unit. *)
Lemma avoiding (c : N) (w : jsstring) :
  countOK 1 None (length w) -> forallb (fun d => negb (N.eqb d c)) w = true ->
  w <> [] /\ ~ In c w.
Proof.
  intros Hc Hf. split.
  - intros ->. cbn in Hc. lia.
  - intros Hin. rewrite forallb_forall in Hf. specialize (Hf c Hin).
    rewrite N.eqb_refl in Hf. discriminate.
Qed.

End Goes.

(** The text of a link to a skill. *)
Definition linkText (o r n : jsstring) : jsstring :=
  js "href=" ++ [quote] ++ js "/" ++ o ++ js "/" ++ r ++ js "/" ++ n ++ [quote].

Section PageFacts.

(** The link pattern goes over a link and captures its three parts. *)
Lemma hrefRe_goes (g : nat) (x y : mstate) :
  sem (hrefRe g) x y ->
  exists o r n,
    goes x (linkText o r n) [(g + 2, n); (g + 1, r); (g, o)] y
    /\ (o <> [] /\ ~ In SLASH o) /\ (r <> [] /\ ~ In SLASH r)
    /\ (n <> [] /\ ~ In quote n).
Proof.
  unfold hrefRe. intros H.
  destruct (sem_seqOf_cons _ _ _ _ H) as [m1 [H1 T1]]. apply goes_lit in H1.
  destruct (sem_seqOf_cons _ _ _ _ T1) as [m2 [H2 T2]]. apply goes_chr in H2.
  destruct (sem_seqOf_cons _ _ _ _ T2) as [m3 [H3 T3]]. apply goes_lit in H3.
  destruct (sem_seqOf_cons _ _ _ _ T3) as [m4 [H4 T4]].
  destruct (goes_group _ _ _ _ _ _ _ H4) as [o [Ho [Co Fo]]].
  destruct (sem_seqOf_cons _ _ _ _ T4) as [m5 [H5 T5]]. apply goes_lit in H5.
  destruct (sem_seqOf_cons _ _ _ _ T5) as [m6 [H6 T6]].
  destruct (goes_group _ _ _ _ _ _ _ H6) as [r [Hr [Cr Fr]]].
  destruct (sem_seqOf_cons _ _ _ _ T6) as [m7 [H7 T7]]. apply goes_lit in H7.
  destruct (sem_seqOf_cons _ _ _ _ T7) as [m8 [H8 T8]].
  destruct (goes_group _ _ _ _ _ _ _ H8) as [n [Hn [Cn Fn]]].
  cbn [seqOf] in T8. apply goes_chr in T8.
  exists o, r, n.
  split; [|split; [exact (avoiding _ _ Co Fo)|split;
                   [exact (avoiding _ _ Cr Fr)|exact (avoiding _ _ Cn Fn)]]].
  pose proof (goes_trans _ _ _ _ _ _ _ H1
               (goes_trans _ _ _ _ _ _ _ H2
                 (goes_trans _ _ _ _ _ _ _ H3
                   (goes_trans _ _ _ _ _ _ _ Ho
                     (goes_trans _ _ _ _ _ _ _ H5
                       (goes_trans _ _ _ _ _ _ _ Hr
                         (goes_trans _ _ _ _ _ _ _ H7
                           (goes_trans _ _ _ _ _ _ _ Hn T8)))))))) as Hall.
  cbn [app] in Hall. exact Hall.
Qed.

(** An element pattern captures the text of the element. *)
Lemma elementRe_goes (tag : string) (g : nat) (x y : mstate) :
  sem (elementRe tag g) x y ->
  exists w txt, goes x w [(g, txt)] y.
Proof.
  unfold elementRe. intros H.
  destruct (sem_seqOf_cons _ _ _ _ H) as [m1 [H1 T1]]. apply goes_lit in H1.
  destruct (sem_seqOf_cons _ _ _ _ T1) as [m2 [H2 T2]]. apply goes_lit in H2.
  destruct (sem_seqOf_cons _ _ _ _ T2) as [m3 [H3 T3]].
  destruct (goes_class _ _ _ _ _ _ H3) as [attrs [Ha _]].
  destruct (sem_seqOf_cons _ _ _ _ T3) as [m4 [H4 T4]]. apply goes_lit in H4.
  destruct (sem_seqOf_cons _ _ _ _ T4) as [m5 [H5 T5]].
  destruct (goes_group _ _ _ _ _ _ _ H5) as [txt [Htxt _]].
  destruct (sem_seqOf_cons _ _ _ _ T5) as [m6 [H6 T6]]. apply goes_lit in H6.
  destruct (sem_seqOf_cons _ _ _ _ T6) as [m7 [H7 T7]]. apply goes_lit in H7.
  cbn [seqOf] in T7. apply goes_lit in T7.
  eexists. exists txt.
  pose proof (goes_trans _ _ _ _ _ _ _ H1
               (goes_trans _ _ _ _ _ _ _ H2
                 (goes_trans _ _ _ _ _ _ _ Ha
                   (goes_trans _ _ _ _ _ _ _ H4
                     (goes_trans _ _ _ _ _ _ _ Htxt
                       (goes_trans _ _ _ _ _ _ _ H6
                         (goes_trans _ _ _ _ _ _ _ H7 T7))))))) as Hall.
  cbn [app] in Hall. exact Hall.
Qed.

(** A match of the pattern of a link at some place of the page. *)
Lemma href_match (html : jsstring) (m : rmatchResult) :
  In m (matchAll hrefPattern html) ->
  exists o r n pre post,
    html = pre ++ linkText o r n ++ post
    /\ group 1 m = o /\ group 2 m = r /\ group 3 m = n
    /\ (o <> [] /\ ~ In SLASH o) /\ (r <> [] /\ ~ In SLASH r)
    /\ (n <> [] /\ ~ In quote n).
Proof.
  intros H. destruct (matchAll_sound _ _ _ H) as [pre [post [E Hm]]].
  destruct (matchAt_sound _ _ _ _ _ Hm) as [y [Hy [_ [_ Hg]]]].
  destruct (hrefRe_goes 1 _ _ Hy) as [o [r [n [[[Hs _] Hc] [Ho [Hr Hn]]]]]].
  cbn [m_rest m_caps app Nat.add] in Hs, Hc.
  exists o, r, n, pre, (m_rest y).
  split; [rewrite E, Hs; reflexivity|].
  unfold group. rewrite Hg, Hc. cbn [find fst snd Nat.eqb]. auto 10.
Qed.

(** A match of the pattern of a whole entry. *)
Lemma skill_match (html : jsstring) (m : rmatchResult) :
  In m (matchAll skillPattern html) ->
  exists o r n pre post,
    html = pre ++ linkText o r n ++ post
    /\ group 1 m = o /\ group 2 m = r /\ group 3 m = n
    /\ (o <> [] /\ ~ In SLASH o) /\ (r <> [] /\ ~ In SLASH r)
    /\ (n <> [] /\ ~ In quote n).
Proof.
  intros H. destruct (matchAll_sound _ _ _ H) as [pre [post [E Hm]]].
  destruct (matchAt_sound _ _ _ _ _ Hm) as [y [Hy [_ [_ Hg]]]].
  unfold skillPattern in Hy.
  destruct (sem_seqOf_cons _ _ _ _ Hy) as [m1 [H1 T1]]. apply goes_lit in H1.
  destruct (sem_seqOf_cons _ _ _ _ T1) as [m2 [H2 T2]].
  destruct (goes_class _ _ _ _ _ _ H2) as [a1 [Ha1 _]].
  destruct (sem_seqOf_cons _ _ _ _ T2) as [m3 [H3 T3]].
  destruct (hrefRe_goes 1 _ _ H3) as [o [r [n [Hlink [Ho [Hr Hn]]]]]].
  destruct (sem_seqOf_cons _ _ _ _ T3) as [m4 [H4 T4]].
  destruct (goes_class _ _ _ _ _ _ H4) as [a2 [Ha2 _]].
  destruct (sem_seqOf_cons _ _ _ _ T4) as [m5 [H5 T5]]. apply goes_lit in H5.
  destruct (sem_seqOf_cons _ _ _ _ T5) as [m6 [H6 T6]].
  destruct (goes_class _ _ _ _ _ _ H6) as [g1 [Hg1 _]].
  destruct (sem_seqOf_cons _ _ _ _ T6) as [m7 [H7 T7]].
  destruct (elementRe_goes _ _ _ _ H7) as [e1 [t1 He1]].
  destruct (sem_seqOf_cons _ _ _ _ T7) as [m8 [H8 T8]].
  destruct (goes_class _ _ _ _ _ _ H8) as [g2 [Hg2 _]].
  destruct (sem_seqOf_cons _ _ _ _ T8) as [m9 [H9 T9]].
  destruct (elementRe_goes _ _ _ _ H9) as [e2 [t2 He2]].
  destruct (sem_seqOf_cons _ _ _ _ T9) as [m10 [H10 T10]].
  destruct (goes_class _ _ _ _ _ _ H10) as [g3 [Hg3 _]].
  cbn [seqOf] in T10.
  destruct (elementRe_goes _ _ _ _ T10) as [e3 [t3 He3]].
  pose proof (goes_trans _ _ _ _ _ _ _ H1 Ha1) as Hbefore.
  pose proof (goes_trans _ _ _ _ _ _ _ Ha2
               (goes_trans _ _ _ _ _ _ _ H5
                 (goes_trans _ _ _ _ _ _ _ Hg1
                   (goes_trans _ _ _ _ _ _ _ He1
                     (goes_trans _ _ _ _ _ _ _ Hg2
                       (goes_trans _ _ _ _ _ _ _ He2
                         (goes_trans _ _ _ _ _ _ _ Hg3 He3))))))) as Hafter.
  pose proof (goes_trans _ _ _ _ _ _ _ Hbefore
               (goes_trans _ _ _ _ _ _ _ Hlink Hafter)) as [[Hs _] Hc].
  cbn [m_rest m_caps app Nat.add] in Hs, Hc.
  exists o, r, n, (pre ++ js "<a" ++ a1).
  eexists.
  split.
  { rewrite E, Hs, <- !app_assoc. reflexivity. }
  unfold group. rewrite Hg, Hc. cbn [find fst snd Nat.eqb]. auto 10.
Qed.

End PageFacts.

(** X22.  What the parser of the directory page returns.  Every entry
    comes from a link of the page, [href="/owner/repo/name"]: owner and
    repository are not empty and hold no slash, the name is not empty and
    holds no double quote (it may hold slashes).  Every entry carries a
    description and is not marked trending. *)
Theorem parseSkillsFromHTML_entries
    (pf : Platform) (html : jsstring) (skill : SkillShEntry) :
  In skill (parseSkillsFromHTML pf html) ->
  (exists pre post,
     html = pre ++ linkText (e_owner skill) (e_repo skill) (e_name skill) ++ post)
  /\ (e_owner skill <> [] /\ ~ In SLASH (e_owner skill))
  /\ (e_repo skill <> [] /\ ~ In SLASH (e_repo skill))
  /\ (e_name skill <> [] /\ ~ In quote (e_name skill))
  /\ (exists d, e_description skill = Some d)
  /\ e_trending skill = Some false.
Proof.
  unfold parseSkillsFromHTML.
  assert (Hshape : forall m,
            (exists o r n pre post,
               html = pre ++ linkText o r n ++ post
               /\ group 1 m = o /\ group 2 m = r /\ group 3 m = n
               /\ (o <> [] /\ ~ In SLASH o) /\ (r <> [] /\ ~ In SLASH r)
               /\ (n <> [] /\ ~ In quote n)) ->
            (exists pre post,
               html = pre ++ linkText (group 1 m) (group 2 m) (group 3 m) ++ post)
            /\ (group 1 m <> [] /\ ~ In SLASH (group 1 m))
            /\ (group 2 m <> [] /\ ~ In SLASH (group 2 m))
            /\ (group 3 m <> [] /\ ~ In quote (group 3 m))).
  { intros m (o & r & n & pre & post & E & <- & <- & <- & Ho & Hr & Hn). eauto 10. }
  destruct (map _ (matchAll skillPattern html)) as [|a rest] eqn:E.
  - intros H. apply in_map_iff in H. destruct H as [[m count] [<- Hin]].
    apply in_combine_l in Hin. apply filter_In in Hin. destruct Hin as [Hin _].
    destruct (Hshape m (href_match html m Hin)) as [H1 [H2 [H3 H4]]].
    cbn [e_owner e_repo e_name e_description e_trending]. eauto 10.
  - rewrite <- E. intros H. apply in_map_iff in H. destruct H as [m [<- Hin]].
    destruct (Hshape m (skill_match html m Hin)) as [H1 [H2 [H3 H4]]].
    cbn [e_owner e_repo e_name e_description e_trending]. eauto 10.
Qed.

Lemma parseSkillsFromHTML_entries_witness :
  In pdfEntry (parseSkillsFromHTML asciiPlatform directoryPage)
  /\ (exists pre post,
        directoryPage
        = pre ++ linkText (e_owner pdfEntry) (e_repo pdfEntry) (e_name pdfEntry) ++ post)
  /\ (e_owner pdfEntry <> [] /\ ~ In SLASH (e_owner pdfEntry))
  /\ (e_repo pdfEntry <> [] /\ ~ In SLASH (e_repo pdfEntry))
  /\ (e_name pdfEntry <> [] /\ ~ In quote (e_name pdfEntry))
  /\ (exists d, e_description pdfEntry = Some d)
  /\ e_trending pdfEntry = Some false.
Proof.
  assert (H : In pdfEntry (parseSkillsFromHTML asciiPlatform directoryPage)).
  { vm_compute. right. left. reflexivity. }
  split; [exact H|].
  exact (parseSkillsFromHTML_entries asciiPlatform directoryPage pdfEntry H).
Defined.

(* ------------------------------------------------------------------ *)
(** ** The cache utility *)
(* ------------------------------------------------------------------ *)

Section CacheFacts.

Variable T : Type.

Lemma mapGet_set_same (key : jsstring) (e : Cache.CacheEntry T) (m : Cache.entries T) :
  Cache.mapGet key (Cache.mapSet key e m) = Some e.
Proof.
  induction m as [|[k e'] m IH]; cbn [Cache.mapSet Cache.mapGet].
  - rewrite jsEqb_refl. reflexivity.
  - destruct (jsEqb k key) eqn:E; cbn [Cache.mapGet]; rewrite E; [reflexivity|exact IH].
Qed.

Lemma mapGet_set_other (key other : jsstring) (e : Cache.CacheEntry T)
    (m : Cache.entries T) :
  other <> key -> Cache.mapGet other (Cache.mapSet key e m) = Cache.mapGet other m.
Proof.
  intros Hne. induction m as [|[k e'] m IH]; cbn [Cache.mapSet Cache.mapGet].
  - assert (E : jsEqb key other = false) by (apply jsEqb_neq; congruence).
    rewrite E. reflexivity.
  - destruct (jsEqb k key) eqn:E; cbn [Cache.mapGet].
    + apply jsEqb_eq in E. subst k.
      assert (E : jsEqb key other = false) by (apply jsEqb_neq; congruence).
      rewrite E. reflexivity.
    + destruct (jsEqb k other); [reflexivity|exact IH].
Qed.

Lemma mapGet_delete_same (key : jsstring) (m : Cache.entries T) :
  Cache.mapGet key (Cache.mapDelete key m) = None.
Proof.
  unfold Cache.mapDelete.
  induction m as [|[k e] m IH]; cbn [filter Cache.mapGet fst]; [reflexivity|].
  destruct (jsEqb k key) eqn:E; cbn [negb Cache.mapGet]; [exact IH|].
  rewrite E. exact IH.
Qed.

Lemma mapGet_delete_other (key other : jsstring) (m : Cache.entries T) :
  other <> key -> Cache.mapGet other (Cache.mapDelete key m) = Cache.mapGet other m.
Proof.
  intros Hne. unfold Cache.mapDelete.
  induction m as [|[k e] m IH]; cbn [filter Cache.mapGet fst]; [reflexivity|].
  destruct (jsEqb k key) eqn:E; cbn [negb Cache.mapGet].
  - apply jsEqb_eq in E. subst k.
    assert (E : jsEqb key other = false) by (apply jsEqb_neq; congruence).
    rewrite E. exact IH.
  - destruct (jsEqb k other); [reflexivity|exact IH].
Qed.

(** What [get] finds is what the map holds, unless it has expired. *)
Lemma get_result (ttl now : Z) (key : jsstring) (m : Cache.entries T) :
  fst (Cache.get ttl now key m)
  = match Cache.mapGet key m with
    | Some e => if Cache.expired ttl now e then None else Some (Cache.ce_data e)
    | None => None
    end.
Proof.
  unfold Cache.get. destruct (Cache.mapGet key m) as [e|]; [|reflexivity].
  destruct (Cache.expired ttl now e); reflexivity.
Qed.

(** [get] changes the entry of its key at most. *)
Lemma get_keeps_others (ttl now : Z) (key other : jsstring) (m : Cache.entries T) :
  other <> key ->
  Cache.mapGet other (snd (Cache.get ttl now key m)) = Cache.mapGet other m.
Proof.
  intros Hne. unfold Cache.get. destruct (Cache.mapGet key m) as [e|]; [|reflexivity].
  destruct (Cache.expired ttl now e); cbn [snd]; [|reflexivity].
  apply mapGet_delete_other. exact Hne.
Qed.

Lemma mapGet_In (key : jsstring) (m : Cache.entries T) (e : Cache.CacheEntry T) :
  Cache.mapGet key m = Some e -> In (key, e) m.
Proof.
  induction m as [|[k e'] m IH]; cbn [Cache.mapGet]; [discriminate|].
  destruct (jsEqb k key) eqn:E.
  - apply jsEqb_eq in E. subst k. intros H. inversion H; subst. left. reflexivity.
  - intros H. right. exact (IH H).
Qed.

Lemma In_mapGet (key : jsstring) (m : Cache.entries T) (e : Cache.CacheEntry T) :
  In (key, e) m -> exists e', Cache.mapGet key m = Some e' /\ In (key, e') m.
Proof.
  induction m as [|[k e0] m IH]; intros H; [contradiction|].
  cbn [Cache.mapGet]. destruct (jsEqb k key) eqn:E.
  - apply jsEqb_eq in E. subst k. exists e0. split; [reflexivity|left; reflexivity].
  - destruct H as [H|H].
    + inversion H; subst. rewrite jsEqb_refl in E. discriminate.
    + destruct (IH H) as [e' [H1 H2]]. exists e'. split; [exact H1|right; exact H2].
Qed.

Lemma filter_twice {A : Type} (f : A -> bool) (l : list A) :
  filter f (filter f l) = filter f l.
Proof.
  induction l as [|a l IH]; cbn [filter]; [reflexivity|].
  destruct (f a) eqn:E; [|exact IH]. cbn [filter]. rewrite E, IH. reflexivity.
Qed.

End CacheFacts.

(** X23.  A value put into the cache is found again until it expires.
    After [set] at time [now], a [get] of the same key at a time [later]
    returns the value and leaves the cache as it is when at most [ttl]
    milliseconds have passed, also when exactly [ttl] have.  When more have
    passed, [get] returns nothing and removes the entry, so that no later
    [get] finds it, at whatever time.  [set] and [get] of one key do not
    change what the cache holds under another key. *)
Theorem cache_round_trip
    (T : Type) (ttl now later : Z) (key : jsstring) (data : T) (m : Cache.entries T) :
  let stored := Cache.set now key data m in
  ((later - now <= ttl)%Z ->
   Cache.get ttl later key stored = (Some data, stored)
   /\ Cache.has ttl later key stored = (true, stored))
  /\ ((later - now > ttl)%Z ->
      fst (Cache.get ttl later key stored) = None
      /\ fst (Cache.has ttl later key stored) = false
      /\ forall t, fst (Cache.get ttl t key (snd (Cache.get ttl later key stored))) = None)
  /\ (forall other t,
        other <> key ->
        fst (Cache.get ttl t other stored) = fst (Cache.get ttl t other m)
        /\ fst (Cache.get ttl t other (snd (Cache.get ttl later key stored)))
           = fst (Cache.get ttl t other m)).
Proof.
  cbv zeta. unfold Cache.set.
  set (e := {| Cache.ce_data := data; Cache.ce_timestamp := now |}).
  pose proof (mapGet_set_same T key e m) as Hsame.
  split; [|split].
  - intros Hfresh.
    assert (Hget : Cache.get ttl later key (Cache.mapSet key e m)
                   = (Some data, Cache.mapSet key e m)).
    { unfold Cache.get. rewrite Hsame. unfold Cache.expired, e.
      cbn [Cache.ce_timestamp Cache.ce_data].
      destruct (Z.gtb_spec (later - now) ttl); [lia|reflexivity]. }
    split; [exact Hget|]. unfold Cache.has. rewrite Hget. reflexivity.
  - intros Hold.
    assert (Hget : Cache.get ttl later key (Cache.mapSet key e m)
                   = (None, Cache.mapDelete key (Cache.mapSet key e m))).
    { unfold Cache.get. rewrite Hsame. unfold Cache.expired, e.
      cbn [Cache.ce_timestamp Cache.ce_data].
      destruct (Z.gtb_spec (later - now) ttl); [reflexivity|lia]. }
    split; [rewrite Hget; reflexivity|].
    split; [unfold Cache.has; rewrite Hget; reflexivity|].
    intros t. rewrite Hget. cbn [snd]. rewrite get_result, mapGet_delete_same.
    reflexivity.
  - intros other t Hne. rewrite !get_result.
    rewrite (get_keeps_others T ttl later key other _ Hne).
    rewrite (mapGet_set_other T key other e m Hne). split; reflexivity.
Qed.

(** X24.  [getStats] removes the entries that have expired and reports
    the rest: [size] is the number of keys listed, a key is listed exactly
    when an entry under it has not expired, and exactly the keys listed are
    found by [has] afterwards at the same time. *)
Theorem cache_stats (T : Type) (ttl now : Z) (m : Cache.entries T) :
  let stats := fst (Cache.getStats ttl now m) in
  let left := snd (Cache.getStats ttl now m) in
  Cache.size stats = length (Cache.keys stats)
  /\ (forall key,
        In key (Cache.keys stats)
        <-> exists e, In (key, e) m /\ Cache.expired ttl now e = false)
  /\ (forall key,
        In key (Cache.keys stats) <-> fst (Cache.has ttl now key left) = true)
  /\ Cache.getStats ttl now left = (stats, left).
Proof.
  cbv zeta. unfold Cache.getStats. cbn [fst snd Cache.size Cache.keys].
  set (alive := fun ke : jsstring * Cache.CacheEntry T =>
                  negb (Cache.expired ttl now (snd ke))).
  assert (Hkeys : forall key,
            In key (map fst (filter alive m))
            <-> exists e, In (key, e) m /\ Cache.expired ttl now e = false).
  { intros key. rewrite in_map_iff. split.
    - intros [[k e] [Hk Hin]]. cbn [fst] in Hk. subst k.
      apply filter_In in Hin. destruct Hin as [Hin Ha]. exists e. split; [exact Hin|].
      unfold alive in Ha. cbn [snd] in Ha. apply negb_true_iff. exact Ha.
    - intros [e [Hin He]]. exists (key, e). split; [reflexivity|].
      apply filter_In. split; [exact Hin|]. unfold alive. cbn [snd]. rewrite He.
      reflexivity. }
  split; [rewrite length_map; reflexivity|].
  split; [exact Hkeys|].
  split.
  - intros key. unfold Cache.has.
    assert (Hfst : forall p : option T * Cache.entries T,
              fst (let (o, m') := p in
                   match o with Some _ => (true, m') | None => (false, m') end)
              = match fst p with Some _ => true | None => false end).
    { intros [[d|] m']; reflexivity. }
    rewrite Hfst, get_result. split.
    + intros Hin. apply in_map_iff in Hin. destruct Hin as [[k e] [Hk Hin]].
      cbn [fst] in Hk. subst k.
      destruct (In_mapGet T key _ e Hin) as [e' [Hg Hin']]. rewrite Hg.
      apply filter_In in Hin'. destruct Hin' as [_ Ha]. unfold alive in Ha.
      cbn [snd] in Ha. apply negb_true_iff in Ha. rewrite Ha. reflexivity.
    + destruct (Cache.mapGet key (filter alive m)) as [e|] eqn:Hg; [|discriminate].
      intros _. apply mapGet_In in Hg. apply in_map_iff. exists (key, e).
      split; [reflexivity|exact Hg].
  - fold alive. rewrite filter_twice. reflexivity.
Qed.

(* ------------------------------------------------------------------ *)
(** ** Documents without metadata *)
(* ------------------------------------------------------------------ *)

Section Untitled.

Variable pf : Platform.

Hypothesis lower_name : toLowerCase pf (js "Untitled Skill") = js "untitled skill".

Lemma untitled_kebab : toKebabCase pf (js "Untitled Skill") = js "untitled-skill".
Proof.
  unfold toKebabCase.
  change (trim (js "Untitled Skill")) with (js "Untitled Skill").
  rewrite lower_name. vm_compute. reflexivity.
Qed.

Hypothesis lower_description :
  toLowerCase pf (js "No description provided") = js "no description provided".

Lemma default_keywords :
  extractKeywords pf (js "No description provided") = [js "description"; js "provided"].
Proof.
  unfold extractKeywords. rewrite lower_description. vm_compute. reflexivity.
Qed.

End Untitled.

(** A document without metadata block parses to the default metadata. *)
Lemma parseSkill_default (pf : Platform) (content : jsstring) :
  blank content = false -> blockLength content = None ->
  parseSkill pf content
  = Ok {| frontmatter := defaultFrontmatter; body := trim content;
          sections := extractSections (trim content) |}.
Proof.
  intros Hb Hn. unfold parseSkill. unfold blank in Hb. rewrite Hb.
  rewrite exec_frontmatter, Hn. reflexivity.
Qed.

(** X25.  Every document without metadata is converted under the same
    name.  When the content is not blank and has no metadata block at its
    start, convert_to_steering returns the file name [untitled-skill.md]
    and convert_to_power the power name [untitled-skill], whatever the
    content is; the steering content is the dumped metadata, the heading
    [# Untitled Skill] unless the text starts with [#], the description
    "No description provided" and the trimmed text; the keywords of the
    power are [description] and [provided]. *)
Theorem convert_without_metadata
    (pf : Platform) (rt : Runtime) (now later : N) (content sourceUrl : jsstring) :
  blank content = false ->
  blockLength content = None ->
  toLowerCase pf (js "Untitled Skill") = js "untitled skill" ->
  toLowerCase pf (js "No description provided") = js "no description provided" ->
  (exists out,
     ConvertTools.convertToSteeringHandler pf rt now content sourceUrl = Ok out
     /\ ConvertTools.so_filename out = js "untitled-skill.md"
     /\ ConvertTools.so_originalSkill out = js "Untitled Skill"
     /\ ConvertTools.so_steeringContent out
        = frontmatterBlock
            (yamlDump rt (steeringFrontmatter rt now (js "Untitled Skill")
                            (orUnknown sourceUrl)))
          ++ mainHeading (trim content) (js "Untitled Skill")
          ++ js "No description provided" ++ [LF; LF]
          ++ trim content ++ steeringFooter)
  /\ (exists out,
        ConvertTools.convertToPowerHandler pf rt now later content sourceUrl = Ok out
        /\ ConvertTools.po_powerName out = js "untitled-skill"
        /\ ConvertTools.po_powerContent out
           = frontmatterBlock
               (yamlDump rt
                  (VObj [(js "name", VStr (js "untitled-skill"));
                         (js "displayName", VStr (js "Untitled Skill"));
                         (js "description", VStr (js "No description provided"));
                         (js "keywords", strings [js "description"; js "provided"]);
                         (js "author", VStr (js "Imported from Claude Skills"))]))
             ++ mainHeading (trim content) (js "Untitled Skill")
             ++ trim content
             ++ importMetadata rt now (js "Untitled Skill") (orUnknown sourceUrl)).
Proof.
  intros Hb Hn Hname Hdesc.
  pose proof (parseSkill_default pf content Hb Hn) as Hparse.
  pose proof (untitled_kebab pf Hname) as Hk.
  pose proof (default_keywords pf Hdesc) as Hkw.
  split.
  - unfold ConvertTools.convertToSteeringHandler. rewrite Hb, Hparse.
    unfold toSteeringFile. cbn [frontmatter body].
    change (getProp defaultFrontmatter (js "name")) with (VStr (js "Untitled Skill")).
    change (getProp defaultFrontmatter (js "description"))
      with (VStr (js "No description provided")).
    change (getProp defaultFrontmatter (js "dependencies")) with VUndef.
    change (truthy (VStr (js "No description provided"))) with true.
    cbn [template]. change (dependenciesSection rt VUndef) with (@Ok jsstring []).
    cbv beta iota. rewrite Hk. eexists. split; [reflexivity|].
    cbn [ConvertTools.so_filename ConvertTools.so_originalSkill
         ConvertTools.so_steeringContent sf_filename sf_originalSkill sf_content].
    split; [reflexivity|]. split; [reflexivity|].
    unfold steeringFrontmatter. rewrite <- ?app_assoc. reflexivity.
  - unfold ConvertTools.convertToPowerHandler. rewrite Hb, Hparse.
    unfold toPower. cbn [frontmatter body].
    change (getProp defaultFrontmatter (js "name")) with (VStr (js "Untitled Skill")).
    change (getProp defaultFrontmatter (js "description"))
      with (VStr (js "No description provided")).
    change (getProp defaultFrontmatter (js "dependencies")) with VUndef.
    change (dependenciesSection rt VUndef) with (@Ok jsstring []).
    cbv beta iota. rewrite Hk, Hkw. eexists. split; [reflexivity|].
    cbn [ConvertTools.po_powerName ConvertTools.po_powerContent ps_powerName ps_files
         pf_content].
    split; [reflexivity|]. rewrite <- ?app_assoc. reflexivity.
Qed.

Lemma convert_without_metadata_witness :
  exists out,
    ConvertTools.convertToSteeringHandler asciiPlatform demoRuntime 7 (js "Just text.") []
    = Ok out
    /\ ConvertTools.so_filename out = js "untitled-skill.md".
Proof.
  destruct (convert_without_metadata asciiPlatform demoRuntime 7 8 (js "Just text.") []
              eq_refl eq_refl eq_refl eq_refl) as [[out [H1 [H2 _]]] _].
  exists out. split; [exact H1|exact H2].
Defined.

(* ------------------------------------------------------------------ *)
(** ** The list of dependencies *)
(* ------------------------------------------------------------------ *)

Section DependencyFacts.

Variable rt : Runtime.






End DependencyFacts.


(* ------------------------------------------------------------------ *)
(** ** The import pipeline: what reaches the converters *)
(* ------------------------------------------------------------------ *)

Section Pipeline.

(** The literal [rm -rf] anywhere in a text is reported as a dangerous
    command. *)
Lemma recursive_delete_reported (pre post u : jsstring) :
  exists i, In i (issues (validate (pre ++ js "rm -rf" ++ post) u))
            /\ i_type i = dangerous_command.
Proof.
  assert (H : exists i rest,
            scanForDangerousPatterns (pre ++ js "rm -rf" ++ post) = i :: rest
            /\ i_type i = dangerous_command).
  { unfold scanForDangerousPatterns, DANGEROUS_PATTERNS.
    rewrite scanWith_cons. cbn [fst snd].
    pose proof (rmRf_found pre post 0 None) as Hm.
    fold rmRfRe. unfold matchAll.
    destruct (matchAllFrom rmRfRe 0 0 None (pre ++ js "rm -rf" ++ post)) as [|m ms];
      [contradiction|].
    cbn [map app]. eexists. eexists. split; reflexivity. }
  destruct H as [i [rest [Hscan Hty]]]. exists i. split; [|exact Hty].
  apply in_validate_issues. right. left.
  change (scanWith dangerous_command DANGEROUS_PATTERNS (pre ++ js "rm -rf" ++ post))
    with (scanForDangerousPatterns (pre ++ js "rm -rf" ++ post)).
  rewrite Hscan. left. reflexivity.
Qed.

(** A verdict that is valid is about a text without that literal. *)
Lemma valid_no_recursive_delete (content u : jsstring) :
  isValid (validate content u) = true ->
  forall pre post, content <> pre ++ js "rm -rf" ++ post.
Proof.
  intros Hvalid pre post ->.
  destruct (recursive_delete_reported pre post u) as [i [Hin Hty]].
  assert (Hs : severity (validate (pre ++ js "rm -rf" ++ post) u) = unsafe).
  { unfold validate. cbn [severity]. apply determineSeverity_unsafe.
    exists i. split; [exact Hin|right; exact Hty]. }
  rewrite (unsafe_not_valid _ _ Hs) in Hvalid. discriminate.
Qed.

Variable pf : Platform.
Variable cv : Converters.
Variable w : World.
Variable args : ImportSkillArgs.

(** The handlers that one import enters, in order: the fetch, then the
    validation unless it is skipped, then the conversion; the conversion
    follows a validation only when the verdict is valid. *)
Lemma import_calls (st : State) :
  let fetchCall := EvCall (CallFetchSkill (identifier args)) in
  exists entered,
    calls (trace (snd (importSkillHandler pf cv w args st))) = calls (trace st) ++ entered
    /\ (entered = [] \/ entered = [fetchCall]
        \/ exists fr,
             isUrlTrusted (f_url fr) = true
             /\ let validation := EvCall (CallValidateSkill (f_content fr) (f_url fr)) in
                (validationWanted args = true /\ entered = [fetchCall; validation])
                \/ (validationWanted args = true
                    /\ isValid (validate (f_content fr) (f_url fr)) = true
                    /\ entered = [fetchCall; validation; conversionCall args fr])
                \/ (validationWanted args = false
                    /\ entered = [fetchCall; conversionCall args fr])).
Proof.
  cbv zeta. unfold importSkillHandler, tryCatch.
  destruct (blank (identifier args)).
  { exists []. cbn [throw ret snd]. rewrite app_nil_r. auto. }
  destruct (_ || _).
  { exists []. cbn [throw ret snd]. rewrite app_nil_r. auto. }
  unfold bind at 1. unfold emit at 1. unfold bind at 1.
  set (st0 := {| trace := trace st ++ [EvCall (CallFetchSkill (identifier args))];
                 skillsCache := skillsCache st |}).
  destruct (fetchSkillHandler pf w (identifier args) st0) as [[fr|e] st1] eqn:Ef.
  2:{ exists [EvCall (CallFetchSkill (identifier args))]. cbn [ret snd].
      rewrite (quiet_fetchSkillHandler pf w (identifier args) _ _ _ Ef).
      subst st0. cbn [trace]. rewrite calls_app. auto. }
  assert (Hc1 : calls (trace st1)
                = calls (trace st) ++ [EvCall (CallFetchSkill (identifier args))]).
  { rewrite (quiet_fetchSkillHandler pf w (identifier args) _ _ _ Ef).
    subst st0. cbn [trace]. rewrite calls_app. reflexivity. }
  destruct (fetchSkillHandler_ok pf w _ _ _ fr Ef) as [_ [Hu _]].
  assert (Hurl : orUnknown (f_url fr) = f_url fr).
  { unfold orUnknown. unfold isUrlTrusted in Hu. apply startsWith_spec in Hu.
    destruct Hu as [rest ->]. reflexivity. }
  unfold validateAndConvert. destruct (validationWanted args) eqn:Hw.
  - unfold bind at 1. unfold emit at 1. unfold bind at 1.
    set (st2 := {| trace := trace st1
                            ++ [EvCall (CallValidateSkill (f_content fr) (f_url fr))];
                   skillsCache := skillsCache st1 |}).
    assert (Hc2 : calls (trace st2)
                  = calls (trace st)
                    ++ [EvCall (CallFetchSkill (identifier args));
                        EvCall (CallValidateSkill (f_content fr) (f_url fr))]).
    { subst st2. cbn [trace]. rewrite calls_app, Hc1, <- app_assoc. reflexivity. }
    destruct (validateSkillHandler (f_content fr) (f_url fr)) as [v|e] eqn:Ev;
      cbn [liftResult ret throw].
    + pose proof (validateSkillHandler_verdict _ _ _ Ev) as Hv. rewrite Hurl in Hv.
      destruct (isValid v) eqn:Hvalid; cbn [negb].
      * destruct (convertStep_run cv args fr (Some v) st2)
          as [r [[Hr _]|[e [Hr _]]]]; rewrite Hr; cbn [ret throw snd withEvent trace];
          (eexists; split;
           [rewrite calls_app, Hc2, <- app_assoc; cbn [app];
            assert (Hcall : calls [conversionCall args fr] = [conversionCall args fr])
              by (unfold conversionCall; destruct (jsEqb _ _); reflexivity);
            rewrite Hcall; reflexivity
           |right; right; exists fr; split; [exact Hu|];
            right; left; split; [reflexivity|]; split; [|reflexivity];
            rewrite <- Hv; exact Hvalid]).
      * cbn [snd]. eexists. split; [exact Hc2|].
        right. right. exists fr. split; [exact Hu|]. left. split; reflexivity.
    + cbn [snd]. eexists. split; [exact Hc2|].
      right. right. exists fr. split; [exact Hu|]. left. split; reflexivity.
  - destruct (convertStep_run cv args fr None st1)
      as [r [[Hr _]|[e [Hr _]]]]; rewrite Hr; cbn [ret throw snd withEvent trace];
      (eexists; split;
       [rewrite calls_app, Hc1, <- app_assoc; cbn [app];
        assert (Hcall : calls [conversionCall args fr] = [conversionCall args fr])
          by (unfold conversionCall; destruct (jsEqb _ _); reflexivity);
        rewrite Hcall; reflexivity
       |right; right; exists fr; split; [exact Hu|];
        right; right; split; reflexivity]).
Qed.

End Pipeline.

(** The events that enter a conversion handler with a content and a
    URL. *)
Definition entersConversion (content u : jsstring) (e : Event) : Prop :=
  e = EvCall (CallConvertToSteering content u) \/ e = EvCall (CallConvertToPower content u).

(** X27.  Only what passed validation reaches the converters.  When
    validation is not skipped, every call of a conversion handler that an
    import makes is for a content and a URL that the validation handler
    was called with before in the same import; the URL has the trusted
    prefix, the verdict on the content is valid, and so the content does
    not contain the literal [rm -rf].  With or without validation an
    import enters a conversion handler once at most. *)
Theorem import_converts_validated
    (pf : Platform) (cv : Converters) (w : World) (args : ImportSkillArgs)
    (st : State) (es : list Event) :
  trace (snd (importSkillHandler pf cv w args st)) = trace st ++ es ->
  (skipValidation args <> Some true ->
   forall content u e,
     In e es -> entersConversion content u e ->
     isUrlTrusted u = true
     /\ isValid (validate content u) = true
     /\ (forall pre post, content <> pre ++ js "rm -rf" ++ post)
     /\ exists before after,
          es = before ++ [EvCall (CallValidateSkill content u)] ++ after
          /\ In e after)
  /\ length (filter (fun e => match e with
                              | EvCall (CallConvertToSteering _ _)
                              | EvCall (CallConvertToPower _ _) => true
                              | _ => false
                              end) es) <= 1.
Proof.
  intros Ht.
  destruct (import_calls pf cv w args st) as [entered [Hcalls Hcases]].
  cbv zeta in Hcases.
  rewrite Ht, calls_app in Hcalls. apply app_inv_head in Hcalls.
  set (fetchCall := EvCall (CallFetchSkill (identifier args))) in *.
  assert (Hconv : forall fr, entersConversion (f_content fr) (f_url fr)
                               (conversionCall args fr)).
  { intros fr. unfold entersConversion, conversionCall.
    destruct (jsEqb _ _); auto. }
  split.
  - intros Hskip content u e Hin Henter.
    assert (Hwanted : validationWanted args = true).
    { unfold validationWanted. destruct (skipValidation args) as [[|]|];
        congruence. }
    assert (Hc : In e (calls es)).
    { apply filter_In. split; [exact Hin|].
      destruct Henter as [-> | ->]; reflexivity. }
    rewrite Hcalls in Hc.
    assert (Hnot : forall x, e = EvCall (CallFetchSkill x) -> False).
    { intros x ->. destruct Henter as [H|H]; discriminate H. }
    assert (Hnotv : forall c v, e = EvCall (CallValidateSkill c v) -> False).
    { intros c v ->. destruct Henter as [H|H]; discriminate H. }
    destruct Hcases as [->|[->|[fr [Hu [[_ ->]|[[_ [Hvalid ->]]|[Hw' _]]]]]]].
    + contradiction.
    + destruct Hc as [<-|[]]. exfalso. exact (Hnot _ eq_refl).
    + destruct Hc as [<-|[<-|[]]]; exfalso;
        [exact (Hnot _ eq_refl)|exact (Hnotv _ _ eq_refl)].
    + destruct Hc as [<-|[<-|[<-|[]]]];
        [exfalso; exact (Hnot _ eq_refl)|exfalso; exact (Hnotv _ _ eq_refl)|].
      assert (Hsame : content = f_content fr /\ u = f_url fr).
      { specialize (Hconv fr). unfold entersConversion in Henter, Hconv.
        destruct Henter as [H1|H1]; destruct Hconv as [H2|H2];
          rewrite H1 in H2; inversion H2; auto. }
      destruct Hsame as [-> ->].
      split; [exact Hu|]. split; [exact Hvalid|].
      split; [exact (valid_no_recursive_delete _ _ Hvalid)|].
      (* the validation call comes before the conversion call in [es] *)
      assert (Hsplit : forall l : list Event,
                calls l = [fetchCall;
                           EvCall (CallValidateSkill (f_content fr) (f_url fr));
                           conversionCall args fr] ->
                exists before after,
                  l = before ++ [EvCall (CallValidateSkill (f_content fr) (f_url fr))]
                      ++ after
                  /\ In (conversionCall args fr) after).
      { clear. unfold calls.
        assert (Hgen : forall (k : list Event) (a b : Event) (rest : list Event),
                  filter isCall k = a :: b :: rest -> exists before after,
                    k = before ++ [a] ++ after /\ filter isCall after = b :: rest).
        { induction k as [|x k IH]; intros a b rest H; [discriminate|].
          cbn [filter] in H. destruct (isCall x) eqn:Ex.
          - injection H as Hx Hk. subst x. exists [], k. split; [reflexivity|exact Hk].
          - destruct (IH _ _ _ H) as [before [after [-> Ha]]].
            exists (x :: before), after. split; [reflexivity|exact Ha]. }
        intros l H. destruct (Hgen l _ _ _ H) as [b1 [a1 [-> H1]]].
        destruct (Hgen a1 _ _ _ H1) as [b2 [a2 [-> H2]]].
        exists (b1 ++ [fetchCall] ++ b2), a2. split.
        - rewrite <- !app_assoc. reflexivity.
        - assert (Hin : In (conversionCall args fr) (filter isCall a2))
            by (rewrite H2; left; reflexivity).
          apply filter_In in Hin. tauto. }
      exact (Hsplit es Hcalls).
    + congruence.
  - assert (Hcount : forall l,
              length (filter (fun e => match e with
                                       | EvCall (CallConvertToSteering _ _)
                                       | EvCall (CallConvertToPower _ _) => true
                                       | _ => false
                                       end) l)
              = length (filter (fun e => match e with
                                         | EvCall (CallConvertToSteering _ _)
                                         | EvCall (CallConvertToPower _ _) => true
                                         | _ => false
                                         end) (calls l))).
    { induction l as [|x l IH]; [reflexivity|].
      unfold calls in *. cbn [filter].
      destruct x as [u0|ms| |[i|c0 u0|c0 u0|c0 u0]]; cbn [isCall filter length];
        rewrite ?IH; reflexivity. }
    rewrite Hcount, Hcalls.
    assert (Hone : forall fr,
              length (filter (fun e => match e with
                                       | EvCall (CallConvertToSteering _ _)
                                       | EvCall (CallConvertToPower _ _) => true
                                       | _ => false
                                       end) [conversionCall args fr]) = 1).
    { intros fr. unfold conversionCall. destruct (jsEqb _ _); reflexivity. }
    destruct Hcases as [->|[->|[fr [Hu [[_ ->]|[[_ [_ ->]]|[_ ->]]]]]]].
    + cbn. lia.
    + cbn. lia.
    + cbn. lia.
    + change [fetchCall; EvCall (CallValidateSkill (f_content fr) (f_url fr));
              conversionCall args fr]
        with ([fetchCall; EvCall (CallValidateSkill (f_content fr) (f_url fr))]
              ++ [conversionCall args fr]).
      rewrite filter_app, length_app, Hone. cbn. lia.
    + change [fetchCall; conversionCall args fr]
        with ([fetchCall] ++ [conversionCall args fr]).
      rewrite filter_app, length_app, Hone. cbn. lia.
Qed.

(** The events of the import of the document with the escaping name. *)
Definition escapingEvents : list Event :=
  Eval vm_compute in
    trace (snd (importSkillHandler escapingPlatform
                  (toolConverters escapingPlatform demoRuntime 7 8)
                  escapingWorld escapingImport emptyState)).

Lemma import_converts_validated_witness :
  In (EvCall (CallConvertToPower escapingDocument
                (branchUrl
                   {| owner := js "anthropics"; repo := js "skills";
                      skillPath := js "skills/pdf"; fullUrl := [];
                      source := GitHub; metadata := None |}
                   (js "main"))))
     escapingEvents
  /\ (skipValidation escapingImport <> Some true ->
      forall content u e,
        In e escapingEvents -> entersConversion content u e ->
        isUrlTrusted u = true
        /\ isValid (validate content u) = true
        /\ (forall pre post, content <> pre ++ js "rm -rf" ++ post)
        /\ exists before after,
             escapingEvents = before ++ [EvCall (CallValidateSkill content u)] ++ after
             /\ In e after)
  /\ length (filter (fun e => match e with
                              | EvCall (CallConvertToSteering _ _)
                              | EvCall (CallConvertToPower _ _) => true
                              | _ => false
                              end) escapingEvents) <= 1.
Proof.
  split; [vm_compute; do 4 right; left; reflexivity|].
  apply (import_converts_validated escapingPlatform
           (toolConverters escapingPlatform demoRuntime 7 8)
           escapingWorld escapingImport emptyState escapingEvents).
  vm_compute. reflexivity.
Defined.
